(* ===== verification/_CoqProject ===== *)
-Q . S2P
Prelude.v
CppString.v
StdMap.v
Http.v
RequestParser.v
MimeTypes.v
Reply.v
Config.v
Hash.v
BlobKey.v
Blob.v
BlobIndex.v
Calls.v
Qi.v
QueryString.v
Multipart.v
JsonValue.v
JsonVariant.v
JsonEscape.v
JsonWriter.v
Classic.v
JsonReader.v
JsonRoundTrip.v
RequestHandler.v
HttpStore.v
Enumeration.v
Dump.v
Connection.v
Server.v
Sync.v
SyncStore.v
Replication.v
CFloat.v
ZopfliUtil.v
ZopfliBits.v
ZopfliTree.v
Katajainen.v
PackageMerge.v
CodeLengths.v
Inflate.v
ZopfliDeflate.v
ZopfliBlocks.v
ZopfliDynamic.v
ZopfliRoundTrip.v
Checksums.v
ZopfliEntropy.v
ZopfliHash.v
ZopfliCache.v
ZopfliMatch.v
ZopfliGreedy.v
ZopfliCost.v
ZopfliSqueeze.v
ZopfliOptimal.v
ZopfliSplit.v
ZopfliParts.v
ZopfliLib.v
Service.v
ZopfliMain.v
