(* ===== verification/Prelude.v ===== *)
(** * camlispp: a verified model of the blob server

    camlispp is a camlistore blob server in C++ ([src/blobserver/src]), with two
    libraries of its tree that it calls: a trimmed json_spirit ([src/3rd/json])
    and the zopfli compressor ([src/3rd/zopfli]). This library translates them
    to functions on explicit states and proves what they promise.

    ** The program

    A client sends HTTP requests on connections. A connection feeds what it
    reads to the request parser; a complete request goes to the request handler,
    which uploads, serves, checks, lists or enumerates blobs of the blob index,
    or serves a file of the static directory, perhaps compressed. The blob index
    names contents by their digests and keeps them in files. A thread
    synchronises the index with other servers: it gets their enumerations as
    JSON and their blobs, and sends them its own.

    ** The files

    Foundations: [Prelude] (outcomes of C++ calls, machine integers, loops, list
    lemmas, tactics and hints), [CppString] ([char], [std::string]), [StdMap]
    ([std::map], [std::set]), [CFloat] ([double], on the binary64 arithmetic of
    [SpecFloat]), [Qi] and [Classic] (the expressions of Boost.Spirit that the
    grammars of the program are written in).

    Server ([src/blobserver/src]):
    - [Http]: header.hpp/.cpp, request.hpp. [RequestParser]: request_parser.hpp
      /.cpp; [consume] is one character, [parse] a buffer. [MimeTypes]:
      mime_types.cpp. [Reply]: reply.hpp/.cpp.
    - [Config]: Config.hpp/.cpp. [Hash]: Hash.cpp. [BlobKey], [Blob],
      [BlobIndex]: the files of those names.
    - [QueryString], [Multipart]: the grammars and readers of queries and of the
      bodies of uploads (request.hpp, boost-multipart-form.h/.cpp).
    - [Calls]: the calls of a request handler on the index, its files and the
      compressor, and programs, the trees of such calls. [RequestHandler]:
      request_handler.cpp, a program per kind of request. [HttpStore]: what
      requests do to the contents, one after the other. [Enumeration]: the pages of
      an enumeration, and the client that follows them.
    - [Connection]: connection.cpp, as handlers of completions, a program under way,
      and the buffers of a write. [Server]: server.cpp and blobserver.cpp, as steps
      of threads that share the index in any order, with the data races of their
      calls. [Service]: what holds of the server together with its compressor.
    - [Sync]: Sync.hpp/.cpp; [SyncStore]: what it does to the index;
      [Replication]: the sync thread of one server against the handler of
      another.

    - [Dump]: prettyprint.hpp and the [dump] members, with which a debug build
      logs its objects.

    JSON ([src/3rd/json]): [JsonValue] (json_spirit_value.h and
    json_spirit_utils.h), [JsonVariant] (a value as it is stored: type, variant
    and flag), [JsonEscape] (escapes of both templates), [JsonWriter] and
    [JsonReader] (strings and streams, objects as vectors or maps, positions of
    errors), and [JsonRoundTrip] with their theorems.

    Zopfli ([src/3rd/zopfli]):
    - [ZopfliUtil] (util.cc, util.h), [ZopfliBits] (the bit writers of
      deflate.cc), [ZopfliTree] and [ZopfliEntropy] (tree.cc), [Katajainen]
      (katajainen.cc): codes. [ZopfliDeflate]: the part of deflate.cc that
      writes blocks, with the stores and counts of lz77.cc.
    - [ZopfliHash] (hash.cc), [ZopfliCache] (cache.cc), [ZopfliMatch] and
      [ZopfliGreedy] (lz77.cc): matches and the greedy parsing. [ZopfliCost],
      [ZopfliSqueeze] and [ZopfliOptimal] (squeeze.cc): the cost models, the
      forward pass, and the path with the iterated runs.
    - [ZopfliSplit] (blocksplitter.cc), [ZopfliParts] (the rest of deflate.cc),
      [Checksums] (the sums of the containers), [ZopfliLib] (gzip_container.cc,
      zlib_container.cc, zopfli_lib.cc): from a store to a compressed file.
      [ZopfliMain] (zopfli_bin.cc): the program that compresses files.
    - [Inflate] is a decoder written from RFC 1951, the specification of what is
      written. [PackageMerge], [CodeLengths], [ZopfliBlocks], [ZopfliDynamic]
      and [ZopfliRoundTrip] hold the proofs on codes and blocks.

    The names of definitions are those of the source; a loop or a branch that is
    a definition of its own is named after what it does.

    ** States and results

    Objects are records and methods take and return them. A call gives an
    [outcome]: it returns, throws, stops the process on an assertion (the build
    keeps assertions), or has undefined behaviour (signed overflow, [back] of an
    empty vector, a read out of bounds, a data race). A [std::string] or a
    buffer is a list of [ascii]; zopfli's bytes are integers, and its unsigned
    arithmetic wraps at its width. Where the source shares objects by pointer
    (blobs, JSON values under construction, chain nodes) the model has a store
    and positions in it.

    A request handler is a [program]: the steps of other threads come between the
    beginning and the end of its calls. A call acts where it ends; calls that hold
    the mutex of the index do not overlap; two calls that overlap and use the same
    memory or file, one of them to write it, make the step undefined
    ([Server.races]). [RequestHandler.handle_request] runs a program alone.

    The buffers that a reply is written from point to strings that are destroyed
    before the write. [Reply.Memory] says what is found in the place of a destroyed
    string, which may be nothing that can be read: a write sends that or fails, and
    the theorems on connections hold for every such memory.

    What is not code of the repository is a type class with its documented
    behaviour as laws: the digests of Crypto++ ([Digest]), the file system
    ([Platform], [StaticFiles]), Boost.Spirit ([Qi], [SpiritClassic]), libcurl
    and the network ([Sync]), [qsort] ([Qsort]), the logarithm ([Log]), what is
    in memory before it is written ([Uninitialised]), the files and allocations of
    the C library ([Stdio]), the counting of lines ([PositionIterator]). Each class has an instance
    that the witnesses compute with. [Zopfli] is the interface of the handler to
    the compressor, and a call of it may end in any [outcome]; its instance
    [ZopfliLib.library] is the model of zopfli_lib.cc, with the outcomes of that, and
    the theorems of [ZopfliLib] and [Service] are about the two together.

    ** The theorems

    - Store: uploads and lookups implement a content-addressed store
      ([BlobIndex]), whose contents HTTP requests add and read ([Service]), list
      ([HttpStore]) and enumerate completely ([Enumeration]), that no run of the
      server loses or falsifies ([Server]), that no remote can corrupt
      ([SyncStore]), and that two servers agree on after a synchronisation
      ([Replication]).
    - Server: a request that is handled alone is answered without a failed assertion
      or undefined behaviour, but for what the compressor may come to on contents of
      more than seven million bytes; with other threads, all that a step may come to
      is listed: the data races, the destroyed strings, the overflows of the parser,
      and what the synchronisation may add ([Service]). New clients are always served; connections do not influence each
      other; a connection sends the status line and what its memory holds of the
      rest ([Connection], [Server]). Files outside the static directory are not
      served ([RequestHandler]).
    - Languages: printed requests, queries, forms, keys, escapes and JSON values
      are read back, JSON values also one after the other from a stream and with
      their objects as maps; the request parser does not depend on how its input
      is cut; the JSON reader ends on every input, and the errors it reports are
      at a position of its input; a value is always stored with the type of its
      variant, so that no accessor finds another.
    - Compressor: what [ZopfliCompress] writes for one to seven million bytes,
      in each container and with any options of one iteration at least, decoders
      of the RFCs read back, and no assertion fails on the way; so a
      client reads back a compressed download, and the command line leaves beside
      each file, or prints, what decompresses to it. Below this: code lengths are
      computed for every histogram of counts below [2 ^ 31], within their limit and
      filling the code space; the codes are prefix codes; the hash chains, the search along them
      and the cache give true matches only; the items of the greedy and of the
      optimal parsing stand for the data; split points are in order and on the
      bounds of items; the blocks, stored, fixed or dynamic, are read back by
      [Inflate]; the two versions of the symbol functions agree; the
      table-driven CRC and the lazily reduced Adler-32 are those of the formats.
    - Defects: theorems named after them exhibit what the code gets wrong
      (contents with NUL bytes, failed writes, binary parts of forms, parts stored
      under a name that is not their digest, an enumeration during an upload,
      dangling buffers of replies, version digits that overflow, options lost between
      transfers, tree sizes that are not exact, empty data compressed to
      nothing, stored blocks of a split made last, a file of one byte, a
      directory or a file too large to load given to the command line, an empty
      file in a directory that is loaded).

    ** Bounds and fuel

    - The JSON reader is given the number of calls that the stack has room for:
      four for each level of nesting and three more are enough; a call beyond it
      is undefined. Nothing in the source bounds the nesting.
    - The loops of a synchronisation end when the remote does; they take fuel
      and [None] is out of fuel; against a peer, more than its entries is enough
      ([Replication]).
    - [search_chain] counts down as the code does ([ZOPFLI_MAX_CHAIN_HITS]);
      the comparisons of [GetMatch] and the loop of the greedy parsing have a
      turn for each byte. The greedy parsing is for data of at least two bytes:
      the warm-up of the hash reads the second.
    - [GetFreeNode] looks at the pool at most twice around: [2 * size + 2].
      [mark_chain] and [ExtractBitLengths] follow chains not longer than the
      pool. [encode_lengths] and [adler_loop] consume their list at every turn.
    - [trace_loop], the master blocks and the levels of the search for a minimum
      have a turn for each byte or position; the loop of the splitter has
      [2 * llsize + 1], as each turn marks a block done or adds a point.
    - Seven million bytes is where the counts that are summed for the entropy,
      of 288 symbols doubled at most, stay below [2 ^ 32]; costs stay below
      [2 ^ 40] there, where [ZOPFLI_LARGE_FLOAT] is never reached.
    - The theorems on code lengths ask for [maxbits <= 31] (the code uses 7 and
      15) and for counts below [2 ^ 31], where the comparison of leaves is exact;
      those on blocks for less than [2 ^ 31] items in a store.

    ** Not modelled

    - The macros of logger.hpp that print to the console. The static pages: data.
    - The instances of json_spirit for wide strings, which the server does not
      call; printing of hash buckets and to wide streams in prettyprint.hpp.
    - What the compressor prints when [verbose] is set, but for the messages of
      the command line. The index archive that is saved at the end of a run: it
      is never read.
    - Memory orders: calls of two threads that do not overlap are taken to be one
      before the other, also where no mutex makes them so. Which thread runs a step
      is not recorded: a step may come when its operation is under way, whatever the
      size of the pool. [ENABLE_STATIC] is on. Memory allocation succeeds, but
      for the buffers of [ZopfliMain], of which [Stdio] says whether they are had. *)

From stdpp Require Export base list strings gmap sorting.
From Stdlib Require Export ZArith Ascii Lia.
From Stdlib Require String.

(** ** Bytes

    A C++ [char] is an 8-bit [ascii]; a [std::string], a [std::vector<char>]
    and a byte buffer are lists of them. *)
Abbreviation bytes := (list ascii).

Definition lit (s : string) : bytes := String.list_ascii_of_string s.
#[global] Arguments lit : simpl never.

(** ** Outcomes of a C++ call

    A call returns, throws an exception, stops the process on a failed
    [assert], or has undefined behaviour. [bad_get] is Boost's; json_spirit
    throws a [std::string] or its [Error_position]. *)
Inductive exn : Type :=
| out_of_range
| runtime_error
| filesystem_error
| bad_get
| string_thrown (reason : list ascii)
| Error_position (line_ column_ : Z) (reason_ : list ascii).

Inductive outcome (A : Type) : Type :=
| Ret (x : A)
| Throws (e : exn)
| Aborts
| Undefined.
Arguments Ret {A} x.
Arguments Throws {A} e.
Arguments Aborts {A}.
Arguments Undefined {A}.

#[export] Instance outcome_ret : MRet outcome := fun A x => Ret x.
#[export] Instance outcome_bind : MBind outcome :=
  fun A B f m =>
    match m with
    | Ret x => f x
    | Throws e => Throws e
    | Aborts => Aborts
    | Undefined => Undefined
    end.

(** A call that neither aborts nor has undefined behaviour. *)
Definition defined {A} (m : outcome A) : Prop :=
  match m with Ret _ | Throws _ => True | _ => False end.

(** An optional value whose absence is undefined behaviour
    ([vector::back] of an empty vector, an unrepresentable integer). *)
Definition or_undefined {A} (o : option A) : outcome A :=
  match o with Some x => Ret x | None => Undefined end.

Lemma outcome_bind_ret {A B} (x : A) (f : A -> outcome B) : (Ret x ≫= f) = f x.
Proof. reflexivity. Qed.

Lemma outcome_bind_assoc {A B C} (m : outcome A) (f : A -> outcome B) (g : B -> outcome C) :
  ((m ≫= f) ≫= g) = (m ≫= fun x => f x ≫= g).
Proof. by destruct m. Qed.

Lemma outcome_bind_ret_inv {A B} (m : outcome A) (f : A -> outcome B) y :
  (m ≫= f) = Ret y -> exists x, m = Ret x /\ f x = Ret y.
Proof. destruct m; simpl; intros; try discriminate; eauto. Qed.

(** A loop over a list of indices. *)
Fixpoint for_each {A S} (l : list A) (f : A -> S -> outcome S) (s : S) : outcome S :=
  match l with
  | [] => Ret s
  | x :: l' => s ← f x s; for_each l' f s
  end.

Lemma for_each_app {A S} (l k : list A) (f : A -> S -> outcome S) s :
  for_each (l ++ k) f s = (s ← for_each l f s; for_each k f s).
Proof.
  revert s. induction l as [|x l IH]; intros s; [done|]. simpl. rewrite outcome_bind_assoc.
  destruct (f x s); [|done..]. apply IH.
Qed.

(** An invariant of a loop, on the elements it has seen. *)
Lemma for_each_inv {A S} (P : list A -> S -> Prop) (f : A -> S -> outcome S) l s :
  P [] s ->
  (forall seen x rest s, l = seen ++ x :: rest -> P seen s -> exists s', f x s = Ret s' /\ P (seen ++ [x]) s') ->
  exists s', for_each l f s = Ret s' /\ P l s'.
Proof.
  intros H0 Hf. enough (forall rest seen s, l = seen ++ rest -> P seen s ->
    exists s', for_each rest f s = Ret s' /\ P l s') as H by (by apply (H l [])).
  induction rest as [|x rest IH]; intros seen s1 Hl Hs1.
  - rewrite app_nil_r in Hl. subst. by exists s1.
  - destruct (Hf seen x rest s1 Hl Hs1) as (s2 & Hs2 & H2).
    destruct (IH (seen ++ [x]) s2) as (s3 & Hs3 & H3); [by rewrite <-app_assoc|done|].
    exists s3. cbn [for_each]. by rewrite Hs2.
Qed.

(** An invariant of a loop that counts. *)
Lemma for_each_seqZ {S} (P : Z -> S -> Prop) (f : Z -> S -> outcome S) a n s :
  (0 <= n)%Z -> P a s ->
  (forall i s, (a <= i < a + n)%Z -> P i s -> exists s', f i s = Ret s' /\ P (i + 1)%Z s') ->
  exists s', for_each (seqZ a n) f s = Ret s' /\ P (a + n)%Z s'.
Proof.
  intros Hn. revert a s. pattern n. apply natlike_ind; [|clear n Hn; intros n Hn IH|done]; intros a s H0 Hf.
  - exists s. rewrite Z.add_0_r. by split.
  - rewrite seqZ_cons by lia. cbn [for_each].
    destruct (Hf a s ltac:(lia) H0) as (s1 & Hs1 & H1). rewrite Hs1, outcome_bind_ret.
    rewrite Z.pred_succ.
    destruct (IH (Z.succ a) s1) as (s2 & Hs2 & H2); [done|intros i t Hi; apply Hf; lia|].
    exists s2. split; [done|]. by replace (a + Z.succ n)%Z with (Z.succ a + n)%Z by lia.
Qed.

(** ** Machine integers *)
Definition u8 (z : Z) : Z := z mod 2 ^ 8.
Definition u16 (z : Z) : Z := z mod 2 ^ 16.
Definition u32 (z : Z) : Z := z mod 2 ^ 32.
Definition u64 (z : Z) : Z := z mod 2 ^ 64.

(** Conversion to a 32-bit two's complement [int]. *)
Definition s32 (z : Z) : Z := (z + 2 ^ 31) mod 2 ^ 32 - 2 ^ 31.

Definition int_max : Z := 2 ^ 31 - 1.
Definition int_min : Z := - 2 ^ 31.

(** Signed [int] arithmetic: a result out of range is undefined. *)
Definition int_result (z : Z) : outcome Z :=
  if ((int_min <=? z) && (z <=? int_max))%Z then Ret z else Undefined.

Lemma u32_small z : (0 <= z < 2 ^ 32)%Z -> u32 z = z.
Proof. apply Z.mod_small. Qed.

Lemma u64_small z : (0 <= z < 2 ^ 64)%Z -> u64 z = z.
Proof. apply Z.mod_small. Qed.

Lemma u32_range z : (0 <= u32 z < 2 ^ 32)%Z.
Proof. apply Z.mod_pos_bound. lia. Qed.

Lemma s32_range z : (int_min <= s32 z <= int_max)%Z.
Proof. unfold s32, int_min, int_max. pose proof (Z.mod_pos_bound (z + 2 ^ 31) (2 ^ 32)). lia. Qed.

Lemma s32_small z : (int_min <= z <= int_max)%Z -> s32 z = z.
Proof.
  unfold s32, int_min, int_max. intros H. rewrite Z.mod_small; lia.
Qed.

Lemma int_result_ok z : (int_min <= z <= int_max)%Z -> int_result z = Ret z.
Proof.
  unfold int_result. intros [H1 H2].
  by rewrite (proj2 (Z.leb_le _ _) H1), (proj2 (Z.leb_le _ _) H2).
Qed.

Lemma int_result_inv z v : int_result z = Ret v -> v = z /\ (int_min <= z <= int_max)%Z.
Proof.
  unfold int_result. destruct (_ && _)%Z eqn:E; [|discriminate].
  apply andb_true_iff in E as [?%Z.leb_le ?%Z.leb_le]. intros [= <-]. done.
Qed.

(** ** Automation

    [blob] collects the lemmas that close the common side conditions. *)
Create HintDb blob.
#[export] Hint Resolve u32_range s32_small int_result_ok : blob.

(** Destruct the scrutinee of the first [match] or [if] of the goal or of a
    hypothesis. *)
Ltac case_match_eqn :=
  match goal with
  | |- context [match ?x with _ => _ end] => destruct x eqn:?
  | H : context [match ?x with _ => _ end] |- _ => destruct x eqn:?
  end.

(** Invert the [Ret] results of bound computations. *)
Ltac inv_ret :=
  repeat match goal with
  | H : (_ ≫= _) = Ret _ |- _ =>
      let x := fresh "x" in let Hx := fresh "Hx" in
      apply outcome_bind_ret_inv in H as (x & Hx & H)
  | H : Ret _ = Ret _ |- _ => injection H as H
  | H : mret _ = Ret _ |- _ => injection H as H
  | H : Throws _ = Ret _ |- _ => discriminate H
  | H : Aborts = Ret _ |- _ => discriminate H
  | H : Undefined = Ret _ |- _ => discriminate H
  end; simplify_eq.

(** ** Lists *)
Section lists.
Context {A : Type}.
Implicit Types l k : list A.

(** The last element updated in place, as [v.back().f(...)] does. *)
Fixpoint update_back (f : A -> A) l : option (list A) :=
  match l with
  | [] => None
  | [x] => Some [f x]
  | x :: l' => (x ::.) <$> update_back f l'
  end.

Lemma update_back_app f l x : update_back f (l ++ [x]) = Some (l ++ [f x]).
Proof.
  induction l as [|y l IH]; [done|]. simpl app.
  destruct (l ++ [x]) eqn:E; [by destruct l|].
  change (update_back f (y :: a :: l0)) with ((y ::.) <$> update_back f (a :: l0)).
  rewrite IH. done.
Qed.

Lemma update_back_is_Some f l : l ≠ [] -> is_Some (update_back f l).
Proof.
  destruct l as [|x l _] using rev_ind; [done|]. rewrite update_back_app. eauto.
Qed.

Lemma update_back_nonempty f l l' : update_back f l = Some l' -> l' ≠ [].
Proof.
  destruct l as [|x l _] using rev_ind; [done|]. rewrite update_back_app.
  intros [= <-]. by destruct l.
Qed.

Lemma update_back_Forall (P : A -> Prop) f l l' :
  Forall P l -> (forall x, P x -> P (f x)) -> update_back f l = Some l' -> Forall P l'.
Proof.
  destruct l as [|x l _] using rev_ind; [done|]. rewrite update_back_app.
  intros [Hl Hx]%Forall_app Hf [= <-]. apply Forall_app. split; [done|].
  constructor; [|constructor]. apply Hf. by inversion Hx.
Qed.

(** [take n l] as the code's loops build it. *)
Lemma take_S_snoc l n x :
  l !! n = Some x -> take (S n) l = take n l ++ [x].
Proof. apply take_S_r. Qed.

Lemma Forall_last_prefix (P : A -> Prop) l k : Forall P (l ++ k) -> Forall P l.
Proof. rewrite Forall_app. tauto. Qed.
End lists.

Lemma forallb_impl (f g : ascii -> bool) s :
  (forall c, f c = true -> g c = true) -> forallb f s = true -> forallb g s = true.
Proof. rewrite !forallb_forall. auto. Qed.

Lemma forallb_elem {A} (f : A -> bool) xs x : forallb f xs = true -> x ∈ xs -> f x = true.
Proof. rewrite List.forallb_forall. intros H Hx. apply H. by apply list_elem_of_In. Qed.

#[export] Hint Resolve update_back_is_Some update_back_nonempty : blob.
