(* ===== verification/CppString.v ===== *)
(** * The C and C++ string library, as the server uses it

    [char] classification and conversion in the "C" locale, [std::string]
    searching, slicing and ordering, [atoi], decimal printing
    ([boost::lexical_cast] of an integer), and [istream >> std::hex >> int].
    Lengths and positions are [Z]; [size_t] is 64 bits wide, [unsigned] and
    [int] 32, and [char] is signed. *)

From S2P Require Import Prelude.

Local Open Scope Z_scope.

(** ** Characters *)

Definition char_uint (c : ascii) : Z := Z.of_N (N_of_ascii c).

(** The value of a (signed) [char] converted to [int]. *)
Definition char_int (c : ascii) : Z :=
  if char_uint c <? 128 then char_uint c else char_uint c - 256.

(** [static_cast<char>(value)]. *)
Definition char_of_Z (z : Z) : ascii := ascii_of_N (Z.to_N (z mod 256)).

Definition nul : ascii := "000"%char.
Definition cr : ascii := "013"%char.
Definition lf : ascii := "010"%char.
Definition tab : ascii := "009"%char.
Definition dquote : ascii := "034"%char.
Definition crlf : bytes := [cr; lf].

Definition isdigit (c : ascii) : bool := (48 <=? char_uint c) && (char_uint c <=? 57).

(** space, \t, \n, \v, \f, \r *)
Definition isspace (c : ascii) : bool :=
  (char_uint c =? 32) || ((9 <=? char_uint c) && (char_uint c <=? 13)).

Definition tolower (c : ascii) : ascii :=
  if (65 <=? char_uint c) && (char_uint c <=? 90) then char_of_Z (char_uint c + 32) else c.

Definition to_lower_copy (s : bytes) : bytes := tolower <$> s.

Lemma char_uint_range c : 0 <= char_uint c < 256.
Proof. unfold char_uint. pose proof (N_ascii_bounded c). lia. Qed.

Lemma char_uint_inj c d : char_uint c = char_uint d -> c = d.
Proof.
  unfold char_uint. intros H%N2Z.inj. by rewrite <-(ascii_N_embedding c), H, ascii_N_embedding.
Qed.

Lemma char_of_Z_uint c : char_of_Z (char_uint c) = c.
Proof.
  unfold char_of_Z. pose proof (char_uint_range c). rewrite Z.mod_small by lia.
  unfold char_uint. by rewrite N2Z.id, ascii_N_embedding.
Qed.

Lemma char_uint_of_Z z : char_uint (char_of_Z z) = z mod 256.
Proof.
  unfold char_uint, char_of_Z. pose proof (Z.mod_pos_bound z 256 ltac:(lia)).
  rewrite N_ascii_embedding by lia. lia.
Qed.

Lemma char_int_nonneg c : 0 <= char_int c -> char_int c = char_uint c.
Proof. unfold char_int. pose proof (char_uint_range c). case_match; lia. Qed.

(** Decide a property of all 256 characters by evaluation. *)
Definition all_chars : list ascii := (fun n => char_of_Z (Z.of_nat n)) <$> seq 0 256.

Lemma all_chars_spec (P : ascii -> bool) : forallb P all_chars = true -> forall c, P c = true.
Proof.
  intros H c. rewrite forallb_forall in H. apply H.
  apply list_elem_of_In. unfold all_chars. apply list_elem_of_fmap.
  exists (Z.to_nat (char_uint c)). pose proof (char_uint_range c). split.
  - rewrite Z2Nat.id by lia. symmetry. apply char_of_Z_uint.
  - apply elem_of_seq. lia.
Qed.

Ltac by_all_chars c :=
  revert c;
  match goal with
  | |- forall c, @?P c = true => apply (all_chars_spec P); vm_compute; reflexivity
  end.

Lemma tolower_idemp c : tolower (tolower c) = tolower c.
Proof. apply Ascii.eqb_eq. by_all_chars c. Qed.

Lemma to_lower_copy_idemp s : to_lower_copy (to_lower_copy s) = to_lower_copy s.
Proof.
  unfold to_lower_copy. rewrite <-list_fmap_compose. apply list_fmap_ext.
  intros _ c _. apply tolower_idemp.
Qed.

(** ** Prefixes, suffixes and searching *)

Fixpoint starts_with (s pat : bytes) {struct pat} : bool :=
  match pat, s with
  | [], _ => true
  | p :: pat', c :: s' => (p =? c)%char && starts_with s' pat'
  | _ :: _, [] => false
  end.

Definition ends_with (s pat : bytes) : bool := starts_with (reverse s) (reverse pat).

Definition npos : Z := 2 ^ 64 - 1.

Fixpoint find_nat (s pat : bytes) : option nat :=
  if starts_with s pat then Some 0%nat
  else match s with
       | [] => None
       | _ :: s' => S <$> find_nat s' pat
       end.

(** [s.find(pat)], a [size_t]. *)
Definition str_find (s pat : bytes) : Z :=
  match find_nat s pat with Some n => Z.of_nat n | None => npos end.

(** [s.find_last_of(c)]. *)
Fixpoint find_last_nat (s : bytes) (c : ascii) : option nat :=
  match s with
  | [] => None
  | d :: s' =>
      match find_last_nat s' c with
      | Some n => Some (S n)
      | None => if (d =? c)%char then Some 0%nat else None
      end
  end.

Definition str_find_last_of (s : bytes) (c : ascii) : Z :=
  match find_last_nat s c with Some n => Z.of_nat n | None => npos end.

(** [s.substr(pos, n)]: throws when [pos > s.size()]. *)
Definition substr (s : bytes) (pos n : Z) : outcome bytes :=
  if Z.of_nat (length s) <? pos then Throws out_of_range
  else Ret (take (Z.to_nat (Z.min n (Z.of_nat (length s) - pos))) (drop (Z.to_nat pos) s)).

(** [boost::erase_last(s, pat)]: the last occurrence of [pat] removed. *)
Definition erase_last (s pat : bytes) : bytes :=
  match find_nat (reverse s) (reverse pat) with
  | Some n => let i := (length s - n - length pat)%nat in
              take i s ++ drop (i + length pat)%nat s
  | None => s
  end.

(** The C string at [s.c_str()]: the bytes before the first NUL. *)
Fixpoint c_str (s : bytes) : bytes :=
  match s with
  | [] => []
  | c :: s' => if (c =? nul)%char then [] else c :: c_str s'
  end.

Lemma starts_with_spec s pat : starts_with s pat = true <-> exists r, s = pat ++ r.
Proof.
  revert s. induction pat as [|p pat IH]; intros s; simpl.
  - split; [by exists s|done].
  - destruct s as [|c s]; [split; [done|by intros [r ?]]|].
    rewrite andb_true_iff, Ascii.eqb_eq, IH. split.
    + intros [-> [r ->]]. by exists r.
    + intros [r [= -> ->]]. eauto.
Qed.

Lemma starts_with_app s r : starts_with (s ++ r) s = true.
Proof. apply starts_with_spec. eauto. Qed.

Lemma starts_with_false s pat : starts_with s pat = false <-> forall r, s ≠ pat ++ r.
Proof.
  split.
  - intros H r ->. by rewrite starts_with_app in H.
  - intros H. apply not_true_is_false. intros [r Hr]%starts_with_spec. by eapply H.
Qed.

Lemma ends_with_spec s pat : ends_with s pat = true <-> exists r, s = r ++ pat.
Proof.
  unfold ends_with. rewrite starts_with_spec. split.
  - intros [r Hr]. exists (reverse r).
    by rewrite <-(reverse_involutive s), Hr, reverse_app, reverse_involutive.
  - intros [r ->]. rewrite reverse_app. eauto.
Qed.

Lemma find_nat_Some s pat n :
  find_nat s pat = Some n ->
  s = take n s ++ pat ++ drop (n + length pat) s /\
  forall i, (i < n)%nat -> starts_with (drop i s) pat = false.
Proof.
  revert n. induction s as [|c s IH]; intros n H; simpl in H.
  - destruct (starts_with [] pat) eqn:E; [|done]. injection H as <-.
    apply starts_with_spec in E as [r Hr]. symmetry in Hr. apply app_nil in Hr as [-> ->].
    split; [done|]. lia.
  - destruct (starts_with (c :: s) pat) eqn:E.
    + injection H as <-. apply starts_with_spec in E as [r ->]. split; [|lia].
      by rewrite take_0, Nat.add_0_l, drop_app_length.
    + destruct (find_nat s pat) as [m|] eqn:F; [|done]. injection H as <-.
      destruct (IH m eq_refl) as [Hs Hmin]. split.
      * simpl. by f_equal.
      * intros [|i] Hi; [done|]. simpl. apply Hmin. lia.
Qed.

Lemma find_nat_None s pat : find_nat s pat = None <-> forall i, starts_with (drop i s) pat = false.
Proof.
  induction s as [|c s IH]; simpl.
  - split.
    + destruct (starts_with [] pat) eqn:E; [done|]. intros _ i. by rewrite drop_nil.
    + intros H. specialize (H 0%nat). rewrite drop_0 in H. by rewrite H.
  - destruct (starts_with (c :: s) pat) eqn:E.
    + split; [done|]. intros H. specialize (H 0%nat). simpl in H. congruence.
    + rewrite fmap_None, IH. split.
      * intros H [|i]; simpl; [done|apply H].
      * intros H i. apply (H (S i)).
Qed.

Lemma find_nat_first s pat r :
  (forall i, (i < length s)%nat -> starts_with (drop i (s ++ pat ++ r)) pat = false) ->
  find_nat (s ++ pat ++ r) pat = Some (length s).
Proof.
  induction s as [|c s IH]; intros H; simpl.
  - assert (starts_with (pat ++ r) pat = true) as E by apply starts_with_app.
    destruct (pat ++ r); simpl in *; by rewrite E.
  - pose proof (H 0%nat ltac:(simpl; lia)) as H0. simpl in H0. rewrite H0.
    rewrite IH; [done|]. intros i Hi. apply (H (S i)). simpl. lia.
Qed.

Lemma find_nat_bound s pat n : find_nat s pat = Some n -> (n + length pat <= length s)%nat.
Proof.
  revert n. induction s as [|c s IH]; intros n H; simpl in H.
  - destruct (starts_with [] pat) eqn:E; [|done]. injection H as <-.
    apply starts_with_spec in E as [r Hr]. symmetry in Hr. apply app_nil in Hr as [-> ->].
    simpl. lia.
  - destruct (starts_with (c :: s) pat) eqn:E.
    + injection H as <-. apply starts_with_spec in E as [r ->]. rewrite length_app. lia.
    + destruct (find_nat s pat) as [m|]; [|done]. injection H as <-.
      specialize (IH m eq_refl). simpl. lia.
Qed.

Lemma find_nat_char s c r : c ∉ s -> find_nat (s ++ c :: r) [c] = Some (length s).
Proof.
  induction s as [|d s IH]; intros H; simpl.
  - by rewrite Ascii.eqb_refl.
  - apply not_elem_of_cons in H as [Hne H].
    rewrite (proj2 (Ascii.eqb_neq c d) Hne). simpl. by rewrite (IH H).
Qed.

Lemma find_nat_char_None s c : c ∉ s -> find_nat s [c] = None.
Proof.
  induction s as [|d s IH]; intros H; simpl; [done|].
  apply not_elem_of_cons in H as [Hne H].
  rewrite (proj2 (Ascii.eqb_neq c d) Hne). simpl. by rewrite (IH H).
Qed.

Lemma find_nat_char_Some s c n :
  find_nat s [c] = Some n -> s = take n s ++ c :: drop (S n) s /\ c ∉ take n s.
Proof.
  intros H. destruct (find_nat_Some _ _ _ H) as [Hs Hmin]. split.
  - by replace (n + length [c])%nat with (S n) in Hs by (simpl; lia).
  - intros [i Hi]%list_elem_of_lookup. apply lookup_take_Some in Hi as [Hi Hlt].
    specialize (Hmin i Hlt). rewrite (drop_S _ _ _ Hi) in Hmin. simpl in Hmin.
    by rewrite Ascii.eqb_refl in Hmin.
Qed.

(** An [unsigned] never equals [npos]. *)
Lemma u32_npos_ne z : (u32 z =? npos) = false.
Proof. apply Z.eqb_neq. pose proof (u32_range z). unfold npos. lia. Qed.

(** The rest of a string after a position kept in an [unsigned], as the code
    computes it: never out of range. *)
Lemma substr_after s pat :
  pat ≠ [] -> exists r, substr s (u32 (u32 (str_find s pat) + 1)) npos = Ret r.
Proof.
  intros Hp. unfold substr, str_find. destruct (find_nat s pat) as [n|] eqn:E.
  - apply find_nat_bound in E.
    assert (0 < length pat)%nat by (destruct pat; simpl; [done|lia]).
    assert (u32 (u32 (Z.of_nat n) + 1) <= Z.of_nat n + 1).
    { unfold u32. rewrite Zplus_mod_idemp_l. apply Z.mod_le; lia. }
    rewrite (proj2 (Z.ltb_ge _ _)) by lia. by eexists.
  - change (u32 (u32 npos + 1)) with 0. rewrite (proj2 (Z.ltb_ge _ _)) by lia. by eexists.
Qed.

Lemma substr_zero s n : exists r, substr s 0 n = Ret r.
Proof. unfold substr. rewrite (proj2 (Z.ltb_ge _ _)) by lia. by eexists. Qed.

Lemma substr_ret s pos n :
  0 <= pos <= Z.of_nat (length s) -> Z.of_nat (length s) - pos <= n ->
  substr s pos n = Ret (drop (Z.to_nat pos) s).
Proof.
  intros ??. unfold substr. rewrite (proj2 (Z.ltb_ge _ _)) by lia.
  rewrite take_ge; [done|]. rewrite length_drop. lia.
Qed.

Lemma substr_prefix s n :
  0 <= n <= Z.of_nat (length s) -> substr s 0 n = Ret (take (Z.to_nat n) s).
Proof.
  intros ?. unfold substr. rewrite (proj2 (Z.ltb_ge _ _)) by lia.
  rewrite Z.sub_0_r, Z.min_l by lia. by rewrite drop_0.
Qed.

Lemma c_str_no_nul s : nul ∉ s -> c_str s = s.
Proof.
  induction s as [|c s IH]; intros H; simpl; [done|].
  apply not_elem_of_cons in H as [Hne H].
  rewrite (proj2 (Ascii.eqb_neq c nul)) by congruence. by rewrite IH.
Qed.

Lemma c_str_app_nul s r : nul ∉ s -> c_str (s ++ nul :: r) = s.
Proof.
  induction s as [|c s IH]; intros H; simpl; [done|].
  apply not_elem_of_cons in H as [Hne H].
  rewrite (proj2 (Ascii.eqb_neq c nul)) by congruence. by rewrite IH.
Qed.

Lemma erase_last_suffix s pat : erase_last (s ++ pat) pat = s.
Proof.
  unfold erase_last. rewrite reverse_app.
  assert (find_nat (reverse pat ++ reverse s) (reverse pat) = Some 0%nat) as ->.
  { pose proof (starts_with_app (reverse pat) (reverse s)) as E.
    destruct (reverse pat ++ reverse s); simpl in *; by rewrite E. }
  rewrite length_app. replace (length s + length pat - 0 - length pat)%nat with (length s) by lia.
  rewrite take_app_length, drop_ge by (rewrite length_app; lia). apply app_nil_r.
Qed.

(** ** Ordering: [char_traits<char>] compares bytes as unsigned *)

Fixpoint bytes_ltb (a b : bytes) : bool :=
  match a, b with
  | _, [] => false
  | [], _ :: _ => true
  | x :: a', y :: b' =>
      if char_uint x <? char_uint y then true
      else if char_uint y <? char_uint x then false
      else bytes_ltb a' b'
  end.

Lemma bytes_ltb_irrefl a : bytes_ltb a a = false.
Proof. induction a as [|x a IH]; simpl; [done|]. by rewrite Z.ltb_irrefl. Qed.

Lemma bytes_ltb_trans a b c :
  bytes_ltb a b = true -> bytes_ltb b c = true -> bytes_ltb a c = true.
Proof.
  revert b c. induction a as [|x a IH]; intros [|y b] [|z c]; simpl; try done.
  destruct (Z.ltb_spec (char_uint x) (char_uint y)), (Z.ltb_spec (char_uint y) (char_uint z)),
    (Z.ltb_spec (char_uint x) (char_uint z)), (Z.ltb_spec (char_uint y) (char_uint x)),
    (Z.ltb_spec (char_uint z) (char_uint y)), (Z.ltb_spec (char_uint z) (char_uint x));
    try done; try lia; eauto.
Qed.

Lemma bytes_ltb_total a b : bytes_ltb a b = false -> bytes_ltb b a = false -> a = b.
Proof.
  revert b. induction a as [|x a IH]; intros [|y b]; simpl; try done.
  destruct (Z.ltb_spec (char_uint x) (char_uint y)),
    (Z.ltb_spec (char_uint y) (char_uint x)); try done; try lia.
  intros. f_equal; [apply char_uint_inj; lia|auto].
Qed.

(** ** Scanning *)

Fixpoint take_while (f : ascii -> bool) (s : bytes) : bytes :=
  match s with
  | c :: s' => if f c then c :: take_while f s' else []
  | [] => []
  end.

Fixpoint drop_while (f : ascii -> bool) (s : bytes) : bytes :=
  match s with
  | c :: s' => if f c then drop_while f s' else s
  | [] => []
  end.

Lemma take_while_all f s : forallb f s = true -> take_while f s = s.
Proof.
  induction s as [|c s IH]; simpl; [done|]. intros [-> H]%andb_true_iff. by rewrite IH.
Qed.

Lemma take_drop_while f s : take_while f s ++ drop_while f s = s.
Proof. induction s as [|c s IH]; simpl; [done|]. destruct (f c); simpl; by rewrite ?IH. Qed.

Lemma take_while_forallb f s : forallb f (take_while f s) = true.
Proof. induction s as [|c s IH]; simpl; [done|]. destruct (f c) eqn:E; simpl; by rewrite ?E. Qed.

(** Value of a digit string in base [b], each digit valued by [v]. *)
Definition digits_value (b : Z) (v : ascii -> Z) (s : bytes) : Z :=
  fold_left (fun a c => a * b + v c) s 0.

Definition dec_value (c : ascii) : Z := char_uint c - 48.

(** ** Decimal printing: [boost::lexical_cast<std::string>(n)] and
    [ostream << n] for an integer *)

Definition dec_digit (d : Z) : ascii := char_of_Z (48 + d).

Fixpoint dec_digits (fuel : nat) (n : Z) (acc : bytes) : bytes :=
  match fuel with
  | O => acc
  | S f => if n <? 10 then dec_digit n :: acc
           else dec_digits f (n / 10) (dec_digit (n mod 10) :: acc)
  end.

(** [log2 n + 1] steps suffice: each one divides [n] by ten. *)
Definition show_nonneg (n : Z) : bytes := dec_digits (S (Z.to_nat (Z.log2 n))) n [].

Definition show_Z (n : Z) : bytes :=
  if n <? 0 then "-"%char :: show_nonneg (- n) else show_nonneg n.

Lemma char_uint_dec_digit d : 0 <= d < 10 -> char_uint (dec_digit d) = 48 + d.
Proof. intros. unfold dec_digit. rewrite char_uint_of_Z. by rewrite Z.mod_small by lia. Qed.

Lemma isdigit_dec_digit d : 0 <= d < 10 -> isdigit (dec_digit d) = true.
Proof.
  intros. unfold isdigit. rewrite char_uint_dec_digit by done.
  apply andb_true_iff. rewrite !Z.leb_le. lia.
Qed.

Lemma dec_digits_app fuel n acc : dec_digits fuel n acc = dec_digits fuel n [] ++ acc.
Proof.
  revert n acc. induction fuel as [|f IH]; intros n acc; simpl; [done|].
  case_match; [done|]. rewrite IH, (IH _ [_]). by rewrite <-app_assoc.
Qed.

Lemma digits_value_snoc b v s c :
  digits_value b v (s ++ [c]) = digits_value b v s * b + v c.
Proof. unfold digits_value. by rewrite fold_left_app. Qed.

Lemma dec_digits_spec fuel n :
  0 <= n < 2 ^ Z.of_nat fuel ->
  (0 < fuel)%nat ->
  forallb isdigit (dec_digits fuel n []) = true /\
  digits_value 10 dec_value (dec_digits fuel n []) = n /\
  dec_digits fuel n [] ≠ [].
Proof.
  revert n. induction fuel as [|f IH]; intros n Hn Hf; [lia|]. simpl dec_digits.
  destruct (Z.ltb_spec n 10).
  - split; [simpl; by rewrite isdigit_dec_digit by lia|]. split; [|done].
    unfold digits_value, dec_value. simpl. rewrite char_uint_dec_digit by lia. lia.
  - rewrite dec_digits_app.
    assert (n / 10 < 2 ^ Z.of_nat f) as Hd.
    { rewrite Nat2Z.inj_succ, Z.pow_succ_r in Hn by lia. apply Z.div_lt_upper_bound; lia. }
    assert (0 < f)%nat as Hf'.
    { destruct f; [|lia]. change (2 ^ Z.of_nat 1) with 2 in Hn. lia. }
    pose proof (Z.div_pos n 10 ltac:(lia) ltac:(lia)).
    pose proof (Z.mod_pos_bound n 10 ltac:(lia)).
    destruct (IH (n / 10) ltac:(lia) Hf') as (Hd1 & Hd2 & Hd3). split; [|split].
    + rewrite forallb_app, Hd1. simpl. by rewrite isdigit_dec_digit by lia.
    + rewrite digits_value_snoc, Hd2. unfold dec_value.
      rewrite char_uint_dec_digit by lia. pose proof (Z.div_mod n 10). lia.
    + by destruct (dec_digits f (n / 10) []).
Qed.

Lemma show_nonneg_spec n :
  0 <= n ->
  forallb isdigit (show_nonneg n) = true /\
  digits_value 10 dec_value (show_nonneg n) = n /\
  show_nonneg n ≠ [].
Proof.
  intros Hn. apply dec_digits_spec; [|lia]. split; [done|].
  destruct (decide (n = 0)) as [->|]; [done|].
  pose proof (Z.log2_spec n ltac:(lia)). pose proof (Z.log2_nonneg n).
  replace (Z.of_nat (S (Z.to_nat (Z.log2 n)))) with (Z.succ (Z.log2 n)) by lia. lia.
Qed.

(** ** [atoi]

    Leading white space, an optional sign, then decimal digits; undefined
    when the value does not fit an [int]. *)
Definition scan_sign (s : bytes) : bool * bytes :=
  match s with
  | c :: s' => if (c =? "-")%char then (true, s')
               else if (c =? "+")%char then (false, s') else (false, s)
  | [] => (false, [])
  end.

Definition atoi (s : bytes) : outcome Z :=
  let '(neg, ds) := scan_sign (drop_while isspace s) in
  let v := digits_value 10 dec_value (take_while isdigit ds) in
  int_result (if neg : bool then - v else v).

Lemma isdigit_not_space c : isdigit c = true -> isspace c = false.
Proof.
  intros H. apply negb_true_iff. revert c H.
  assert (forall c, implb (isdigit c) (negb (isspace c)) = true) as H.
  { intros c. by_all_chars c. }
  intros c Hc. specialize (H c). by rewrite Hc in H.
Qed.

Lemma scan_sign_digit c s : isdigit c = true -> scan_sign (c :: s) = (false, c :: s).
Proof.
  intros H. unfold scan_sign.
  destruct (Ascii.eqb_spec c "-"); [by subst|].
  destruct (Ascii.eqb_spec c "+"); [by subst|]. done.
Qed.

Lemma atoi_show n : 0 <= n <= int_max -> atoi (show_Z n) = Ret n.
Proof.
  intros [Hn Hm]. unfold atoi, show_Z. rewrite (proj2 (Z.ltb_ge _ _)) by lia.
  destruct (show_nonneg_spec n Hn) as (Hd & Hv & Hne).
  destruct (show_nonneg n) as [|c s]; [done|].
  assert (isdigit c = true) as Hc by (simpl in Hd; apply andb_true_iff in Hd; tauto).
  simpl drop_while. rewrite (isdigit_not_space c Hc).
  rewrite (scan_sign_digit c s Hc). rewrite take_while_all by done. rewrite Hv.
  apply int_result_ok. unfold int_min. lia.
Qed.

Lemma atoi_nil : atoi [] = Ret 0.
Proof. reflexivity. Qed.

(** ** [istream >> std::hex >> int] on a string stream

    White space is skipped, then a sign, an optional [0x] and hexadecimal
    digits are read; extraction fails without a digit, and when the value does
    not fit an [int]. What follows the digits stays in the stream. *)
Definition hex_value (c : ascii) : option Z :=
  let z := char_uint c in
  if (48 <=? z) && (z <=? 57) then Some (z - 48)
  else if (97 <=? z) && (z <=? 102) then Some (z - 87)
  else if (65 <=? z) && (z <=? 70) then Some (z - 55)
  else None.

Definition isxdigit (c : ascii) : bool := bool_decide (is_Some (hex_value c)).

Definition scan_0x (s : bytes) : bytes :=
  match s with
  | a :: x :: s' =>
      if ((a =? "0") && ((x =? "x") || (x =? "X")))%char then s' else s
  | _ => s
  end.

Definition stream_hex_int (s : bytes) : option Z :=
  let '(neg, s1) := scan_sign (drop_while isspace s) in
  let ds := take_while isxdigit (scan_0x s1) in
  let v := digits_value 16 (fun c => default 0 (hex_value c)) ds in
  let v := if neg : bool then - v else v in
  match ds with
  | [] => None
  | _ => if (int_min <=? v) && (v <=? int_max) then Some v else None
  end.

Example stream_hex_int_examples :
  stream_hex_int (lit "2f") = Some 47 /\ stream_hex_int (lit "2g") = Some 2 /\
  stream_hex_int (lit "g2") = None /\ stream_hex_int (lit "-1") = Some (-1) /\
  stream_hex_int (lit " a") = Some 10 /\ stream_hex_int (lit "0x") = None.
Proof. by vm_compute. Qed.

(** The two upper-case hexadecimal digits of a byte. *)
Definition hex_digit (d : Z) : ascii := char_of_Z (if d <? 10 then 48 + d else 55 + d).
Definition hex_byte (c : ascii) : bytes :=
  [hex_digit (char_uint c / 16); hex_digit (char_uint c mod 16)].

Lemma stream_hex_byte c : stream_hex_int (hex_byte c) = Some (char_uint c).
Proof.
  enough (bool_decide (stream_hex_int (hex_byte c) = Some (char_uint c)) = true) as H
    by by apply bool_decide_eq_true in H.
  by_all_chars c.
Qed.
