(* ===== verification/StdMap.v ===== *)
(** * [std::map] and [std::set]

    An ordered associative container is the list of its entries in iteration
    order, kept strictly increasing for the comparison object. [std::set<K>]
    is [std::map] with [unit] values. The comparison is any strict weak order,
    as the containers require; keys it cannot tell apart are one key. *)

From S2P Require Import Prelude CppString.

Class StrictWeakOrder {K : Type} (ltb : K -> K -> bool) : Prop := {
  ltb_irrefl k : ltb k k = false;
  ltb_trans a b c : ltb a b = true -> ltb b c = true -> ltb a c = true;
  ltb_cotrans a b c : ltb a c = true -> ltb a b = true \/ ltb b c = true;
}.

Class StrictTotalOrder {K : Type} (ltb : K -> K -> bool) : Prop := {
  total_weak :: StrictWeakOrder ltb;
  ltb_total a b : ltb a b = false -> ltb b a = false -> a = b;
}.

(** A strict total order from irreflexivity, transitivity and totality. *)
Lemma strict_total_order {K} `{EqDecision K} (ltb : K -> K -> bool) :
  (forall k, ltb k k = false) ->
  (forall a b c, ltb a b = true -> ltb b c = true -> ltb a c = true) ->
  (forall a b, ltb a b = false -> ltb b a = false -> a = b) ->
  StrictTotalOrder ltb.
Proof.
  intros Hi Ht Htot. split; [|done]. split; [done|done|].
  intros a b c Hac. destruct (ltb a b) eqn:Hab; [by left|].
  destruct (ltb b a) eqn:Hba; [right; by eapply Ht|].
  right. by rewrite <-(Htot a b Hab Hba).
Qed.

(** [std::less<std::string>] *)
#[export] Instance bytes_order : StrictTotalOrder bytes_ltb.
Proof.
  apply strict_total_order; [apply bytes_ltb_irrefl|apply bytes_ltb_trans|apply bytes_ltb_total].
Qed.

Section map.
Context {K V : Type} (ltb : K -> K -> bool).
Implicit Types (m : list (K * V)) (k : K) (v : V).

Definition equiv_keys (a b : K) : bool := negb (ltb a b) && negb (ltb b a).

(** [m.find(k)], its value. *)
Fixpoint map_find m k : option V :=
  match m with
  | [] => None
  | (k', v) :: m' => if equiv_keys k k' then Some v else map_find m' k
  end.

(** [m[k] = v]. *)
Fixpoint map_assign m k v : list (K * V) :=
  match m with
  | [] => [(k, v)]
  | (k', v') :: m' =>
      if ltb k k' then (k, v) :: m
      else if ltb k' k then (k', v') :: map_assign m' k v
      else (k', v) :: m'
  end.

(** Where the entry of [k] is in [m[k] = v]. *)
Fixpoint map_index m k : nat :=
  match m with
  | [] => 0
  | (k', _) :: m' => if ltb k k' then 0 else if ltb k' k then S (map_index m' k) else 0
  end.

Lemma map_assign_index m k v : exists k', map_assign m k v !! map_index m k = Some (k', v).
Proof.
  induction m as [|[k' v'] m [k'' IH]]; cbn [map_assign map_index]; [by exists k|].
  destruct (ltb k k'); [by exists k|]. destruct (ltb k' k); [by exists k''|by exists k'].
Qed.

Lemma map_assign_alter m k x y : alter (fun q => (q.1, y)) (map_index m k) (map_assign m k x) = map_assign m k y.
Proof.
  induction m as [|[k' v'] m IH]; cbn [map_assign map_index]; [done|]. destruct (ltb k k'); [done|]. destruct (ltb k' k); [|done].
  cbn [alter list_alter]. by rewrite <-IH.
Qed.

(** A key above the others goes to the end. *)
Lemma map_assign_last m k v : Forall (fun q => ltb k q.1 = false /\ ltb q.1 k = true) m -> map_assign m k v = m ++ [(k, v)].
Proof. induction 1 as [|[k' v'] m [H1 H2] _ IH]; [done|]. cbn [map_assign app fst] in *. by rewrite H1, H2, IH. Qed.

(** [m.insert({k, v})]: an entry already there is kept. *)
Fixpoint map_insert m k v : list (K * V) :=
  match m with
  | [] => [(k, v)]
  | (k', v') :: m' =>
      if ltb k k' then (k, v) :: m
      else if ltb k' k then (k', v') :: map_insert m' k v
      else m
  end.

(** [m.erase(k)]. *)
Fixpoint map_erase m k : list (K * V) :=
  match m with
  | [] => []
  | (k', v') :: m' =>
      if ltb k k' then m
      else if ltb k' k then (k', v') :: map_erase m' k
      else m'
  end.

(** The entries from [m.lower_bound(k)] on. *)
Fixpoint map_lower_bound m k : list (K * V) :=
  match m with
  | [] => []
  | (k', v') :: m' => if ltb k' k then map_lower_bound m' k else m
  end.

Definition map_sorted m : Prop := StronglySorted (fun p q => ltb p.1 q.1 = true) m.

Lemma map_sorted_nil : map_sorted [].
Proof. constructor. Qed.

Context `{!StrictWeakOrder ltb}.

Lemma key_irrefl k : ltb k k = false.
Proof. apply ltb_irrefl. Qed.

Lemma equiv_keys_refl k : equiv_keys k k = true.
Proof. unfold equiv_keys. by rewrite key_irrefl. Qed.

Lemma ltb_asym a b : ltb a b = true -> ltb b a = false.
Proof.
  intros H. destruct (ltb b a) eqn:E; [|done].
  pose proof (ltb_trans _ _ _ H E) as F. by rewrite key_irrefl in F.
Qed.

Lemma equiv_keys_false_l a b : ltb a b = true -> equiv_keys a b = false.
Proof. intros H. unfold equiv_keys. by rewrite H. Qed.

Lemma equiv_keys_false_r a b : ltb b a = true -> equiv_keys a b = false.
Proof. intros H. unfold equiv_keys. rewrite H. by rewrite andb_false_r. Qed.

Lemma equiv_keys_true a b : equiv_keys a b = true <-> ltb a b = false /\ ltb b a = false.
Proof. unfold equiv_keys. rewrite andb_true_iff, !negb_true_iff. done. Qed.

(** Equivalent keys compare alike with every key. *)
Lemma equiv_keys_ltb_l a b c : equiv_keys a b = true -> ltb a c = ltb b c.
Proof.
  intros [H1 H2]%equiv_keys_true. apply eq_true_iff_eq. split; intros H.
  - destruct (ltb_cotrans _ b _ H) as [?|?]; congruence.
  - destruct (ltb_cotrans _ a _ H) as [?|?]; congruence.
Qed.

Lemma equiv_keys_ltb_r a b c : equiv_keys a b = true -> ltb c a = ltb c b.
Proof.
  intros [H1 H2]%equiv_keys_true. apply eq_true_iff_eq. split; intros H.
  - destruct (ltb_cotrans _ b _ H) as [?|?]; congruence.
  - destruct (ltb_cotrans _ a _ H) as [?|?]; congruence.
Qed.

Lemma equiv_keys_sym a b : equiv_keys a b = equiv_keys b a.
Proof. unfold equiv_keys. apply andb_comm. Qed.

Lemma equiv_keys_congr a b c : equiv_keys a b = true -> equiv_keys a c = equiv_keys b c.
Proof.
  intros H. unfold equiv_keys.
  by rewrite (equiv_keys_ltb_l a b c H), (equiv_keys_ltb_r a b c H).
Qed.

Lemma Forall_ltb_trans k k' m :
  ltb k k' = true -> Forall (fun q => ltb k' q.1 = true) m ->
  Forall (fun q => ltb k q.1 = true) m.
Proof. intros H Hm. eapply Forall_impl; [exact Hm|]. intros q Hq. by eapply ltb_trans. Qed.

(** *** Membership and search *)

Lemma map_find_Forall_lt k m : Forall (fun q => ltb k q.1 = true) m -> map_find m k = None.
Proof.
  induction 1 as [|[k' v] m H _ IH]; simpl; [done|].
  by rewrite equiv_keys_false_l.
Qed.

Lemma map_find_elem m k v : map_find m k = Some v -> exists k', equiv_keys k k' = true /\ (k', v) ∈ m.
Proof.
  induction m as [|[k' v'] m IH]; simpl; [done|]. destruct (equiv_keys k k') eqn:E.
  - intros [= ->]. exists k'. split; [done|left].
  - intros (k'' & ? & ?)%IH. exists k''. split; [done|by right].
Qed.

Lemma map_find_In m k v : map_sorted m -> (k, v) ∈ m -> map_find m k = Some v.
Proof.
  induction 1 as [|[k' v'] m Hs IH Hf]; simpl; [by intros ?%elem_of_nil|].
  rewrite elem_of_cons. intros [[= <- <-]|Hin].
  - by rewrite equiv_keys_refl.
  - rewrite Forall_forall in Hf. specialize (Hf _ Hin). simpl in Hf.
    rewrite equiv_keys_false_r by done. by apply IH.
Qed.

(** *** Assignment *)

Lemma map_assign_Forall (P : K -> Prop) m k v :
  P k -> Forall (fun q => P q.1) m -> Forall (fun q => P q.1) (map_assign m k v).
Proof.
  intros Hk. induction 1 as [|[k' v'] m H Hm IH]; simpl; [by repeat constructor|].
  repeat case_match; repeat constructor; auto.
Qed.

Lemma map_assign_sorted m k v : map_sorted m -> map_sorted (map_assign m k v).
Proof.
  induction 1 as [|[k' v'] m Hs IH Hf]; simpl; [by repeat constructor|].
  destruct (ltb k k') eqn:E1; [|destruct (ltb k' k) eqn:E2].
  - constructor; [by constructor|]. constructor; [done|]. by eapply Forall_ltb_trans.
  - constructor; [done|]. simpl in *.
    by apply (map_assign_Forall (fun x => ltb k' x = true)).
  - by constructor.
Qed.

Lemma map_find_assign m k v k' :
  map_sorted m ->
  map_find (map_assign m k v) k' = if equiv_keys k' k then Some v else map_find m k'.
Proof.
  induction 1 as [|[k1 v1] m Hs IH Hf]; simpl; [done|].
  destruct (ltb k k1) eqn:E1; [done|]. destruct (ltb k1 k) eqn:E2; simpl.
  - rewrite IH. destruct (equiv_keys k' k1) eqn:E3; [|done].
    rewrite equiv_keys_false_l; [done|]. by rewrite (equiv_keys_ltb_l _ _ _ E3).
  - assert (equiv_keys k k1 = true) as E by (by apply equiv_keys_true).
    rewrite !(equiv_keys_sym k'), (equiv_keys_congr _ _ _ E).
    by destruct (equiv_keys k1 k').
Qed.

Lemma map_find_assign_eq m k v : map_sorted m -> map_find (map_assign m k v) k = Some v.
Proof. intros H. by rewrite map_find_assign, equiv_keys_refl. Qed.

(** *** Insertion *)

Lemma map_insert_Forall (P : K -> Prop) m k v :
  P k -> Forall (fun q => P q.1) m -> Forall (fun q => P q.1) (map_insert m k v).
Proof.
  intros Hk. induction 1 as [|[k' v'] m H Hm IH]; simpl; [by repeat constructor|].
  repeat case_match; repeat constructor; auto.
Qed.

Lemma map_insert_sorted m k v : map_sorted m -> map_sorted (map_insert m k v).
Proof.
  induction 1 as [|[k' v'] m Hs IH Hf]; simpl; [by repeat constructor|].
  destruct (ltb k k') eqn:E1; [|destruct (ltb k' k) eqn:E2].
  - constructor; [by constructor|]. constructor; [done|]. by eapply Forall_ltb_trans.
  - constructor; [done|]. simpl in *.
    by apply (map_insert_Forall (fun x => ltb k' x = true)).
  - by constructor.
Qed.

Lemma map_find_insert m k v k' :
  map_sorted m ->
  map_find (map_insert m k v) k' =
    match map_find m k' with
    | Some v' => Some v'
    | None => if equiv_keys k' k then Some v else None
    end.
Proof.
  induction 1 as [|[k1 v1] m Hs IH Hf]; simpl; [done|].
  destruct (ltb k k1) eqn:E1; simpl.
  - destruct (equiv_keys k' k) eqn:E2.
    + rewrite equiv_keys_false_l by (by rewrite (equiv_keys_ltb_l _ _ _ E2)).
      rewrite map_find_Forall_lt; [done|].
      eapply Forall_impl; [exact Hf|]. intros q Hq.
      rewrite (equiv_keys_ltb_l _ _ _ E2). by eapply ltb_trans.
    + destruct (equiv_keys k' k1); [done|]. by destruct (map_find m k').
  - destruct (ltb k1 k) eqn:E2; simpl.
    + by destruct (equiv_keys k' k1).
    + assert (equiv_keys k k1 = true) as E by (by apply equiv_keys_true).
      rewrite (equiv_keys_sym k' k), (equiv_keys_congr _ _ _ E), (equiv_keys_sym k' k1).
      destruct (equiv_keys k1 k'); [done|]. by destruct (map_find m k').
Qed.

(** *** Erasure *)

Lemma map_erase_Forall (P : K -> Prop) m k :
  Forall (fun q => P q.1) m -> Forall (fun q => P q.1) (map_erase m k).
Proof.
  induction 1 as [|[k' v'] m H Hm IH]; simpl; [done|].
  repeat case_match; repeat constructor; auto.
Qed.

Lemma map_erase_sorted m k : map_sorted m -> map_sorted (map_erase m k).
Proof.
  induction 1 as [|[k' v'] m Hs IH Hf]; simpl; [constructor|].
  destruct (ltb k k'); [by constructor|]. destruct (ltb k' k); [|done].
  constructor; [done|]. by apply (map_erase_Forall (fun x => ltb k' x = true)).
Qed.

Lemma map_find_erase m k k' :
  map_sorted m ->
  map_find (map_erase m k) k' = if equiv_keys k' k then None else map_find m k'.
Proof.
  induction 1 as [|[k1 v1] m Hs IH Hf]; simpl; [by case_match|].
  destruct (ltb k k1) eqn:E1; [|destruct (ltb k1 k) eqn:E2]; simpl.
  - destruct (equiv_keys k' k) eqn:E3; [|done].
    rewrite equiv_keys_false_l by (by rewrite (equiv_keys_ltb_l _ _ _ E3)).
    apply map_find_Forall_lt. eapply Forall_impl; [exact Hf|]. intros q Hq.
    rewrite (equiv_keys_ltb_l _ _ _ E3). by eapply ltb_trans.
  - rewrite IH. destruct (equiv_keys k' k1) eqn:E3; [|done].
    rewrite equiv_keys_false_l; [done|]. by rewrite (equiv_keys_ltb_l _ _ _ E3).
  - assert (equiv_keys k k1 = true) as E by (by apply equiv_keys_true).
    rewrite !(equiv_keys_sym k'), (equiv_keys_congr _ _ _ E).
    destruct (equiv_keys k1 k') eqn:E3; [|done].
    apply map_find_Forall_lt. eapply Forall_impl; [exact Hf|]. intros q Hq.
    simpl in Hq. by rewrite <-(equiv_keys_ltb_l _ _ _ E3).
Qed.

(** *** Lower bound *)

Lemma map_lower_bound_all m k :
  Forall (fun q => ltb q.1 k = false) m -> map_lower_bound m k = m.
Proof. destruct 1 as [|[k' v'] m H _]; simpl in *; [done|]. by rewrite H. Qed.

Lemma map_lower_bound_app m1 m2 k :
  Forall (fun q => ltb q.1 k = true) m1 -> map_lower_bound (m1 ++ m2) k = map_lower_bound m2 k.
Proof. induction 1 as [|[k' v'] m H _ IH]; simpl in *; [done|]. by rewrite H. Qed.

(** [lower_bound] cuts the container in the entries below [k] and the others. *)
Lemma map_lower_bound_split m k :
  map_sorted m ->
  exists m1, m = m1 ++ map_lower_bound m k /\
    Forall (fun q => ltb q.1 k = true) m1 /\
    Forall (fun q => ltb q.1 k = false) (map_lower_bound m k).
Proof.
  induction 1 as [|[k' v'] m Hs IH Hf]; simpl; [by exists []|].
  destruct (ltb k' k) eqn:E.
  - destruct IH as (m1 & Hm & H1 & H2). exists ((k', v') :: m1).
    split; [simpl; by f_equal|]. split; [by constructor|done].
  - exists []. split; [done|]. split; [done|]. constructor; [done|].
    eapply Forall_impl; [exact Hf|]. intros q Hq. simpl in Hq.
    destruct (ltb q.1 k) eqn:F; [|done].
    pose proof (ltb_trans _ _ _ Hq F). congruence.
Qed.

(** At a key of the container it starts with that key's entry. *)
Lemma map_lower_bound_key m1 k v m2 :
  map_sorted (m1 ++ (k, v) :: m2) ->
  map_lower_bound (m1 ++ (k, v) :: m2) k = (k, v) :: m2.
Proof.
  intros Hs. rewrite map_lower_bound_app.
  - simpl. by rewrite key_irrefl.
  - apply Forall_forall. intros q Hq.
    apply (StronglySorted_app_1_elem_of _ _ _ q (k, v) Hs); [done|left].
Qed.
End map.

(** With a total order, equivalent keys are equal. *)
Section total.
Context {K V : Type} (ltb : K -> K -> bool) `{!StrictTotalOrder ltb}.

Lemma equiv_keys_eq a b : equiv_keys ltb a b = true <-> a = b.
Proof.
  split.
  - intros [H1 H2]%equiv_keys_true. exact (ltb_total a b H1 H2).
  - intros ->. apply (equiv_keys_refl ltb b).
Qed.

Lemma equiv_keys_decide `{EqDecision K} a b : equiv_keys ltb a b = bool_decide (a = b).
Proof. apply eq_true_iff_eq. by rewrite equiv_keys_eq, bool_decide_eq_true. Qed.

Lemma map_find_elem_eq (m : list (K * V)) k v :
  map_find ltb m k = Some v -> (k, v) ∈ m.
Proof. intros (k' & ->%equiv_keys_eq & ?)%map_find_elem. done. Qed.

Lemma map_find_iff (m : list (K * V)) k v :
  map_sorted ltb m -> map_find ltb m k = Some v <-> (k, v) ∈ m.
Proof. split; [apply map_find_elem_eq|by apply (map_find_In ltb)]. Qed.

Lemma map_find_assign_ne (m : list (K * V)) k v k' :
  map_sorted ltb m -> k' ≠ k -> map_find ltb (map_assign ltb m k v) k' = map_find ltb m k'.
Proof.
  intros H Hne. rewrite (map_find_assign ltb m k v k' H).
  destruct (equiv_keys ltb k' k) eqn:E; [|done]. by apply equiv_keys_eq in E.
Qed.

(** A key that is not there is inserted. *)
Lemma map_insert_new m k (v : V) : k ∉ m.*1 -> map_insert ltb m k v ≡ₚ (k, v) :: m.
Proof.
  induction m as [|[k' v'] m IH]; simpl; [done|]. rewrite not_elem_of_cons. intros [Hk Hm].
  destruct (ltb k k') eqn:E1; [done|]. destruct (ltb k' k) eqn:E2.
  - rewrite (IH Hm). apply Permutation_swap.
  - by destruct Hk; apply (ltb_total k k').
Qed.

Lemma map_insert_all ps m :
  NoDup (ps.*1 ++ m.*1) ->
  fold_left (fun m (p : K * V) => map_insert ltb m p.1 p.2) ps m ≡ₚ ps ++ m.
Proof.
  revert m. induction ps as [|[k v] ps IH]; intros m; simpl; [done|].
  intros [Hk Hnd]%NoDup_cons. rewrite not_elem_of_app in Hk. destruct Hk as [Hk1 Hk2].
  pose proof (map_insert_new m k v Hk2) as Hp. rewrite IH, Hp.
  - by rewrite Permutation_middle.
  - rewrite Hp. simpl. rewrite <-Permutation_middle. by apply NoDup_cons; rewrite not_elem_of_app.
Qed.
End total.

Lemma sorted_filter {A} (R : A -> A -> Prop) (P : A -> Prop) `{!forall x, Decision (P x)} l :
  StronglySorted R l -> StronglySorted R (filter P l).
Proof.
  induction 1 as [|x l Hl IH Hx]; [constructor|]. rewrite filter_cons. case_decide; [|done]. constructor; [done|].
  apply Forall_forall. intros y [_ Hy]%list_elem_of_filter. by eapply Forall_forall.
Qed.

#[export] Hint Resolve map_sorted_nil map_assign_sorted map_insert_sorted map_erase_sorted : blob.
