(* ===== verification/Http.v ===== *)
(** * HTTP headers and requests

    The [http::server3::header] and [http::server3::request] classes
    ([header.hpp], [header.cpp], [request.hpp]). The [tstamp] field of a
    request, which no code reads, is left out. *)

From S2P Require Import Prelude CppString.

(** ** [class header] *)

Record header : Type := Header {
  name_ : bytes;
  value_ : bytes;
  attributes_ : list (bytes * bytes);
}.

#[export] Instance header_eq_dec : EqDecision header.
Proof. solve_decision. Defined.

Definition header_new : header := Header [] [] [].
Definition header_pair (name value : bytes) : header := Header name value [].
Definition header_set_name (n : bytes) (h : header) : header := Header n (value_ h) (attributes_ h).
Definition header_set_value (v : bytes) (h : header) : header := Header (name_ h) v (attributes_ h).

(** [name(char)] and [value(char)] append one character. *)
Definition header_name_char (c : ascii) (h : header) : header :=
  Header (name_ h ++ [c]) (value_ h) (attributes_ h).
Definition header_value_char (c : ascii) (h : header) : header :=
  Header (name_ h) (value_ h ++ [c]) (attributes_ h).

(** ** [class request] *)

Record request : Type := Request {
  req_method : bytes;
  req_uri : bytes;
  http_version_major : Z;
  http_version_minor : Z;
  req_headers : list header;
  req_content : bytes;
  query_string : bytes;
}.

(** The implicit constructor leaves the two version numbers indeterminate. *)
Definition request_new (major minor : Z) : request := Request [] [] major minor [] [] [].

(** [clear()] keeps [query_string]. *)
Definition request_clear (r : request) : request := Request [] [] 0 0 [] [] (query_string r).

Definition with_method (m : bytes) (r : request) : request :=
  Request m (req_uri r) (http_version_major r) (http_version_minor r)
    (req_headers r) (req_content r) (query_string r).
Definition with_uri (u : bytes) (r : request) : request :=
  Request (req_method r) u (http_version_major r) (http_version_minor r)
    (req_headers r) (req_content r) (query_string r).
Definition with_version (major minor : Z) (r : request) : request :=
  Request (req_method r) (req_uri r) major minor
    (req_headers r) (req_content r) (query_string r).
Definition with_headers (hs : list header) (r : request) : request :=
  Request (req_method r) (req_uri r) (http_version_major r) (http_version_minor r)
    hs (req_content r) (query_string r).
Definition with_content (b : bytes) (r : request) : request :=
  Request (req_method r) (req_uri r) (http_version_major r) (http_version_minor r)
    (req_headers r) b (query_string r).

(** [get_header(name)]: the value of the first header of that exact name. *)
Fixpoint find_header (hs : list header) (name : bytes) : bytes :=
  match hs with
  | [] => []
  | h :: hs' => if bool_decide (name_ h = name) then value_ h else find_header hs' name
  end.

Definition get_header (r : request) (name : bytes) : bytes := find_header (req_headers r) name.

Definition is_http11 (r : request) : bool :=
  (1 <? http_version_major r)%Z ||
  ((http_version_major r =? 1)%Z && (0 <? http_version_minor r)%Z).

Definition want_keepalive (r : request) : bool :=
  let cxn_hdr := to_lower_copy (get_header r (lit "connection")) in
  if bool_decide (cxn_hdr = lit "close") then false
  else if bool_decide (cxn_hdr = lit "keep-alive") then true
  else is_http11 r.

Lemma find_header_app hs hs' name :
  find_header (hs ++ hs') name =
    if bool_decide (Exists (fun h => name_ h = name) hs)
    then find_header hs name else find_header hs' name.
Proof.
  induction hs as [|h hs IH]; cbn [find_header app].
  - rewrite bool_decide_false; [done|]. by intros ?%Exists_nil.
  - destruct (decide (name_ h = name)) as [Hn|Hn].
    + rewrite !(bool_decide_true (name_ h = name)) by done.
      rewrite bool_decide_true; [done|]. by apply Exists_cons_hd.
    + rewrite !(bool_decide_false (name_ h = name)) by done. rewrite IH.
      rewrite (bool_decide_ext (Exists _ (h :: hs)) (Exists (fun h => name_ h = name) hs));
        [done|]. rewrite Exists_cons. tauto.
Qed.

Lemma find_header_empty_or_in hs name :
  find_header hs name = [] \/ exists h, h ∈ hs /\ name_ h = name /\ value_ h = find_header hs name.
Proof.
  induction hs as [|h hs IH]; simpl; [by left|]. case_bool_decide.
  - right. exists h. split; [left|done].
  - destruct IH as [?|(h' & ? & ?)]; [by left|]. right. exists h'. split; [by right|done].
Qed.
