(* ===== verification/RequestParser.v ===== *)
(** * The HTTP request parser

    [http::server3::request_parser] ([request_parser.hpp],
    [request_parser.cpp]): a character-driven state machine that fills a
    [request]. [consume] is the transition on one input character, [parse]
    runs it over a buffer. Signed overflow, [back()] of an empty vector and an
    [atoi] result out of range are [Undefined].

    Proved here: the vector accesses are safe and the exact inputs on which
    the arithmetic is undefined; parsing is independent of how the stream is
    cut in buffers; a printed request parses back to itself; and the body is
    bounded by 16 MiB and as long as announced. *)

From S2P Require Import Prelude CppString Http.

Local Open Scope Z_scope.

(** ** Definitions *)

(** [boost::tribool] *)
Inductive tribool : Type := TTrue | TFalse | Indeterminate.

Inductive state : Type :=
| method_start
| method
| uri
| http_version_h
| http_version_t_1
| http_version_t_2
| http_version_p
| http_version_slash
| http_version_major_start
| st_http_version_major
| http_version_minor_start
| st_http_version_minor
| expecting_newline_1
| header_line_start
| header_lws
| header_name
| space_before_header_value
| header_value
| expecting_newline_2
| expecting_newline_3
| body.

#[export] Instance state_eq_dec : EqDecision state.
Proof. solve_decision. Defined.

Record request_parser : Type := RequestParser {
  body_bytes_ : Z;
  state_ : state;
}.

(** The constructor sets the state only; [body_bytes_] is indeterminate. *)
Definition request_parser_new (indeterminate : Z) : request_parser :=
  RequestParser indeterminate method_start.

Definition reset (p : request_parser) : request_parser :=
  RequestParser (body_bytes_ p) method_start.

Definition is_char (c : Z) : bool := (0 <=? c) && (c <=? 127).

Definition is_ctl (c : Z) : bool := ((0 <=? c) && (c <=? 31)) || (c =? 127).

Definition is_tspecial (c : Z) : bool :=
  existsb (fun d => c =? char_int d)
    (lit "()<>@,;:\" ++ ["034"%char] ++ lit "/[]?={}" ++ [" "%char; tab]).

Definition is_digit (c : Z) : bool := (48 <=? c) && (c <=? 57).

Definition goto (s : state) (p : request_parser) : request_parser :=
  RequestParser (body_bytes_ p) s.

(** [number * 10 + input - '0'] in [int] arithmetic. *)
Definition push_digit (number : Z) (input : ascii) : outcome Z :=
  a ← int_result (number * 10);
  b ← int_result (a + char_int input);
  int_result (b - 48).

(** 16 * 1024 * 1024 *)
Definition max_content : Z := 16 * 1024 * 1024.

Definition expect (c input : ascii) (s : state) (p : request_parser) (req : request) :
    outcome (tribool * request_parser * request) :=
  if (input =? c)%char then Ret (Indeterminate, goto s p, req) else Ret (TFalse, p, req).

(** [!is_char(input) || is_ctl(input) || is_tspecial(input)] *)
Definition not_token (input : ascii) : bool :=
  negb (is_char (char_int input)) || is_ctl (char_int input) || is_tspecial (char_int input).

Definition consume (p : request_parser) (req : request) (input : ascii) :
    outcome (tribool * request_parser * request) :=
  match state_ p with
  | method_start =>
      if not_token input then Ret (TFalse, p, req)
      else Ret (Indeterminate, goto method p, with_method (req_method req ++ [input]) req)
  | method =>
      if (input =? " ")%char then Ret (Indeterminate, goto uri p, req)
      else if not_token input then Ret (TFalse, p, req)
      else Ret (Indeterminate, p, with_method (req_method req ++ [input]) req)
  | uri =>
      if (input =? " ")%char then Ret (Indeterminate, goto http_version_h p, req)
      else if is_ctl (char_int input) then Ret (TFalse, p, req)
      else Ret (Indeterminate, p, with_uri (req_uri req ++ [input]) req)
  | http_version_h => expect "H" input http_version_t_1 p req
  | http_version_t_1 => expect "T" input http_version_t_2 p req
  | http_version_t_2 => expect "T" input http_version_p p req
  | http_version_p => expect "P" input http_version_slash p req
  | http_version_slash =>
      if (input =? "/")%char then
        Ret (Indeterminate, goto http_version_major_start p, with_version 0 0 req)
      else Ret (TFalse, p, req)
  | http_version_major_start =>
      if is_digit (char_int input) then
        v ← push_digit (http_version_major req) input;
        Ret (Indeterminate, goto st_http_version_major p,
             with_version v (http_version_minor req) req)
      else Ret (TFalse, p, req)
  | st_http_version_major =>
      if (input =? ".")%char then Ret (Indeterminate, goto http_version_minor_start p, req)
      else if is_digit (char_int input) then
        v ← push_digit (http_version_major req) input;
        Ret (Indeterminate, p, with_version v (http_version_minor req) req)
      else Ret (TFalse, p, req)
  | http_version_minor_start =>
      if is_digit (char_int input) then
        v ← push_digit (http_version_minor req) input;
        Ret (Indeterminate, goto st_http_version_minor p,
             with_version (http_version_major req) v req)
      else Ret (TFalse, p, req)
  | st_http_version_minor =>
      if (input =? cr)%char then Ret (Indeterminate, goto expecting_newline_1 p, req)
      else if is_digit (char_int input) then
        v ← push_digit (http_version_minor req) input;
        Ret (Indeterminate, p, with_version (http_version_major req) v req)
      else Ret (TFalse, p, req)
  | expecting_newline_1 => expect lf input header_line_start p req
  | header_line_start =>
      if (input =? cr)%char then Ret (Indeterminate, goto expecting_newline_3 p, req)
      else if bool_decide (req_headers req ≠ []) && ((input =? " ")%char || (input =? tab)%char)
      then Ret (Indeterminate, goto header_lws p, req)
      else if not_token input then Ret (TFalse, p, req)
      else
        hs ← or_undefined (update_back (header_name_char (tolower input))
                             (req_headers req ++ [header_new]));
        Ret (Indeterminate, goto header_name p, with_headers hs req)
  | header_lws =>
      if (input =? cr)%char then Ret (Indeterminate, goto expecting_newline_2 p, req)
      else if (input =? " ")%char || (input =? tab)%char then Ret (Indeterminate, p, req)
      else if is_ctl (char_int input) then Ret (TFalse, p, req)
      else
        hs ← or_undefined (update_back (header_value_char input) (req_headers req));
        Ret (Indeterminate, goto header_value p, with_headers hs req)
  | header_name =>
      if (input =? ":")%char then Ret (Indeterminate, goto space_before_header_value p, req)
      else if not_token input then Ret (TFalse, p, req)
      else
        hs ← or_undefined (update_back (header_name_char (tolower input)) (req_headers req));
        Ret (Indeterminate, p, with_headers hs req)
  | space_before_header_value => expect " " input header_value p req
  | header_value =>
      if (input =? cr)%char then Ret (Indeterminate, goto expecting_newline_2 p, req)
      else if is_ctl (char_int input) then Ret (TFalse, p, req)
      else
        hs ← or_undefined (update_back (header_value_char input) (req_headers req));
        Ret (Indeterminate, p, with_headers hs req)
  | expecting_newline_2 => expect lf input header_line_start p req
  | expecting_newline_3 =>
      if (input =? lf)%char then
        clen ← atoi (get_header req (lit "content-length"));
        if 0 <? clen then
          if max_content <? clen then Ret (TFalse, p, req)
          else Ret (Indeterminate, RequestParser clen body, req)
        else Ret (TTrue, p, req)
      else Ret (TFalse, p, req)
  | body =>
      let p' := RequestParser (u32 (body_bytes_ p - 1)) body in
      let req' := with_content (req_content req ++ [input]) req in
      if body_bytes_ p' =? 0 then Ret (TTrue, p', req') else Ret (Indeterminate, p', req')
  end.

(** The result, the new parser and request, and the input left. *)
Fixpoint parse (p : request_parser) (req : request) (input : bytes) :
    outcome (tribool * request_parser * request * bytes) :=
  match input with
  | [] => Ret (Indeterminate, p, req, [])
  | c :: rest =>
      '(result, p', req') ← consume p req c;
      match result with
      | Indeterminate => parse p' req' rest
      | _ => Ret (result, p', req', rest)
      end
  end.

Example parse_simple_get :
  parse (request_parser_new 0) (request_new 0 0)
    (lit "GET /a HTTP/1.1" ++ crlf ++ lit "Host: x" ++ crlf ++ crlf ++ lit "rest")
  = Ret (TTrue, RequestParser 0 expecting_newline_3,
         Request (lit "GET") (lit "/a") 1 1 [header_pair (lit "host") (lit "x")] [] [],
         lit "rest").
Proof. by vm_compute. Qed.

(** ** Well-formed requests and the parser's invariant *)

Definition is_token (c : ascii) : bool := negb (not_token c).
Definition uri_char (c : ascii) : bool := negb (is_ctl (char_int c)) && negb (c =? " ")%char.
Definition value_char (c : ascii) : bool := negb (is_ctl (char_int c)).
Definition lower_token (c : ascii) : bool := is_token c && (tolower c =? c)%char.

Definition version_ok (v : Z) : Prop := 0 <= v <= int_max - 48.

Record header_ok (name_char : ascii -> bool) (h : header) : Prop := {
  ok_name_nonempty : name_ h ≠ [];
  ok_name : forallb name_char (name_ h) = true;
  ok_value : forallb value_char (value_ h) = true;
  ok_attributes : attributes_ h = [];
}.

(** The body is as long as [content-length] says, and never above 16 MiB. *)
Definition content_ok (req : request) : Prop :=
  exists clen, atoi (get_header req (lit "content-length")) = Ret clen /\
    clen <= max_content /\ Z.of_nat (length (req_content req)) = Z.max 0 clen.

Record wf_request (name_char : ascii -> bool) (req : request) : Prop := {
  wf_method_nonempty : req_method req ≠ [];
  wf_method : forallb is_token (req_method req) = true;
  wf_uri : forallb uri_char (req_uri req) = true;
  wf_major : version_ok (http_version_major req);
  wf_minor : version_ok (http_version_minor req);
  wf_headers : Forall (header_ok name_char) (req_headers req);
  wf_query : query_string req = [];
}.

(** States in which the code calls [req.headers.back()]. *)
Definition needs_header (s : state) : bool :=
  match s with
  | header_lws | header_name | space_before_header_value | header_value => true
  | _ => false
  end.

(** States after [HTTP/], where both version numbers have been set. *)
Definition has_version (s : state) : bool :=
  match s with
  | method_start | method | uri | http_version_h | http_version_t_1 | http_version_t_2
  | http_version_p | http_version_slash => false
  | _ => true
  end.

Record parser_inv (p : request_parser) (req : request) : Prop := {
  inv_method_nonempty : state_ p ≠ method_start -> req_method req ≠ [];
  inv_method : forallb is_token (req_method req) = true;
  inv_uri : forallb uri_char (req_uri req) = true;
  inv_version : has_version (state_ p) = true ->
    version_ok (http_version_major req) /\ version_ok (http_version_minor req);
  inv_headers : Forall (header_ok lower_token) (req_headers req);
  inv_back : needs_header (state_ p) = true -> req_headers req ≠ [];
  inv_content : state_ p ≠ body -> req_content req = [];
  inv_body : state_ p = body ->
    exists clen, atoi (get_header req (lit "content-length")) = Ret clen /\
      clen <= max_content /\ 0 < body_bytes_ p /\
      clen = body_bytes_ p + Z.of_nat (length (req_content req));
  inv_query : query_string req = [];
}.

Lemma parser_inv_init n major minor : parser_inv (request_parser_new n) (request_new major minor).
Proof. by constructor. Qed.

Lemma is_token_tolower c : is_token c = true -> lower_token (tolower c) = true.
Proof.
  assert (forall c, implb (is_token c) (lower_token (tolower c)) = true) as H
    by (intros d; by_all_chars d).
  intros Hc. specialize (H c). by rewrite Hc in H.
Qed.

Lemma is_digit_range c : is_digit (char_int c) = true -> 48 <= char_int c <= 57.
Proof. unfold is_digit. rewrite andb_true_iff, !Z.leb_le. lia. Qed.

(** Adding a digit is defined exactly when the sum before [- '0'] fits. *)
Lemma push_digit_spec v c :
  version_ok v -> is_digit (char_int c) = true ->
  push_digit v c =
    if v * 10 + char_int c <=? int_max then Ret (v * 10 + char_int c - 48) else Undefined.
Proof.
  intros [??] Hc%is_digit_range. unfold push_digit, int_result, int_min, int_max in *.
  rewrite (proj2 (Z.leb_le (- 2 ^ 31) (v * 10))) by lia. simpl andb.
  destruct (Z.leb_spec (v * 10) (2 ^ 31 - 1)); simpl.
  - rewrite (proj2 (Z.leb_le _ (v * 10 + _))) by lia. simpl.
    destruct (Z.leb_spec (v * 10 + char_int c) (2 ^ 31 - 1)); simpl; [|done].
    rewrite (proj2 (Z.leb_le _ (v * 10 + _ - 48))) by lia.
    by rewrite (proj2 (Z.leb_le (v * 10 + _ - 48) _)) by lia.
  - by rewrite (proj2 (Z.leb_gt _ _)) by lia.
Qed.

Lemma push_digit_ok v c w :
  version_ok v -> is_digit (char_int c) = true -> push_digit v c = Ret w -> version_ok w.
Proof.
  intros Hv Hc. rewrite push_digit_spec by done. case_match eqn:E; [|done].
  intros [= <-]. apply Z.leb_le in E. apply is_digit_range in Hc. unfold version_ok in *. lia.
Qed.

Lemma forallb_snoc (f : ascii -> bool) s c :
  forallb f s = true -> f c = true -> forallb f (s ++ [c]) = true.
Proof. intros H1 H2. rewrite forallb_app, H1. simpl. by rewrite H2. Qed.

Lemma header_ok_name_char c h :
  header_ok lower_token h -> is_token c = true -> header_ok lower_token (header_name_char (tolower c) h).
Proof.
  intros [????] Hc. constructor; simpl; [by destruct (name_ h)| |done|done].
  apply forallb_snoc; [done|]. by apply is_token_tolower.
Qed.

Lemma header_ok_value_char c h :
  header_ok lower_token h -> value_char c = true -> header_ok lower_token (header_value_char c h).
Proof. intros [????] Hc. constructor; simpl; [done..| |done]. by apply forallb_snoc. Qed.

Lemma header_ok_first c :
  is_token c = true -> header_ok lower_token (header_name_char (tolower c) header_new).
Proof. intros Hc%is_token_tolower. constructor; simpl; [done| |done|done]. by rewrite Hc. Qed.

#[export] Hint Resolve forallb_snoc push_digit_ok header_ok_name_char header_ok_value_char
  header_ok_first parser_inv_init : blob.

(** ** The transition preserves the invariant *)

Lemma not_token_false c : not_token c = false -> is_token c = true.
Proof. unfold is_token. by intros ->. Qed.

Lemma value_char_ctl c : is_ctl (char_int c) = false -> value_char c = true.
Proof. unfold value_char. by intros ->. Qed.

Lemma uri_char_ctl c :
  (c =? " ")%char = false -> is_ctl (char_int c) = false -> uri_char c = true.
Proof. unfold uri_char. by intros -> ->. Qed.

Lemma or_undefined_inv {A} (o : option A) x : or_undefined o = Ret x -> o = Some x.
Proof. destruct o; simpl; congruence. Qed.

Lemma update_back_header_ok f hs hs' :
  Forall (header_ok lower_token) hs ->
  (forall h, header_ok lower_token h -> header_ok lower_token (f h)) ->
  or_undefined (update_back f hs) = Ret hs' ->
  Forall (header_ok lower_token) hs' /\ hs' ≠ [].
Proof.
  intros Hhs Hf H%or_undefined_inv. split; [by eapply update_back_Forall|].
  by eapply update_back_nonempty.
Qed.

Lemma new_header_ok c hs hs' :
  Forall (header_ok lower_token) hs -> is_token c = true ->
  or_undefined (update_back (header_name_char (tolower c)) (hs ++ [header_new])) = Ret hs' ->
  Forall (header_ok lower_token) hs' /\ hs' ≠ [].
Proof.
  intros Hhs Hc H%or_undefined_inv. rewrite update_back_app in H. injection H as <-.
  split; [|by destruct hs]. apply Forall_app. split; [done|]. auto with blob.
Qed.

#[export] Hint Resolve not_token_false value_char_ctl uri_char_ctl : blob.

Ltac step_cases H :=
  repeat match type of H with
  | context [if ?b then _ else _] => let E := fresh "E" in destruct b eqn:E
  end; try discriminate H; inv_ret.

(** Solve the invariant's fields after a transition out of the state [Hs]. *)
Ltac keep_inv Hs := constructor; simpl; rewrite ?Hs; try done; eauto with blob.

Lemma body_step_inv p req c :
  parser_inv p req -> state_ p = body ->
  u32 (body_bytes_ p - 1) = body_bytes_ p - 1 /\
  let req' := with_content (req_content req ++ [c]) req in
  (if (body_bytes_ p - 1 =? 0)%Z then wf_request lower_token req' /\ content_ok req'
   else parser_inv (RequestParser (body_bytes_ p - 1) body) req').
Proof.
  intros [Hmn Hm Hu Hv Hh Hb Hc Hbody Hq] Hs. rewrite Hs in *.
  destruct (Hbody eq_refl) as (clen & Ha & Hmax & Hpos & Hlen). destruct (Hv eq_refl) as [??].
  unfold max_content in Hmax. split; [apply u32_small; lia|].
  destruct (Z.eqb_spec (body_bytes_ p - 1) 0).
  - split; [constructor; simpl; try done; auto|]. exists clen. simpl.
    rewrite length_app. simpl. unfold max_content. split; [done|]. lia.
  - constructor; simpl; try done; auto. intros _. exists clen.
    rewrite length_app. simpl. unfold max_content. split; [done|]. lia.
Qed.

Lemma consume_inv p req c r p' req' :
  parser_inv p req -> consume p req c = Ret (r, p', req') ->
  match r with
  | Indeterminate => parser_inv p' req'
  | TTrue => wf_request lower_token req' /\ content_ok req'
  | TFalse => True
  end.
Proof.
  intros Hinv H. pose proof Hinv as [Hmn Hm Hu Hv Hh Hb Hc Hbody Hq].
  unfold consume, expect in H. destruct (state_ p) eqn:Hs; step_cases H; try done;
    (* states without numbers or headers *)
    try (constructor; simpl; try rewrite Hs; try done; auto with blob;
         try (by intros _; destruct (req_method req)); try (by intros _; apply Hmn); fail);
    (* version digits *)
    try (destruct (Hv eq_refl) as [??]; keep_inv Hs; fail);
    (* header characters *)
    try (match goal with
         | Hx : or_undefined (update_back _ (_ ++ [header_new])) = _ |- _ =>
             apply new_header_ok in Hx as [??]; [|auto with blob..]
         | Hx : or_undefined (update_back _ _) = _ |- _ =>
             apply update_back_header_ok in Hx as [??]; [|auto with blob..]
         end; keep_inv Hs; fail).
  - (* the blank line at the start of a header line: [header_lws] *)
    apply andb_true_iff in E0 as [E0%bool_decide_eq_true _]. keep_inv Hs.
  - (* the end of the headers *)
    destruct (Hv eq_refl) as [??]. specialize (Hc ltac:(done)).
    destruct (Z.ltb_spec 0 x) as [Hx0|Hx0]; [destruct (Z.ltb_spec max_content x)|]; inv_ret; [done| |].
    + constructor; simpl; try done; auto. intros _. exists x. rewrite Hc. simpl.
      split; [done|]. lia.
    + split; [constructor; auto|]. exists x. unfold max_content. rewrite Hc. simpl. split; [done|]. lia.
  - destruct (body_step_inv _ _ c Hinv Hs) as [Hu32 Hw]. simpl in E. rewrite Hu32 in E.
    by rewrite E in Hw.
  - destruct (body_step_inv _ _ c Hinv Hs) as [Hu32 Hw]. simpl in E. rewrite Hu32 in *.
    by rewrite E in Hw.
Qed.

Lemma parse_inv p req input r p' req' rest :
  parser_inv p req -> parse p req input = Ret (r, p', req', rest) ->
  match r with
  | Indeterminate => parser_inv p' req' /\ rest = []
  | TTrue => wf_request lower_token req' /\ content_ok req'
  | TFalse => True
  end.
Proof.
  revert p req. induction input as [|c input IH]; intros p req Hinv H; simpl in H; inv_ret; [done|].
  destruct x as [[r1 p1] req1]. pose proof (consume_inv _ _ _ _ _ _ Hinv Hx) as Hi.
  destruct r1; simpl in H; inv_ret; [done|done|]. exact (IH _ _ Hi H).
Qed.

(** ** Undefined behaviour *)

(** The arithmetic on this character is defined: the version number, summed
    with the digit's character code, fits an [int], and so does the
    [content-length] read when the headers end. *)
Definition arith_ok (p : request_parser) (req : request) (c : ascii) : bool :=
  let digit_ok v := negb (is_digit (char_int c)) || (v * 10 + char_int c <=? int_max) in
  match state_ p with
  | http_version_major_start | st_http_version_major => digit_ok (http_version_major req)
  | http_version_minor_start | st_http_version_minor => digit_ok (http_version_minor req)
  | expecting_newline_3 =>
      negb (c =? lf)%char ||
      match atoi (get_header req (lit "content-length")) with Ret _ => true | _ => false end
  | _ => true
  end.

Lemma atoi_cases s : (exists n, atoi s = Ret n) \/ atoi s = Undefined.
Proof.
  unfold atoi, int_result. destruct (scan_sign _) as [neg ds].
  case_match; [left; by eexists|by right].
Qed.

(** Neither an exception nor a failed assertion. *)
Definition no_exit {A} (m : outcome A) : Prop := match m with Ret _ | Undefined => True | _ => False end.

Lemma no_exit_bind {A B} (m : outcome A) (f : A -> outcome B) :
  no_exit m -> (forall x, no_exit (f x)) -> no_exit (m ≫= f).
Proof. intros Hm Hf. destruct m; [apply Hf|done..]. Qed.

Lemma no_exit_or_undefined {A} (o : option A) : no_exit (or_undefined o).
Proof. by destruct o. Qed.

Lemma no_exit_int_result z : no_exit (int_result z).
Proof. unfold int_result. by case_match. Qed.

Lemma no_exit_push_digit v c : no_exit (push_digit v c).
Proof. repeat (apply no_exit_bind; [apply no_exit_int_result|intros]). apply no_exit_int_result. Qed.

Lemma no_exit_atoi s : no_exit (atoi s).
Proof. by destruct (atoi_cases s) as [[n ->]| ->]. Qed.

Lemma consume_no_exit p req c : no_exit (consume p req c).
Proof.
  unfold consume, expect.
  destruct (state_ p); repeat first
    [ apply no_exit_bind;
        [first [apply no_exit_or_undefined|apply no_exit_push_digit|apply no_exit_atoi]|intros]
    | exact I | case_match ].
Qed.

Lemma update_back_defined (f : header -> header) hs : hs ≠ [] -> exists hs', update_back f hs = Some hs'.
Proof. intros H. apply update_back_is_Some. exact H. Qed.

Lemma defined_digit v c (k : Z -> outcome (tribool * request_parser * request)) :
  version_ok v -> is_digit (char_int c) = true ->
  (forall w, defined (k w)) ->
  defined (push_digit v c ≫= k) <-> (v * 10 + char_int c <=? int_max) = true.
Proof. intros Hv Hc Hk. rewrite push_digit_spec by done. by case_match; simpl. Qed.

Lemma consume_defined_inv p req c :
  parser_inv p req -> defined (consume p req c) <-> arith_ok p req c = true.
Proof.
  intros [Hmn Hm Hu Hv Hh Hb Hc Hbody Hq]. unfold consume, expect, arith_ok.
  destruct (state_ p) eqn:Hs; simpl; try destruct (Hv eq_refl) as [Hmaj Hmin];
    repeat match goal with
    | |- context [or_undefined (update_back ?f ?hs)] =>
        destruct (update_back_defined f hs) as [? ->];
          [first [by destruct (req_headers req) | auto]|]; simpl
    | |- context [if ?b then _ else _] => let E := fresh "E" in destruct b eqn:E; simpl
    | |- context [is_digit ?c] => destruct (is_digit c) eqn:?; simpl
    | |- context [push_digit] => rewrite defined_digit by done
    end; try done;
    try (by match goal with
         | E : (c =? _)%char = true |- _ => apply Ascii.eqb_eq in E; subst c
         end).
  destruct (atoi_cases (get_header req (lit "content-length"))) as [[n ->]| ->]; simpl; [|done].
  by repeat case_match.
Qed.

(** Safety of the parser's transition. In every state that a prefix of any
    stream leads to from construction, whatever the indeterminate members
    were, the transition is defined exactly when the arithmetic on the current
    character does not overflow an [int]: [headers.back()] is never called on
    an empty vector, and the only undefined behaviour is the overflow of a
    version number and of the [atoi] of [content-length]. *)
Theorem consume_defined n major minor input p req rest c
    (Hreach : parse (request_parser_new n) (request_new major minor) input
              = Ret (Indeterminate, p, req, rest)) :
  defined (consume p req c) <-> arith_ok p req c = true.
Proof.
  apply consume_defined_inv.
  pose proof (parse_inv _ _ _ _ _ _ _ (parser_inv_init n major minor) Hreach) as H. apply H.
Qed.

Lemma consume_defined_witness :
  let p := RequestParser 0 header_name in
  let req := Request (lit "GET") (lit "/") 1 1 [header_pair (lit "ho") []] [] [] in
  defined (consume p req "S"%char) <-> arith_ok p req "S"%char = true.
Proof.
  intros p req.
  apply (consume_defined 0 7 7 (lit "GET / HTTP/1.1" ++ crlf ++ lit "Ho") p req []).
  vm_compute. reflexivity.
Defined.

(** Undefined behaviour is reachable from the network: a request line with
    a ten-digit version number overflows the [int] of the version, and a
    [Content-Length] of eleven digits makes [atoi] undefined. *)
Theorem parse_reaches_undefined n major minor rest :
  parse (request_parser_new n) (request_new major minor)
    (lit "GET / HTTP/2147483600" ++ rest) = Undefined /\
  parse (request_parser_new n) (request_new major minor)
    (lit "GET / HTTP/1.1" ++ crlf ++ lit "Content-Length: 99999999999" ++ crlf ++ crlf ++ rest)
  = Undefined.
Proof. split; vm_compute; reflexivity. Qed.

(** ** Incremental parsing *)

Lemma parse_app_eq p req a b :
  parse p req (a ++ b) =
    ('(result, p', req', rest) ← parse p req a;
     match result with
     | Indeterminate => parse p' req' b
     | _ => Ret (result, p', req', rest ++ b)
     end).
Proof.
  revert p req. induction a as [|c a IH]; intros p req; simpl; [done|].
  destruct (consume p req c) as [[[r p1] req1]|e| |]; simpl; [|done..].
  destruct r; simpl; [done|done|]. apply IH.
Qed.

(** An undecided parser has read everything. *)
Lemma parse_rest_indeterminate p req input p' req' rest :
  parse p req input = Ret (Indeterminate, p', req', rest) -> rest = [].
Proof.
  revert p req. induction input as [|c input IH]; intros p req H; simpl in H; [by inv_ret|].
  inv_ret. destruct x as [[r1 p1] req1]. destruct r1; simpl in H; inv_ret. by eapply IH.
Qed.

(** The parser is incremental: parsing a buffer in one call, or in two
    calls on any two consecutive pieces of it, gives the same result, parser,
    request and unread input; a piece after the end of the request or after an
    error is not looked at. *)
Theorem parse_app p req a b :
  parse p req (a ++ b) =
    ('(result, p', req', rest) ← parse p req a;
     match result with
     | Indeterminate => parse p' req' b
     | _ => Ret (result, p', req', rest ++ b)
     end).
Proof. by apply parse_app_eq. Qed.

(** The parser reads a prefix: the input left is a suffix of the buffer,
    and only a complete or rejected request leaves any. *)
Theorem parse_rest_suffix p req input result p' req' rest
    (Hparse : parse p req input = Ret (result, p', req', rest)) :
  (exists used, input = used ++ rest) /\ (result = Indeterminate -> rest = []).
Proof.
  revert p req Hparse. induction input as [|c input IH]; intros p req H; simpl in H.
  - inv_ret. split; [by exists []|done].
  - inv_ret. destruct x as [[r1 p1] req1]. destruct r1; simpl in H; inv_ret.
    + split; [by exists [c]|done].
    + split; [by exists [c]|done].
    + destruct (IH _ _ H) as [[used ->] Hr]. split; [by exists (c :: used)|done].
Qed.

Lemma parse_rest_suffix_witness :
  (exists used, lit "GET<" ++ lit "xy" = used ++ lit "xy") /\ (TFalse = Indeterminate -> lit "xy" = []).
Proof.
  apply (parse_rest_suffix (request_parser_new 0) (request_new 0 0) (lit "GET<" ++ lit "xy")
           TFalse (RequestParser 0 method) (with_method (lit "GET") (request_new 0 0)) (lit "xy")).
  vm_compute. reflexivity.
Defined.

(** ** Parsed requests *)

(** C33. What the parser accepts: a completed request has a non-empty method
    made of HTTP token characters, a target without control characters or
    spaces, header names that are non-empty lower-case tokens, header values
    without control characters, non-negative version numbers, and a body of
    exactly [max 0 content-length] bytes, at most 16 MiB. *)
Theorem parse_complete n major minor input p req rest
    (Hparse : parse (request_parser_new n) (request_new major minor) input
              = Ret (TTrue, p, req, rest)) :
  wf_request lower_token req /\ content_ok req.
Proof. exact (parse_inv _ _ _ _ _ _ _ (parser_inv_init n major minor) Hparse). Qed.

Lemma parse_complete_witness :
  let req := Request (lit "PUT") (lit "/upload") 1 0
    [header_pair (lit "content-length") (lit "3")] (lit "abc") [] in
  wf_request lower_token req /\ content_ok req.
Proof.
  intros req.
  apply (parse_complete 9 0 0
    (lit "PUT /upload HTTP/1.0" ++ crlf ++ lit "Content-Length: 3" ++ crlf ++ crlf ++ lit "abcd")
    (RequestParser 0 body) _ (lit "d")).
  vm_compute. reflexivity.
Defined.

(** ** Printing and parsing back *)

(** The wire form of a request, as an HTTP/1.x client sends it. *)
Definition print_header (h : header) : bytes := name_ h ++ lit ": " ++ value_ h ++ crlf.

Definition print_request (req : request) : bytes :=
  req_method req ++ lit " " ++ req_uri req ++ lit " HTTP/" ++
  show_Z (http_version_major req) ++ lit "." ++ show_Z (http_version_minor req) ++ crlf ++
  concat (print_header <$> req_headers req) ++ crlf ++ req_content req.

Definition lower_header (h : header) : header := header_set_name (to_lower_copy (name_ h)) h.
Definition lower_names (req : request) : request :=
  with_headers (lower_header <$> req_headers req) req.

(** [parse] goes from one parser and request to another over [input] without
    completing or rejecting the request. *)
Definition runs (p : request_parser) (req : request) (input : bytes)
    (p' : request_parser) (req' : request) : Prop :=
  forall rest, parse p req (input ++ rest) = parse p' req' rest.

Lemma runs_nil p req : runs p req [] p req.
Proof. done. Qed.

Lemma runs_app p req a p1 req1 b p2 req2 :
  runs p req a p1 req1 -> runs p1 req1 b p2 req2 -> runs p req (a ++ b) p2 req2.
Proof. intros H1 H2 rest. by rewrite <-app_assoc, H1, H2. Qed.

Lemma runs_char p req c p' req' :
  consume p req c = Ret (Indeterminate, p', req') -> runs p req [c] p' req'.
Proof. intros H rest. simpl. by rewrite H. Qed.

(** A run of characters handled alike: [step] is iterated on the request. *)
Lemma runs_many (ok : ascii -> bool) (step : request -> ascii -> request) p req s :
  (forall req' c, ok c = true -> consume p req' c = Ret (Indeterminate, p, step req' c)) ->
  forallb ok s = true ->
  runs p req s p (fold_left step s req).
Proof.
  intros Hstep. revert req. induction s as [|c s IH]; intros req Hs; [apply runs_nil|].
  simpl in Hs. apply andb_true_iff in Hs as [Hc Hs].
  apply (runs_app _ _ [c] p (step req c)); [by apply runs_char, Hstep|]. by apply IH.
Qed.

Section runs.
Variable b : Z.
Abbreviation at_ s := (RequestParser b s).

Lemma is_token_not_token c : is_token c = true -> not_token c = false.
Proof. unfold is_token. by rewrite negb_true_iff. Qed.

Lemma is_token_ne c d : is_token d = false -> is_token c = true -> (c =? d)%char = false.
Proof. intros Hd Hc. apply Ascii.eqb_neq. congruence. Qed.

Lemma runs_method req m :
  m ≠ [] -> forallb is_token m = true ->
  runs (at_ method_start) req (m ++ lit " ") (at_ uri) (with_method (req_method req ++ m) req).
Proof.
  destruct m as [|c m]; [done|]. simpl forallb. intros _ [Hc Hm]%andb_true_iff.
  apply (runs_app _ _ (c :: m) (at_ method) (with_method (req_method req ++ c :: m) req));
    [|by apply runs_char].
  apply (runs_app _ _ [c] (at_ method) (with_method (req_method req ++ [c]) req) m).
  { apply runs_char. unfold consume. simpl. by rewrite is_token_not_token. }
  assert (with_method (req_method req ++ c :: m) req =
    fold_left (fun r c => with_method (req_method r ++ [c]) r) m
      (with_method (req_method req ++ [c]) req)) as ->.
  { replace (req_method req ++ c :: m) with ((req_method req ++ [c]) ++ m)
      by (by rewrite <-app_assoc).
    generalize (req_method req ++ [c]) as a. clear. revert req.
    induction m as [|d m IH]; intros req a; simpl; [by rewrite app_nil_r|].
    rewrite <-IH. by rewrite <-app_assoc. }
  apply (runs_many is_token); [|done]. intros r d Hd. unfold consume. simpl.
  by rewrite (is_token_ne d " "), is_token_not_token.
Qed.

Lemma runs_uri req u :
  forallb uri_char u = true ->
  runs (at_ uri) req (u ++ lit " ") (at_ http_version_h) (with_uri (req_uri req ++ u) req).
Proof.
  intros Hu.
  apply (runs_app _ _ u (at_ uri) (with_uri (req_uri req ++ u) req)); [|by apply runs_char].
  assert (with_uri (req_uri req ++ u) req =
    fold_left (fun r c => with_uri (req_uri r ++ [c]) r) u req) as ->.
  { clear. revert req. induction u as [|d u IH]; intros req; simpl.
    - rewrite app_nil_r. by destruct req.
    - rewrite <-IH. simpl. by rewrite <-app_assoc. }
  apply (runs_many uri_char); [|done]. intros r d. unfold uri_char, consume. simpl.
  rewrite andb_true_iff, !negb_true_iff. by intros [-> ->].
Qed.

Lemma runs_http req :
  runs (at_ http_version_h) req (lit "HTTP/") (at_ http_version_major_start) (with_version 0 0 req).
Proof. intros rest. reflexivity. Qed.

Lemma is_digit_isdigit c : isdigit c = true -> is_digit (char_int c) = true.
Proof.
  assert (forall c, implb (isdigit c) (is_digit (char_int c)) = true) as H
    by (intros d; by_all_chars d).
  intros Hc. specialize (H c). by rewrite Hc in H.
Qed.

Lemma char_int_isdigit c : isdigit c = true -> char_int c = dec_value c + 48.
Proof.
  intros Hc%is_digit_isdigit%is_digit_range. unfold dec_value.
  rewrite char_int_nonneg by lia. lia.
Qed.

Definition digits_from (a : Z) (s : bytes) : Z := fold_left (fun a c => a * 10 + dec_value c) s a.

Lemma digits_from_le a s : 0 <= a -> forallb isdigit s = true -> a <= digits_from a s.
Proof.
  revert a. induction s as [|c s IH]; intros a Ha Hs; simpl in *; [done|].
  apply andb_true_iff in Hs as [Hc Hs]. pose proof (char_int_isdigit c Hc) as Hv.
  apply is_digit_isdigit, is_digit_range in Hc.
  specialize (IH (a * 10 + dec_value c) ltac:(lia) Hs). lia.
Qed.

Lemma push_digit_ret a c s :
  0 <= a -> isdigit c = true -> forallb isdigit s = true -> version_ok (digits_from a (c :: s)) ->
  push_digit a c = Ret (a * 10 + dec_value c) /\ 0 <= a * 10 + dec_value c.
Proof.
  intros Ha Hc Hs [_ Hmax]. simpl in Hmax. pose proof (char_int_isdigit c Hc) as Hv.
  pose proof (is_digit_isdigit c Hc) as Hd. pose proof (is_digit_range c Hd).
  pose proof (digits_from_le (a * 10 + dec_value c) s ltac:(lia) Hs).
  rewrite push_digit_spec; [|unfold version_ok, int_max in *; lia|done].
  rewrite (proj2 (Z.leb_le _ _)) by lia. split; [f_equal|]; lia.
Qed.

(** The four states that read digits, abstractly: [first] reads the first
    digit into the number [set], [next] the others. *)
Lemma runs_number (first next : state) (set : Z -> request) s a :
  (forall a c v, isdigit c = true -> push_digit a c = Ret v ->
     consume (at_ first) (set a) c = Ret (Indeterminate, at_ next, set v)) ->
  (forall a c v, isdigit c = true -> push_digit a c = Ret v ->
     consume (at_ next) (set a) c = Ret (Indeterminate, at_ next, set v)) ->
  s ≠ [] -> 0 <= a -> forallb isdigit s = true -> version_ok (digits_from a s) ->
  runs (at_ first) (set a) s (at_ next) (set (digits_from a s)).
Proof.
  intros Hfirst Hnext. revert first a Hfirst.
  induction s as [|c s IH]; [done|]. intros first a Hfirst _ Ha Hs Hok.
  simpl in Hs. apply andb_true_iff in Hs as [Hc Hs].
  destruct (push_digit_ret a c s Ha Hc Hs Hok) as [Hp Hnn].
  apply (runs_app _ _ [c] (at_ next) (set (a * 10 + dec_value c))); [by apply runs_char, Hfirst|].
  destruct s as [|d s]; [apply runs_nil|]. apply (IH next); done.
Qed.

Lemma show_Z_digits v :
  0 <= v -> forallb isdigit (show_Z v) = true /\ digits_from 0 (show_Z v) = v /\ show_Z v ≠ [].
Proof. intros Hv. unfold show_Z. rewrite (proj2 (Z.ltb_ge _ _)) by lia. by apply show_nonneg_spec. Qed.

Lemma runs_version req major minor :
  version_ok major -> version_ok minor ->
  runs (at_ http_version_major_start) (with_version 0 0 req)
    (show_Z major ++ lit "." ++ show_Z minor ++ crlf)
    (at_ header_line_start) (with_version major minor req).
Proof.
  intros Hmaj Hmin.
  destruct (show_Z_digits major) as (Hd1 & Hv1 & Hn1); [apply Hmaj|].
  destruct (show_Z_digits minor) as (Hd2 & Hv2 & Hn2); [apply Hmin|].
  assert (forall d c, isdigit d = false -> isdigit c = true -> (c =? d)%char = false) as Hne.
  { intros d c ??. apply Ascii.eqb_neq. congruence. }
  apply (runs_app _ _ _ (at_ st_http_version_major) (with_version major 0 req)).
  { rewrite <-Hv1 at 2.
    apply (runs_number _ _ (fun v => with_version v 0 req)); rewrite ?Hv1; try done;
      intros a c v Hc Hp; unfold consume; simpl; rewrite (is_digit_isdigit c Hc);
      rewrite ?(Hne "."%char c) by done; by rewrite Hp. }
  apply (runs_app _ _ (lit ".") (at_ http_version_minor_start) (with_version major 0 req));
    [by apply runs_char|].
  apply (runs_app _ _ _ (at_ st_http_version_minor) (with_version major minor req)).
  { rewrite <-Hv2 at 2.
    apply (runs_number _ _ (fun v => with_version major v req)); rewrite ?Hv2; try done;
      intros a c v Hc Hp; unfold consume; simpl; rewrite (is_digit_isdigit c Hc);
      rewrite ?(Hne cr c) by done; by rewrite Hp. }
  intros rest. reflexivity.
Qed.

Lemma runs_header req h :
  header_ok is_token h ->
  runs (at_ header_line_start) req (print_header h)
    (at_ header_line_start) (with_headers (req_headers req ++ [lower_header h]) req).
Proof.
  destruct h as [n v attrs]. intros [Hne Hn Hv Hattrs]. simpl in *. subst attrs.
  destruct n as [|c n]; [done|]. simpl in Hn. apply andb_true_iff in Hn as [Hc Hn].
  set (with_last h := with_headers (req_headers req ++ [h]) req).
  change (print_header (Header (c :: n) v [])) with ([c] ++ n ++ lit ": " ++ v ++ crlf).
  apply (runs_app _ _ _ (at_ header_name) (with_last (Header [tolower c] [] []))).
  { apply runs_char. unfold consume. simpl.
    rewrite (is_token_ne c cr), (is_token_ne c " "), (is_token_ne c tab) by done. simpl.
    rewrite andb_false_r, is_token_not_token by done. rewrite update_back_app. done. }
  apply (runs_app _ _ _ (at_ header_name) (with_last (Header (to_lower_copy (c :: n)) [] []))).
  { assert (with_last (Header (to_lower_copy (c :: n)) [] []) =
      fold_left (fun r c => default r ((fun hs => with_headers hs r) <$>
          update_back (header_name_char (tolower c)) (req_headers r))) n
        (with_last (Header [tolower c] [] []))) as ->.
    { change (to_lower_copy (c :: n)) with ([tolower c] ++ to_lower_copy n).
      generalize [tolower c] as a. clear. induction n as [|d n IH]; intros a; simpl.
      - by rewrite app_nil_r.
      - rewrite update_back_app. simpl. rewrite cons_middle, app_assoc. apply IH. }
    (* the current header is always the last one *)
    cut (forall s a, forallb is_token s = true ->
      runs (at_ header_name) (with_last (Header a [] [])) s (at_ header_name)
        (fold_left (fun r c => default r ((fun hs => with_headers hs r) <$>
          update_back (header_name_char (tolower c)) (req_headers r))) s
        (with_last (Header a [] [])))); [by auto|].
    induction s as [|d s IH]; intros a Hs; [apply runs_nil|].
    simpl in Hs. apply andb_true_iff in Hs as [Hd Hs]. simpl fold_left.
    apply (runs_app _ _ [d] (at_ header_name) (with_last (Header (a ++ [tolower d]) [] []))).
    - apply runs_char. unfold consume. simpl.
      rewrite (is_token_ne d ":"), is_token_not_token by done. by rewrite update_back_app.
    - rewrite update_back_app. by apply IH. }
  apply (runs_app _ _ (lit ": ") (at_ header_value) (with_last (Header (to_lower_copy (c :: n)) [] [])));
    [by intros rest|].
  apply (runs_app _ _ v (at_ header_value) (with_last (Header (to_lower_copy (c :: n)) v [])));
    [|by intros rest].
  change v with ([] ++ v) at 2. generalize (to_lower_copy (c :: n)) as m. intros m.
  generalize ([] : bytes) as a. revert Hv. clear -b.
  induction v as [|d v IH]; intros Hv a; [rewrite app_nil_r; apply runs_nil|].
  simpl in Hv. apply andb_true_iff in Hv as [Hd Hv].
  apply (runs_app _ _ [d] (at_ header_value) (with_last (Header m (a ++ [d]) []))).
  - apply runs_char. unfold consume. simpl.
    assert ((d =? cr)%char = false) as -> by (apply Ascii.eqb_neq; by intros ->).
    unfold value_char in Hd. rewrite negb_true_iff in Hd. rewrite Hd. by rewrite update_back_app.
  - replace (a ++ d :: v) with ((a ++ [d]) ++ v) by (by rewrite <-app_assoc). by apply IH.
Qed.

Lemma runs_headers req hs :
  Forall (header_ok is_token) hs ->
  runs (at_ header_line_start) req (concat (print_header <$> hs))
    (at_ header_line_start) (with_headers (req_headers req ++ (lower_header <$> hs)) req).
Proof.
  intros H. revert req. induction H as [|h hs Hh _ IH]; intros req; simpl.
  - rewrite app_nil_r. destruct req. apply runs_nil.
  - eapply runs_app; [by apply runs_header|].
    specialize (IH (with_headers (req_headers req ++ [lower_header h]) req)).
    simpl in IH. by rewrite <-app_assoc in IH.
Qed.
End runs.

(** The body is read to its last character, which completes the request. *)
Lemma parse_body n req s rest :
  s ≠ [] -> n = Z.of_nat (length s) -> n <= max_content ->
  exists p, parse (RequestParser n body) req (s ++ rest) =
    Ret (TTrue, p, with_content (req_content req ++ s) req, rest).
Proof.
  revert n req. induction s as [|c s IH]; [done|]. intros n req _ -> Hmax.
  unfold max_content in Hmax. cbn [length] in *. rewrite Nat2Z.inj_succ in *.
  simpl parse. unfold consume. simpl. rewrite u32_small by lia.
  destruct (Z.eqb_spec (Z.succ (Z.of_nat (length s)) - 1) 0) as [H0|H0].
  - destruct s; [|simpl in H0; lia]. simpl. by eexists.
  - simpl. destruct s as [|d s]; [simpl in H0; lia|].
    destruct (IH (Z.succ (Z.of_nat (length (d :: s))) - 1)
      (with_content (req_content req ++ [c]) req)) as [p Hp]; [done|lia|unfold max_content; lia|].
    exists p. rewrite Hp. simpl. by rewrite <-app_assoc.
Qed.

Lemma header_ok_lower h : header_ok lower_token h -> lower_header h = h /\ header_ok is_token h.
Proof.
  destruct h as [n v attrs]. intros [Hne Hn Hv Ha]. simpl in *.
  assert (to_lower_copy n = n /\ forallb is_token n = true) as [Hl Ht].
  { clear Hne. induction n as [|c n IH]; simpl in *; [done|].
    apply andb_true_iff in Hn as [[Hc1 Hc2%Ascii.eqb_eq]%andb_true_iff Hn].
    destruct (IH Hn) as [-> ->]. by rewrite Hc1, Hc2. }
  split; [|by constructor]. unfold lower_header, header_set_name. simpl. by rewrite Hl.
Qed.

Lemma parse_printed n major minor req rest :
  wf_request is_token req -> content_ok (lower_names req) ->
  exists p, parse (request_parser_new n) (request_new major minor) (print_request req ++ rest)
            = Ret (TTrue, p, lower_names req, rest).
Proof.
  intros Hwf Hbody. destruct req as [m u maj min hs c q]. destruct Hwf as [Hmn Hm Hu Hmaj Hmin Hhs Hq].
  simpl in *. subst q. unfold print_request. cbn [req_method req_uri http_version_major
    http_version_minor req_headers req_content].
  change (request_parser_new n) with (RequestParser n method_start).
  rewrite app_assoc, <-(app_assoc (m ++ _)), (runs_method n _ m Hmn Hm).
  change (u ++ lit " HTTP/" ++ ?x) with (u ++ lit " " ++ lit "HTTP/" ++ x).
  rewrite (app_assoc u), <-(app_assoc (u ++ _)), (runs_uri n _ u Hu).
  rewrite <-(app_assoc (lit "HTTP/")), runs_http.
  rewrite (app_assoc (show_Z min)), (app_assoc (lit ".")), (app_assoc (show_Z maj)).
  rewrite <-(app_assoc (show_Z maj ++ _)), (runs_version n _ maj min Hmaj Hmin).
  rewrite <-(app_assoc (concat _)), (runs_headers n _ hs Hhs). simpl.
  destruct Hbody as (clen & Hclen & Hmax & Hlen). unfold get_header in *. simpl in *.
  unfold consume, get_header. simpl. rewrite Hclen. simpl. destruct (Z.ltb_spec 0 clen).
  - rewrite (proj2 (Z.ltb_ge _ _)) by lia. simpl.
    edestruct (parse_body clen) as [p Hp]; [| | |exists p; rewrite Hp; done]; [|lia|lia].
    intros ->. simpl in Hlen. lia.
  - destruct c; [by eexists|simpl in Hlen; lia].
Qed.

(** C24. Round trip: the parser, started fresh, reads a printed well-formed
    request back, header names lower-cased, and leaves what follows it
    untouched. The [content-length] of the request must announce its body. *)
Theorem parse_print_request n major minor req rest
    (Hwf : wf_request is_token req)
    (Hbody : content_ok (lower_names req)) :
  exists p, parse (request_parser_new n) (request_new major minor) (print_request req ++ rest)
            = Ret (TTrue, p, lower_names req, rest).
Proof. by apply parse_printed. Qed.

Definition sample_request : request :=
  Request (lit "PUT") (lit "/upload") 1 1
    [header_pair (lit "Host") (lit "blobs"); header_pair (lit "Content-Length") (lit "4")]
    (lit "data") [].

Lemma parse_print_request_witness :
  exists p, parse (request_parser_new 5) (request_new 2 3) (print_request sample_request ++ lit "GET")
            = Ret (TTrue, p, lower_names sample_request, lit "GET").
Proof.
  apply (parse_print_request 5 2 3 sample_request (lit "GET")).
  - constructor; try reflexivity; try discriminate; try (split; discriminate).
    repeat constructor; discriminate.
  - exists 4. split; [reflexivity|]. split; [discriminate|reflexivity].
Defined.
