(* ===== verification/MimeTypes.v ===== *)
(** * MIME types

    [http::server3::mime_types] ([mime_types.cpp]): a table of extensions,
    ended in the source by a null entry and here by the end of the list. *)

From S2P Require Import Prelude CppString.

Definition mappings : list (bytes * bytes) :=
  [ (lit "gif", lit "image/gif");
    (lit "htm", lit "text/html");
    (lit "html", lit "text/html");
    (lit "jpg", lit "image/jpeg");
    (lit "png", lit "image/png");
    (lit "css", lit "text/css") ].

Fixpoint lookup_extension (ms : list (bytes * bytes)) (extension : bytes) : bytes :=
  match ms with
  | [] => lit "text/plain"
  | (ext, mime) :: ms' =>
      if bool_decide (ext = extension) then mime else lookup_extension ms' extension
  end.

Definition extension_to_type (extension : bytes) : bytes := lookup_extension mappings extension.

Lemma extension_to_type_cases ext :
  (exists mime, (ext, mime) ∈ mappings /\ extension_to_type ext = mime) \/
  ((ext ∉ mappings.*1) /\ extension_to_type ext = lit "text/plain").
Proof.
  unfold extension_to_type. induction mappings as [|[e m] ms IH]; simpl.
  - right. split; [apply not_elem_of_nil|done].
  - case_bool_decide; subst.
    + left. exists m. split; [left|done].
    + destruct IH as [(mime & ? & ?)|[? ?]].
      * left. exists mime. split; [by right|done].
      * right. split; [|done]. apply not_elem_of_cons. split; [congruence|done].
Qed.
