(* ===== verification/Reply.v ===== *)
(** * HTTP replies

    [http::server3::reply] ([reply.hpp], [reply.cpp]): the status lines, the
    stock replies, and the buffers a reply is written from.

    A buffer of Boost.Asio does not own its bytes. Each buffer of
    [to_buffers] records the object that does: a constant of the program, the
    [content] member of the reply, or the temporary [std::string] that
    [header::name()] and [header::value()] return by value, which is destroyed
    at the end of the statement that made the buffer. The language gives a read of
    a destroyed string no meaning, [Undefined]; what a machine finds there is a
    [Memory]. *)

From S2P Require Import Prelude CppString Http.

Local Open Scope Z_scope.

Module reply.

Inductive status_type : Type :=
| ok | created | accepted | no_content | multiple_choices | moved_permanently
| moved_temporarily | not_modified | bad_request | unauthorized | forbidden | not_found
| internal_server_error | not_implemented | bad_gateway | service_unavailable.

#[export] Instance status_type_eq_dec : EqDecision status_type.
Proof. solve_decision. Defined.

(** The value of the enumerator. *)
Definition status_value (s : status_type) : Z :=
  match s with
  | ok => 200 | created => 201 | accepted => 202 | no_content => 204
  | multiple_choices => 300 | moved_permanently => 301 | moved_temporarily => 302
  | not_modified => 304 | bad_request => 400 | unauthorized => 401 | forbidden => 403
  | not_found => 404 | internal_server_error => 500 | not_implemented => 501
  | bad_gateway => 502 | service_unavailable => 503
  end.

Record reply : Type := Reply {
  status : status_type;
  headers : list header;
  content : bytes;
}.

(** [status_strings::to_buffer] *)
Definition status_string (s : status_type) : bytes :=
  (match s with
   | ok => lit "HTTP/1.0 200 OK"
   | created => lit "HTTP/1.0 201 Created"
   | accepted => lit "HTTP/1.0 202 Accepted"
   | no_content => lit "HTTP/1.0 204 No Content"
   | multiple_choices => lit "HTTP/1.0 300 Multiple Choices"
   | moved_permanently => lit "HTTP/1.0 301 Moved Permanently"
   | moved_temporarily => lit "HTTP/1.0 302 Moved Temporarily"
   | not_modified => lit "HTTP/1.0 304 Not Modified"
   | bad_request => lit "HTTP/1.0 400 Bad Request"
   | unauthorized => lit "HTTP/1.0 401 Unauthorized"
   | forbidden => lit "HTTP/1.0 403 Forbidden"
   | not_found => lit "HTTP/1.0 404 Not Found"
   | internal_server_error => lit "HTTP/1.0 500 Internal Server Error"
   | not_implemented => lit "HTTP/1.0 501 Not Implemented"
   | bad_gateway => lit "HTTP/1.0 502 Bad Gateway"
   | service_unavailable => lit "HTTP/1.0 503 Service Unavailable"
   end) ++ crlf.

Definition name_value_separator : bytes := [":"%char; " "%char].

(** A page of [stock_replies]. *)
Definition page (title h1 : bytes) : bytes :=
  lit "<html>" ++ lit "<head><title>" ++ title ++ lit "</title></head>" ++
  lit "<body><h1>" ++ h1 ++ lit "</h1></body>" ++ lit "</html>".

(** [stock_replies::to_string] *)
Definition stock_content (s : status_type) : bytes :=
  match s with
  | ok => []
  | created => page (lit "Created") (lit "201 Created")
  | accepted => page (lit "Accepted") (lit "202 Accepted")
  | no_content => page (lit "No Content") (lit "204 Content")
  | multiple_choices => page (lit "Multiple Choices") (lit "300 Multiple Choices")
  | moved_permanently => page (lit "Moved Permanently") (lit "301 Moved Permanently")
  | moved_temporarily => page (lit "Moved Temporarily") (lit "302 Moved Temporarily")
  | not_modified => page (lit "Not Modified") (lit "304 Not Modified")
  | bad_request => page (lit "Bad Request") (lit "400 Bad Request")
  | unauthorized => page (lit "Unauthorized") (lit "401 Unauthorized")
  | forbidden => page (lit "Forbidden") (lit "403 Forbidden")
  | not_found => page (lit "Not Found") (lit "404 Not Found")
  | internal_server_error => page (lit "Internal Server Error") (lit "500 Internal Server Error")
  | not_implemented => page (lit "Not Implemented") (lit "501 Not Implemented")
  | bad_gateway => page (lit "Bad Gateway") (lit "502 Bad Gateway")
  | service_unavailable => page (lit "Service Unavailable") (lit "503 Service Unavailable")
  end.

(** [Content-Length] as every handler writes it. *)
Definition content_length (body : bytes) : header :=
  header_pair (lit "Content-Length") (show_Z (Z.of_nat (length body))).

Definition stock_reply (s : status_type) : reply :=
  let body := stock_content s in
  Reply s [content_length body; header_pair (lit "Content-Type") (lit "text/html")] body.

(** ** Buffers *)

Inductive const_buffer : Type :=
| static_buffer (data : bytes)      (* a constant with static storage *)
| content_buffer (size : nat)       (* the reply's content member *)
| temporary_buffer (data : bytes).  (* a string returned by value *)

Definition header_buffers (h : header) : list const_buffer :=
  [temporary_buffer (name_ h); static_buffer name_value_separator;
   temporary_buffer (value_ h); static_buffer crlf].

Definition to_buffers (r : reply) : list const_buffer :=
  static_buffer (status_string (status r)) ::
  concat (header_buffers <$> headers r) ++
  [static_buffer crlf; content_buffer (length (content r))].

(** The bytes a buffer was made from, while its owner is alive. *)
Definition buffer_source (r : reply) (b : const_buffer) : bytes :=
  match b with
  | static_buffer d | temporary_buffer d => d
  | content_buffer n => take n (content r)
  end.

(** What a read finds where a string was, if anything: a buffer has a size. *)
Record Memory : Type := MkMemory {
  dead : bytes -> option bytes;
  dead_length : forall d x, dead d = Some x -> length x = length d;
}.

(** What the language promises. *)
Definition destroyed : Memory.
Proof. by refine (MkMemory (fun _ => None) _). Defined.

(** Nothing has been written over the strings. *)
Definition intact : Memory.
Proof. refine (MkMemory Some _). by intros d x [= ->]. Defined.

(** What a write operation reads from a buffer once [to_buffers] returned. *)
Definition read_buffer (m : Memory) (r : reply) (b : const_buffer) : outcome bytes :=
  match b with
  | static_buffer d => Ret d
  | content_buffer n => Ret (take n (content r))
  | temporary_buffer d => or_undefined (dead m d)
  end.

Fixpoint write_buffers (m : Memory) (r : reply) (bs : list const_buffer) : outcome bytes :=
  match bs with
  | [] => Ret []
  | b :: bs' => d ← read_buffer m r b; ds ← write_buffers m r bs'; Ret (d ++ ds)
  end.

(** The message the reply stands for (RFC 1945, section 6). *)
Definition print_header_line (h : header) : bytes := name_ h ++ lit ": " ++ value_ h ++ crlf.

Definition print_reply (r : reply) : bytes :=
  status_string (status r) ++ concat (print_header_line <$> headers r) ++ crlf ++ content r.

(** ** Properties *)

(** Every status line is [HTTP/1.0], a space, the enumerator's value, a
    reason phrase, and CR LF; and every stock reply announces its status and
    the exact length of its content. *)
Theorem stock_reply_consistent s :
  (exists reason, status_string s = lit "HTTP/1.0 " ++ show_Z (status_value s) ++ lit " " ++ reason ++ crlf) /\
  status (stock_reply s) = s /\
  find_header (headers (stock_reply s)) (lit "Content-Length")
    = show_Z (Z.of_nat (length (content (stock_reply s)))) /\
  find_header (headers (stock_reply s)) (lit "Content-Type") = lit "text/html".
Proof.
  split; [|by destruct s].
  exists (drop 13 (take (length (status_string s) - 2) (status_string s))).
  destruct s; vm_compute; reflexivity.
Qed.

Lemma header_buffers_source r hs :
  concat (buffer_source r <$> concat (header_buffers <$> hs)) = concat (print_header_line <$> hs).
Proof.
  induction hs as [|h hs IH]; [done|]. rewrite !fmap_cons. cbn [concat].
  rewrite fmap_app, concat_app, IH. unfold print_header_line. simpl.
  by rewrite <-!app_assoc.
Qed.

(** The buffers of a reply, in order and read while the strings they were
    made from exist, are its HTTP message: status line, one line per header,
    blank line, content. *)
Theorem to_buffers_message r :
  concat (buffer_source r <$> to_buffers r) = print_reply r.
Proof.
  unfold to_buffers, print_reply. rewrite fmap_cons. cbn [concat buffer_source]. f_equal.
  rewrite fmap_app, concat_app, header_buffers_source. f_equal. simpl.
  by rewrite firstn_all, app_nil_r.
Qed.

Lemma write_buffers_app m r bs1 bs2 :
  write_buffers m r (bs1 ++ bs2) = (d ← write_buffers m r bs1; ds ← write_buffers m r bs2; Ret (d ++ ds)).
Proof.
  induction bs1 as [|b bs1 IH]; [cbn [app write_buffers]; rewrite outcome_bind_ret; by destruct (write_buffers m r bs2)|].
  cbn [app write_buffers]. rewrite IH. destruct (read_buffer m r b) as [d| | |]; try done. rewrite !outcome_bind_ret, !outcome_bind_assoc.
  destruct (write_buffers m r bs1) as [x| | |]; try done. rewrite !outcome_bind_ret. destruct (write_buffers m r bs2); try done.
  rewrite !outcome_bind_ret. by rewrite app_assoc.
Qed.

(** The write that follows reads the buffers after [to_buffers] returned: by the
    language it is defined, and sends the message, exactly for replies without
    headers; one header is enough for it to read a destroyed string. *)
Theorem write_reply r :
  write_buffers destroyed r (to_buffers r) =
    match headers r with [] => Ret (print_reply r) | _ :: _ => Undefined end.
Proof.
  unfold to_buffers, print_reply. destruct (headers r) as [|h hs]; simpl; [|done].
  by rewrite firstn_all, app_nil_r.
Qed.

(** Without headers, whatever the memory holds. *)
Lemma write_bare m r : headers r = [] -> write_buffers m r (to_buffers r) = Ret (print_reply r).
Proof. intros H. unfold to_buffers, print_reply. rewrite H. simpl. by rewrite firstn_all, app_nil_r. Qed.

Lemma write_header m r h : write_buffers m r (header_buffers h) =
  (n ← or_undefined (dead m (name_ h)); v ← or_undefined (dead m (value_ h)); Ret (n ++ lit ": " ++ v ++ crlf)).
Proof.
  unfold header_buffers. cbn [write_buffers read_buffer]. destruct (dead m (name_ h)) as [n|]; [|done]. cbn [or_undefined].
  rewrite !outcome_bind_ret. by destruct (dead m (value_ h)).
Qed.

(** The message, when the strings of the headers are still there. *)
Lemma write_intact m r : Forall (fun h => dead m (name_ h) = Some (name_ h) /\ dead m (value_ h) = Some (value_ h)) (headers r) ->
  write_buffers m r (to_buffers r) = Ret (print_reply r).
Proof.
  intros Hm. unfold to_buffers, print_reply. cbn [write_buffers read_buffer]. rewrite outcome_bind_ret, write_buffers_app.
  assert (write_buffers m r (concat (header_buffers <$> headers r)) = Ret (concat (print_header_line <$> headers r))) as ->.
  { induction Hm as [|h hs [Hn Hv] _ IH]; [done|]. rewrite !fmap_cons. cbn [concat]. rewrite write_buffers_app, IH.
    rewrite write_header, Hn, Hv. cbn [or_undefined]. rewrite !outcome_bind_ret. unfold print_header_line. done. }
  cbn [write_buffers read_buffer]. by rewrite !outcome_bind_ret, firstn_all, app_nil_r.
Qed.

(** Whatever the memory holds, a message that is sent has the status line, the
    content and the length of the reply: only the header lines can be wrong. *)
Lemma write_frame m r out_ : write_buffers m r (to_buffers r) = Ret out_ ->
  exists lines, out_ = status_string (status r) ++ lines ++ crlf ++ content r /\ length lines = length (concat (print_header_line <$> headers r)).
Proof.
  unfold to_buffers. cbn [write_buffers read_buffer]. rewrite outcome_bind_ret, write_buffers_app.
  destruct (write_buffers m r (concat _)) as [lines| | |] eqn:E; try done. cbn [write_buffers read_buffer]. rewrite !outcome_bind_ret, firstn_all, app_nil_r.
  intros [= <-]. exists lines. split; [done|]. revert lines E. induction (headers r) as [|h hs IH]; intros lines; [by intros [= <-]|].
  rewrite !fmap_cons. cbn [concat]. rewrite write_buffers_app, write_header.
  destruct (dead m (name_ h)) as [n|] eqn:En; [|done]. destruct (dead m (value_ h)) as [v|] eqn:Ev; [|done]. cbn [or_undefined]. rewrite !outcome_bind_ret.
  destruct (write_buffers m r (concat _)) as [ls| | |]; try done. rewrite outcome_bind_ret. intros [= <-].
  apply dead_length in En, Ev. rewrite !length_app, (IH ls eq_refl). unfold print_header_line. rewrite !length_app. cbn [length]. rewrite ?length_app, En, Ev. change (length (lit ": ")) with 2%nat. lia.
Qed.

(** It fails only by reading a string that memory no longer has. *)
Lemma write_buffers_outcome m r bs :
  match write_buffers m r bs with
  | Ret _ => True
  | Undefined => exists d, temporary_buffer d ∈ bs /\ dead m d = None
  | _ => False
  end.
Proof.
  induction bs as [|b bs IH]; [done|]. cbn [write_buffers].
  assert (match write_buffers m r bs with Ret _ => True | Undefined => exists d, temporary_buffer d ∈ b :: bs /\ dead m d = None | _ => False end) as IH'.
  { destruct (write_buffers m r bs); try done. destruct IH as (d & Hd & Hm). exists d. split; [by constructor|done]. }
  destruct b as [d|n|d]; cbn [read_buffer]; [..|destruct (dead m d) eqn:E; cbn [or_undefined]; [|exists d; by split; [constructor|]]];
    rewrite outcome_bind_ret; by destruct (write_buffers m r bs).
Qed.

Lemma to_buffers_temporary r d : temporary_buffer d ∈ to_buffers r -> exists h, h ∈ headers r /\ (d = name_ h \/ d = value_ h).
Proof.
  unfold to_buffers. intros [?|[Hd|Hd]%elem_of_app]%elem_of_cons; [done| |by apply elem_of_cons in Hd as [?|?%list_elem_of_singleton]].
  apply list_elem_of_In, in_concat in Hd as (bs & (h & <- & Hh)%in_map_iff & Hb). exists h. split; [by apply list_elem_of_In|].
  destruct Hb as [[= <-]|[?|[[= <-]|[?|[]]]]]; [by left|done|by right|done].
Qed.

End reply.
