(* ===== verification/Config.v ===== *)
(** * Configuration

    [blobserver::SyncConfig] and [blobserver::Config] ([Config.hpp],
    [Config.cpp]), with [ENABLE_STATIC] on, as the build sets it. *)

From S2P Require Import Prelude CppString.

Local Open Scope Z_scope.

Inductive SyncMode : Type := mode_get | mode_send | mode_get_and_send.

#[export] Instance SyncMode_eq_dec : EqDecision SyncMode.
Proof. solve_decision. Defined.

(** The enumerator's value. *)
Definition SyncMode_value (m : SyncMode) : Z :=
  match m with mode_get => 1 | mode_send => 2 | mode_get_and_send => 4 end.

Record SyncConfig : Type := SyncConfig_mode { host_ : bytes; mode_ : SyncMode }.

(** [SyncConfig(host)] *)
Definition SyncConfig_new (host : bytes) : SyncConfig := SyncConfig_mode host mode_get_and_send.

Definition sync_get (s : SyncConfig) : bool :=
  bool_decide (mode_ s = mode_get) || bool_decide (mode_ s = mode_get_and_send).

Definition sync_send (s : SyncConfig) : bool :=
  bool_decide (mode_ s = mode_send) || bool_decide (mode_ s = mode_get_and_send).

Record Config : Type := MkConfig {
  directory : bytes;
  ip : bytes;
  port : bytes;
  threads : Z;
  validate : bool;
  sync_delay : Z;
  sync_servers : list SyncConfig;
  static_directory : bytes;
}.

(** [Config()] *)
Definition Config_new : Config :=
  MkConfig (lit "/tmp/") (lit "0.0.0.0") (lit "8080") 2 true 60 [] [].

Definition set_directory (d : bytes) (c : Config) : Config :=
  MkConfig d (ip c) (port c) (threads c) (validate c) (sync_delay c) (sync_servers c) (static_directory c).
Definition set_ip (i : bytes) (c : Config) : Config :=
  MkConfig (directory c) i (port c) (threads c) (validate c) (sync_delay c) (sync_servers c) (static_directory c).
Definition set_port (p : bytes) (c : Config) : Config :=
  MkConfig (directory c) (ip c) p (threads c) (validate c) (sync_delay c) (sync_servers c) (static_directory c).
Definition set_threads (n : Z) (c : Config) : Config :=
  MkConfig (directory c) (ip c) (port c) n (validate c) (sync_delay c) (sync_servers c) (static_directory c).
Definition set_validate (v : bool) (c : Config) : Config :=
  MkConfig (directory c) (ip c) (port c) (threads c) v (sync_delay c) (sync_servers c) (static_directory c).
Definition set_sync_delay (n : Z) (c : Config) : Config :=
  MkConfig (directory c) (ip c) (port c) (threads c) (validate c) n (sync_servers c) (static_directory c).

(** [sync_servers(v)] appends; it does not replace. *)
Definition add_sync_servers (hosts : list bytes) (c : Config) : Config :=
  MkConfig (directory c) (ip c) (port c) (threads c) (validate c) (sync_delay c)
    (sync_servers c ++ (SyncConfig_new <$> hosts)) (static_directory c).

Definition set_static_directory (d : bytes) (c : Config) : Config :=
  MkConfig (directory c) (ip c) (port c) (threads c) (validate c) (sync_delay c) (sync_servers c) d.

(** Servers configured on the command line are synchronised both ways. *)
Lemma add_sync_servers_both hosts c s :
  s ∈ sync_servers (add_sync_servers hosts c) -> s ∈ sync_servers c \/
  (sync_get s = true /\ sync_send s = true /\ host_ s ∈ hosts).
Proof.
  simpl. rewrite elem_of_app, list_elem_of_fmap. intros [?|(h & -> & ?)]; [by left|by right].
Qed.
