(* ===== verification/Hash.v ===== *)
(** * Digests

    [Hash.hpp], [Hash.cpp]. Crypto++ is outside the repository: its SHA-1 and
    SHA-256, followed by the [HexEncoder], are the parameter [Digest], with
    the documented facts about the encoder's output (upper-case hexadecimal,
    two digits per byte of the digest).

    [StringSource(s, true, ...)] given a [const char*] pumps the C string at
    [s], so [Sha1] and [Sha256] hash the bytes before the first NUL and never
    read their [len] argument. *)

From S2P Require Import Prelude CppString.

Definition is_hex_upper (c : ascii) : bool :=
  isdigit c || ((65 <=? char_uint c) && (char_uint c <=? 70))%Z.

Class Digest : Type := {
  sha1_hex : bytes -> bytes;
  sha256_hex : bytes -> bytes;
  sha1_hex_length s : length (sha1_hex s) = 40%nat;
  sha256_hex_length s : length (sha256_hex s) = 64%nat;
  sha1_hex_digits s : forallb is_hex_upper (sha1_hex s) = true;
  sha256_hex_digits s : forallb is_hex_upper (sha256_hex s) = true;
}.

Inductive HashType : Type := sha1 | sha256.

Definition HashType_value (h : HashType) : Z := match h with sha1 => 1 | sha256 => 2 end.

(** [hash_type_for_name] and [name_for_hash_type] are stubs in the source. *)
Definition hash_type_for_name (hash_type_name : bytes) : option HashType := None.
Definition name_for_hash_type (hash_type : HashType) : option bytes := None.

Section hash.
Context {digest : Digest}.

Definition Sha1 (s : bytes) (len : nat) : bytes := sha1_hex (c_str s).
Definition Sha256 (s : bytes) (len : nat) : bytes := sha256_hex (c_str s).

(** The digests ignore everything from the first NUL byte on: contents
    with the same prefix before it are hashed alike, whatever the hash
    function and whatever length is passed. *)
Theorem digest_nul_truncation s a b n m (Hs : nul ∉ s) :
  Sha1 (s ++ nul :: a) n = Sha1 (s ++ nul :: b) m /\
  Sha256 (s ++ nul :: a) n = Sha256 (s ++ nul :: b) m.
Proof. unfold Sha1, Sha256. by rewrite !c_str_app_nul by done. Qed.

Lemma Sha1_length s n : length (Sha1 s n) = 40%nat.
Proof. apply sha1_hex_length. Qed.
Lemma Sha256_length s n : length (Sha256 s n) = 64%nat.
Proof. apply sha256_hex_length. Qed.
End hash.

#[export] Hint Resolve Sha1_length Sha256_length : blob.

(** ** A concrete digest, for examples

    Not cryptographic: the hexadecimal text of the bytes, cut or padded with
    zeros to the digest's width. *)
Definition toy_hex (width : nat) (s : bytes) : bytes :=
  take width (concat (hex_byte <$> s) ++ replicate width "0"%char).

Lemma toy_hex_length w s : length (toy_hex w s) = w.
Proof. unfold toy_hex. rewrite length_take, length_app, length_replicate. lia. Qed.

Lemma forallb_take (f : ascii -> bool) n s : forallb f s = true -> forallb f (take n s) = true.
Proof.
  revert n. induction s as [|c s IH]; intros [|n]; simpl; try done.
  intros [-> H]%andb_true_iff. by apply IH.
Qed.

Lemma hex_byte_digits c : forallb is_hex_upper (hex_byte c) = true.
Proof. by_all_chars c. Qed.

Lemma toy_hex_digits w s : forallb is_hex_upper (toy_hex w s) = true.
Proof.
  apply forallb_take. rewrite forallb_app. apply andb_true_iff. split.
  - induction s as [|c s IH]; [done|]. rewrite fmap_cons. cbn [concat].
    by rewrite forallb_app, hex_byte_digits, IH.
  - by induction w.
Qed.

Definition toy_digest : Digest := {|
  sha1_hex := toy_hex 40;
  sha256_hex := toy_hex 64;
  sha1_hex_length := toy_hex_length 40;
  sha256_hex_length := toy_hex_length 64;
  sha1_hex_digits := toy_hex_digits 40;
  sha256_hex_digits := toy_hex_digits 64;
|}.

Lemma digest_nul_truncation_witness :
  let D := toy_digest in
  Sha1 (lit "ab" ++ nul :: lit "x") 4 = Sha1 (lit "ab" ++ nul :: lit "yy") 5 /\
  Sha256 (lit "ab" ++ nul :: lit "x") 4 = Sha256 (lit "ab" ++ nul :: lit "yy") 5.
Proof.
  intros D. apply (digest_nul_truncation (lit "ab") (lit "x") (lit "yy") 4 5).
  apply (bool_decide_eq_true_1 _). vm_compute. reflexivity.
Defined.
