(* ===== verification/BlobKey.v ===== *)
(** * Blob keys

    [blobserver::BlobKey] ([BlobKey.hpp], [BlobKey.cpp]): the pair of a
    digest's name and value, its order in the index, its textual form
    [type-value] and the parser of that form. *)

From S2P Require Import Prelude CppString StdMap.

Local Open Scope Z_scope.

Record BlobKey : Type := MkBlobKey { hash_type : bytes; hash_value : bytes }.

#[export] Instance BlobKey_eq_dec : EqDecision BlobKey.
Proof. solve_decision. Defined.

(** [operator<] *)
Definition BlobKey_ltb (mk1 mk2 : BlobKey) : bool :=
  if bool_decide (hash_type mk1 ≠ hash_type mk2) then bytes_ltb (hash_type mk1) (hash_type mk2)
  else bytes_ltb (hash_value mk1) (hash_value mk2).

(** [cmpr_BlobKey] *)
Definition cmpr_BlobKey (mk1 mk2 : BlobKey) : bool :=
  bool_decide (hash_type mk1 = hash_type mk2) && bool_decide (hash_value mk1 = hash_value mk2).

Definition blobref (k : BlobKey) : bytes := hash_type k ++ lit "-" ++ hash_value k.

(** [create_blob_key]: the position is kept in an [unsigned], 32 bits wide,
    and compared with the 64-bit [std::string::npos]. *)
Definition create_blob_key (hash : bytes) : outcome (option BlobKey) :=
  let split_pos := u32 (str_find hash (lit "-")) in
  if negb (split_pos =? npos) then
    hash_type ← substr hash 0 split_pos;
    encoded_hash ← substr hash (u32 (split_pos + 1)) npos;
    Ret (Some (MkBlobKey hash_type encoded_hash))
  else Ret None.

Lemma BlobKey_ltb_irrefl k : BlobKey_ltb k k = false.
Proof. unfold BlobKey_ltb. case_bool_decide; [done|]. apply bytes_ltb_irrefl. Qed.

Lemma BlobKey_ltb_trans a b c :
  BlobKey_ltb a b = true -> BlobKey_ltb b c = true -> BlobKey_ltb a c = true.
Proof.
  unfold BlobKey_ltb. destruct a as [ta va], b as [tb vb], c as [tc vc]; simpl.
  repeat case_bool_decide; simplify_eq; eauto using bytes_ltb_trans; try congruence.
  intros H1' H2'. pose proof (bytes_ltb_trans _ _ _ H1' H2') as F. subst.
  by rewrite bytes_ltb_irrefl in F.
Qed.

Lemma BlobKey_ltb_total a b : BlobKey_ltb a b = false -> BlobKey_ltb b a = false -> a = b.
Proof.
  unfold BlobKey_ltb. destruct a as [ta va], b as [tb vb]; simpl.
  repeat case_bool_decide; try congruence.
  - intros. exfalso. by apply H, bytes_ltb_total.
  - intros. simplify_eq. f_equal. by apply bytes_ltb_total.
Qed.

(** The order of [std::map<BlobKey, Blob*>]. *)
#[export] Instance BlobKey_order : StrictTotalOrder BlobKey_ltb.
Proof. apply strict_total_order; eauto using BlobKey_ltb_irrefl, BlobKey_ltb_trans, BlobKey_ltb_total. Qed.

Lemma create_blob_key_eq hash :
  Z.of_nat (length hash) < 2 ^ 32 ->
  create_blob_key hash = Ret (Some
    match find_nat hash (lit "-") with
    | Some n => MkBlobKey (take n hash) (drop (S n) hash)
    | None => MkBlobKey hash hash
    end).
Proof.
  intros Hlen.   unfold create_blob_key. rewrite u32_npos_ne. simpl negb. cbv iota.
  unfold str_find. destruct (find_nat hash (lit "-")) as [n|] eqn:E.
  - pose proof (find_nat_bound _ _ _ E) as Hb. change (length (lit "-")) with 1%nat in Hb.
    rewrite (u32_small (Z.of_nat n)) by lia. rewrite u32_small by lia.
    rewrite substr_prefix by lia. simpl. rewrite substr_ret by (unfold npos; lia). simpl.
    rewrite Nat2Z.id. do 4 f_equal. lia.
  - change (u32 npos) with (2 ^ 32 - 1). change (u32 (2 ^ 32 - 1 + 1)) with 0.
    rewrite (substr_ret hash 0 npos) by (unfold npos; lia).
    unfold substr. rewrite (proj2 (Z.ltb_ge _ _)) by lia. simpl.
    change (drop (Z.to_nat 0) hash) with hash. rewrite take_ge; [done|]. lia.
Qed.

(** It makes a key of any string. *)
Lemma create_blob_key_some hash : exists k, create_blob_key hash = Ret (Some k).
Proof.
  unfold create_blob_key. rewrite u32_npos_ne. simpl negb. cbv iota.
  destruct (substr_zero hash (u32 (str_find hash (lit "-")))) as [t ->]. rewrite outcome_bind_ret.
  destruct (substr_after hash (lit "-") ltac:(done)) as [v ->]. rewrite outcome_bind_ret. by eexists.
Qed.

(** [create_blob_key] is total: a string with a dash, before its
    2^32-th character, is split at the first one; and a string without any
    dash, which the code means to reject, becomes a key whose type and value
    are both the whole string, because an [unsigned] never equals [npos]. *)
Theorem create_blob_key_total hash (Hlen : Z.of_nat (length hash) < 2 ^ 32) :
  create_blob_key hash = Ret (Some
    match find_nat hash (lit "-") with
    | Some n => MkBlobKey (take n hash) (drop (S n) hash)
    | None => MkBlobKey hash hash
    end).
Proof. by apply create_blob_key_eq. Qed.

Lemma create_blob_key_total_witness :
  create_blob_key (lit "0badc0de") = Ret (Some (MkBlobKey (lit "0badc0de") (lit "0badc0de"))).
Proof. apply (create_blob_key_total (lit "0badc0de")). vm_compute. reflexivity. Defined.

Lemma create_blobref k :
  "-"%char ∉ hash_type k -> Z.of_nat (length (blobref k)) < 2 ^ 32 ->
  create_blob_key (blobref k) = Ret (Some k).
Proof.
  intros Htype Hlen.
  rewrite create_blob_key_eq by done. destruct k as [t v]. unfold blobref in *. simpl in *.
  change (lit "-" ++ v) with ("-"%char :: v).
  change (find_nat (t ++ "-"%char :: v) (lit "-")) with (find_nat (t ++ "-"%char :: v) ["-"%char]).
  rewrite find_nat_char by done. do 3 f_equal; [apply take_app_length|].
  rewrite cons_middle, app_assoc. apply drop_app_length'. rewrite length_app. simpl. lia.
Qed.

(** Round trip: the textual form of a key whose type has no dash parses
    back to the key. *)
Theorem create_blob_key_blobref k
    (Htype : "-"%char ∉ hash_type k) (Hlen : Z.of_nat (length (blobref k)) < 2 ^ 32) :
  create_blob_key (blobref k) = Ret (Some k).
Proof. by apply create_blobref. Qed.

Lemma create_blob_key_blobref_witness :
  create_blob_key (lit "sha1-AB-12") = Ret (Some (MkBlobKey (lit "sha1") (lit "AB-12"))).
Proof.
  apply (create_blob_key_blobref (MkBlobKey (lit "sha1") (lit "AB-12"))).
  - apply (bool_decide_eq_true_1 _). vm_compute. reflexivity.
  - vm_compute. reflexivity.
Defined.
