(* ===== verification/Blob.v ===== *)
(** * Blobs

    [blobserver::Blob] ([Blob.hpp], [Blob.cpp]): the file a blob is kept in,
    its size, and the set of blob references it answers to, ordered by
    [strcmp] of the C strings. *)

From S2P Require Import Prelude CppString StdMap.

(** [CaseSensitiveCompare] *)
Definition CaseSensitiveCompare (a b : bytes) : bool := bytes_ltb (c_str a) (c_str b).

#[export] Instance CaseSensitiveCompare_order : StrictWeakOrder CaseSensitiveCompare.
Proof.
  unfold CaseSensitiveCompare. split.
  - intros k. apply bytes_ltb_irrefl.
  - intros a b c. apply bytes_ltb_trans.
  - intros a b c Hac. destruct (bytes_ltb (c_str a) (c_str b)) eqn:Hab; [by left|].
    destruct (bytes_ltb (c_str b) (c_str a)) eqn:Hba.
    + right. by eapply bytes_ltb_trans.
    + right. by rewrite <-(bytes_ltb_total _ _ Hab Hba).
Qed.

(** [typedef std::set<std::string, CaseSensitiveCompare> sset] *)
Definition sset : Type := list (bytes * unit).

Record Blob : Type := MkBlob {
  filePath_ : bytes;
  size_ : Z;
  hashes_ : sset;
}.

Definition Blob_new (filePath : bytes) : Blob := MkBlob filePath 0 [].
Definition Blob_set_size (size : Z) (b : Blob) : Blob := MkBlob (filePath_ b) size (hashes_ b).
Definition add_hash (hash : bytes) (b : Blob) : Blob :=
  MkBlob (filePath_ b) (size_ b) (map_insert CaseSensitiveCompare (hashes_ b) hash tt).
Definition is_match (hash : bytes) (b : Blob) : bool :=
  bool_decide (is_Some (map_find CaseSensitiveCompare (hashes_ b) hash)).

Lemma is_match_iff hash b :
  is_match hash b = true <-> is_Some (map_find CaseSensitiveCompare (hashes_ b) hash).
Proof. apply bool_decide_eq_true. Qed.

(** [add_hash] adds the hash it is given, and those with the same C string. *)
Lemma is_match_add_hash h h' b :
  map_sorted CaseSensitiveCompare (hashes_ b) ->
  is_match h (add_hash h' b) = is_match h b || bool_decide (c_str h = c_str h').
Proof.
  intros Hs. apply eq_true_iff_eq. rewrite orb_true_iff, !is_match_iff, bool_decide_eq_true.
  unfold add_hash. simpl. rewrite (map_find_insert CaseSensitiveCompare _ _ _ _ Hs).
  destruct (map_find _ _ h); [split; eauto|]. rewrite is_Some_alt.
  assert (equiv_keys CaseSensitiveCompare h h' = true <-> c_str h = c_str h') as E.
  { rewrite equiv_keys_true. unfold CaseSensitiveCompare. split.
    - intros [H1 H2]. by apply bytes_ltb_total.
    - intros ->. by rewrite bytes_ltb_irrefl. }
  rewrite <-E. destruct (equiv_keys _ h h'); split; intros F; [by right|by eauto|by destruct F|by destruct F].
Qed.
