(* ===== verification/BlobIndex.v ===== *)
(** * The blob index and the blob files

    [blobserver::BlobIndex] ([BlobIndex.hpp], [BlobIndex.cpp]) together with
    the disk it writes. The state is the C++ heap of [Blob] objects (a pointer
    is a position in it; a dropped object stays allocated, as in the source),
    the map [blobs_] from keys to pointers, and the files.

    The operating system is the parameter [Platform]: whether a directory can
    be created and whether a file can be opened for writing.

    Each operation is a function of the store; the source holds [mutex_] in all of
    them but [paginate], and [Server] has what overlaps. *)

From S2P Require Import Prelude CppString StdMap Config Hash BlobKey Blob.

Local Open Scope Z_scope.

Class Platform : Type := {
  create_directories_ok : bytes -> bool;
  open_for_write_ok : bytes -> bool;
}.

(** A platform on which every call succeeds, for examples. *)
Definition working_platform : Platform := {|
  create_directories_ok _ := true;
  open_for_write_ok _ := true;
|}.

Record store : Type := MkStore {
  heap : list Blob;
  blobs_ : list (BlobKey * nat);
  disk : gmap bytes bytes;
}.

(** [BlobIndex(config)], over the files already there. *)
Definition BlobIndex_new (files : gmap bytes bytes) : store := MkStore [] [] files.

Definition with_disk (d : gmap bytes bytes) (st : store) : store := MkStore (heap st) (blobs_ st) d.

(** ** Operations *)

Section operations.
Context {digest : Digest} {platform : Platform} (config_ : Config).

(** [create_path], which also makes the directory. *)
Definition create_path (hash : bytes) : outcome bytes :=
  let directory := directory config_ in
  let directory := if ends_with directory (lit "/") then directory else directory ++ lit "/" in
  first ← substr hash 0 3;
  let directory := directory ++ first ++ lit "/" in
  if create_directories_ok directory then Ret (directory ++ hash ++ lit ".dat")
  else Throws filesystem_error.

Definition blob_key_for (s : bytes) (len : nat) (t : HashType) : BlobKey :=
  match t with
  | sha1 => MkBlobKey (lit "sha1") (Sha1 s len)
  | sha256 => MkBlobKey (lit "sha256") (Sha256 s len)
  end.

(** The loop that registers the keys: each one is added to the blob's set
    and mapped to the blob. *)
Fixpoint register (p : nat) (keys : list BlobKey) (b : Blob) (m : list (BlobKey * nat)) :
    Blob * list (BlobKey * nat) :=
  match keys with
  | [] => (b, m)
  | k :: keys' => register p keys' (add_hash (blobref k) b) (map_assign BlobKey_ltb m k p)
  end.

(** The provided reference is one of the content's. *)
Definition provided_hash_found (provided_hash : option bytes) (blob_keys : list BlobKey) :
    outcome bool :=
  match provided_hash with
  | None => Ret true
  | Some h =>
      k ← create_blob_key h;
      Ret match k with
          | Some _ => existsb (fun bk => bool_decide (blobref bk = h)) blob_keys
          | None => false
          end
  end.

(** [add_blob] with the digests to compute; the result is the pointer of the
    blob, or none when the provided reference does not match. *)
Definition add_blob_with (provided_hash : option bytes) (content : bytes)
    (hash_types : list HashType) (st : store) : outcome (option nat * store) :=
  match content with
  | [] => Aborts
  | _ =>
      let buffer_length := length content in
      let hash := Sha256 content buffer_length in
      path ← create_path hash;
      let p := length (heap st) in
      let b := Blob_set_size (s32 (Z.of_nat (length content))) (Blob_new path) in
      let blob_keys := blob_key_for content buffer_length <$> hash_types in
      found ← provided_hash_found provided_hash blob_keys;
      if found : bool then
        let '(b, m) := register p blob_keys b (blobs_ st) in
        let d := match disk st !! path with
                 | Some _ => disk st
                 | None => if open_for_write_ok path then <[path := content]> (disk st) else disk st
                 end in
        Ret (Some p, MkStore (heap st ++ [b]) m d)
      else Ret (None, MkStore (heap st ++ [b]) (blobs_ st) (disk st))
  end.

Definition add_blob (provided_hash : option bytes) (content : bytes) (st : store) :
    outcome (option nat * store) :=
  add_blob_with provided_hash content [sha1; sha256] st.

(** [get]: the pointer, or [NULL]. *)
Definition get (hash : bytes) (st : store) : outcome (option nat) :=
  blobKey ← create_blob_key hash;
  Ret match blobKey with
      | Some k => map_find BlobKey_ltb (blobs_ st) k
      | None => None
      end.

Definition empty (st : store) : bool := match blobs_ st with [] => true | _ => false end.
Definition size (st : store) : Z := s32 (Z.of_nat (length (blobs_ st))).

(** The loop of [paginate]: [blobs->size() >= count] compares a [size_t]
    with an [int], converted to [size_t]. *)
Fixpoint paginate_from (entries blobs : list (BlobKey * nat)) (count : Z) : list (BlobKey * nat) :=
  match entries with
  | [] => blobs
  | e :: entries' =>
      let blobs := blobs ++ [e] in
      if u64 count <=? Z.of_nat (length blobs) then blobs
      else paginate_from entries' blobs count
  end.

Definition paginate (blobs : list (BlobKey * nat)) (last : option bytes) (count : Z) (st : store) :
    outcome (list (BlobKey * nat)) :=
  b ← match last with Some l => create_blob_key l | None => Ret None end;
  let iterator := match b with
                  | Some k => map_lower_bound BlobKey_ltb (blobs_ st) k
                  | None => blobs_ st
                  end in
  Ret (paginate_from iterator blobs count).

(** The pointers the destructor deletes: [std::set<Blob*>] of the mapped
    values, in order. *)
Definition destroy (st : store) : list nat :=
  (fold_left (fun s e => map_insert Nat.ltb s e.2 tt) (blobs_ st) []).*1.

(** What a reader of a blob reference gets: the file named by its blob. *)
Definition read_ref (ref : bytes) (st : store) : outcome (option bytes) :=
  p ← get ref st;
  Ret match p with
      | Some p => match heap st !! p with Some b => disk st !! filePath_ b | None => None end
      | None => None
      end.
End operations.

Example add_get_example :
  let D := toy_digest in let P := working_platform in
  (r ← add_blob Config_new None (lit "hi") (BlobIndex_new ∅);
   c ← read_ref (blobref (blob_key_for (lit "hi") 2 sha1)) r.2;
   Ret (size r.2, c)) = Ret (2, Some (lit "hi")).
Proof. by vm_compute. Qed.

(** ** Paths *)

Section paths.
Context {digest : Digest} {platform : Platform} (config_ : Config).

(** The directory of the configuration, ended by a slash. *)
Definition blob_root : bytes :=
  if ends_with (directory config_) (lit "/") then directory config_
  else directory config_ ++ lit "/".

Definition blob_path (hash : bytes) : bytes :=
  blob_root ++ take 3 hash ++ lit "/" ++ hash ++ lit ".dat".

Lemma create_path_spec hash :
  create_path config_ hash =
    if create_directories_ok (blob_root ++ take 3 hash ++ lit "/") then Ret (blob_path hash)
    else Throws filesystem_error.
Proof.
  unfold create_path, blob_path. fold blob_root.
  unfold substr. rewrite (proj2 (Z.ltb_ge _ _)) by lia. rewrite outcome_bind_ret.
  change (drop (Z.to_nat 0) hash) with hash.
  replace (take (Z.to_nat (Z.min 3 (Z.of_nat (length hash) - 0))) hash) with (take 3 hash).
  - case_match; [|done]. f_equal. by rewrite <-!app_assoc.
  - destruct (decide (3 <= length hash)%nat).
    + by replace (Z.to_nat (Z.min 3 (Z.of_nat (length hash) - 0))) with 3%nat by lia.
    + rewrite !take_ge by lia. done.
Qed.

(** Two digests share no file. *)
Lemma blob_path_inj h h' : blob_path h = blob_path h' -> h = h'.
Proof.
  unfold blob_path. intros H%app_inv_head. rewrite !app_assoc in H.
  apply app_inv_tail in H.
  assert (length h = length h') as Hlen.
  { apply (f_equal length) in H. rewrite !length_app, !length_take in H. lia. }
  apply app_inj_2 in H; tauto.
Qed.
End paths.

(** ** Keys of a content *)

Section contents.
Context {digest : Digest}.

Definition content_keys (c : bytes) : list BlobKey :=
  blob_key_for c (length c) <$> [sha1; sha256].

Definition content_path (config_ : Config) (c : bytes) : bytes :=
  blob_path config_ (Sha256 c (length c)).

(** The contents of a list that answer to a reference: the specification of
    a content-addressed store. *)
Definition named_by (ref : bytes) (c : bytes) : bool :=
  existsb (fun k => bool_decide (blobref k = ref)) (content_keys c).

Definition abs_find (ref : bytes) (cs : list bytes) : option bytes := List.find (named_by ref) cs.

(** No two contents of the list share a digest. *)
Definition collision_free (cs : list bytes) : Prop :=
  forall c1 c2 t, c1 ∈ cs -> c2 ∈ cs ->
    blob_key_for c1 (length c1) t = blob_key_for c2 (length c2) t -> c1 = c2.

Lemma elem_of_content_keys k c :
  k ∈ content_keys c <-> exists t, k = blob_key_for c (length c) t.
Proof.
  unfold content_keys. rewrite list_elem_of_fmap. split; [intros (t & ? & _); eauto|].
  intros [t ->]. exists t. split; [done|]. destruct t; set_solver.
Qed.

Lemma blob_key_for_type c c' n n' t t' :
  blob_key_for c n t = blob_key_for c' n' t' -> t = t'.
Proof. destruct t, t'; simpl; intros [=]; done. Qed.

Lemma collision_free_prefix cs new : collision_free (cs ++ new) -> collision_free cs.
Proof. intros H c1 c2 t H1 H2. apply H; apply elem_of_app; by left. Qed.

(** The first content named stays the first. *)
Lemma abs_find_app ref cs new c : abs_find ref cs = Some c -> abs_find ref (cs ++ new) = Some c.
Proof.
  unfold abs_find. induction cs as [|d cs IH]; [done|]. simpl. by destruct (named_by ref d).
Qed.

(** Contents that share a key coincide when there is no collision. *)
Lemma collision_free_key cs c1 c2 k :
  collision_free cs -> c1 ∈ cs -> c2 ∈ cs -> k ∈ content_keys c1 -> k ∈ content_keys c2 -> c1 = c2.
Proof.
  intros Hcf H1 H2 [t1 Hk1]%elem_of_content_keys [t2 Hk2]%elem_of_content_keys. subst k.
  pose proof (blob_key_for_type _ _ _ _ _ _ Hk2) as <-. by eapply Hcf.
Qed.

Lemma content_key_type k c : k ∈ content_keys c -> "-"%char ∉ hash_type k.
Proof.
  intros [t ->]%elem_of_content_keys.
  destruct t; apply (bool_decide_eq_true_1 _); vm_compute; reflexivity.
Qed.

Lemma content_key_value_length k c :
  k ∈ content_keys c -> (40 <= length (hash_value k) <= 64)%nat /\ (length (hash_type k) <= 6)%nat.
Proof.
  intros [t ->]%elem_of_content_keys.
  destruct t; simpl; rewrite ?Sha1_length, ?Sha256_length; split; try lia; vm_compute; lia.
Qed.

Lemma content_key_blobref_length k c :
  k ∈ content_keys c -> Z.of_nat (length (blobref k)) < 2 ^ 32.
Proof.
  intros H%content_key_value_length. unfold blobref. rewrite !length_app.
  change (length (lit "-")) with 1%nat. lia.
Qed.

Lemma create_content_key k c : k ∈ content_keys c -> create_blob_key (blobref k) = Ret (Some k).
Proof.
  intros H. apply create_blobref; [by eapply content_key_type|].
  by eapply content_key_blobref_length.
Qed.

(** The key parsed from a reference is one of the content's exactly when the
    reference is the text of that key. *)
Lemma parsed_key_content ref k c :
  create_blob_key ref = Ret (Some k) -> Z.of_nat (length ref) < 2 ^ 32 ->
  k ∈ content_keys c -> blobref k = ref.
Proof.
  intros H Hlen Hk. rewrite create_blob_key_eq in H by done. simplify_eq H. clear H. intros <-.
  destruct (find_nat ref (lit "-")) as [n|] eqn:E.
  - apply (find_nat_char_Some ref "-"%char) in E as [E _]. unfold blobref. simpl. by rewrite E at 3.
  - apply content_key_value_length in Hk. simpl in Hk. lia.
Qed.

Lemma named_by_iff ref c : named_by ref c = true <-> exists k, k ∈ content_keys c /\ blobref k = ref.
Proof.
  unfold named_by. rewrite existsb_exists. split.
  - intros (k & Hk%list_elem_of_In & ?%bool_decide_eq_true). eauto.
  - intros (k & Hk & ?). exists k. split; [by apply list_elem_of_In|by apply bool_decide_eq_true].
Qed.
End contents.

#[export] Hint Resolve content_key_type content_key_blobref_length create_content_key : blob.

(** ** The store refines a list of contents *)

Lemma register_spec p keys b m :
  map_sorted BlobKey_ltb m -> map_sorted CaseSensitiveCompare (hashes_ b) ->
  let r := register p keys b m in
  filePath_ r.1 = filePath_ b /\ size_ r.1 = size_ b /\ map_sorted BlobKey_ltb r.2 /\
  (forall h, is_match h b = true -> is_match h r.1 = true) /\
  (forall k, k ∈ keys -> is_match (blobref k) r.1 = true) /\
  (forall k, map_find BlobKey_ltb r.2 k =
     if bool_decide (k ∈ keys) then Some p else map_find BlobKey_ltb m k).
Proof.
  revert b m. induction keys as [|k keys IH]; intros b m Hm Hb; simpl.
  - split_and!; try done. by intros k ?%elem_of_nil.
  - destruct (IH (add_hash (blobref k) b) (map_assign BlobKey_ltb m k p))
      as (H1 & H2 & H3 & H4 & H5 & H6).
    { by apply (map_assign_sorted BlobKey_ltb). }
    { by apply (map_insert_sorted CaseSensitiveCompare). }
    split_and!; try done.
    + intros h Hh. apply H4. rewrite is_match_add_hash by done. by rewrite Hh.
    + intros k' [->|Hk']%elem_of_cons; [|by apply H5]. apply H4.
      rewrite is_match_add_hash by done. by rewrite bool_decide_true, orb_true_r.
    + intros k'. rewrite H6, (map_find_assign BlobKey_ltb _ _ _ _ Hm).
      rewrite (equiv_keys_decide BlobKey_ltb), (bool_decide_ext (k' ∈ k :: keys) (k' = k \/ k' ∈ keys))
        by apply elem_of_cons.
      repeat case_bool_decide; tauto.
Qed.

Section refinement.
Context {digest : Digest} {platform : Platform} (config_ : Config) (files : gmap bytes bytes).

(** An index entry describes a content that was added. *)
Definition entry_ok (st : store) (cs : list bytes) (k : BlobKey) (p : nat) : Prop :=
  exists b c, heap st !! p = Some b /\ c ∈ cs /\ k ∈ content_keys c /\
    filePath_ b = content_path config_ c /\ size_ b = s32 (Z.of_nat (length c)) /\
    is_match (blobref k) b = true.

(** The store holds the contents [cs], over the files that were there. *)
Record refines (st : store) (cs : list bytes) : Prop := {
  ref_sorted : map_sorted BlobKey_ltb (blobs_ st);
  ref_unknown : forall k, map_find BlobKey_ltb (blobs_ st) k = None ->
    forall c, c ∈ cs -> k ∉ content_keys c;
  ref_entry : forall k p, map_find BlobKey_ltb (blobs_ st) k = Some p -> entry_ok st cs k p;
  ref_file : forall c, c ∈ cs -> is_Some (disk st !! content_path config_ c);
  ref_origin : forall path x, disk st !! path = Some x ->
    files !! path = Some x \/ (x ∈ cs /\ path = content_path config_ x);
  ref_frame : forall path x, files !! path = Some x -> disk st !! path = Some x;
}.

Lemma refines_new : refines (BlobIndex_new files) [].
Proof. constructor; simpl; try done; [constructor|..]; [by intros ? _ ? ?%elem_of_nil|by intros ? ?%elem_of_nil|auto]. Qed.

(** The store after [add_blob] has accepted [c]. *)
Definition write_result (c : bytes) (d : gmap bytes bytes) : gmap bytes bytes :=
  match d !! content_path config_ c with
  | Some _ => d
  | None => if open_for_write_ok (content_path config_ c)
            then <[content_path config_ c := c]> d else d
  end.

Definition new_blob (c : bytes) : Blob :=
  Blob_set_size (s32 (Z.of_nat (length c))) (Blob_new (content_path config_ c)).

Definition add_result (c : bytes) (st : store) : store :=
  let r := register (length (heap st)) (content_keys c) (new_blob c) (blobs_ st) in
  MkStore (heap st ++ [r.1]) r.2 (write_result c (disk st)).

(** The store after it has refused one: a [Blob] is left allocated. *)
Definition refuse_result (c : bytes) (st : store) : store :=
  MkStore (heap st ++ [new_blob c]) (blobs_ st) (disk st).

(** The operating system accepts the directory and the file of a content. *)
Definition directory_ok (c : bytes) : Prop :=
  create_directories_ok (blob_root config_ ++ take 3 (Sha256 c (length c)) ++ lit "/") = true.
Definition writable (c : bytes) : Prop :=
  directory_ok c /\ open_for_write_ok (content_path config_ c) = true.

Definition accepts (provided : option bytes) (c : bytes) : bool :=
  match provided with Some ref => named_by ref c | None => true end.

Lemma provided_hash_found_spec provided c :
  provided_hash_found provided (content_keys c) = Ret (accepts provided c).
Proof.
  destruct provided as [ref|]; [|done]. unfold provided_hash_found.
  by destruct (create_blob_key_some ref) as [k ->].
Qed.

Lemma add_blob_spec provided c st :
  c ≠ [] -> directory_ok c ->
  add_blob config_ provided c st =
    Ret (if accepts provided c then (Some (length (heap st)), add_result c st)
         else (None, refuse_result c st)).
Proof.
  intros Hc Hd. unfold add_blob, add_blob_with. destruct c as [|x c]; [done|].
  rewrite create_path_spec. unfold directory_ok in Hd. rewrite Hd.
  rewrite outcome_bind_ret. fold (content_keys (x :: c)).
  rewrite provided_hash_found_spec, outcome_bind_ret.
  destruct (accepts _ _); [|done].
  unfold add_result, new_blob, content_path. by destruct (register _ _ _ _).
Qed.

Lemma write_result_lookup c d path :
  open_for_write_ok (content_path config_ c) = true ->
  write_result c d !! path =
    match d !! path with
    | Some x => Some x
    | None => if bool_decide (path = content_path config_ c) then Some c else None
    end.
Proof.
  intros H. unfold write_result. rewrite H.
  destruct (decide (path = content_path config_ c)) as [->|Hne].
  - rewrite bool_decide_true by done. destruct (d !! _) eqn:E; [done|]. by rewrite lookup_insert_eq.
  - rewrite bool_decide_false by done. destruct (d !! content_path _ _); [by destruct (d !! path)|].
    rewrite lookup_insert_ne by done. by destruct (d !! path).
Qed.

Lemma entry_ok_grow st cs k p b c m d :
  entry_ok st cs k p -> entry_ok (MkStore (heap st ++ [b]) m d) (cs ++ [c]) k p.
Proof.
  intros (b' & c' & Hb & Hc & H). exists b', c'. simpl. split; [by apply lookup_app_l_Some|].
  split; [|done]. apply elem_of_app. by left.
Qed.

Lemma add_result_refines c st cs :
  open_for_write_ok (content_path config_ c) = true ->
  refines st cs -> refines (add_result c st) (cs ++ [c]).
Proof.
  intros Hopen [Hs Hun He Hf Ho Hfr].
  destruct (register_spec (length (heap st)) (content_keys c) (new_blob c) (blobs_ st) Hs
    ltac:(constructor)) as (H1 & H2 & H3 & H4 & H5 & H6).
  unfold add_result. set (r := register _ _ _ _) in *.
  constructor; simpl; [done|..].
  - intros k Hk c'. rewrite H6 in Hk. case_bool_decide; [done|].
    rewrite elem_of_app, list_elem_of_singleton. intros [Hc'| ->]; [by apply (Hun k)|done].
  - intros k p Hk. rewrite H6 in Hk. case_bool_decide as Hin.
    + injection Hk as <-. exists r.1, c. simpl. rewrite list_lookup_middle by done.
      split_and!; auto. apply elem_of_app. right. by apply list_elem_of_singleton.
    + by apply entry_ok_grow, He.
  - intros c' [Hc'| ->%list_elem_of_singleton]%elem_of_app; rewrite write_result_lookup by done.
    + destruct (Hf c' Hc') as [x ->]. eauto.
    + rewrite bool_decide_true by done. destruct (_ !! _); eauto.
  - intros path x. rewrite write_result_lookup by done. destruct (disk st !! path) eqn:E.
    + intros [= ->]. destruct (Ho _ _ E) as [?|[? ?]]; [by left|right; set_solver].
    + case_bool_decide; [|done]. intros [= <-]. right. set_solver.
  - intros path x Hx. rewrite write_result_lookup by done. by rewrite (Hfr path x Hx).
Qed.

Lemma refuse_result_refines c st cs : refines st cs -> refines (refuse_result c st) cs.
Proof.
  intros [Hs Hun He Hf Ho Hfr]. constructor; simpl; try done.
  intros k p Hk. destruct (He k p Hk) as (b & c' & Hb & H). exists b, c'.
  split; [by apply lookup_app_l_Some|done].
Qed.

(** *** Uploads in sequence *)

Fixpoint add_all (uploads : list (option bytes * bytes)) (st : store) : outcome store :=
  match uploads with
  | [] => Ret st
  | (h, c) :: uploads' => r ← add_blob config_ h c st; add_all uploads' r.2
  end.

Definition accepted (uploads : list (option bytes * bytes)) : list bytes :=
  (filter (fun u => accepts u.1 u.2 = true) uploads).*2.

Definition upload_ok (u : option bytes * bytes) : Prop :=
  u.2 ≠ [] /\ writable u.2.

Lemma add_all_refines uploads st cs :
  Forall upload_ok uploads -> refines st cs ->
  exists st', add_all uploads st = Ret st' /\ refines st' (cs ++ accepted uploads).
Proof.
  intros Hu. revert st cs. induction Hu as [|[h c] uploads (Hc & [Hd Ho]) _ IH]; intros st cs Hr.
  - exists st. by rewrite app_nil_r.
  - simpl add_all. simpl in *. rewrite add_blob_spec by done. rewrite outcome_bind_ret.
    unfold accepted. rewrite filter_cons. simpl. destruct (accepts h c); cbn [snd].
    + destruct (IH _ _ (add_result_refines c st cs Ho Hr)) as (st' & -> & H).
      exists st'. split; [done|]. by rewrite <-app_assoc in H.
    + by apply (IH _ _ (refuse_result_refines c st cs Hr)).
Qed.

Lemma find_named_by ref c cs :
  named_by ref c = true -> c ∈ cs -> (forall c', c' ∈ cs -> named_by ref c' = true -> c' = c) ->
  abs_find ref cs = Some c.
Proof.
  intros Hn Hc Hu. unfold abs_find. destruct (List.find (named_by ref) cs) as [c'|] eqn:E.
  - apply find_some in E as [Hin%list_elem_of_In Hn']. f_equal. by apply Hu.
  - apply list_elem_of_In in Hc. pose proof (find_none _ _ E _ Hc). congruence.
Qed.

(** A reference leads to the blob of the content it names, and only then. *)
Lemma get_refines ref st cs :
  collision_free cs -> refines st cs -> Z.of_nat (length ref) < 2 ^ 32 ->
  match abs_find ref cs with
  | Some c => exists p b, get ref st = Ret (Some p) /\ heap st !! p = Some b /\ c ∈ cs /\
      filePath_ b = content_path config_ c /\ size_ b = s32 (Z.of_nat (length c))
  | None => get ref st = Ret None
  end.
Proof.
  intros Hcf [Hs Hun He _ _ _] Hlen. unfold get.
  destruct (create_blob_key_some ref) as [k Hk]. rewrite Hk, !outcome_bind_ret.
  destruct (map_find BlobKey_ltb (blobs_ st) k) as [p|] eqn:E.
  - destruct (He k p E) as (b & c & Hb & Hc & Hkc & Hf & Hz & _).
    rewrite (find_named_by ref c cs); [by exists p, b| |done|].
    + apply named_by_iff. exists k. split; [done|]. by eapply parsed_key_content.
    + intros c' Hc' (k' & Hk' & Hr)%named_by_iff.
      rewrite <-Hr, (create_content_key _ _ Hk') in Hk. simplify_eq Hk. intros ->.
      by eapply collision_free_key.
  - destruct (abs_find ref cs) as [c|] eqn:F; [|done]. unfold abs_find in F.
    apply find_some in F as [Hc%list_elem_of_In (k' & Hk' & Hr)%named_by_iff].
    rewrite <-Hr, (create_content_key _ _ Hk') in Hk. simplify_eq Hk. intros ->.
    by destruct (Hun _ E c Hc).
Qed.

(** Without files at the start, the file of a content holds it. *)
Lemma content_file st cs c :
  files = ∅ -> collision_free cs -> refines st cs -> c ∈ cs ->
  disk st !! content_path config_ c = Some c.
Proof.
  intros Hfiles Hcf [_ _ _ Hf Ho _] Hc. destruct (Hf c Hc) as [x Hx]. rewrite Hx.
  destruct (Ho _ _ Hx) as [Hx0|[Hxc Hp]]; [by rewrite Hfiles, lookup_empty in Hx0|].
  f_equal. eapply (Hcf x c sha256); [done..|]. simpl. f_equal.
  symmetry. by apply (blob_path_inj config_).
Qed.

(** A reference answers with the content it names, and only then. *)
Lemma read_ref_refines ref st cs :
  files = ∅ -> collision_free cs -> refines st cs -> Z.of_nat (length ref) < 2 ^ 32 ->
  read_ref ref st = Ret (abs_find ref cs).
Proof.
  intros Hfiles Hcf Hr Hlen. unfold read_ref.
  pose proof (get_refines ref st cs Hcf Hr Hlen) as Hg. destruct (abs_find ref cs) as [c|].
  - destruct Hg as (p & b & -> & Hb & Hc & Hf & _). rewrite outcome_bind_ret, Hb, Hf.
    f_equal. by apply content_file with cs.
  - by rewrite Hg.
Qed.
End refinement.

(** ** Properties *)

Section properties.
Context {digest : Digest} {platform : Platform} (config_ : Config).

(** C3. A content-addressed store. After any sequence of uploads of non-empty
    contents, on a platform that accepts the writes, starting without files,
    a reference reads the content it names among those accepted (all but the
    ones uploaded under a reference that is not theirs) and nothing when it
    names none; provided no two of them share a digest. *)
Theorem content_addressed_store uploads ref
    (Hok : Forall (upload_ok config_) uploads)
    (Hcf : collision_free (accepted uploads)) (Hlen : Z.of_nat (length ref) < 2 ^ 32) :
  (st ← add_all config_ uploads (BlobIndex_new ∅); read_ref ref st) =
    Ret (abs_find ref (accepted uploads)).
Proof.
  destruct (add_all_refines config_ ∅ uploads (BlobIndex_new ∅) [] Hok (refines_new config_ ∅))
    as (st & -> & Hr).
  rewrite outcome_bind_ret. by eapply read_ref_refines.
Qed.

(** C16. One upload, in every case: exactly an empty content fails the assertion; with
    another one, exactly a directory that cannot be made throws; else an upload
    under no reference, or under one of its own, returns its new blob, to which the
    references of the content lead from then on and no other does, and the store
    holds the content too if its file can be opened; if not, nothing says so, and
    the files are as they were; and one under a reference that is not its own
    returns nothing and leaves index and files as they were, one more [Blob]
    allocated. *)
Theorem add_blob_simulates files provided c st cs (Hr : refines config_ files st cs) :
  let directory := blob_root config_ ++ take 3 (Sha256 c (length c)) ++ lit "/" in
  match add_blob config_ provided c st with
  | Aborts => c = []
  | Throws e => c ≠ [] /\ e = filesystem_error /\ create_directories_ok directory = false
  | Ret (Some p, st') =>
      c ≠ [] /\ create_directories_ok directory = true /\ accepts provided c = true /\ p = length (heap st) /\
      (forall k, map_find BlobKey_ltb (blobs_ st') k = if bool_decide (k ∈ content_keys c) then Some p else map_find BlobKey_ltb (blobs_ st) k) /\
      if open_for_write_ok (content_path config_ c) then refines config_ files st' (cs ++ [c]) else disk st' = disk st
  | Ret (None, st') =>
      c ≠ [] /\ create_directories_ok directory = true /\ accepts provided c = false /\ refines config_ files st' cs /\
      blobs_ st' = blobs_ st /\ disk st' = disk st /\ length (heap st') = S (length (heap st))
  | Undefined => False
  end.
Proof.
  intros directory. destruct (decide (c = [])) as [->|Hc]; [done|].
  destruct (create_directories_ok directory) eqn:Hd.
  - rewrite add_blob_spec by done. destruct (accepts provided c) eqn:Ha; simpl.
    + split_and!; try done.
      * destruct (register_spec (length (heap st)) (content_keys c) (new_blob config_ c) (blobs_ st) (ref_sorted _ _ _ _ Hr) ltac:(constructor)) as (_ & _ & _ & _ & _ & H). exact H.
      * destruct (open_for_write_ok _) eqn:Ho; [by apply add_result_refines|]. unfold write_result. rewrite Ho. by destruct (disk st !! _).
    + split_and!; try done; [by apply refuse_result_refines|]. rewrite length_app. simpl. lia.
  - unfold add_blob, add_blob_with. destruct c as [|x c]; [done|].
    rewrite create_path_spec. fold directory. by rewrite Hd.
Qed.

Lemma nul_keys s a b n m :
  nul ∉ s ->
  blob_key_for (s ++ nul :: a) n = blob_key_for (s ++ nul :: b) m.
Proof.
  intros Hs. unfold blob_key_for, Sha1, Sha256. by rewrite !c_str_app_nul by done.
Qed.

Lemma nul_content_keys s a b : nul ∉ s -> content_keys (s ++ nul :: a) = content_keys (s ++ nul :: b).
Proof.
  intros Hs. unfold content_keys. by rewrite (nul_keys s a b _ (length (s ++ nul :: b)) Hs).
Qed.

Lemma nul_content_path s a b :
  nul ∉ s -> content_path config_ (s ++ nul :: a) = content_path config_ (s ++ nul :: b).
Proof.
  intros Hs. unfold content_path, Sha256. by rewrite !c_str_app_nul by done.
Qed.

(** An accepted content's references lead to its new blob. *)
Lemma add_result_get c st k :
  map_sorted BlobKey_ltb (blobs_ st) -> k ∈ content_keys c ->
  get (blobref k) (add_result config_ c st) = Ret (Some (length (heap st))) /\
  exists b, heap (add_result config_ c st) !! length (heap st) = Some b /\
    filePath_ b = content_path config_ c /\ size_ b = s32 (Z.of_nat (length c)).
Proof.
  intros Hsort Hk.
  destruct (register_spec (length (heap st)) (content_keys c) (new_blob config_ c) (blobs_ st)
    Hsort ltac:(constructor)) as (H1 & H2 & _ & _ & _ & H6).
  unfold get, add_result. cbn [heap blobs_]. set (r := register _ _ _ _) in *. split.
  - rewrite (create_content_key k c Hk), outcome_bind_ret, H6. by rewrite bool_decide_true.
  - exists r.1. by rewrite list_lookup_middle.
Qed.

Lemma add_result_read c st k :
  map_sorted BlobKey_ltb (blobs_ st) -> k ∈ content_keys c ->
  read_ref (blobref k) (add_result config_ c st) =
    Ret (write_result config_ c (disk st) !! content_path config_ c).
Proof.
  intros Hsort Hk. destruct (add_result_get c st k Hsort Hk) as (Hg & b & Hb & Hf & _).
  unfold read_ref. by rewrite Hg, outcome_bind_ret, Hb, Hf.
Qed.

(** C39. Binary contents that agree up to their first NUL byte overwrite each
    other in the index and not on disk: once the first is stored, uploading
    the second succeeds and its references give its size, and the first
    content. The second one is lost. *)
Theorem nul_content_lost s a b st k
    (Hs : nul ∉ s) (Hsort : map_sorted BlobKey_ltb (blobs_ st))
    (Hw : writable config_ (s ++ nul :: b))
    (Hfirst : disk st !! content_path config_ (s ++ nul :: a) = Some (s ++ nul :: a))
    (Hk : k ∈ content_keys (s ++ nul :: b)) :
  exists p st', add_blob config_ None (s ++ nul :: b) st = Ret (Some p, st') /\
    get (blobref k) st' = Ret (Some p) /\
    (size_ <$> heap st' !! p) = Some (s32 (Z.of_nat (length (s ++ nul :: b)))) /\
    read_ref (blobref k) st' = Ret (Some (s ++ nul :: a)).
Proof.
  set (c := s ++ nul :: b) in *. assert (c ≠ []) as Hc by (subst c; by destruct s).
  destruct Hw as [Hd Ho]. destruct (add_result_get c st k Hsort Hk) as (Hg & b' & Hb & _ & Hz).
  exists (length (heap st)), (add_result config_ c st).
  rewrite (add_blob_spec config_ None c st Hc Hd). split_and!; [done..| |].
  - rewrite Hb. simpl. by rewrite Hz.
  - rewrite add_result_read by done. rewrite write_result_lookup by done.
    rewrite (nul_content_path s a b Hs) in Hfirst. fold c in Hfirst. by rewrite Hfirst.
Qed.

(** A write that fails is not noticed: when the file cannot be opened the
    upload still returns its blob and is listed in the index, and reading it
    finds no file. *)
Theorem write_failure_unnoticed c st k
    (Hc : c ≠ []) (Hsort : map_sorted BlobKey_ltb (blobs_ st)) (Hd : directory_ok config_ c)
    (Hopen : open_for_write_ok (content_path config_ c) = false)
    (Hnew : disk st !! content_path config_ c = None) (Hk : k ∈ content_keys c) :
  exists p st', add_blob config_ None c st = Ret (Some p, st') /\
    get (blobref k) st' = Ret (Some p) /\ disk st' = disk st /\
    read_ref (blobref k) st' = Ret None.
Proof.
  destruct (add_result_get c st k Hsort Hk) as (Hg & _).
  assert (write_result config_ c (disk st) = disk st) as Hdisk.
  { unfold write_result. by rewrite Hnew, Hopen. }
  exists (length (heap st)), (add_result config_ c st).
  rewrite (add_blob_spec config_ None c st Hc Hd). split_and!; [done..|].
  rewrite add_result_read by done. by rewrite Hdisk, Hnew.
Qed.
End properties.

(** ** Pages *)

Section pages.
Context {digest : Digest}.

(** The entries from a reference on. *)
Definition entries_from (last : option bytes) (st : store) : outcome (list (BlobKey * nat)) :=
  b ← match last with Some l => create_blob_key l | None => Ret None end;
  Ret match b with Some k => map_lower_bound BlobKey_ltb (blobs_ st) k | None => blobs_ st end.

Lemma paginate_from_take entries blobs count :
  paginate_from entries blobs count =
    blobs ++ take (Z.to_nat (Z.max 1 (u64 count - Z.of_nat (length blobs)))) entries.
Proof.
  revert blobs. induction entries as [|e entries IH]; intros blobs; simpl.
  - by rewrite take_nil, app_nil_r.
  - destruct (Z.leb_spec (u64 count) (Z.of_nat (length (blobs ++ [e])))) as [H|H];
      rewrite length_app in H; simpl in H.
    + replace (Z.to_nat (Z.max 1 (u64 count - Z.of_nat (length blobs)))) with 1%nat by lia. done.
    + rewrite IH, length_app. simpl.
      replace (Z.to_nat (Z.max 1 (u64 count - Z.of_nat (length blobs)))) with
        (S (Z.to_nat (Z.max 1 (u64 count - Z.of_nat (length blobs + 1))))) by lia.
      simpl. by rewrite <-app_assoc.
Qed.

Lemma paginate_eq last count st :
  paginate [] last count st =
    (es ← entries_from last st; Ret (take (Z.to_nat (Z.max 1 (u64 count))) es)).
Proof.
  unfold paginate, entries_from. rewrite outcome_bind_assoc.
  destruct (match last with Some _ => _ | None => _ end); try done.
  rewrite !outcome_bind_ret, paginate_from_take. simpl. by rewrite Z.sub_0_r.
Qed.

(** A page: on an empty vector, [paginate] gives the first [count]
    entries, in key order, from the given reference on, that one included
    (a [count] of zero gives one, and a negative one, converted to [size_t],
    gives them all); when the reference is a key of the index the page
    starts at it. *)
Theorem paginate_page last count st (Hcount : 0 <= count <= int_max) :
  paginate [] last count st =
    (es ← entries_from last st; Ret (take (Z.to_nat (Z.max 1 count)) es)) /\
  (forall m1 k p m2, blobs_ st = m1 ++ (k, p) :: m2 -> map_sorted BlobKey_ltb (blobs_ st) ->
     create_blob_key (blobref k) = Ret (Some k) ->
     entries_from (Some (blobref k)) st = Ret ((k, p) :: m2)).
Proof.
  split.
  - rewrite paginate_eq. by rewrite u64_small by (unfold int_max in *; lia).
  - intros m1 k p m2 Hb Hs Hk. unfold entries_from. rewrite Hk, outcome_bind_ret.
    rewrite Hb in *. f_equal. by apply (map_lower_bound_key BlobKey_ltb).
Qed.
End pages.

(** ** Examples *)

Section witnesses.
Let D : Digest := toy_digest.
Let P : Platform := working_platform.
Local Existing Instance D.
Local Existing Instance P.

Lemma upload_ok_working h c : c ≠ [] -> upload_ok Config_new (h, c).
Proof. done. Qed.

Lemma content_addressed_store_witness :
  let uploads := [(None, lit "hello"); (Some (lit "sha1-00"), lit "lost"); (None, lit "world")] in
  let ref := blobref (blob_key_for (lit "world") 5 sha256) in
  (st ← add_all Config_new uploads (BlobIndex_new ∅); read_ref ref st) = Ret (Some (lit "world")).
Proof.
  intros uploads ref.
  assert (accepted uploads = [lit "hello"; lit "world"]) as Ha by (vm_compute; reflexivity).
  rewrite (content_addressed_store Config_new uploads ref).
  - rewrite Ha. vm_compute. reflexivity.
  - repeat (apply Forall_cons; split); [by apply upload_ok_working..|apply Forall_nil; done].
  - rewrite Ha. intros c1 c2 t.
    rewrite !elem_of_cons. intros [->|[->|[]%elem_of_nil]] [->|[->|[]%elem_of_nil]];
      destruct t; first [reflexivity | vm_compute; discriminate].
  - vm_compute. reflexivity.
Defined.

Definition st0 : store := BlobIndex_new ∅.

Lemma add_blob_simulates_witness :
  match add_blob Config_new (Some (lit "sha1-00")) (lit "hello") st0 with
  | Ret (None, st') => blobs_ st' = [] /\ length (heap st') = 1%nat
  | _ => False
  end.
Proof.
  pose proof (add_blob_simulates Config_new ∅ (Some (lit "sha1-00")) (lit "hello") st0 []
    (refines_new Config_new ∅)) as H.
  cbv zeta in H. destruct (add_blob _ _ _ _) as [[[p|] st']|e| |].
  - destruct H as (_ & _ & H & _). vm_compute in H. discriminate.
  - destruct H as (_ & _ & _ & _ & Hb & _ & Hh). split; [exact Hb|]. rewrite Hh. reflexivity.
  - destruct H as (_ & _ & H). vm_compute in H. discriminate.
  - discriminate.
  - exact H.
Defined.

Definition nul_content (c : ascii) : bytes := lit "GIF" ++ nul :: [c].
Definition st1 : store :=
  match add_blob Config_new None (nul_content "a") st0 with Ret (_, st) => st | _ => st0 end.

Lemma st1_refines : refines Config_new ∅ st1 [nul_content "a"].
Proof.
  unfold st1. rewrite add_blob_spec by done. simpl accepts. cbv iota.
  by apply (add_result_refines Config_new ∅ _ st0 []), refines_new.
Qed.

Lemma nul_content_lost_witness :
  exists p st', add_blob Config_new None (nul_content "b") st1 = Ret (Some p, st') /\
    read_ref (blobref (blob_key_for (nul_content "b") 5 sha1)) st' = Ret (Some (nul_content "a")).
Proof.
  destruct (nul_content_lost Config_new (lit "GIF") (lit "a") (lit "b") st1
    (blob_key_for (nul_content "b") 5 sha1)) as (p & st' & H1 & _ & _ & H2).
  - apply (bool_decide_eq_true_1 _). vm_compute. reflexivity.
  - exact (ref_sorted _ _ _ _ st1_refines).
  - split; reflexivity.
  - vm_compute. reflexivity.
  - left.
  - exists p, st'. split; [exact H1|exact H2].
Defined.

Lemma paginate_page_witness :
  paginate [] None 1 st1 = Ret [(blob_key_for (nul_content "a") 5 sha1, 0%nat)].
Proof.
  rewrite (proj1 (paginate_page None 1 st1 ltac:(vm_compute; split; discriminate))).
  vm_compute. reflexivity.
Defined.
End witnesses.

Lemma write_failure_unnoticed_witness :
  let D := toy_digest in let P := Build_Platform (fun _ => true) (fun _ => false) in
  exists p st', add_blob Config_new None (lit "hello") st0 = Ret (Some p, st') /\
    read_ref (blobref (blob_key_for (lit "hello") 5 sha1)) st' = Ret None.
Proof.
  intros D P.
  destruct (write_failure_unnoticed Config_new (lit "hello") st0
    (blob_key_for (lit "hello") 5 sha1)) as (p & st' & H1 & _ & _ & H2).
  - done.
  - constructor.
  - reflexivity.
  - reflexivity.
  - reflexivity.
  - left.
  - exists p, st'. split; [exact H1|exact H2].
Defined.

(** ** Well-formed stores *)

(** The index is ordered and its pointers are allocated. *)
Definition store_ok (st : store) : Prop :=
  map_sorted BlobKey_ltb (blobs_ st) /\ Forall (fun e => is_Some (heap st !! e.2)) (blobs_ st).

Lemma store_ok_new files : store_ok (BlobIndex_new files).
Proof. by repeat constructor. Qed.

Lemma store_ok_find st k p : store_ok st -> map_find BlobKey_ltb (blobs_ st) k = Some p -> is_Some (heap st !! p).
Proof.
  intros [_ Hf] Hk%(map_find_elem_eq BlobKey_ltb). rewrite Forall_forall in Hf. by apply (Hf _ Hk).
Qed.

Lemma refines_store_ok {digest : Digest} config_ files st cs : refines config_ files st cs -> store_ok st.
Proof.
  intros Hr. split; [apply Hr|]. apply Forall_forall. intros [k p] Hkp.
  apply (map_find_In BlobKey_ltb) in Hkp; [|apply Hr].
  destruct (ref_entry _ _ _ _ Hr k p Hkp) as (b & _ & Hb & _). simpl. eauto.
Qed.

Lemma add_result_ok {digest : Digest} {platform : Platform} config_ c st :
  store_ok st -> store_ok (add_result config_ c st).
Proof.
  intros [Hs Hf].
  destruct (register_spec (length (heap st)) (content_keys c) (new_blob config_ c) (blobs_ st) Hs
    ltac:(constructor)) as (_ & _ & H3 & _ & _ & H6).
  unfold add_result. set (r := register _ _ _ _) in *. split; [done|]. simpl.
  apply Forall_forall. intros [k p] Hkp. apply (map_find_In BlobKey_ltb) in Hkp; [|done].
  rewrite H6 in Hkp. simpl. case_bool_decide.
  - injection Hkp as <-. rewrite list_lookup_middle by done. eauto.
  - apply (map_find_elem_eq BlobKey_ltb) in Hkp. rewrite Forall_forall in Hf.
    destruct (Hf _ Hkp) as [b Hb]. exists b. by apply lookup_app_l_Some.
Qed.

Lemma refuse_result_ok {digest : Digest} config_ c st : store_ok st -> store_ok (refuse_result config_ c st).
Proof.
  intros [Hs Hf]. split; [done|]. simpl. eapply Forall_impl; [exact Hf|].
  intros [k p] [b Hb]. exists b. by apply lookup_app_l_Some.
Qed.

(** An upload keeps the store well formed, or fails in the operating system. *)
Lemma add_blob_ok {digest : Digest} {platform : Platform} config_ provided c st :
  c ≠ [] -> store_ok st ->
  match add_blob config_ provided c st with
  | Ret (_, st') => store_ok st'
  | Throws e => e = filesystem_error
  | _ => False
  end.
Proof.
  intros Hc Hst.
  destruct (create_directories_ok (blob_root config_ ++ take 3 (Sha256 c (length c)) ++ lit "/")) eqn:Hd.
  - rewrite (add_blob_spec config_ provided c st Hc Hd).
    destruct (accepts provided c); [by apply add_result_ok|by apply refuse_result_ok].
  - unfold add_blob, add_blob_with. destruct c as [|x c]; [done|].
    rewrite create_path_spec. by rewrite Hd.
Qed.

(** An upload that ends adds the content, or nothing. *)
Lemma add_blob_grows {digest : Digest} {platform : Platform} config_ files provided c st cs :
  refines config_ files st cs -> open_for_write_ok (content_path config_ c) = true ->
  match add_blob config_ provided c st with
  | Ret (_, st') => exists new, refines config_ files st' (cs ++ new)
  | _ => True
  end.
Proof.
  intros Hr Ho.
  destruct (create_directories_ok (blob_root config_ ++ take 3 (Sha256 c (length c)) ++ lit "/")) eqn:Hd.
  - destruct c as [|x c]; [exact I|]. rewrite (add_blob_spec config_ provided (x :: c) st) by done.
    destruct (accepts provided _).
    + exists [x :: c]. by apply add_result_refines.
    + exists []. rewrite app_nil_r. by apply refuse_result_refines.
  - unfold add_blob, add_blob_with. destruct c as [|x c]; [exact I|].
    rewrite create_path_spec, Hd. exact I.
Qed.
