(* ===== verification/Calls.v ===== *)
(** * What the handlers call

    A request handler runs on a thread of the pool, and other threads run between
    the calls it makes: those on the blob index, which they share, and those that
    take long. So a handler is a program here, the tree of its calls and of what it
    does with their answers; [RequestHandler] has the programs, [Server] interleaves
    them. A program can also be [run] alone.

    Parameter: [Zopfli], the interface of the handler to the compressor, which
    [ZopfliLib] implements. *)

From S2P Require Import Prelude CppString StdMap Config Hash BlobKey Blob BlobIndex.

Local Open Scope Z_scope.

Inductive ZopfliFormat : Type := ZOPFLI_FORMAT_GZIP | ZOPFLI_FORMAT_ZLIB | ZOPFLI_FORMAT_DEFLATE.

#[export] Instance ZopfliFormat_eq_dec : EqDecision ZopfliFormat.
Proof. solve_decision. Defined.

Class Zopfli : Type := { ZopfliCompress : ZopfliFormat -> bytes -> outcome bytes }.

(** ** Programs *)

Inductive call : Type :=
| call_get (hash : bytes)                                        (* [BlobIndex::get] *)
| call_add_blob (provided_hash : option bytes) (content : bytes) (* [BlobIndex::add_blob] *)
| call_paginate (last : option bytes) (count : Z)                (* [BlobIndex::paginate] of an empty vector *)
| call_blob (p : nat)                                            (* the [Blob] at a pointer of the index *)
| call_open (path : bytes)                                       (* the bytes of a file of the index, read to the end *)
| call_compress (output_type : ZopfliFormat) (content : bytes).  (* [ZopfliCompress] *)

Definition answer (c : call) : Type :=
  match c with
  | call_get _ | call_add_blob _ _ => option nat
  | call_paginate _ _ => list (BlobKey * nat)
  | call_blob _ => Blob
  | call_open _ => option bytes
  | call_compress _ _ => bytes
  end.

(** What is left to do: [Done] computes without calls. *)
Inductive program (A : Type) : Type :=
| Done (o : outcome A)
| Call (c : call) (k : answer c -> program A).
Arguments Done {A} o.
Arguments Call {A} c k.

#[export] Instance program_ret : MRet program := fun A x => Done (Ret x).

#[export] Instance program_bind : MBind program := fun A B f =>
  fix go (m : program A) : program B :=
    match m with
    | Done (Ret x) => f x
    | Done (Throws e) => Done (Throws e)
    | Done Aborts => Done Aborts
    | Done Undefined => Done Undefined
    | Call c k => Call c (fun a => go (k a))
    end.

(** One call. *)
Definition invoke (c : call) : program (answer c) := Call c (fun a => Done (Ret a)).

Section perform.
Context {digest : Digest} {platform : Platform} {zopfli : Zopfli} (config_ : Config).

(** [*p]: the blob a pointer of the index points to. *)
Definition deref (st : store) (p : nat) : outcome Blob := or_undefined (heap st !! p).

Definition perform (c : call) (st : store) : outcome (answer c * store) :=
  match c with
  | call_get hash => p ← get hash st; Ret (p, st)
  | call_add_blob provided_hash content => add_blob config_ provided_hash content st
  | call_paginate last count => blobs ← paginate [] last count st; Ret (blobs, st)
  | call_blob p => b ← deref st p; Ret (b, st)
  | call_open path => Ret (disk st !! path, st)
  | call_compress output_type content => out ← ZopfliCompress output_type content; Ret (out, st)
  end.

(** A program with no other thread between its calls. *)
Fixpoint run {A} (m : program A) (st : store) : outcome (A * store) :=
  match m with
  | Done o => x ← o; Ret (x, st)
  | Call c k => '(a, st) ← perform c st; run (k a) st
  end.

Lemma run_bind {A B} (m : program A) (f : A -> program B) st :
  run (m ≫= f) st = ('(x, st) ← run m st; run (f x) st).
Proof.
  revert st. induction m as [[x|e| |]|c k IH]; intros st; try done.
  change (run (Call c k ≫= f) st) with ('(a, st) ← perform c st; run (k a ≫= f) st). cbn [run].
  rewrite outcome_bind_assoc. destruct (perform c st) as [[a st1]| | |]; try done. rewrite !outcome_bind_ret. apply IH.
Qed.

Lemma run_ret {A} (x : A) st : run (mret x) st = Ret (x, st).
Proof. reflexivity. Qed.

Lemma run_done_bind {A B} (o : outcome A) (f : A -> program B) st : run (Done o ≫= f) st = (x ← o; run (f x) st).
Proof. by destruct o. Qed.

(** A call, then what is done with its answer. *)
Lemma run_get {B} hash (f : option nat -> program B) st :
  run ((invoke (call_get hash) : program (option nat)) ≫= f) st = (p ← get hash st; run (f p) st).
Proof. unfold invoke. cbn. by destruct (get hash st). Qed.

Lemma run_add_blob {B} provided_hash content (f : option nat -> program B) st :
  run ((invoke (call_add_blob provided_hash content) : program (option nat)) ≫= f) st =
    ('(p, st) ← add_blob config_ provided_hash content st; run (f p) st).
Proof. reflexivity. Qed.

Lemma run_paginate {B} last count (f : list (BlobKey * nat) -> program B) st :
  run ((invoke (call_paginate last count) : program (list (BlobKey * nat))) ≫= f) st = (blobs ← paginate [] last count st; run (f blobs) st).
Proof. unfold invoke. cbn. by destruct (paginate [] last count st). Qed.

Lemma run_blob {B} p (f : Blob -> program B) st :
  run ((invoke (call_blob p) : program Blob) ≫= f) st = (b ← deref st p; run (f b) st).
Proof. unfold invoke. cbn. by destruct (deref st p). Qed.

Lemma run_open {B} path (f : option bytes -> program B) st :
  run ((invoke (call_open path) : program (option bytes)) ≫= f) st = run (f (disk st !! path)) st.
Proof. reflexivity. Qed.

Lemma run_compress {B} t content (f : bytes -> program B) st :
  run ((invoke (call_compress t content) : program bytes) ≫= f) st = (out ← ZopfliCompress t content; run (f out) st).
Proof. unfold invoke. cbn. by destruct (ZopfliCompress t content). Qed.

(** ** Later stores

    Blobs are allocated and never freed while the server runs, and no file is
    written over. *)
Definition later (st st' : store) : Prop := heap st `prefix_of` heap st' /\ disk st ⊆ disk st'.

#[export] Instance later_preorder : PreOrder later.
Proof. unfold later. split; [by intros st|intros a b c [Hab Hd] [Hbc He]; split; [by transitivity (heap b)|by transitivity (disk b)]]. Qed.

Lemma later_lookup st st' p : later st st' -> is_Some (heap st !! p) -> is_Some (heap st' !! p).
Proof. intros [[l Hl] _] [b Hb]. exists b. rewrite Hl. by apply lookup_app_l_Some. Qed.

Lemma later_file st st' path file : later st st' -> disk st !! path = Some file -> disk st' !! path = Some file.
Proof. intros [_ H] Hp. by eapply lookup_weaken. Qed.

Lemma add_blob_later provided c st p st' : add_blob config_ provided c st = Ret (p, st') -> later st st'.
Proof.
  unfold add_blob, add_blob_with. destruct c as [|x c]; [done|]. destruct (create_path _ _) as [path| | |]; try done. rewrite outcome_bind_ret.
  cbv zeta. destruct (provided_hash_found _ _) as [found| | |]; try done. rewrite outcome_bind_ret.
  destruct found; [destruct (register _ _ _ _)|]; intros [= _ <-]; (split; [by eexists|]); [|done].
  cbn [disk]. destruct (disk st !! path) eqn:E; [done|]. destruct (open_for_write_ok path); [|done]. by apply insert_subseteq.
Qed.

(** How a call may fail: the operating system refuses the directory of an upload, or
    the compressor fails. *)
Definition may_fail {A} (c : call) (o : outcome A) : Prop :=
  match c with
  | call_add_blob _ _ => match o with Throws e => e = filesystem_error | _ => False end
  | call_compress t content =>
      match ZopfliCompress t content, o with
      | Throws e, Throws e' => e = e'
      | Aborts, Aborts | Undefined, Undefined => True
      | _, _ => False
      end
  | _ => False
  end.

(** The calls that have an answer in every store that has the pointers they use. *)
Definition call_ok (c : call) (st : store) : Prop :=
  match c with
  | call_add_blob _ content => content ≠ []
  | call_blob p => is_Some (heap st !! p)
  | _ => True
  end.

Lemma call_ok_later c st st' : later st st' -> call_ok c st -> call_ok c st'.
Proof. intros Hl. destruct c; cbn [call_ok]; try done. by apply later_lookup. Qed.

(** What an answer guarantees. *)
Definition answer_ok (c : call) (a : answer c) (st : store) : Prop :=
  match c as c return answer c -> Prop with
  | call_get _ => fun a => forall p, a = Some p -> is_Some (heap st !! p)
  | call_paginate _ _ => Forall (fun e => is_Some (heap st !! e.2))
  | call_open path => fun a => a = disk st !! path
  | _ => fun _ => True
  end a.

Lemma paginate_Forall (P : BlobKey * nat -> Prop) last n st :
  Forall P (blobs_ st) -> exists page, paginate [] last n st = Ret page /\ Forall P page.
Proof.
  intros Hf. rewrite paginate_eq. unfold entries_from.
  assert (exists k, (match last with Some l => create_blob_key l | None => Ret None end) = Ret k) as [k ->].
  { destruct last as [l|]; [|by eexists]. destruct (create_blob_key_some l) as [k ->]. by eexists. }
  rewrite !outcome_bind_ret. eexists. split; [done|]. apply Forall_take. destruct k as [k|]; [|done].
  revert Hf. generalize (blobs_ st). induction l as [|[k' p] l IH]; intros Hl; [done|]. simpl.
  destruct (BlobKey_ltb k' k); [|done]. apply IH. by inversion Hl.
Qed.

Lemma get_found ref st : exists o, get ref st = Ret o /\ forall p, o = Some p -> exists k, map_find BlobKey_ltb (blobs_ st) k = Some p.
Proof.
  unfold get. destruct (create_blob_key_some ref) as [k ->]. rewrite outcome_bind_ret. eexists. split; [done|]. intros p H. by exists k.
Qed.

Lemma perform_spec c st : store_ok st -> call_ok c st ->
  match perform c st with
  | Ret (a, st') => store_ok st' /\ later st st' /\ answer_ok c a st'
  | o => may_fail c o
  end.
Proof.
  intros Hst Hc. destruct c as [hash|provided content|last count|p|path|t content]; cbn [perform answer_ok may_fail call_ok] in *.
  - destruct (get_found hash st) as (o & -> & Ho). rewrite outcome_bind_ret. split_and!; [done..|]. intros p Hp. destruct (Ho p Hp) as [k Hk]. by eapply store_ok_find.
  - pose proof (add_blob_ok config_ provided content st Hc Hst) as H. destruct (add_blob config_ provided content st) as [[p st']|e| |] eqn:E; [|by subst|done..].
    split_and!; [done|by eapply add_blob_later|done].
  - destruct Hst as [Hs Hf]. destruct (paginate_Forall _ last count st Hf) as (page & -> & Hp). by rewrite outcome_bind_ret.
  - unfold deref. destruct Hc as [b ->]. cbn [or_undefined]. by rewrite outcome_bind_ret.
  - done.
  - by destruct (ZopfliCompress t content).
Qed.

(** ** Programs that other threads cannot harm

    [always P m Q st]: from [st] on, whatever well-formed later stores the other
    threads make between its calls, [m] makes calls that [P] holds of and that have
    an answer, does not fail by itself, and ends with what [Q] holds of. *)
Fixpoint always {A} (P : call -> store -> Prop) (m : program A) (Q : A -> store -> Prop) (st : store) : Prop :=
  match m with
  | Done (Ret x) => Q x st
  | Done _ => False
  | Call c k => P c st /\ call_ok c st /\ forall st1 a st2, later st st1 -> store_ok st1 -> perform c st1 = Ret (a, st2) -> always P (k a) Q st2
  end.

(** A property that no later store undoes. *)
Definition stable {A} (Q : A -> store -> Prop) : Prop := forall x st st', later st st' -> Q x st -> Q x st'.

Lemma always_later {A} P (m : program A) Q st st' : stable P -> stable Q -> later st st' -> always P m Q st -> always P m Q st'.
Proof.
  intros HP HQ Hl. destruct m as [[x|e| |]|c k]; cbn [always]; try done; [by apply HQ|]. intros (H & Hc & Hk). split; [by eapply HP|]. split; [by eapply call_ok_later|].
  intros st1 a st2 Hl1. apply Hk. by transitivity st'.
Qed.

Lemma always_mono {A} (P R : call -> store -> Prop) (m : program A) Q S st :
  (forall c st, P c st -> R c st) -> (forall x st, Q x st -> S x st) -> always P m Q st -> always R m S st.
Proof.
  intros HPR HQS. revert st. induction m as [[x|e| |]|c k IH]; intros st; cbn [always]; [auto|done..|]. intros (HP & Hc & Hk). split_and!; [by apply HPR|done|]. intros. eapply IH, Hk; eauto.
Qed.

Lemma always_bind {A B} P (m : program A) (f : A -> program B) Q R st :
  always P m Q st -> (forall x st', later st st' -> Q x st' -> always P (f x) R st') -> always P (m ≫= f) R st.
Proof.
  revert st. induction m as [[x|e| |]|c k IH]; intros st Hm Hf; try done; [by apply Hf|]. destruct Hm as (HP & Hc & Hk).
  split; [done|]. split; [done|]. intros st1 a st2 Hl Hst1 E. eapply IH; [by eapply Hk|]. intros x st' Hl' HQ. apply Hf; [|done].
  transitivity st2; [|done]. transitivity st1; [done|]. pose proof (perform_spec c st1 Hst1 (call_ok_later c st st1 Hl Hc)) as H. rewrite E in H. apply H.
Qed.

Lemma always_invoke P c Q st : P c st -> call_ok c st -> (forall a st', later st st' -> answer_ok c a st' -> Q a st') -> always P (invoke c) Q st.
Proof.
  intros HP Hc HQ. split_and!; [done..|]. intros st1 a st2 Hl Hst1 E. cbn [always].
  pose proof (perform_spec c st1 Hst1 (call_ok_later c st st1 Hl Hc)) as H. rewrite E in H. destruct H as (_ & Hl2 & Ha). apply HQ; [by transitivity st1|done].
Qed.

Lemma always_done {A} P (o : outcome A) (Q : A -> store -> Prop) st x : o = Ret x -> Q x st -> always P (Done o) Q st.
Proof. by intros ->. Qed.

(** A call that leaves the store as it is. *)
Definition reads_only (c : call) : Prop := match c with call_add_blob _ _ => False | _ => True end.

#[export] Instance reads_only_decision c : Decision (reads_only c).
Proof. destruct c; apply _. Defined.

Lemma perform_reads_only c st a st' : reads_only c -> perform c st = Ret (a, st') -> st' = st.
Proof. intros Hc. destruct c; try done; cbn [perform]; [|..|by intros [= _ <-]|]; intros (x & _ & [= _ <-])%outcome_bind_ret_inv; done. Qed.

(** A program that no thread can harm, alone. *)
Lemma always_run {A} P (m : program A) Q st : store_ok st -> always P m Q st ->
  match run m st with
  | Ret (x, st') => Q x st' /\ store_ok st' /\ ((forall c st, P c st -> reads_only c) -> st' = st)
  | o => exists c st1, P c st1 /\ may_fail c o /\ ((forall c st, P c st -> reads_only c) -> st1 = st)
  end.
Proof.
  revert st. induction m as [[x|e| |]|c k IH]; intros st Hst Hm; try done. destruct Hm as (HP & Hc & Hk). cbn [run].
  pose proof (perform_spec c st Hst Hc) as Hp. destruct (perform c st) as [[a st1]|e| |] eqn:E; [|by exists c, st; (split; [done|]); destruct c..].
  rewrite outcome_bind_ret. specialize (IH a st1 (proj1 Hp) (Hk st a st1 ltac:(done) Hst E)).
  assert ((forall c st, P c st -> reads_only c) -> st1 = st) as Hsame by (intros H; eapply perform_reads_only; [by eapply H|done]).
  destruct (run (k a) st1) as [[x st2]|e| |].
  - destruct IH as (HQ & Hst2 & H2). split_and!; [done..|]. intros H. by rewrite (H2 H), Hsame.
  - destruct IH as (c' & st' & HP' & Hf & H2). exists c', st'. split_and!; [done..|]. intros H. by rewrite (H2 H), Hsame.
  - destruct IH as (c' & st' & HP' & Hf & H2). exists c', st'. split_and!; [done..|]. intros H. by rewrite (H2 H), Hsame.
  - destruct IH as (c' & st' & HP' & Hf & H2). exists c', st'. split_and!; [done..|]. intros H. by rewrite (H2 H), Hsame.
Qed.
End perform.

Create Rewrite HintDb program.
#[export] Hint Rewrite @run_done_bind @run_ret @run_get @run_add_blob @run_paginate @run_blob @run_open @run_compress @outcome_bind_ret : program.
