(* ===== verification/Qi.v ===== *)
(** * Grammars

    The grammars of the program ([keys_and_values] in [request.hpp],
    [header_tokens], [chunks] and [chunk_tokens] in [boost-multipart-form.h])
    are expressions of Boost.Spirit.Qi. An expression is a value of [gram],
    typed by the attribute it is parsed into; Boost's [qi::parse] is the
    parameter [Qi], with its documented semantics as laws: parsing
    expressions, the first alternative that matches, greedy repetition, and
    an attribute that is a reference: a branch that fails after a match
    leaves in a string what it has appended to it. *)

From S2P Require Import Prelude CppString StdMap.

Definition string_map : Type := list (bytes * bytes).

(** [map.insert(map.end(), p)], as Qi appends to a map. *)
Definition insert_pair (m : string_map) (p : bytes * bytes) : string_map :=
  map_insert bytes_ltb m p.1 p.2.

Inductive gram : Type -> Type :=
| Char (f : ascii -> bool) : gram bytes                       (* char_, a character class *)
| Lit {A} (s : bytes) : gram A                                (* lit *)
| Eol {A} : gram A                                            (* eol *)
| Seq {A} (g h : gram A) : gram A                             (* g >> h *)
| Alt {A} (g h : gram A) : gram A                             (* g | h *)
| Diff {A} (g : gram A) (h : gram unit) : gram A              (* g - h *)
| Star {A} (g : gram A) : gram A                              (* *g *)
| Plus {A} (g : gram A) : gram A                              (* +g *)
| Opt {A} (g : gram A) : gram A                               (* -g *)
| Omit {A B} (g : gram A) (init : A) : gram B                 (* g, its attribute unused *)
| Pair (g h : gram bytes) : gram (bytes * bytes)              (* g >> h into a std::pair *)
| Push {A} (g : gram A) (init : A) : gram (list A)            (* g into an element of a vector *)
| Insert (g : gram (bytes * bytes)) : gram string_map.        (* g into an element of a map *)

(** [eol]: CR LF, CR or LF. *)
Definition match_eol (s : bytes) : option bytes :=
  match s with
  | c :: s' =>
      if (c =? "013")%char then
        match s' with
        | d :: s'' => if (d =? "010")%char then Some s'' else Some s'
        | [] => Some s'
        end
      else if (c =? "010")%char then Some s' else None
  | [] => None
  end.

(** A parse gives the rest of the input, or fails; the attribute is passed by
    reference. *)
Definition parsed (A : Type) : Type := option bytes * A.

Class Qi : Type := {
  qi_parse {A : Type} (g : gram A) (s : bytes) (a : A) : parsed A;
  qi_char f s a :
    qi_parse (Char f) s a =
      match s with
      | c :: s' => if f c then (Some s', a ++ [c]) else (None, a)
      | [] => (None, a)
      end;
  qi_lit A pat s (a : A) :
    qi_parse (Lit pat) s a =
      (if starts_with s pat then Some (drop (length pat) s) else None, a);
  qi_eol A s (a : A) : qi_parse Eol s a = (match_eol s, a);
  qi_seq A (g h : gram A) s a :
    qi_parse (Seq g h) s a =
      match qi_parse g s a with
      | (Some s', a') => qi_parse h s' a'
      | (None, a') => (None, a')
      end;
  qi_alt A (g h : gram A) s a :
    qi_parse (Alt g h) s a =
      match qi_parse g s a with
      | (Some s', a') => (Some s', a')
      | (None, a') => qi_parse h s a'
      end;
  qi_diff A (g : gram A) h s a :
    qi_parse (Diff g h) s a =
      match qi_parse h s tt with
      | (Some _, _) => (None, a)
      | (None, _) => qi_parse g s a
      end;
  qi_star_fail A (g : gram A) s a a' :
    qi_parse g s a = (None, a') -> qi_parse (Star g) s a = (Some s, a');
  qi_star_step A (g : gram A) s a s' a' :
    qi_parse g s a = (Some s', a') -> (length s' < length s)%nat ->
    qi_parse (Star g) s a = qi_parse (Star g) s' a';
  qi_plus A (g : gram A) s a :
    qi_parse (Plus g) s a =
      match qi_parse g s a with
      | (Some s', a') => qi_parse (Star g) s' a'
      | (None, a') => (None, a')
      end;
  qi_opt A (g : gram A) s a :
    qi_parse (Opt g) s a =
      match qi_parse g s a with
      | (Some s', a') => (Some s', a')
      | (None, a') => (Some s, a')
      end;
  qi_omit A B (g : gram A) init s (b : B) :
    qi_parse (Omit g init) s b = ((qi_parse g s init).1, b);
  qi_pair g h s a :
    qi_parse (Pair g h) s a =
      match qi_parse g s a.1 with
      | (Some s', k) => let r := qi_parse h s' a.2 in (r.1, (k, r.2))
      | (None, k) => (None, (k, a.2))
      end;
  qi_push A (g : gram A) init s a :
    qi_parse (Push g init) s a =
      match qi_parse g s init with
      | (Some s', x) => (Some s', a ++ [x])
      | (None, _) => (None, a)
      end;
  qi_insert g s a :
    qi_parse (Insert g) s a =
      match qi_parse g s ([], []) with
      | (Some s', p) => (Some s', insert_pair a p)
      | (None, _) => (None, a)
      end;
}.

(** ** An instance, for examples *)

Fixpoint peg_star {A} (p : bytes -> A -> parsed A) (fuel : nat) (s : bytes) (a : A) : parsed A :=
  match p s a with
  | (Some s', a') =>
      match fuel with
      | S f => if (length s' <? length s)%nat then peg_star p f s' a' else (Some s, a')
      | O => (Some s, a')
      end
  | (None, a') => (Some s, a')
  end.

Fixpoint peg {A} (g : gram A) : bytes -> A -> parsed A :=
  match g in gram A return bytes -> A -> parsed A with
  | Char f => fun s a =>
      match s with
      | c :: s' => if f c then (Some s', a ++ [c]) else (None, a)
      | [] => (None, a)
      end
  | Lit pat => fun s a => (if starts_with s pat then Some (drop (length pat) s) else None, a)
  | Eol => fun s a => (match_eol s, a)
  | Seq g h => fun s a =>
      match peg g s a with (Some s', a') => peg h s' a' | (None, a') => (None, a') end
  | Alt g h => fun s a =>
      match peg g s a with (Some s', a') => (Some s', a') | (None, a') => peg h s a' end
  | Diff g h => fun s a =>
      match peg h s tt with (Some _, _) => (None, a) | (None, _) => peg g s a end
  | Star g => fun s a => peg_star (peg g) (length s) s a
  | Plus g => fun s a =>
      match peg g s a with
      | (Some s', a') => peg_star (peg g) (length s') s' a'
      | (None, a') => (None, a')
      end
  | Opt g => fun s a =>
      match peg g s a with (Some s', a') => (Some s', a') | (None, a') => (Some s, a') end
  | Omit g init => fun s a => ((peg g s init).1, a)
  | Pair g h => fun s a =>
      match peg g s a.1 with
      | (Some s', k) => let r := peg h s' a.2 in (r.1, (k, r.2))
      | (None, k) => (None, (k, a.2))
      end
  | Push g init => fun s a =>
      match peg g s init with (Some s', x) => (Some s', a ++ [x]) | (None, _) => (None, a) end
  | Insert g => fun s a =>
      match peg g s ([], []) with
      | (Some s', p) => (Some s', insert_pair a p)
      | (None, _) => (None, a)
      end
  end.

Lemma peg_star_fuel {A} (p : bytes -> A -> parsed A) f1 f2 s a :
  (length s <= f1)%nat -> (length s <= f2)%nat -> peg_star p f1 s a = peg_star p f2 s a.
Proof.
  revert f2 s a. induction f1 as [|f1 IH]; intros f2 s a H1 H2.
  - destruct s; [|simpl in H1; lia]. destruct f2; simpl; [done|].
    destruct (p [] a) as [[s'|] a']; [|done]. destruct (Nat.ltb_spec (length s') 0); [lia|done].
  - destruct f2 as [|f2]; simpl.
    + destruct s; [|simpl in H2; lia]. simpl. destruct (p [] a) as [[s'|] a']; [|done].
      destruct (Nat.ltb_spec (length s') 0); [lia|done].
    + destruct (p s a) as [[s'|] a']; [|done].
      destruct (Nat.ltb_spec (length s') (length s)); [|done]. apply IH; lia.
Qed.

Lemma peg_star_stop {A} (p : bytes -> A -> parsed A) f s a a' :
  p s a = (None, a') -> peg_star p f s a = (Some s, a').
Proof. intros H. by destruct f; simpl; rewrite H. Qed.

Lemma peg_star_next {A} (p : bytes -> A -> parsed A) s a s' a' :
  p s a = (Some s', a') -> (length s' < length s)%nat ->
  peg_star p (length s) s a = peg_star p (length s') s' a'.
Proof.
  intros H Hlt. destruct s as [|c s]; [simpl in Hlt; lia|].
  change (length (c :: s)) with (S (length s)). simpl peg_star at 1. rewrite H.
  rewrite (proj2 (Nat.ltb_lt _ _)) by (simpl in *; lia).
  apply peg_star_fuel; simpl in *; lia.
Qed.

Definition peg_qi : Qi.
Proof.
  refine {| qi_parse := @peg |}; try reflexivity; intros; simpl.
  - by apply peg_star_stop.
  - by apply peg_star_next.
Defined.

(** ** Derived facts *)

Section facts.
Context {qi : Qi}.

(** A parser of single characters, those at which [P] holds of the input. *)
Definition one_char (g : gram bytes) (P : bytes -> bool) : Prop :=
  forall s a, qi_parse g s a =
    match s with
    | c :: s' => if P s then (Some s', a ++ [c]) else (None, a)
    | [] => (None, a)
    end.

Fixpoint span (P : bytes -> bool) (s : bytes) : bytes * bytes :=
  match s with
  | c :: s' => if P s then let r := span P s' in (c :: r.1, r.2) else ([], s)
  | [] => ([], [])
  end.

Lemma span_app P s : (span P s).1 ++ (span P s).2 = s.
Proof. induction s as [|c s IH]; simpl; [done|]. destruct (P (c :: s)); simpl; [by f_equal|done]. Qed.

(** The next character is in a class. *)
Definition head_is (f : ascii -> bool) (s : bytes) : bool :=
  match s with c :: _ => f c | [] => false end.

Lemma one_char_ext g P Q : one_char g P -> (forall c s, P (c :: s) = Q (c :: s)) -> one_char g Q.
Proof. intros Hg HPQ s a. rewrite Hg. destruct s; [done|by rewrite HPQ]. Qed.

Lemma one_char_Char f : one_char (Char f) (head_is f).
Proof. intros s a. rewrite qi_char. by destruct s. Qed.

Lemma one_char_Diff g P h :
  one_char g P ->
  one_char (Diff g h) (fun s => negb (bool_decide (is_Some (qi_parse h s tt).1)) && P s).
Proof.
  intros Hg s a. rewrite qi_diff, Hg. destruct (qi_parse h s tt) as [[s'|] u]; simpl.
  - by destruct s.
  - done.
Qed.

Lemma one_char_not_char f g :
  one_char (Diff (Char f) (Omit (Char g) [])) (head_is (fun c => negb (g c) && f c)).
Proof.
  eapply one_char_ext; [apply one_char_Diff, one_char_Char|]. intros c s. cbv beta.
  rewrite qi_omit, qi_char. simpl. by destruct (g c).
Qed.

Lemma one_char_not_lit f d :
  one_char (Diff (Char f) (Lit [d])) (head_is (fun c => negb (d =? c)%char && f c)).
Proof.
  eapply one_char_ext; [apply one_char_Diff, one_char_Char|]. intros c s. cbv beta.
  rewrite qi_lit. cbn [starts_with fst head_is]. rewrite andb_true_r. by destruct (d =? c)%char.
Qed.

Definition is_eol (c : ascii) : bool := ((c =? "013") || (c =? "010"))%char.

Lemma match_eol_head c s : bool_decide (is_Some (match_eol (c :: s))) = is_eol c.
Proof.
  unfold is_eol. simpl. destruct (c =? "013")%char; simpl; [by destruct s; repeat case_match|].
  by destruct (c =? "010")%char.
Qed.

Lemma one_char_not_eol f :
  one_char (Diff (Char f) Eol) (head_is (fun c => negb (is_eol c) && f c)).
Proof.
  eapply one_char_ext; [apply one_char_Diff, one_char_Char|]. intros c s. cbv beta.
  rewrite qi_eol. cbn [fst]. by rewrite match_eol_head.
Qed.

Lemma star_one_char g P s a :
  one_char g P -> qi_parse (Star g) s a = (Some (span P s).2, a ++ (span P s).1).
Proof.
  intros Hg. revert a. induction s as [|c s IH]; intros a; simpl.
  - rewrite app_nil_r. apply qi_star_fail. apply Hg.
  - pose proof (Hg (c :: s) a) as H. simpl in H. destruct (P (c :: s)).
    + rewrite (qi_star_step _ _ _ _ _ _ H) by (simpl; lia). rewrite IH. simpl.
      by rewrite <-app_assoc.
    + rewrite app_nil_r. by apply qi_star_fail.
Qed.

Lemma plus_one_char g P s a :
  one_char g P ->
  qi_parse (Plus g) s a =
    match (span P s).1 with
    | [] => (None, a)
    | _ => (Some (span P s).2, a ++ (span P s).1)
    end.
Proof.
  intros Hg. rewrite qi_plus, Hg. destruct s as [|c s]; simpl; [done|].
  destruct (P (c :: s)); simpl; [|done].
  rewrite (star_one_char g P s _ Hg). by rewrite <-app_assoc.
Qed.

(** A literal of one character. *)
Lemma starts_with_char c d s : starts_with (d :: s) [c] = (c =? d)%char.
Proof. simpl. by rewrite andb_true_r. Qed.

Lemma parse_lit_app {A} pat s (a : A) : qi_parse (Lit pat) (pat ++ s) a = (Some s, a).
Proof. by rewrite qi_lit, starts_with_app, drop_app_length. Qed.

Lemma parse_lit_char_ne {A} c d s (a : A) : c ≠ d -> qi_parse (Lit [c]) (d :: s) a = (None, a).
Proof. intros H. rewrite qi_lit, starts_with_char. by rewrite (proj2 (Ascii.eqb_neq c d) H). Qed.

(** The span is a given prefix when [P] holds along it and not after it. *)
Lemma span_prefix P s1 s2 :
  (forall n, (n < length s1)%nat -> P (drop n s1 ++ s2) = true) ->
  (s2 = [] \/ P s2 = false) ->
  span P (s1 ++ s2) = (s1, s2).
Proof.
  induction s1 as [|c s1 IH]; intros H1 H2; simpl.
  - destruct s2; [done|]. destruct H2 as [H2|H2]; [done|]. simpl. by rewrite H2.
  - pose proof (H1 0%nat ltac:(simpl; lia)) as H0. simpl in H0. rewrite H0.
    rewrite IH; [done| |done]. intros n Hn. apply (H1 (S n)). simpl. lia.
Qed.

Lemma span_class f s1 s2 :
  forallb f s1 = true -> match s2 with c :: _ => f c = false | [] => True end ->
  span (head_is f) (s1 ++ s2) = (s1, s2).
Proof.
  intros H1 H2. apply span_prefix.
  - intros n Hn. rewrite forallb_forall in H1.
    destruct (drop n s1) as [|c d] eqn:E.
    { apply (f_equal length) in E. rewrite length_drop in E. simpl in E. lia. }
    simpl. apply H1. rewrite <-(take_drop n s1), E. apply in_app_iff. right. left. done.
  - destruct s2; [by left|by right].
Qed.
End facts.

(** ** Invariants of repetition *)

Section repetition.
Context {qi : Qi}.

(** [g] consumes input when it matches, and keeps [I] of the attribute. *)
Definition keeps {A} (g : gram A) (I : A -> Prop) : Prop :=
  forall s a, I a -> I (qi_parse g s a).2.

Definition consumes {A} (g : gram A) : Prop :=
  forall s a s' a', qi_parse g s a = (Some s', a') -> (length s' < length s)%nat.

Definition advances {A} (g : gram A) : Prop :=
  forall s a s' a', qi_parse g s a = (Some s', a') -> (length s' <= length s)%nat.

Lemma consumes_advances {A} (g : gram A) : consumes g -> advances g.
Proof. intros H s a s' a' E. apply H in E. lia. Qed.

Lemma star_total {A} (g : gram A) (I : A -> Prop) s a :
  consumes g -> keeps g I -> I a ->
  exists s' a', qi_parse (Star g) s a = (Some s', a') /\ I a' /\ (length s' <= length s)%nat.
Proof.
  intros Hc Hk. remember (length s) as n eqn:Hn. revert s a Hn.
  induction (Nat.lt_wf_0 n) as [n _ IH]. intros s a -> HI.
  pose proof (Hk s a HI) as Hr. destruct (qi_parse g s a) as [[s'|] a'] eqn:E; simpl in Hr.
  - pose proof (Hc _ _ _ _ E) as Hlt. rewrite (qi_star_step _ _ _ _ _ _ E Hlt).
    destruct (IH _ Hlt s' a' eq_refl Hr) as (s2 & a2 & ? & ? & ?). exists s2, a2.
    split_and!; [done..|lia].
  - exists s, a'. split_and!; [by apply qi_star_fail|done|lia].
Qed.

Lemma keeps_star {A} (g : gram A) I : consumes g -> keeps g I -> keeps (Star g) I.
Proof. intros Hc Hk s a HI. by destruct (star_total g I s a Hc Hk HI) as (s' & a' & -> & ? & _). Qed.

Lemma keeps_seq {A} (g h : gram A) I : keeps g I -> keeps h I -> keeps (Seq g h) I.
Proof.
  intros Hg Hh s a HI. rewrite qi_seq. pose proof (Hg s a HI).
  destruct (qi_parse g s a) as [[s'|] a']; [by apply Hh|done].
Qed.

Lemma keeps_alt {A} (g h : gram A) I : keeps g I -> keeps h I -> keeps (Alt g h) I.
Proof.
  intros Hg Hh s a HI. rewrite qi_alt. pose proof (Hg s a HI).
  destruct (qi_parse g s a) as [[s'|] a']; [done|by apply Hh].
Qed.

Lemma keeps_plus {A} (g : gram A) I : consumes g -> keeps g I -> keeps (Plus g) I.
Proof.
  intros Hc Hg s a HI. rewrite qi_plus. pose proof (Hg s a HI).
  destruct (qi_parse g s a) as [[s'|] a']; [by apply keeps_star|done].
Qed.

Lemma keeps_opt {A} (g : gram A) I : keeps g I -> keeps (Opt g) I.
Proof.
  intros Hg s a HI. rewrite qi_opt. pose proof (Hg s a HI).
  by destruct (qi_parse g s a) as [[s'|] a'].
Qed.

Lemma keeps_lit {A} pat (I : A -> Prop) : keeps (Lit pat) I.
Proof. intros s a HI. by rewrite qi_lit. Qed.

Lemma keeps_char f (I : bytes -> Prop) :
  (forall a c, f c = true -> I a -> I (a ++ [c])) -> keeps (Char f) I.
Proof. intros H s a HI. rewrite qi_char. destruct s as [|c s]; [done|]. destruct (f c) eqn:E; simpl; auto. Qed.

Lemma consumes_char f : consumes (Char f).
Proof.
  intros s a s' a'. rewrite qi_char. destruct s as [|c s]; [done|].
  destruct (f c); intros [= <- <-]. simpl. lia.
Qed.

Lemma starts_with_length s pat : starts_with s pat = true -> (length pat <= length s)%nat.
Proof. intros [r ->]%starts_with_spec. rewrite length_app. lia. Qed.

Lemma advances_lit {A} pat : advances (A := A) (Lit pat).
Proof.
  intros s a s' a'. rewrite qi_lit. destruct (starts_with s pat) eqn:E; intros [= <- <-].
  rewrite length_drop. lia.
Qed.

Lemma consumes_lit {A} pat : pat ≠ [] -> consumes (A := A) (Lit pat).
Proof.
  intros Hp s a s' a'. rewrite qi_lit. destruct (starts_with s pat) eqn:E; intros [= <- <-].
  apply starts_with_length in E. rewrite length_drop. destruct pat; [done|]. simpl in *. lia.
Qed.

Lemma consumes_alt {A} (g h : gram A) : consumes g -> consumes h -> consumes (Alt g h).
Proof.
  intros Hg Hh s a s' a'. rewrite qi_alt. destruct (qi_parse g s a) as [[s1|] a1] eqn:E.
  - intros [= <- <-]. by eapply Hg.
  - intros H. by eapply Hh.
Qed.

Lemma consumes_seq_l {A} (g h : gram A) : consumes g -> advances h -> consumes (Seq g h).
Proof.
  intros Hg Hh s a s' a'. rewrite qi_seq. destruct (qi_parse g s a) as [[s1|] a1] eqn:E; [|done].
  intros H. apply Hg in E. apply Hh in H. lia.
Qed.

Lemma advances_seq {A} (g h : gram A) : advances g -> advances h -> advances (Seq g h).
Proof.
  intros Hg Hh s a s' a'. rewrite qi_seq. destruct (qi_parse g s a) as [[s1|] a1] eqn:E; [|done].
  intros H. apply Hg in E. apply Hh in H. lia.
Qed.

Lemma advances_star {A} (g : gram A) : consumes g -> advances (Star g).
Proof.
  intros Hc s a s' a' H.
  destruct (star_total g (fun _ => True) s a Hc ltac:(by intros ??) I) as (s2 & a2 & H2 & _ & ?).
  rewrite H2 in H. by injection H as <- <-.
Qed.

Lemma advances_opt {A} (g : gram A) : advances g -> advances (Opt g).
Proof.
  intros Hg s a s' a'. rewrite qi_opt. destruct (qi_parse g s a) as [[s1|] a1] eqn:E.
  - intros [= <- <-]. by eapply Hg.
  - intros [= <- <-]. lia.
Qed.

Lemma consumes_plus {A} (g : gram A) : consumes g -> consumes (Plus g).
Proof.
  intros Hg s a s' a'. rewrite qi_plus. destruct (qi_parse g s a) as [[s1|] a1] eqn:E; [|done].
  intros H. apply Hg in E. apply (advances_star g Hg) in H. lia.
Qed.

Lemma consumes_pair g h : consumes g -> advances h -> consumes (Pair g h).
Proof.
  intros Hg Hh s a s' a'. rewrite qi_pair. destruct (qi_parse g s a.1) as [[s1|] k] eqn:E; [|done].
  destruct (qi_parse h s1 a.2) as [o v] eqn:F. simpl. intros [= -> <-].
  apply Hg in E. apply Hh in F. lia.
Qed.

Lemma consumes_insert g : consumes g -> consumes (Insert g).
Proof.
  intros Hg s a s' a'. rewrite qi_insert. destruct (qi_parse g s _) as [[s1|] p] eqn:E; [|done].
  intros [= <- <-]. by eapply Hg.
Qed.

Lemma consumes_push {A} (g : gram A) init : consumes g -> consumes (Push g init).
Proof.
  intros Hg s a s' a'. rewrite qi_push. destruct (qi_parse g s _) as [[s1|] p] eqn:E; [|done].
  intros [= <- <-]. by eapply Hg.
Qed.
End repetition.

#[export] Hint Resolve consumes_char consumes_alt consumes_seq_l consumes_plus consumes_pair
  consumes_insert consumes_push advances_star advances_opt advances_seq advances_lit
  keeps_seq keeps_alt keeps_plus keeps_opt keeps_star keeps_lit : blob.
#[export] Hint Resolve consumes_advances | 5 : blob.
#[export] Hint Extern 1 (consumes (Lit _)) => (apply consumes_lit; discriminate) : blob.
