(* ===== verification/QueryString.v ===== *)
(** * Query strings

    The grammar [keys_and_values] ([request.hpp]) and the two members of
    [request_handler] that read a query string with it
    ([request_handler.cpp]): the references asked of [/stat], and the
    reference [/enumerate-blobs] continues from. *)

From S2P Require Import Prelude CppString StdMap Qi.

Local Open Scope Z_scope.

Definition between (a b : ascii) (c : ascii) : bool :=
  (char_uint a <=? char_uint c) && (char_uint c <=? char_uint b).

Definition one_of (s : bytes) (c : ascii) : bool := existsb (fun d => (d =? c)%char) s.

(** [a-zA-Z_], [a-zA-Z_0-9] and [/:_@a-zA-Z0-9.,+*!=-] *)
Definition key_start (c : ascii) : bool := between "a" "z" c || between "A" "Z" c || (c =? "_")%char.
Definition key_char (c : ascii) : bool := key_start c || between "0" "9" c.
Definition query_value_char (c : ascii) : bool :=
  one_of (lit "/:_@.,+*!=-") c || between "a" "z" c || between "A" "Z" c || between "0" "9" c.

Definition key : gram bytes := Seq (Char key_start) (Star (Char key_char)).
Definition value : gram bytes := Plus (Char query_value_char).
Definition pair : gram (bytes * bytes) := Pair key (Opt (Seq (Lit (lit "=")) value)).
Definition query : gram string_map :=
  Seq (Insert pair) (Star (Seq (Alt (Lit (lit ";")) (Lit (lit "&"))) (Insert pair))).

Section decode.
Context {qi : Qi}.

(** What follows the first [?], if any: the position is an [unsigned]. *)
Definition after_question_mark (input : bytes) : outcome bytes :=
  let found := u32 (str_find input (lit "?")) in
  if negb (found =? npos) then substr input (u32 (found + 1)) npos else Ret input.

Definition decode_query_string_blobs (blobs : list bytes) (input : bytes) : outcome (list bytes) :=
  input ← after_question_mark input;
  Ret match qi_parse query input [] with
      | (Some _, m) => blobs ++ (filter (fun e => starts_with e.1 (lit "blob") = true) m).*2
      | (None, _) => blobs
      end.

Definition decode_query_string_after (request_path : bytes) : outcome (option bytes) :=
  let found := u32 (str_find request_path (lit "?")) in
  if negb (found =? npos) then
    input ← substr request_path (u32 (found + 1)) npos;
    Ret match qi_parse query input [] with
        | (Some _, m) => snd <$> List.find (fun e => starts_with e.1 (lit "after")) m
        | (None, _) => None
        end
  else Ret None.
End decode.

Example decode_blobs_example :
  let Q := peg_qi in
  decode_query_string_blobs [] (lit "/stat?camliversion=1&blob2=sha1-B&blob10=sha1-A%") =
    Ret [lit "sha1-A"; lit "sha1-B"].
Proof. by vm_compute. Qed.

Example decode_after_example :
  let Q := peg_qi in
  decode_query_string_after (lit "/enumerate-blobs?limit=2&after=sha1-B") = Ret (Some (lit "sha1-B")).
Proof. by vm_compute. Qed.

(** ** Printing *)

Definition print_pair (p : bytes * bytes) : bytes :=
  p.1 ++ match p.2 with [] => [] | v => "="%char :: v end.

Fixpoint print_rest (ps : list (bytes * bytes)) : bytes :=
  match ps with [] => [] | p :: ps' => "&"%char :: print_pair p ++ print_rest ps' end.

Definition print_query (p : bytes * bytes) (ps : list (bytes * bytes)) : bytes :=
  print_pair p ++ print_rest ps.

Definition pair_ok (p : bytes * bytes) : Prop :=
  match p.1 with c :: k => key_start c = true /\ forallb key_char k = true | [] => False end /\
  forallb query_value_char p.2 = true.

Section roundtrip.
Context {qi : Qi}.

(** What may follow a printed pair. *)
Definition pair_end (s : bytes) : Prop :=
  match s with c :: _ => key_char c = false /\ query_value_char c = false | [] => True end.

Lemma key_char_equals : key_char "="%char = false.
Proof. reflexivity. Qed.

Lemma parse_key k s :
  match k with c :: k' => key_start c = true /\ forallb key_char k' = true | [] => False end ->
  match s with c :: _ => key_char c = false | [] => True end ->
  qi_parse key (k ++ s) [] = (Some s, k).
Proof.
  destruct k as [|c k]; [done|]. intros [Hc Hk] Hs. unfold key.
  rewrite qi_seq, qi_char. simpl. rewrite Hc.
  rewrite (star_one_char _ _ _ _ (one_char_Char key_char)), (span_class key_char k s Hk Hs). done.
Qed.

Lemma parse_value v s :
  v ≠ [] -> forallb query_value_char v = true ->
  match s with c :: _ => query_value_char c = false | [] => True end ->
  qi_parse value (v ++ s) [] = (Some s, v).
Proof.
  intros Hv Hf Hs. unfold value.
  rewrite (plus_one_char _ _ _ _ (one_char_Char query_value_char)).
  rewrite (span_class query_value_char v s Hf Hs). by destruct v.
Qed.

Lemma parse_pair p s : pair_ok p -> pair_end s -> qi_parse pair (print_pair p ++ s) ([], []) = (Some s, p).
Proof.
  destruct p as [k v]. unfold pair_ok, print_pair, pair. cbn [fst snd]. intros [Hk Hv] Hs.
  rewrite qi_pair. cbn [fst snd]. destruct v as [|c v].
  - rewrite app_nil_r, parse_key; [|done|destruct s; [done|apply Hs]].
    rewrite qi_opt, qi_seq. change (lit "=") with ["="%char].
    destruct s as [|d s]; [by rewrite qi_lit|].
    rewrite parse_lit_char_ne; [done|]. intros <-. destruct Hs as [_ F]. by vm_compute in F.
  - rewrite <-app_assoc. rewrite parse_key; [|done|done].
    rewrite qi_opt, qi_seq. change (("="%char :: c :: v) ++ s) with (lit "=" ++ (c :: v) ++ s).
    rewrite parse_lit_app, (parse_value (c :: v) s); [done..|destruct s; [done|apply Hs]].
Qed.

Lemma pair_end_rest ps : pair_end (print_rest ps).
Proof. by destruct ps. Qed.

Lemma parse_rest ps m :
  Forall pair_ok ps ->
  qi_parse (Star (Seq (Alt (Lit (lit ";")) (Lit (lit "&"))) (Insert pair))) (print_rest ps) m =
    (Some [], fold_left insert_pair ps m).
Proof.
  intros H. revert m. induction H as [|p ps Hp _ IH]; intros m.
  - apply (qi_star_fail _ _ _ _ m). rewrite qi_seq, qi_alt, !qi_lit. done.
  - assert (qi_parse (Seq (Alt (Lit (lit ";")) (Lit (lit "&"))) (Insert pair)) (print_rest (p :: ps)) m
            = (Some (print_rest ps), insert_pair m p)) as E.
    { rewrite qi_seq, qi_alt. change (lit ";") with [";"%char].
      change (print_rest (p :: ps)) with ("&"%char :: print_pair p ++ print_rest ps).
      rewrite parse_lit_char_ne by done.
      change ("&"%char :: print_pair p ++ print_rest ps) with (lit "&" ++ print_pair p ++ print_rest ps).
      rewrite parse_lit_app, qi_insert. by rewrite (parse_pair p _ Hp (pair_end_rest ps)). }
    rewrite (qi_star_step _ _ _ _ _ _ E); [apply IH|].
    simpl. rewrite length_app. lia.
Qed.

Lemma parse_query p ps :
  pair_ok p -> Forall pair_ok ps ->
  qi_parse query (print_query p ps) [] = (Some [], fold_left insert_pair (p :: ps) []).
Proof.
  intros Hp Hps. unfold query. rewrite qi_seq, qi_insert. unfold print_query.
  rewrite (parse_pair p _ Hp (pair_end_rest ps)). by rewrite parse_rest.
Qed.

Lemma after_question_mark_app path q :
  "?"%char ∉ path -> Z.of_nat (length (path ++ "?"%char :: q)) < 2 ^ 32 ->
  after_question_mark (path ++ "?"%char :: q) = Ret q.
Proof.
  intros Hp Hlen. unfold after_question_mark, str_find.
  change (lit "?") with ["?"%char]. rewrite (find_nat_char path "?"%char q Hp).
  rewrite length_app in Hlen. simpl in Hlen.
  rewrite (u32_small (Z.of_nat _)) by lia. rewrite u32_small by lia.
  rewrite (proj2 (Z.eqb_neq _ _)) by (unfold npos; lia). simpl negb. cbv iota.
  rewrite substr_ret by (rewrite ?length_app; simpl; unfold npos; lia).
  f_equal. replace (Z.to_nat (Z.of_nat (length path) + 1)) with (S (length path)) by lia.
  rewrite cons_middle, app_assoc. apply drop_app_length'. rewrite length_app. simpl. lia.
Qed.

(** Without a [?] the position wraps around to the start of the input. *)
Lemma after_question_mark_none input :
  "?"%char ∉ input -> Z.of_nat (length input) < 2 ^ 32 -> after_question_mark input = Ret input.
Proof.
  intros Hp Hlen. unfold after_question_mark, str_find.
  change (lit "?") with ["?"%char]. rewrite (find_nat_char_None input "?"%char Hp). rewrite u32_npos_ne. simpl negb. cbv iota.
  change (u32 (u32 npos + 1)) with 0. rewrite substr_ret by (unfold npos; lia). done.
Qed.
End roundtrip.

(** ** Properties *)

Section properties.
Context {qi : Qi}.

(** The members of a query: the pairs in key order, the first of each key. *)
Definition query_map (ps : list (bytes * bytes)) : string_map := fold_left insert_pair ps [].

Lemma print_pairs_no_question p ps : Forall pair_ok (p :: ps) -> "?"%char ∉ print_query p ps.
Proof.
  assert (forall q, pair_ok q -> "?"%char ∉ print_pair q) as Hq.
  { intros [k v] [Hk Hv]. unfold print_pair. cbn [fst snd] in *. rewrite not_elem_of_app. split.
    - destruct k as [|c k]; [done|]. destruct Hk as [Hc Hk]. rewrite not_elem_of_cons. split.
      + intros <-. by vm_compute in Hc.
      + intros Hin. apply (forallb_elem _ _ _ Hk) in Hin. by vm_compute in Hin.
    - destruct v as [|c v]; [by apply not_elem_of_nil|]. rewrite not_elem_of_cons. split; [done|].
      intros Hin. apply (forallb_elem _ _ _ Hv) in Hin. by vm_compute in Hin. }
  intros [Hp Hps]%Forall_cons. unfold print_query. rewrite not_elem_of_app. split; [by apply Hq|].
  induction Hps as [|q ps Hq' _ IH]; cbn [print_rest]; [by apply not_elem_of_nil|].
  rewrite not_elem_of_cons, not_elem_of_app. split; [done|]. split; [by apply Hq|done].
Qed.

Lemma query_map_sorted ps : map_sorted bytes_ltb (query_map ps).
Proof.
  unfold query_map. assert (forall m, map_sorted bytes_ltb m -> map_sorted bytes_ltb (fold_left insert_pair ps m)) as H; [|apply H; constructor].
  induction ps as [|p ps IH]; intros m Hm; [done|]. apply IH. by apply (map_insert_sorted bytes_ltb).
Qed.

(** Round trip of a query string: after a path and a [?], the printed
    pairs [k=v] (or [k] for an empty value), of a non-empty list with
    well-formed keys and values, are read back as the map of the pairs; so
    [/stat] is asked for the values of the keys starting with [blob], and
    [/enumerate-blobs] continues from the first whose key starts with
    [after], both in the order of the keys and not of the text. *)
Theorem decode_printed_query path p ps blobs
    (Hpath : "?"%char ∉ path) (Hok : Forall pair_ok (p :: ps))
    (Hlen : Z.of_nat (length (path ++ "?"%char :: print_query p ps)) < 2 ^ 32) :
  let input := path ++ "?"%char :: print_query p ps in
  decode_query_string_blobs blobs input =
    Ret (blobs ++ (filter (fun e => starts_with e.1 (lit "blob") = true) (query_map (p :: ps))).*2) /\
  decode_query_string_after input =
    Ret (snd <$> List.find (fun e => starts_with e.1 (lit "after")) (query_map (p :: ps))).
Proof.
  intros input. pose proof (after_question_mark_app path _ Hpath Hlen) as Ha.
  apply Forall_cons in Hok as [Hp Hps].
  split.
  - unfold decode_query_string_blobs. fold input in Ha. rewrite Ha, outcome_bind_ret.
    by rewrite (parse_query p ps Hp Hps).
  - unfold decode_query_string_after. unfold after_question_mark in Ha. fold input in Ha.
    rewrite u32_npos_ne in *. simpl negb in *. cbv iota in *. rewrite Ha, outcome_bind_ret.
    by rewrite (parse_query p ps Hp Hps).
Qed.

(** Keys and values of any parse are made of the characters of the grammar. *)
Definition clean (p : bytes * bytes) : Prop :=
  forallb key_char p.1 = true /\ forallb query_value_char p.2 = true.

Lemma keeps_class f : keeps (Char f) (fun a => forallb f a = true).
Proof.
  apply keeps_char. intros a c Hc Ha. rewrite forallb_app, Ha. simpl. by rewrite Hc.
Qed.

Lemma keeps_key : keeps key (fun a => forallb key_char a = true).
Proof.
  apply keeps_seq.
  - apply keeps_char. intros a c Hc Ha. rewrite forallb_app, Ha. simpl.
    unfold key_char. by rewrite Hc.
  - apply keeps_star; [apply consumes_char|apply keeps_class].
Qed.

Lemma keeps_value : keeps value (fun a => forallb query_value_char a = true).
Proof. apply keeps_plus; [apply consumes_char|apply keeps_class]. Qed.

Lemma parse_pair_clean s p s' : qi_parse pair s ([], []) = (Some s', p) -> clean p.
Proof.
  unfold pair. rewrite qi_pair. cbn [fst snd].
  pose proof (keeps_key s [] eq_refl) as Hk. destruct (qi_parse key s []) as [[s1|] k]; [|done].
  set (g := Opt _).
  assert (keeps g (fun a => forallb query_value_char a = true)) as Hg.
  { apply keeps_opt, keeps_seq; [apply keeps_lit|apply keeps_value]. }
  pose proof (Hg s1 [] eq_refl) as Hv. intros [= _ <-]. by split.
Qed.

Lemma insert_pair_Forall P m p : P p -> Forall P m -> Forall P (insert_pair m p).
Proof.
  destruct p as [k v]. unfold insert_pair. cbn [fst snd]. intros Hp.
  induction 1 as [|[k' v'] m H Hm IH]; simpl; [by repeat constructor|].
  repeat case_match; repeat constructor; auto.
Qed.

Lemma keeps_insert_pair : keeps (Insert pair) (Forall clean).
Proof.
  intros s m Hm. rewrite qi_insert. destruct (qi_parse pair s ([], [])) as [[s'|] p] eqn:E; [|done].
  simpl. apply insert_pair_Forall; [by eapply parse_pair_clean|done].
Qed.

Lemma consumes_key : consumes key.
Proof. unfold key. auto with blob. Qed.

Lemma consumes_query_pair : consumes pair.
Proof.
  apply consumes_pair; [apply consumes_key|]. apply advances_opt, advances_seq; [apply advances_lit|].
  apply consumes_advances, consumes_plus, consumes_char.
Qed.

Lemma keeps_query : keeps query (Forall clean).
Proof.
  apply keeps_seq; [apply keeps_insert_pair|]. apply keeps_star.
  - apply consumes_seq_l; [auto with blob|].
    apply consumes_advances, consumes_insert, consumes_query_pair.
  - apply keeps_seq; [|apply keeps_insert_pair]. apply keeps_alt; apply keeps_lit.
Qed.

(** Whatever the request, the references asked of [/stat], beyond those
    already there, are made of the characters [/:_@.,+*!=-], letters and
    digits: no quote, backslash or control character reaches the reply. *)
Theorem decode_blobs_clean blobs input :
  match decode_query_string_blobs blobs input with
  | Ret blobs' => exists new, blobs' = blobs ++ new /\ Forall (fun b => forallb query_value_char b = true) new
  | _ => True
  end.
Proof.
  unfold decode_query_string_blobs. destruct (after_question_mark input) as [q| | |]; try done.
  rewrite outcome_bind_ret. pose proof (keeps_query q [] (Forall_nil_2 _)) as H.
  destruct (qi_parse query q []) as [[s'|] m]; [|by exists []; rewrite app_nil_r].
  eexists. split; [done|]. apply Forall_fmap, Forall_forall.
  intros e [_ He]%list_elem_of_filter. simpl in H. rewrite Forall_forall in H. by apply H.
Qed.
End properties.

Lemma decode_printed_query_witness :
  let Q := peg_qi in
  decode_query_string_blobs [] (lit "/stat?camliversion=1&blob2=sha1-B&blob1=sha1-A") =
    Ret [lit "sha1-A"; lit "sha1-B"].
Proof.
  intros Q.
  destruct (decode_printed_query (lit "/stat") (lit "camliversion", lit "1")
    [(lit "blob2", lit "sha1-B"); (lit "blob1", lit "sha1-A")] []) as [H _].
  - apply (bool_decide_eq_true_1 _). vm_compute. reflexivity.
  - repeat (apply Forall_cons; split); [vm_compute; auto..|by apply Forall_nil].
  - vm_compute. reflexivity.
  - etransitivity; [exact H|]. vm_compute. reflexivity.
Defined.
