(* ===== verification/Multipart.v ===== *)
(** * Multipart form data

    The grammars and the classes [Header], [Part] and [MultiPartFormData] of
    [boost-multipart-form.h] and [boost-multipart-form.cpp]: how the body of an
    upload becomes the list of its parts.

    [ascii::char_] is a 7-bit character. [*(" ")] in [header_tokens] is the
    dereferenced literal, one space. [content] of [chunks] has a vector of
    strings as its attribute, so [end_boundry], a rule with a string
    attribute, adds an empty string to it. *)

From S2P Require Import Prelude CppString StdMap Qi QueryString.

Local Open Scope Z_scope.

Definition ascii_char (c : ascii) : bool := char_uint c <? 128.

(** ** Grammars *)

Module header_tokens.

Definition key : gram bytes := Plus (Diff (Char ascii_char) (Omit (Char (one_of (lit "=;"))) [])).
Definition value : gram bytes :=
  Alt (Seq (Lit [dquote]) (Seq (Plus (Diff (Char ascii_char) (Lit [dquote]))) (Lit [dquote])))
      (Plus (Char ascii_char)).
Definition pair : gram (bytes * bytes) := Pair key (Opt (Seq (Lit (lit "=")) value)).
Definition query : gram string_map :=
  Seq (Insert pair)
    (Seq (Star (Seq (Lit (lit ";")) (Seq (Lit (lit " ")) (Insert pair)))) (Opt Eol)).

End header_tokens.

Module chunks.

Definition chunk_boundry (boundry : bytes) : gram bytes :=
  Seq (Lit (lit "--")) (Seq (Lit boundry) Eol).
Definition end_boundry (boundry : bytes) : gram bytes :=
  Seq (Lit (lit "--")) (Seq (Lit boundry) (Seq (Lit (lit "--")) (Opt Eol))).
Definition value (boundry : bytes) : gram bytes :=
  Plus (Diff (Diff (Char ascii_char) (Omit (end_boundry boundry) []))
             (Omit (chunk_boundry boundry) [])).
Definition chunk (boundry : bytes) : gram bytes := Seq (chunk_boundry boundry) (value boundry).
Definition content (boundry : bytes) : gram (list bytes) :=
  Seq (Push (chunk boundry) [])
    (Seq (Star (Push (chunk boundry) [])) (Push (end_boundry boundry) [])).

End chunks.

Module chunk_tokens.

Definition header : gram bytes := Seq (Plus (Diff (Char ascii_char) Eol)) Eol.
Definition body : gram bytes := Plus (Alt (Char ascii_char) Eol).
Definition token : gram bytes := Alt header body.
Definition content : gram (list bytes) :=
  Seq (Star (Push header [])) (Seq Eol (Star (Push body []))).

End chunk_tokens.

(** ** [Header], [Part], [MultiPartFormData] *)

Record Header : Type := MkHeader { hdr_name : bytes; hdr_attributes : string_map }.

Definition attributeValue (name : bytes) (h : Header) : option bytes :=
  let lower_name := to_lower_copy name in
  snd <$> List.find (fun e => bool_decide (to_lower_copy e.1 = lower_name)) (hdr_attributes h).

Record Part : Type := MkPart { part_headers : list Header; part_payload : bytes }.

Definition Part_new : Part := MkPart [] [].
Definition set_payload (p : bytes) (part : Part) : Part := MkPart (part_headers part) p.
Definition push_header (h : Header) (part : Part) : Part :=
  MkPart (part_headers part ++ [h]) (part_payload part).

Record MultiPartFormData : Type := MkForm { boundry_ : bytes; parts_ : list Part }.

Section forms.
Context {qi : Qi}.

(** [Part::add_header(std::string)]: the position is an [unsigned]. *)
Definition add_header (input : bytes) (part : Part) : outcome Part :=
  let split := u32 (str_find input (lit ":")) in
  if split =? npos then Ret part
  else
    header_name ← substr input 0 split;
    header_value ← substr input (u32 (split + 1)) npos;
    Ret match qi_parse header_tokens.query header_value [] with
        | (Some _, m) => push_header (MkHeader header_name m) part
        | (None, _) => part
        end.

Fixpoint add_headers (inputs : list bytes) (part : Part) : outcome Part :=
  match inputs with
  | [] => Ret part
  | i :: inputs' => part ← add_header i part; add_headers inputs' part
  end.

(** The body of the loop over the tokens of a chunk, from the last one: that
    one is the payload, the others are headers. *)
Definition part_of_tokens (chunk_vector : list bytes) : outcome Part :=
  match reverse chunk_vector with
  | [] => Ret Part_new
  | last :: headers => add_headers headers (set_payload (erase_last last crlf) Part_new)
  end.

Fixpoint add_parts (chunks_vector : list bytes) (form : MultiPartFormData) :
    outcome MultiPartFormData :=
  match chunks_vector with
  | [] => Ret form
  | chunk_data :: rest =>
      match qi_parse chunk_tokens.content chunk_data [] with
      | (Some _, chunk_vector) =>
          part ← part_of_tokens chunk_vector;
          add_parts rest (MkForm (boundry_ form) (parts_ form ++ [part]))
      | (None, _) => add_parts rest form
      end
  end.

(** [MultiPartFormData(boundry, input)] *)
Definition MultiPartFormData_new (boundry input : bytes) : outcome MultiPartFormData :=
  match qi_parse (chunks.content boundry) input [] with
  | (Some _, chunks_vector) => add_parts chunks_vector (MkForm boundry [])
  | (None, _) => Ret (MkForm [] [])
  end.
End forms.

Example multipart_example :
  let Q := peg_qi in
  MultiPartFormData_new (lit "XX")
    (lit "--XX" ++ crlf ++
     lit "Content-Disposition: form-data; name=" ++ dquote :: lit "sha1-A" ++ dquote :: crlf ++ crlf ++
     lit "hello" ++ crlf ++ lit "--XX--" ++ crlf) =
  Ret (MkForm (lit "XX")
    [MkPart [MkHeader (lit "Content-Disposition") [(lit " form-data", []); (lit "name", lit "sha1-A")]]
       (lit "hello")]).
Proof. by vm_compute. Qed.

(** ** Chunks *)

Section parse_chunks.
Context {qi : Qi} (b : bytes).

Definition mark : bytes := lit "--" ++ b.

(** The boundary is not in [x], nor across its end. *)
Definition no_boundary (x : bytes) : Prop :=
  forall n, (n < length x)%nat -> starts_with (drop n x ++ mark) mark = false.

Lemma parse_mark {A} (g : gram A) s a :
  qi_parse (Seq (Lit (lit "--")) (Seq (Lit b) g)) s a =
    if starts_with s mark then qi_parse g (drop (length mark) s) a else (None, a).
Proof.
  rewrite qi_seq, qi_lit. destruct (starts_with s (lit "--")) eqn:E1.
  - apply starts_with_spec in E1 as [r ->]. rewrite drop_app_length, qi_seq, qi_lit.
    destruct (starts_with r b) eqn:E2.
    + apply starts_with_spec in E2 as [r' ->]. rewrite drop_app_length.
      unfold mark. rewrite app_assoc, starts_with_app. by rewrite drop_app_length.
    + destruct (starts_with (lit "--" ++ r) mark) eqn:E3; [|done].
      apply starts_with_spec in E3 as [r' Hr]. unfold mark in Hr.
      rewrite <-app_assoc in Hr. apply app_inv_head in Hr as ->.
      by rewrite starts_with_app in E2.
  - destruct (starts_with s mark) eqn:E3; [|done].
    apply starts_with_spec in E3 as [r' ->]. unfold mark in E1.
    by rewrite <-app_assoc, starts_with_app in E1.
Qed.

Lemma parse_mark_app {A} (g : gram A) r a :
  qi_parse (Seq (Lit (lit "--")) (Seq (Lit b) g)) (mark ++ r) a = qi_parse g r a.
Proof. by rewrite parse_mark, starts_with_app, drop_app_length. Qed.

(** Where the characters of a chunk stop. *)
Definition in_chunk (s : bytes) : bool :=
  negb (bool_decide (is_Some (qi_parse (A := unit) (Omit (chunks.chunk_boundry b) []) s tt).1)) &&
  (negb (bool_decide (is_Some (qi_parse (A := unit) (Omit (chunks.end_boundry b) []) s tt).1)) &&
   match s with c :: _ => ascii_char c | [] => false end).

Lemma one_char_value :
  one_char (Diff (Diff (Char ascii_char) (Omit (chunks.end_boundry b) []))
                 (Omit (chunks.chunk_boundry b) [])) in_chunk.
Proof. unfold in_chunk. by do 2 apply one_char_Diff; apply one_char_Char. Qed.

Lemma in_chunk_outside s :
  starts_with s mark = false -> in_chunk s = match s with c :: _ => ascii_char c | [] => false end.
Proof.
  intros H. unfold in_chunk, chunks.chunk_boundry, chunks.end_boundry.
  by rewrite !qi_omit, !parse_mark, H.
Qed.

Lemma in_chunk_high c s : ascii_char c = false -> in_chunk (c :: s) = false.
Proof. intros H. unfold in_chunk. by rewrite H, !andb_false_r. Qed.

Definition boundary_line : bytes := mark ++ crlf.
Definition end_line : bytes := mark ++ lit "--".

Lemma parse_chunk_boundry r a :
  qi_parse (chunks.chunk_boundry b) (boundary_line ++ r) a = (Some r, a).
Proof.
  unfold chunks.chunk_boundry, boundary_line. rewrite <-app_assoc, parse_mark_app. by rewrite qi_eol.
Qed.

Lemma parse_end_boundry r a :
  exists r', qi_parse (chunks.end_boundry b) (end_line ++ r) a = (Some r', a).
Proof.
  unfold chunks.end_boundry, end_line. rewrite <-app_assoc, parse_mark_app.
  rewrite qi_seq, parse_lit_app, qi_opt, qi_eol. destruct (match_eol r); eauto.
Qed.

Lemma chunk_boundry_not_end r a :
  qi_parse (chunks.chunk_boundry b) (end_line ++ r) a = (None, a).
Proof.
  unfold chunks.chunk_boundry, end_line. rewrite <-app_assoc, parse_mark_app. by rewrite qi_eol.
Qed.

(** What ends the value of a chunk. *)
Definition chunk_end (s : bytes) : Prop := exists r, s = boundary_line ++ r \/ s = end_line ++ r.

Lemma chunk_end_mark s : chunk_end s -> exists r, s = mark ++ r.
Proof. intros (r & [->| ->]); eexists; [unfold boundary_line|unfold end_line]; by rewrite <-app_assoc. Qed.

Lemma in_chunk_end s : chunk_end s -> in_chunk s = false.
Proof.
  intros (r & [->| ->]); unfold in_chunk; rewrite !qi_omit.
  - by rewrite parse_chunk_boundry.
  - destruct (parse_end_boundry r []) as [r' ->]. simpl. by rewrite andb_false_r.
Qed.

Lemma starts_with_app_long p x y : (length p <= length x)%nat -> starts_with (x ++ y) p = starts_with x p.
Proof.
  revert x. induction p as [|c p IH]; intros [|d x] H; simpl in *; try done; try lia.
  rewrite IH; [done|lia].
Qed.

(** A text without the boundary is one value, up to what ends it or to a
    character that is not 7-bit. *)
Lemma span_chunk x s :
  forallb ascii_char x = true -> no_boundary x -> (exists r, s = mark ++ r) -> in_chunk s = false ->
  span in_chunk (x ++ s) = (x, s).
Proof.
  intros Hx Hb [r ->] Hs. apply span_prefix; [|by right].
  intros n Hn. rewrite in_chunk_outside.
  - destruct (drop n x) as [|c d] eqn:E.
    { apply (f_equal length) in E. rewrite length_drop in E. simpl in E. lia. }
    simpl. rewrite forallb_forall in Hx. apply Hx.
    rewrite <-(take_drop n x), E. apply in_app_iff. right. by left.
  - rewrite app_assoc, starts_with_app_long; [by apply Hb|]. rewrite length_app. lia.
Qed.

Lemma parse_chunk_value x s a :
  x ≠ [] -> forallb ascii_char x = true -> no_boundary x -> chunk_end s ->
  qi_parse (chunks.value b) (x ++ s) a = (Some s, a ++ x).
Proof.
  intros Hne Hx Hb He. unfold chunks.value.
  rewrite (plus_one_char _ _ _ _ one_char_value), span_chunk; [by destruct x|done..| |].
  - by apply chunk_end_mark.
  - by apply in_chunk_end.
Qed.

(** The chunks of a body. *)
Fixpoint print_chunks (xs : list bytes) (s : bytes) : bytes :=
  match xs with [] => s | x :: xs' => boundary_line ++ x ++ print_chunks xs' s end.

Definition chunk_ok (x : bytes) : Prop := x ≠ [] /\ forallb ascii_char x = true /\ no_boundary x.

Lemma print_chunks_end xs s : chunk_end s -> chunk_end (print_chunks xs s).
Proof. destruct xs as [|x xs]; [done|]. intros _. eexists. by left. Qed.

Lemma parse_chunk x s a :
  chunk_ok x -> chunk_end s ->
  qi_parse (chunks.chunk b) (boundary_line ++ x ++ s) a = (Some s, a ++ x).
Proof.
  intros (? & ? & ?) He. unfold chunks.chunk. rewrite qi_seq, parse_chunk_boundry.
  by apply parse_chunk_value.
Qed.

Lemma star_chunks xs s vs :
  Forall chunk_ok xs -> chunk_end s ->
  qi_parse (Star (Push (chunks.chunk b) [])) (print_chunks xs s) vs =
    qi_parse (Star (Push (chunks.chunk b) [])) s (vs ++ xs).
Proof.
  intros H Hs. revert vs. induction H as [|x xs Hx _ IH]; intros vs; cbn [print_chunks].
  - by rewrite app_nil_r.
  - assert (qi_parse (Push (chunks.chunk b) []) (boundary_line ++ x ++ print_chunks xs s) vs
      = (Some (print_chunks xs s), vs ++ [x])) as E.
    { rewrite qi_push, parse_chunk; [done..|]. by apply print_chunks_end. }
    rewrite (qi_star_step _ _ _ _ _ _ E).
    + rewrite IH. by rewrite <-app_assoc.
    + unfold boundary_line. rewrite !length_app. simpl. lia.
Qed.

Lemma parse_star_chunks xs r vs :
  Forall chunk_ok xs ->
  qi_parse (Star (Push (chunks.chunk b) [])) (print_chunks xs (end_line ++ r)) vs =
    (Some (end_line ++ r), vs ++ xs).
Proof.
  intros H. rewrite star_chunks; [|done|eexists; by right].
  apply qi_star_fail. rewrite qi_push. unfold chunks.chunk. by rewrite qi_seq, chunk_boundry_not_end.
Qed.

(** The chunks, and the empty string [end_boundry] adds. *)
Lemma parse_content x xs r :
  chunk_ok x -> Forall chunk_ok xs ->
  exists r', qi_parse (chunks.content b) (print_chunks (x :: xs) (end_line ++ r)) [] =
    (Some r', (x :: xs) ++ [[]]).
Proof.
  intros Hx Hxs. unfold chunks.content. rewrite qi_seq, qi_push. cbn [print_chunks].
  rewrite parse_chunk; [|done|by apply print_chunks_end; eexists; right].
  rewrite qi_seq, parse_star_chunks by done. rewrite qi_push.
  destruct (parse_end_boundry r []) as [r' ->]. eauto.
Qed.

(** *** A character that is not 7-bit *)

Lemma mark_head : exists m, mark = "-"%char :: m.
Proof. eexists. reflexivity. Qed.

Lemma not_mark_high c s : ascii_char c = false -> starts_with (c :: s) mark = false.
Proof.
  intros Hc. destruct mark_head as [m ->]. cbn [starts_with].
  destruct (Ascii.eqb_spec "-" c) as [<-|]; [by vm_compute in Hc|done].
Qed.

Lemma parse_chunk_high x c r a :
  forallb ascii_char x = true -> ascii_char c = false ->
  (forall n, (n < length x)%nat -> starts_with (drop n x ++ c :: r) mark = false) ->
  qi_parse (chunks.chunk b) (boundary_line ++ x ++ c :: r) a =
    match x with [] => (None, a) | _ => (Some (c :: r), a ++ x) end.
Proof.
  intros Hx Hc Hb. unfold chunks.chunk. rewrite qi_seq, parse_chunk_boundry.
  unfold chunks.value. rewrite (plus_one_char _ _ _ _ one_char_value), span_prefix.
  - done.
  - intros n Hn. rewrite in_chunk_outside by (by apply Hb).
    destruct (drop n x) as [|d y] eqn:E.
    { apply (f_equal length) in E. rewrite length_drop in E. simpl in E. lia. }
    simpl. rewrite forallb_forall in Hx. apply Hx.
    rewrite <-(take_drop n x), E. apply in_app_iff. right. by left.
  - right. by apply in_chunk_high.
Qed.

(** No chunk and no end starts at it. *)
Lemma star_high c r vs :
  ascii_char c = false ->
  qi_parse (Seq (Star (Push (chunks.chunk b) [])) (Push (chunks.end_boundry b) [])) (c :: r) vs = (None, vs).
Proof.
  intros Hc. rewrite qi_seq, (qi_star_fail _ _ _ _ vs).
  - rewrite qi_push. unfold chunks.end_boundry. by rewrite parse_mark, not_mark_high.
  - rewrite qi_push. unfold chunks.chunk. rewrite qi_seq. unfold chunks.chunk_boundry.
    by rewrite parse_mark, not_mark_high.
Qed.

Lemma end_boundry_not_chunk r a :
  qi_parse (chunks.end_boundry b) (boundary_line ++ r) a = (None, a).
Proof.
  unfold chunks.end_boundry, boundary_line. rewrite <-app_assoc, parse_mark_app. by rewrite qi_seq, qi_lit.
Qed.

Lemma parse_content_high xs x c r :
  Forall chunk_ok xs -> forallb ascii_char x = true -> ascii_char c = false ->
  (forall n, (n < length x)%nat -> starts_with (drop n x ++ c :: r) mark = false) ->
  (qi_parse (chunks.content b) (print_chunks xs (boundary_line ++ x ++ c :: r)) []).1 = None.
Proof.
  intros Hxs Hx Hc Hb. pose proof (parse_chunk_high x c r [] Hx Hc Hb) as Hbad.
  unfold chunks.content. rewrite qi_seq, qi_push. destruct Hxs as [|y ys Hy Hys]; cbn [print_chunks].
  - rewrite Hbad. destruct x; [done|]. cbv iota beta. by rewrite star_high.
  - assert (chunk_end (boundary_line ++ x ++ c :: r)) as He by (eexists; by left).
    rewrite parse_chunk; [|done|by apply print_chunks_end]. cbv iota beta.
    rewrite qi_seq, star_chunks by done. destruct x as [|d x].
    + rewrite (qi_star_fail _ _ _ _ ([[] ++ y] ++ ys)); [|by rewrite qi_push, Hbad].
      by rewrite qi_push, end_boundry_not_chunk.
    + rewrite (qi_star_step _ _ _ (([[] ++ y] ++ ys)) (c :: r) (([[] ++ y] ++ ys) ++ [d :: x])).
      * pose proof (star_high c r (([[] ++ y] ++ ys) ++ [d :: x]) Hc) as H.
        rewrite qi_seq in H. by rewrite H.
      * by rewrite qi_push, Hbad.
      * rewrite !length_app. simpl. lia.
Qed.
End parse_chunks.

(** ** Headers *)

Definition header_char (c : ascii) : bool := ascii_char c && negb (is_eol c).
Definition name_char (c : ascii) : bool := header_char c && negb (c =? ":")%char.
Definition attr_key_char (c : ascii) : bool := header_char c && negb (one_of (lit "=;") c).
Definition attr_value_char (c : ascii) : bool := header_char c && negb (c =? dquote)%char.

Definition print_attr (p : bytes * bytes) : bytes :=
  p.1 ++ match p.2 with [] => [] | v => lit "=" ++ [dquote] ++ v ++ [dquote] end.

Fixpoint print_attrs_rest (ps : list (bytes * bytes)) : bytes :=
  match ps with [] => [] | p :: ps' => lit ";" ++ lit " " ++ print_attr p ++ print_attrs_rest ps' end.

(** A header of a part: its name and its attributes, one at least. *)
Record form_header : Type := FormHeader {
  fh_name : bytes;
  fh_attr : bytes * bytes;
  fh_attrs : list (bytes * bytes);
}.

Definition print_form_header (h : form_header) : bytes :=
  fh_name h ++ ":"%char :: print_attr (fh_attr h) ++ print_attrs_rest (fh_attrs h).

Definition header_of (h : form_header) : Header :=
  MkHeader (fh_name h) (query_map (fh_attr h :: fh_attrs h)).

Definition attr_ok (p : bytes * bytes) : Prop :=
  p.1 ≠ [] /\ forallb attr_key_char p.1 = true /\ forallb attr_value_char p.2 = true.

Record form_header_ok (h : form_header) : Prop := {
  fh_name_ok : forallb name_char (fh_name h) = true;
  fh_attrs_ok : Forall attr_ok (fh_attr h :: fh_attrs h);
  fh_short : Z.of_nat (length (print_form_header h)) < 2 ^ 32;
}.

Lemma header_char_ascii c : header_char c = true -> ascii_char c = true.
Proof. unfold header_char. by intros [? _]%andb_true_iff. Qed.

Section parse_headers.
Context {qi : Qi}.
Import header_tokens.

Definition attrs_end (s : bytes) : Prop := s = [] \/ exists r, s = ";"%char :: r.

Lemma parse_attr_key k s :
  k ≠ [] -> forallb attr_key_char k = true ->
  s = [] \/ (exists r, s = ";"%char :: r \/ s = "="%char :: r) ->
  qi_parse key (k ++ s) [] = (Some s, k).
Proof.
  intros Hk Hf Hs. unfold key.
  rewrite (plus_one_char _ _ _ _ (one_char_not_char ascii_char _)), span_class; [by destruct k|..].
  - apply (forallb_impl attr_key_char); [|done]. intros c. unfold attr_key_char, header_char.
    rewrite !andb_true_iff. tauto.
  - destruct Hs as [->|(r & [->| ->])]; done.
Qed.

Lemma parse_attr_value v s :
  v ≠ [] -> forallb attr_value_char v = true ->
  qi_parse value ([dquote] ++ v ++ [dquote] ++ s) [] = (Some s, v).
Proof.
  intros Hv Hf. unfold value. rewrite qi_alt, qi_seq, parse_lit_app, qi_seq.
  rewrite (plus_one_char _ _ _ _ (one_char_not_lit ascii_char _)), span_class.
  - destruct v as [|c v]; [done|]. cbn [fst snd]. by rewrite parse_lit_app.
  - apply (forallb_impl attr_value_char); [|done]. intros c.
    unfold attr_value_char, header_char. rewrite (Ascii.eqb_sym c dquote), !andb_true_iff. tauto.
  - done.
Qed.

Lemma parse_attr p s : attr_ok p -> attrs_end s -> qi_parse pair (print_attr p ++ s) ([], []) = (Some s, p).
Proof.
  destruct p as [k v]. intros (Hk & Hf & Hv) Hs. cbn [fst snd] in *. unfold print_attr, pair.
  rewrite qi_pair. cbn [fst snd]. destruct v as [|c v].
  - rewrite app_nil_r, parse_attr_key; [|done..|destruct Hs as [?|[r ?]]; eauto].
    rewrite qi_opt, qi_seq. change (lit "=") with ["="%char].
    destruct Hs as [->|[r ->]]; [by rewrite qi_lit|by rewrite parse_lit_char_ne].
  - rewrite <-!app_assoc. rewrite parse_attr_key; [|done..|right; eexists; by right].
    rewrite qi_opt, qi_seq, parse_lit_app, (parse_attr_value (c :: v) s); done.
Qed.

Lemma attrs_end_rest ps : attrs_end (print_attrs_rest ps).
Proof. destruct ps; [by left|right]. eexists. reflexivity. Qed.

Lemma parse_attrs_rest ps m :
  Forall attr_ok ps ->
  qi_parse (Star (Seq (Lit (lit ";")) (Seq (Lit (lit " ")) (Insert pair)))) (print_attrs_rest ps) m =
    (Some [], fold_left insert_pair ps m).
Proof.
  intros H. revert m. induction H as [|p ps Hp _ IH]; intros m; cbn [print_attrs_rest fold_left].
  - apply qi_star_fail. by rewrite qi_seq, qi_lit.
  - assert (qi_parse (Seq (Lit (lit ";")) (Seq (Lit (lit " ")) (Insert pair)))
      (lit ";" ++ lit " " ++ print_attr p ++ print_attrs_rest ps) m
      = (Some (print_attrs_rest ps), insert_pair m p)) as E.
    { rewrite qi_seq, parse_lit_app, qi_seq, parse_lit_app, qi_insert.
      by rewrite (parse_attr p _ Hp (attrs_end_rest ps)). }
    rewrite (qi_star_step _ _ _ _ _ _ E); [apply IH|]. rewrite !length_app. simpl. lia.
Qed.

Lemma parse_attrs p ps :
  Forall attr_ok (p :: ps) ->
  qi_parse query (print_attr p ++ print_attrs_rest ps) [] = (Some [], query_map (p :: ps)).
Proof.
  intros [Hp Hps]%Forall_cons. unfold query, query_map.
  rewrite qi_seq, qi_insert, (parse_attr p _ Hp (attrs_end_rest ps)).
  rewrite qi_seq, parse_attrs_rest by done. by rewrite qi_opt, qi_eol.
Qed.

Lemma forallb_not_elem (f : ascii -> bool) s c : forallb f s = true -> f c = false -> c ∉ s.
Proof.
  intros Hf Hc Hin%list_elem_of_In. rewrite forallb_forall in Hf. apply Hf in Hin. congruence.
Qed.

Lemma add_header_print h part :
  form_header_ok h -> add_header (print_form_header h) part = Ret (push_header (header_of h) part).
Proof.
  intros [Hn Ha Hlen]. unfold add_header, str_find. rewrite u32_npos_ne.
  unfold print_form_header in *. set (rest := print_attr _ ++ _) in *.
  change (lit ":") with [":"%char]. rewrite length_app in Hlen. simpl in Hlen.
  rewrite find_nat_char by (apply (forallb_not_elem name_char); done).
  rewrite (u32_small (Z.of_nat _)) by lia. rewrite u32_small by lia.
  rewrite substr_prefix by (rewrite length_app; lia). rewrite Nat2Z.id, outcome_bind_ret.
  rewrite substr_ret by (rewrite ?length_app; simpl; unfold npos; lia). rewrite outcome_bind_ret.
  rewrite take_app_length.
  replace (Z.to_nat (Z.of_nat (length (fh_name h)) + 1)) with (S (length (fh_name h))) by lia.
  replace (drop (S (length (fh_name h))) (fh_name h ++ ":"%char :: rest)) with rest.
  - unfold rest. by rewrite parse_attrs.
  - rewrite cons_middle, app_assoc. symmetry. apply drop_app_length'. rewrite length_app. simpl. lia.
Qed.

Lemma add_headers_print hs part :
  Forall form_header_ok hs ->
  add_headers (print_form_header <$> hs) part =
    Ret (MkPart (part_headers part ++ (header_of <$> hs)) (part_payload part)).
Proof.
  intros H. revert part. induction H as [|h hs Hh _ IH]; intros part; cbn [add_headers fmap list_fmap].
  - rewrite app_nil_r. by destruct part.
  - rewrite add_header_print, outcome_bind_ret by done. rewrite IH. simpl. by rewrite <-app_assoc.
Qed.
End parse_headers.

(** ** Parts *)

Record form_part : Type := FormPart { fp_headers : list form_header; fp_payload : bytes }.

Fixpoint print_headers (hs : list form_header) : bytes :=
  match hs with [] => [] | h :: hs' => print_form_header h ++ crlf ++ print_headers hs' end.

Definition print_part (p : form_part) : bytes :=
  print_headers (fp_headers p) ++ crlf ++ fp_payload p ++ crlf.

(** The headers come out last first: the tokens are read from the end. *)
Definition part_of (p : form_part) : Part :=
  MkPart (header_of <$> reverse (fp_headers p)) (fp_payload p).

(** The body of a form: each part after a boundary, and the closing one. *)
Definition print_form (b : bytes) (ps : list form_part) : bytes :=
  print_chunks b (print_part <$> ps) (end_line b ++ crlf).

Record part_ok (b : bytes) (p : form_part) : Prop := {
  po_headers : Forall form_header_ok (fp_headers p);
  po_payload : forallb ascii_char (fp_payload p) = true;
  po_boundary : no_boundary b (print_part p);
}.

Lemma print_attr_chars p : attr_ok p -> forallb header_char (print_attr p) = true.
Proof.
  destruct p as [k v]. unfold attr_ok, print_attr. cbn [fst snd]. intros (_ & Hk & Hv).
  rewrite forallb_app. apply andb_true_iff. split.
  - apply (forallb_impl attr_key_char); [|done]. intros c. by intros [? _]%andb_true_iff.
  - assert (forallb header_char v = true) as H.
    { apply (forallb_impl attr_value_char); [|done]. intros c. by intros [? _]%andb_true_iff. }
    destruct v as [|c v]; [done|]. rewrite !forallb_app, H. reflexivity.
Qed.

Lemma print_form_header_chars h :
  form_header_ok h -> forallb header_char (print_form_header h) = true.
Proof.
  intros [Hn Ha _]. unfold print_form_header. rewrite forallb_app. apply andb_true_iff. split.
  - apply (forallb_impl name_char); [|done]. intros c. by intros [? _]%andb_true_iff.
  - cbn [forallb]. change (header_char ":"%char) with true. cbn [andb].
    apply Forall_cons in Ha as [H1 H2]. rewrite forallb_app, (print_attr_chars _ H1).
    induction H2 as [|p ps Hp _ IH]; [done|]. cbn [print_attrs_rest].
    by rewrite !forallb_app, (print_attr_chars _ Hp), IH.
Qed.

Section parse_parts.
Context {qi : Qi}.

Lemma parse_header_line h s a :
  form_header_ok h ->
  qi_parse chunk_tokens.header (print_form_header h ++ crlf ++ s) a =
    (Some s, a ++ print_form_header h).
Proof.
  intros Hh. unfold chunk_tokens.header. rewrite qi_seq.
  rewrite (plus_one_char _ _ _ _ (one_char_not_eol ascii_char)), span_class.
  - pose proof (print_form_header_chars h Hh). cbn [fst snd].
    destruct (print_form_header h) eqn:E; [by unfold print_form_header in E; destruct (fh_name h)|].
    by rewrite qi_eol.
  - apply (forallb_impl header_char); [|by apply print_form_header_chars].
    intros c. unfold header_char. by rewrite andb_comm.
  - done.
Qed.

Lemma parse_header_lines hs s vs :
  Forall form_header_ok hs ->
  qi_parse (Star (Push chunk_tokens.header [])) (print_headers hs ++ crlf ++ s) vs =
    (Some (crlf ++ s), vs ++ (print_form_header <$> hs)).
Proof.
  intros H. revert vs. induction H as [|h hs Hh _ IH]; intros vs; cbn [print_headers fmap list_fmap].
  - rewrite app_nil_r. apply qi_star_fail. rewrite qi_push. unfold chunk_tokens.header.
    rewrite qi_seq, qi_plus, qi_diff, qi_eol. done.
  - rewrite <-!app_assoc.
    assert (qi_parse (Push chunk_tokens.header [])
      (print_form_header h ++ crlf ++ print_headers hs ++ crlf ++ s) vs
      = (Some (print_headers hs ++ crlf ++ s), vs ++ [print_form_header h])) as E.
    { by rewrite qi_push, parse_header_line. }
    rewrite (qi_star_step _ _ _ _ _ _ E).
    + rewrite IH. by rewrite <-app_assoc.
    + rewrite !length_app. simpl. lia.
Qed.

Lemma parse_body_star s a :
  forallb ascii_char s = true ->
  qi_parse (Star (Alt (Char ascii_char) Eol)) s a = (Some [], a ++ s).
Proof.
  revert a. induction s as [|c s IH]; intros a Hs.
  - rewrite app_nil_r. apply qi_star_fail. rewrite qi_alt, qi_char, qi_eol. done.
  - simpl in Hs. apply andb_true_iff in Hs as [Hc Hs].
    assert (qi_parse (Alt (Char ascii_char) Eol) (c :: s) a = (Some s, a ++ [c])) as E.
    { by rewrite qi_alt, qi_char, Hc. }
    rewrite (qi_star_step _ _ _ _ _ _ E) by (simpl; lia). rewrite IH by done. by rewrite <-app_assoc.
Qed.

Lemma parse_part_body s a :
  s ≠ [] -> forallb ascii_char s = true -> qi_parse chunk_tokens.body s a = (Some [], a ++ s).
Proof.
  destruct s as [|c s]; [done|]. intros _ [Hc Hs]%andb_true_iff. unfold chunk_tokens.body.
  rewrite qi_plus, qi_alt, qi_char, Hc. rewrite parse_body_star by done. by rewrite <-app_assoc.
Qed.

Lemma parse_part_tokens p :
  Forall form_header_ok (fp_headers p) -> forallb ascii_char (fp_payload p) = true ->
  qi_parse chunk_tokens.content (print_part p) [] =
    (Some [], (print_form_header <$> fp_headers p) ++ [fp_payload p ++ crlf]).
Proof.
  intros Hh Hp. unfold chunk_tokens.content, print_part.
  rewrite qi_seq, parse_header_lines by done. rewrite qi_seq, qi_eol.
  change (match_eol (crlf ++ fp_payload p ++ crlf)) with (Some (fp_payload p ++ crlf)). cbv iota beta.
  assert (qi_parse (Push chunk_tokens.body []) (fp_payload p ++ crlf)
    ([] ++ (print_form_header <$> fp_headers p)) =
    (Some [], ([] ++ (print_form_header <$> fp_headers p)) ++ [fp_payload p ++ crlf])) as E.
  { rewrite qi_push, parse_part_body; [done|by destruct (fp_payload p)|]. by rewrite forallb_app, Hp. }
  rewrite (qi_star_step _ _ _ _ _ _ E) by (rewrite length_app; simpl; lia).
  apply qi_star_fail. rewrite qi_push. unfold chunk_tokens.body.
  by rewrite qi_plus, qi_alt, qi_char, qi_eol.
Qed.

Lemma part_of_tokens_print p :
  Forall form_header_ok (fp_headers p) ->
  part_of_tokens ((print_form_header <$> fp_headers p) ++ [fp_payload p ++ crlf]) = Ret (part_of p).
Proof.
  intros Hh. unfold part_of_tokens. rewrite reverse_app. cbn [reverse rev_append app].
  change (reverse [fp_payload p ++ crlf]) with [fp_payload p ++ crlf]. cbn [app].
  rewrite erase_last_suffix. rewrite <-fmap_reverse, add_headers_print.
  - done.
  - by apply Forall_reverse.
Qed.

Lemma add_parts_print b ps form :
  Forall (part_ok b) ps ->
  add_parts ((print_part <$> ps) ++ [[]]) form =
    Ret (MkForm (boundry_ form) (parts_ form ++ (part_of <$> ps))).
Proof.
  intros H. revert form. induction H as [|p ps [Hh Hp _] _ IH]; intros form; cbn [app fmap list_fmap add_parts].
  - assert (qi_parse chunk_tokens.content [] [] = (None, [])) as E.
    { unfold chunk_tokens.content. rewrite qi_seq.
      rewrite (qi_star_fail _ _ _ _ []); [by rewrite qi_seq, qi_eol|].
      rewrite qi_push. unfold chunk_tokens.header. by rewrite qi_seq, qi_plus, qi_diff, qi_eol, qi_char. }
    rewrite E, app_nil_r. by destruct form.
  - rewrite parse_part_tokens by done. rewrite part_of_tokens_print by done. rewrite outcome_bind_ret.
    rewrite IH. simpl. by rewrite <-app_assoc.
Qed.

Lemma print_part_chars p :
  Forall form_header_ok (fp_headers p) -> forallb ascii_char (fp_payload p) = true ->
  forallb ascii_char (print_part p) = true.
Proof.
  intros Hh Hp. unfold print_part. rewrite !forallb_app, Hp.
  replace (forallb ascii_char (print_headers (fp_headers p))) with true; [done|]. symmetry.
  induction Hh as [|h hs Hh _ IH]; [done|]. cbn [print_headers]. rewrite !forallb_app, IH.
  rewrite (forallb_impl header_char ascii_char); [done|apply header_char_ascii|].
  by apply print_form_header_chars.
Qed.

Lemma part_ok_chunk b p : part_ok b p -> chunk_ok b (print_part p).
Proof.
  intros [Hh Hp Hb]. split_and!; [|by apply print_part_chars|done].
  unfold print_part. by destruct (print_headers _).
Qed.

Lemma parse_print_form b p ps :
  Forall (part_ok b) (p :: ps) ->
  MultiPartFormData_new b (print_form b (p :: ps)) = Ret (MkForm b (part_of <$> (p :: ps))).
Proof.
  intros H. unfold MultiPartFormData_new, print_form.
  destruct (parse_content b (print_part p) (print_part <$> ps) crlf) as [r' E].
  - apply part_ok_chunk. by inversion H.
  - apply Forall_fmap. inversion H as [|?? _ Hps]; subst. eapply Forall_impl; [exact Hps|].
    intros q Hq. by apply part_ok_chunk.
  - cbn [fmap list_fmap]. rewrite E. cbv iota beta.
    change (print_part p :: (print_part <$> ps)) with (print_part <$> (p :: ps)).
    by rewrite (add_parts_print b).
Qed.
End parse_parts.

Lemma split_at_high s :
  (exists c, c ∈ s /\ ascii_char c = false) ->
  exists x c y, s = x ++ c :: y /\ forallb ascii_char x = true /\ ascii_char c = false.
Proof.
  induction s as [|d s IH]; intros (c & Hc & Hh); [by apply elem_of_nil in Hc|].
  destruct (ascii_char d) eqn:Hd.
  - apply elem_of_cons in Hc as [->|Hc]; [congruence|].
    destruct IH as (x & e & y & -> & Hx & He); [eauto|]. exists (d :: x), e, y. simpl. by rewrite Hd.
  - by exists [], d, s.
Qed.

Lemma print_chunks_app b xs ys s : print_chunks b (xs ++ ys) s = print_chunks b xs (print_chunks b ys s).
Proof. induction xs as [|x xs IH]; cbn [print_chunks app]; [done|]. by rewrite IH. Qed.

Lemma form_high_dropped {qi : Qi} b ps q post :
  Forall (part_ok b) ps -> no_boundary b (print_part q) ->
  (exists c, c ∈ fp_payload q /\ ascii_char c = false) ->
  MultiPartFormData_new b (print_form b (ps ++ q :: post)) = Ret (MkForm [] []).
Proof.
  intros Hps Hb Hhigh.
  destruct (split_at_high (print_part q)) as (x & c & y & Hq & Hx & Hc).
  { destruct Hhigh as (c & ? & ?). exists c. split; [|done]. unfold print_part. set_solver. }
  unfold MultiPartFormData_new, print_form.
  rewrite fmap_app, fmap_cons, print_chunks_app. cbn [print_chunks]. rewrite Hq.
  set (tail := print_chunks b _ (end_line b ++ crlf)).
  assert (exists r, tail = mark b ++ r) as [r Hr].
  { apply chunk_end_mark, print_chunks_end. eexists. by right. }
  rewrite <-app_assoc. change ((c :: y) ++ tail) with (c :: y ++ tail).
  pose proof (parse_content_high b (print_part <$> ps) x c (y ++ tail)) as H.
  destruct (qi_parse _ _ _) as [[s'|] vs]; [|done]. exfalso.
  assert (Some s' = None) as F; [apply H|done]; [|done..|].
  - apply Forall_fmap. eapply Forall_impl; [exact Hps|]. intros p. by apply part_ok_chunk.
  - intros n Hn. specialize (Hb n). rewrite Hq, length_app in Hb.
    rewrite drop_app_le in Hb by lia. rewrite Hr.
    change (c :: y ++ mark b ++ r) with ((c :: y) ++ mark b ++ r).
    rewrite !app_assoc, starts_with_app_long; [apply Hb; lia|]. rewrite length_app. lia.
Qed.

(** ** Properties *)

Section properties.
Context {qi : Qi}.

(** C25. Round trip of an upload. The body of a form whose parts have
    well-formed headers and 7-bit payloads, none holding the boundary, gives
    its parts, in order, each with its payload, byte for byte, and its headers
    (from the last to the first) with their attributes. *)
Theorem multipart_roundtrip b p ps (Hok : Forall (part_ok b) (p :: ps)) :
  MultiPartFormData_new b (print_form b (p :: ps)) = Ret (MkForm b (part_of <$> (p :: ps))).
Proof. by apply parse_print_form. Qed.

(** Binary uploads are dropped. When the payload of any part holds a byte
    that is not 7-bit, the whole form is lost: no part comes out, not even the
    7-bit ones before it. *)
Theorem multipart_binary_dropped b ps q post
    (Hps : Forall (part_ok b) ps) (Hb : no_boundary b (print_part q))
    (Hhigh : exists c, c ∈ fp_payload q /\ ascii_char c = false) :
  MultiPartFormData_new b (print_form b (ps ++ q :: post)) = Ret (MkForm [] []).
Proof. by apply form_high_dropped. Qed.
End properties.

(** A line without a colon is meant not to be added; the position is an
    [unsigned] that never equals [npos], so it becomes a header named by the
    whole line. *)
Lemma add_header_no_colon {qi : Qi} input part m s :
  ":"%char ∉ input -> Z.of_nat (length input) < 2 ^ 32 ->
  qi_parse header_tokens.query input [] = (Some s, m) ->
  add_header input part = Ret (push_header (MkHeader input m) part).
Proof.
  intros Hc Hlen Hm. unfold add_header, str_find. rewrite u32_npos_ne.
  change (lit ":") with [":"%char]. rewrite (find_nat_char_None input ":"%char Hc).
  change (u32 npos) with (2 ^ 32 - 1). change (u32 (2 ^ 32 - 1 + 1)) with 0.
  rewrite (substr_ret input 0 npos) by (unfold npos; lia).
  unfold substr. rewrite (proj2 (Z.ltb_ge _ _)) by lia. rewrite !outcome_bind_ret.
  change (drop (Z.to_nat 0) input) with input. rewrite Hm. rewrite take_ge by lia. done.
Qed.

(** ** Examples *)

Definition sample_header : form_header :=
  FormHeader (lit "Content-Disposition") (lit " form-data", []) [(lit "name", lit "sha1-A")].
Definition sample_part (payload : bytes) : form_part := FormPart [sample_header] payload.

(** [no_boundary] by evaluation. *)
Fixpoint no_boundary_b (b x : bytes) : bool :=
  match x with [] => true | _ :: x' => negb (starts_with (x ++ mark b) (mark b)) && no_boundary_b b x' end.

Lemma no_boundary_b_ok b x : no_boundary_b b x = true -> no_boundary b x.
Proof.
  induction x as [|c x IH]; intros H n Hn; [simpl in Hn; lia|].
  cbn [no_boundary_b] in H. apply andb_true_iff in H as [H1%negb_true_iff H2].
  destruct n as [|n]; [done|]. apply IH; [done|]. simpl in Hn. lia.
Qed.

Lemma sample_header_ok : form_header_ok sample_header.
Proof.
  split; [vm_compute; reflexivity| |vm_compute; reflexivity].
  repeat (apply Forall_cons; split; [split_and!; [discriminate|vm_compute; reflexivity..]|]).
  apply Forall_nil. done.
Qed.

Lemma sample_part_ok payload :
  forallb ascii_char payload = true -> no_boundary_b (lit "XX") (print_part (sample_part payload)) = true ->
  part_ok (lit "XX") (sample_part payload).
Proof.
  intros H1 H2. split; [|done|by apply no_boundary_b_ok].
  apply Forall_singleton, sample_header_ok.
Qed.

Lemma multipart_roundtrip_witness :
  let Q := peg_qi in
  MultiPartFormData_new (lit "XX") (print_form (lit "XX") [sample_part (lit "hello")]) =
    Ret (MkForm (lit "XX") [part_of (sample_part (lit "hello"))]).
Proof.
  intros Q. apply (multipart_roundtrip (lit "XX") (sample_part (lit "hello")) []).
  apply Forall_singleton, sample_part_ok; vm_compute; reflexivity.
Defined.

Lemma multipart_binary_dropped_witness :
  let Q := peg_qi in
  MultiPartFormData_new (lit "XX")
    (print_form (lit "XX") [sample_part (lit "hello"); sample_part ["137"%char; "P"%char]]) =
    Ret (MkForm [] []).
Proof.
  intros Q.
  apply (multipart_binary_dropped (lit "XX") [sample_part (lit "hello")]
    (sample_part ["137"%char; "P"%char]) []).
  - apply Forall_singleton, sample_part_ok; vm_compute; reflexivity.
  - apply no_boundary_b_ok. vm_compute. reflexivity.
  - exists "137"%char. split; [left|reflexivity].
Defined.
