(* ===== verification/JsonValue.v ===== *)
(** * JSON values

    [json_spirit::Value] and the functions on it ([json_spirit_value.h],
    [json_spirit_utils.h]), where strings are [std::string]. An object is the list
    of its pairs; [Config_type] says how one is added, to a vector or to a map.

    The type tag and the variant of [Value_impl] always agree, so a value is
    one inductive; an integer carries the flag [is_uint64_]. A [double] is a
    binary64 number of the Standard Library's [SpecFloat]. *)

From Stdlib Require Import Floats.SpecFloat.
From S2P Require Import Prelude CppString StdMap.

Local Open Scope Z_scope.

Inductive Value_type : Type :=
| obj_type | array_type | str_type | bool_type | int_type | real_type | null_type.

#[export] Instance Value_type_eq_dec : EqDecision Value_type.
Proof. solve_decision. Defined.

Definition Value_type_name (t : Value_type) : bytes :=
  match t with
  | obj_type => lit "obj" | array_type => lit "array" | str_type => lit "str"
  | bool_type => lit "bool" | int_type => lit "int" | real_type => lit "real"
  | null_type => lit "null"
  end.

#[warnings="-register-all"]
Inductive Value : Type :=
| Obj (members : list (bytes * Value))
| Arr (elements : list Value)
| Str (s : bytes)
| Bool (b : bool)
| Int (v : Z) (is_uint64 : bool)
| Real (d : spec_float)
| Null.

Definition Object : Type := list (bytes * Value).
Definition Array : Type := list Value.

(** Induction through the members and the elements. *)
Section induction.
Context (P : Value -> Prop)
  (HObj : forall ms, Forall (fun m => P m.2) ms -> P (Obj ms))
  (HArr : forall es, Forall P es -> P (Arr es))
  (HStr : forall s, P (Str s)) (HBool : forall b, P (Bool b))
  (HInt : forall v u, P (Int v u)) (HReal : forall d, P (Real d)) (HNull : P Null).

Fixpoint Value_nested_ind (v : Value) : P v :=
  match v with
  | Obj ms => HObj ms
      ((fix go ms : Forall (fun m => P m.2) ms :=
          match ms with
          | [] => Forall_nil_2 _
          | m :: ms' => Forall_cons_2 _ m ms' (Value_nested_ind m.2) (go ms')
          end) ms)
  | Arr es => HArr es
      ((fix go es : Forall P es :=
          match es with
          | [] => Forall_nil_2 _
          | e :: es' => Forall_cons_2 _ e es' (Value_nested_ind e) (go es')
          end) es)
  | Str s => HStr s
  | Bool b => HBool b
  | Int v u => HInt v u
  | Real d => HReal d
  | Null => HNull
  end.
End induction.

(** ** Constructors and accessors *)

Definition s64 (z : Z) : Z := (z + 2 ^ 63) mod 2 ^ 64 - 2 ^ 63.

Definition Value_int (i : Z) : Value := Int i false.
Definition Value_int64 (i : Z) : Value := Int i false.
Definition Value_uint64 (u : Z) : Value := Int (s64 u) true.

Definition type (v : Value) : Value_type :=
  match v with
  | Obj _ => obj_type | Arr _ => array_type | Str _ => str_type | Bool _ => bool_type
  | Int _ _ => int_type | Real _ => real_type | Null => null_type
  end.

Definition is_uint64 (v : Value) : bool := match v with Int _ u => u | _ => false end.
Definition is_null (v : Value) : bool := bool_decide (type v = null_type).

Definition check_type (v : Value) (vtype : Value_type) : outcome unit :=
  if bool_decide (type v = vtype) then Ret tt else Throws runtime_error.

Definition get_str (v : Value) : outcome bytes :=
  _ ← check_type v str_type; or_undefined (match v with Str s => Some s | _ => None end).
Definition get_obj (v : Value) : outcome Object :=
  _ ← check_type v obj_type; or_undefined (match v with Obj ms => Some ms | _ => None end).
Definition get_array (v : Value) : outcome Array :=
  _ ← check_type v array_type; or_undefined (match v with Arr es => Some es | _ => None end).
Definition get_bool (v : Value) : outcome bool :=
  _ ← check_type v bool_type; or_undefined (match v with Bool b => Some b | _ => None end).
Definition get_int64 (v : Value) : outcome Z :=
  _ ← check_type v int_type; or_undefined (match v with Int i _ => Some i | _ => None end).
Definition get_int (v : Value) : outcome Z :=
  _ ← check_type v int_type; i ← get_int64 v; Ret (s32 i).
Definition get_uint64 (v : Value) : outcome Z :=
  _ ← check_type v int_type; i ← get_int64 v; Ret (u64 i).

(** [static_cast<double>] of an integer, rounded to nearest even. *)
Definition double_of_Z (z : Z) : spec_float := binary_normalize 53 1024 z 0 false.

Definition get_real (v : Value) : outcome spec_float :=
  if bool_decide (type v = int_type) then
    if is_uint64 v then u ← get_uint64 v; Ret (double_of_Z u)
    else i ← get_int64 v; Ret (double_of_Z i)
  else _ ← check_type v real_type; or_undefined (match v with Real d => Some d | _ => None end).

(** [operator==] on two objects. *)
Fixpoint Value_eqb (v lhs : Value) : bool :=
  match v, lhs with
  | Obj ms, Obj ns =>
      (fix go ms ns : bool :=
         match ms, ns with
         | [], [] => true
         | (n, x) :: ms', (m, y) :: ns' => bool_decide (n = m) && Value_eqb x y && go ms' ns'
         | _, _ => false
         end) ms ns
  | Arr es, Arr fs =>
      (fix go es fs : bool :=
         match es, fs with
         | [], [] => true
         | x :: es', y :: fs' => Value_eqb x y && go es' fs'
         | _, _ => false
         end) es fs
  | Str s, Str t => bool_decide (s = t)
  | Bool b, Bool c => Bool.eqb b c
  | Int i _, Int j _ => i =? j
  | Real d, Real e => SFeqb d e
  | Null, Null => true
  | _, _ => false
  end.

(** [Config_type]: how a member is added to an object, and where it then is. *)
Class Config_type : Type := {
  config_add (obj : list (bytes * Value)) (name : bytes) (value : Value) : list (bytes * Value) * nat;
  config_add_there obj name value :
    exists n, (config_add obj name value).1 !! (config_add obj name value).2 = Some (n, value);
  config_add_alter obj name x y :
    alter (fun m => (m.1, y)) (config_add obj name x).2 (config_add obj name x).1 = (config_add obj name y).1
}.

(** [Config_vector::add] *)
Definition Config_vector_add (obj : list (bytes * Value)) (name : bytes) (value : Value) : list (bytes * Value) * nat := (obj ++ [(name, value)], length obj).

(** [Config_map::add]: [obj[name] = value]. *)
Definition Config_map_add (obj : list (bytes * Value)) (name : bytes) (value : Value) : list (bytes * Value) * nat :=
  (map_assign bytes_ltb obj name value, map_index bytes_ltb obj name).

Definition Config_vector : Config_type.
Proof.
  refine {| config_add := Config_vector_add |}; intros obj name x.
  - exists name. unfold Config_vector_add. cbn [fst snd]. by apply list_lookup_middle.
  - intros y. unfold Config_vector_add. cbn [fst snd]. etrans; [by apply alter_app_r_alt|]. by rewrite Nat.sub_diag.
Defined.

Definition Config_map : Config_type.
Proof.
  refine {| config_add := Config_map_add |}; intros obj name x; [apply map_assign_index|apply map_assign_alter].
Defined.

Fixpoint find_value (obj : Object) (name : bytes) : Value :=
  match obj with
  | [] => Null
  | (n, v) :: obj' => if bool_decide (n = name) then v else find_value obj' name
  end.

Definition obj_to_map (obj : Object) : list (bytes * Value) :=
  fold_left (fun m p => map_assign bytes_ltb m p.1 p.2) obj [].
Definition map_to_obj (m : list (bytes * Value)) : Object := m.

(** ** Properties *)

(** Accessors are type-safe: each one returns the content of a value of
    its type and throws on every other, so [boost::get] is never asked for an
    alternative the variant does not hold; an integer is read as a double
    too, and as an [int] or a [uint64_t] it is reduced to their width. *)
Theorem accessors_checked v :
  get_str v = match v with Str s => Ret s | _ => Throws runtime_error end /\
  get_obj v = match v with Obj ms => Ret ms | _ => Throws runtime_error end /\
  get_array v = match v with Arr es => Ret es | _ => Throws runtime_error end /\
  get_bool v = match v with Bool b => Ret b | _ => Throws runtime_error end /\
  get_int64 v = match v with Int i _ => Ret i | _ => Throws runtime_error end /\
  get_int v = match v with Int i _ => Ret (s32 i) | _ => Throws runtime_error end /\
  get_uint64 v = match v with Int i _ => Ret (u64 i) | _ => Throws runtime_error end /\
  get_real v = match v with
               | Int i u => Ret (double_of_Z (if u then u64 i else i))
               | Real d => Ret d
               | _ => Throws runtime_error
               end.
Proof. destruct v as [| | | |i []| |]; by split_and!. Qed.

(** A [uint64_t] survives its storage as an [int64_t]. *)
Lemma u64_s64 u : 0 <= u < 2 ^ 64 -> u64 (s64 u) = u.
Proof.
  intros H. unfold u64, s64. rewrite Zminus_mod, Zmod_mod, <-Zminus_mod.
  replace (u + 2 ^ 63 - 2 ^ 63) with u by lia. by apply Z.mod_small.
Qed.

Lemma find_value_first ms n v ns :
  Forall (fun m => m.1 ≠ n) ms -> find_value (ms ++ (n, v) :: ns) n = v.
Proof.
  induction 1 as [|[m w] ms Hm _ IH]; simpl.
  - by rewrite bool_decide_true.
  - by rewrite bool_decide_false.
Qed.

