(* ===== verification/JsonVariant.v ===== *)
(** * JSON values as they are stored

    [Value_impl] as [json_spirit_value.h] lays it out: a type, a [boost::variant]
    and a flag, set by the constructors and by assignment. [boost::get] of a pointer
    to the variant gives null for another alternative than the one it holds, and
    throws for a reference. An object is the list of its pairs, in the order of its
    vector or its map.

    Proved here: type and variant never part, so that [JsonValue], where a value is
    one inductive, is what every accessor and the comparison implement. *)

From Stdlib Require Import Floats.SpecFloat.
From S2P Require Import Prelude CppString StdMap JsonValue.

Local Open Scope Z_scope.

(** [boost::variant], whose default is its first alternative. *)
Inductive Variant (V : Type) : Type :=
| v_String (s : bytes)
| v_Object (o : list (bytes * V))
| v_Array (a : list V)
| v_bool (b : bool)
| v_int64 (i : Z)
| v_double (d : spec_float).
Arguments v_String {V} s.
Arguments v_Object {V} o.
Arguments v_Array {V} a.
Arguments v_bool {V} b.
Arguments v_int64 {V} i.
Arguments v_double {V} d.

#[warnings="-register-all"]
Inductive Value_impl : Type :=
| MkValue (type_ : Value_type) (v_ : Variant Value_impl) (is_uint64_ : bool).

(** The values that a variant holds. *)
Definition parts {V} (v : Variant V) : list V :=
  match v with v_Object o => snd <$> o | v_Array a => a | _ => [] end.

Section induction.
Context (P : Value_impl -> Prop) (H : forall t v u, Forall P (parts v) -> P (MkValue t v u)).

Fixpoint Value_impl_nested_ind (x : Value_impl) : P x :=
  match x with
  | MkValue t v u =>
      H t v u
        match v return Forall P (parts v) with
        | v_Object o =>
            (fix go (o : list (bytes * Value_impl)) : Forall P (snd <$> o) :=
               match o return Forall P (snd <$> o) with
               | [] => Forall_nil_2 P
               | m :: o' => Forall_cons_2 P m.2 (snd <$> o') (Value_impl_nested_ind m.2) (go o')
               end) o
        | v_Array a =>
            (fix go (a : list Value_impl) : Forall P a :=
               match a with
               | [] => Forall_nil_2 _
               | e :: a' => Forall_cons_2 _ e a' (Value_impl_nested_ind e) (go a')
               end) a
        | _ => Forall_nil_2 _
        end
  end.
End induction.

(** ** The class *)

Module impl.
Definition type (x : Value_impl) : Value_type := match x with MkValue t _ _ => t end.
Definition v_ (x : Value_impl) : Variant Value_impl := match x with MkValue _ v _ => v end.
Definition is_uint64 (x : Value_impl) : bool := match x with MkValue _ _ u => u end.
Definition is_null (x : Value_impl) : bool := bool_decide (type x = null_type).

(** The constructors; [Value_new] leaves the variant at its default. *)
Definition Value_new : Value_impl := MkValue null_type (v_String []) false.
Definition Value_c_str (value : bytes) : Value_impl := MkValue str_type (v_String (c_str value)) false.
Definition Value_String (value : bytes) : Value_impl := MkValue str_type (v_String value) false.
Definition Value_Object (value : list (bytes * Value_impl)) : Value_impl := MkValue obj_type (v_Object value) false.
Definition Value_Array (value : list Value_impl) : Value_impl := MkValue array_type (v_Array value) false.
Definition Value_bool (value : bool) : Value_impl := MkValue bool_type (v_bool value) false.
Definition Value_int (value : Z) : Value_impl := MkValue int_type (v_int64 value) false.
Definition Value_int64 (value : Z) : Value_impl := MkValue int_type (v_int64 value) false.
Definition Value_uint64 (value : Z) : Value_impl := MkValue int_type (v_int64 (s64 value)) true.
Definition Value_double (value : spec_float) : Value_impl := MkValue real_type (v_double value) false.
Definition Value_copy (other : Value_impl) : Value_impl := MkValue (type other) (v_ other) (is_uint64 other).

(** [operator=]: the three members are swapped with those of a copy. *)
Definition assign (this lhs : Value_impl) : Value_impl :=
  let tmp := Value_copy lhs in
  let '(type_, tmp) := (type tmp, MkValue (type this) (v_ tmp) (is_uint64 tmp)) in
  let '(v, tmp) := (v_ tmp, MkValue (type tmp) (v_ this) (is_uint64 tmp)) in
  let '(is_uint64_, _) := (is_uint64 tmp, MkValue (type tmp) (v_ tmp) (is_uint64 this)) in
  MkValue type_ v is_uint64_.

(** [operator==] of values, of the variants and of the pairs of an object. Below the
    top the two are never one object. *)
Fixpoint eqb_below (x lhs : Value_impl) : bool :=
  match x, lhs with
  | MkValue t v _, MkValue t' v' _ =>
      bool_decide (t = t') &&
      match v, v' with
      | v_String s, v_String s' => bool_decide (s = s')
      | v_Object o, v_Object o' =>
          (fix go o o' : bool :=
             match o, o' with
             | [], [] => true
             | (n, y) :: r, (n', y') :: r' => bool_decide (n = n') && eqb_below y y' && go r r'
             | _, _ => false
             end) o o'
      | v_Array a, v_Array a' =>
          (fix go a a' : bool :=
             match a, a' with
             | [], [] => true
             | y :: r, y' :: r' => eqb_below y y' && go r r'
             | _, _ => false
             end) a a'
      | v_bool b, v_bool b' => Bool.eqb b b'
      | v_int64 i, v_int64 i' => i =? i'
      | v_double d, v_double d' => SFeqb d d'
      | _, _ => false
      end
  end.

Definition eqb (same_object : bool) (x lhs : Value_impl) : bool := if same_object then true else eqb_below x lhs.

Definition check_type (x : Value_impl) (vtype : Value_type) : outcome unit :=
  if bool_decide (type x = vtype) then Ret tt else Throws runtime_error.

(** [*boost::get<T>(&v_)] and [boost::get<T>(v_)]. *)
Definition get_pointer {A} (o : option A) : outcome A := or_undefined o.
Definition get_reference {A} (o : option A) : outcome A := match o with Some x => Ret x | None => Throws bad_get end.

Definition get_str (x : Value_impl) : outcome bytes :=
  _ ← check_type x str_type; get_pointer match v_ x with v_String s => Some s | _ => None end.
Definition get_obj (x : Value_impl) : outcome (list (bytes * Value_impl)) :=
  _ ← check_type x obj_type; get_pointer match v_ x with v_Object o => Some o | _ => None end.
Definition get_array (x : Value_impl) : outcome (list Value_impl) :=
  _ ← check_type x array_type; get_pointer match v_ x with v_Array a => Some a | _ => None end.
Definition get_bool (x : Value_impl) : outcome bool :=
  _ ← check_type x bool_type; get_reference match v_ x with v_bool b => Some b | _ => None end.
Definition get_int64 (x : Value_impl) : outcome Z :=
  _ ← check_type x int_type; get_reference match v_ x with v_int64 i => Some i | _ => None end.
Definition get_int (x : Value_impl) : outcome Z :=
  _ ← check_type x int_type; i ← get_int64 x; Ret (s32 i).
Definition get_uint64 (x : Value_impl) : outcome Z :=
  _ ← check_type x int_type; i ← get_int64 x; Ret (u64 i).
Definition get_real (x : Value_impl) : outcome spec_float :=
  if bool_decide (type x = int_type) then
    if is_uint64 x then u ← get_uint64 x; Ret (double_of_Z u) else i ← get_int64 x; Ret (double_of_Z i)
  else _ ← check_type x real_type; get_reference match v_ x with v_double d => Some d | _ => None end.

(** The references that the other [get_obj] and [get_array] return, written through. *)
Definition write_obj (f : list (bytes * Value_impl) -> list (bytes * Value_impl)) (x : Value_impl) : outcome Value_impl :=
  _ ← check_type x obj_type;
  o ← get_pointer match v_ x with v_Object o => Some o | _ => None end;
  Ret (MkValue (type x) (v_Object (f o)) (is_uint64 x)).
Definition write_array (f : list Value_impl -> list Value_impl) (x : Value_impl) : outcome Value_impl :=
  _ ← check_type x array_type;
  a ← get_pointer match v_ x with v_Array a => Some a | _ => None end;
  Ret (MkValue (type x) (v_Array (f a)) (is_uint64 x)).

(** [get_value<T>], by overloading on [Type_to_type<T>]. *)
Inductive Type_to_type : Type -> Type :=
| to_int : Type_to_type Z
| to_int64 : Type_to_type Z
| to_uint64 : Type_to_type Z
| to_double : Type_to_type spec_float
| to_String : Type_to_type bytes
| to_Array : Type_to_type (list Value_impl)
| to_Object : Type_to_type (list (bytes * Value_impl))
| to_bool : Type_to_type bool.

Definition get_value {T} (t : Type_to_type T) (value : Value_impl) : outcome T :=
  match t in Type_to_type T return outcome T with
  | to_int => get_int value
  | to_int64 => get_int64 value
  | to_uint64 => get_uint64 value
  | to_double => get_real value
  | to_String => get_str value
  | to_Array => get_array value
  | to_Object => get_obj value
  | to_bool => get_bool value
  end.

(** [to_str] of a C string; [result] grows by a character at a time. *)
Fixpoint to_str_loop (p result : bytes) : bytes :=
  match p with
  | c :: p' => if (c =? nul)%char then result else to_str_loop p' (result ++ [c])
  | [] => result
  end.
Definition to_str (c_str : bytes) : bytes := to_str_loop c_str [].
End impl.

Example swapped : impl.assign (impl.Value_String (lit "a")) (impl.Value_uint64 (2 ^ 64 - 1)) = impl.Value_uint64 (2 ^ 64 - 1) /\
  impl.get_value impl.to_uint64 (impl.Value_uint64 (2 ^ 64 - 1)) = Ret (2 ^ 64 - 1) /\ impl.get_value impl.to_int (impl.Value_uint64 (2 ^ 64 - 1)) = Ret (-1) /\
  impl.get_str (MkValue str_type (v_bool true) false) = Undefined /\ impl.get_bool (MkValue bool_type (v_String []) false) = Throws bad_get.
Proof. by vm_compute. Qed.

(** What is copied is the C string. *)
Lemma to_str_c_str s : impl.to_str s = c_str s.
Proof.
  assert (forall r, impl.to_str_loop s r = r ++ c_str s) as H; [|apply (H [])]. induction s as [|c s IH]; intros r; cbn [impl.to_str_loop c_str]; [by rewrite app_nil_r|].
  destruct (c =? nul)%char; [by rewrite app_nil_r|]. by rewrite IH, <-app_assoc.
Qed.

(** ** Type and variant *)

(** The value of [JsonValue] that is stored. *)
Fixpoint abs (x : Value_impl) : Value :=
  match x with
  | MkValue _ (v_Object o) _ => Obj ((fun m => (m.1, abs m.2)) <$> o)
  | MkValue _ (v_Array a) _ => Arr (abs <$> a)
  | MkValue null_type _ _ => Null
  | MkValue _ (v_String s) _ => Str s
  | MkValue _ (v_bool b) _ => Bool b
  | MkValue _ (v_int64 i) u => Int i u
  | MkValue _ (v_double d) _ => Real d
  end.

Definition abs_members (o : list (bytes * Value_impl)) : Object := (fun m => (m.1, abs m.2)) <$> o.
Definition abs_elements (a : list Value_impl) : Array := abs <$> a.

(** The alternative that the variant holds for a type, and the flag. *)
Definition matching {V} (t : Value_type) (v : Variant V) (u : bool) : bool :=
  match t, v with
  | obj_type, v_Object _ | array_type, v_Array _ | str_type, v_String _ | bool_type, v_bool _ | real_type, v_double _ | null_type, v_String [] => negb u
  | int_type, v_int64 _ => true
  | _, _ => false
  end.

Fixpoint tagged (x : Value_impl) : Prop :=
  match x with
  | MkValue t v u =>
      matching t v u = true /\
      match v with
      | v_Object o => fold_right (fun m rest => tagged m.2 /\ rest) True o
      | v_Array a => fold_right (fun y rest => tagged y /\ rest) True a
      | _ => True
      end
  end.

Lemma tagged_parts t v u : tagged (MkValue t v u) <-> matching t v u = true /\ Forall tagged (parts v).
Proof.
  cbn [tagged]. apply and_iff_compat_l. destruct v as [s|o|a|b|i|d]; cbn [parts]; try (split; [intros _; apply Forall_nil_2|done]).
  - induction o as [|m o IH]; cbn [fold_right]; [split; [intros _; apply Forall_nil_2|done]|]. by rewrite IH, fmap_cons, Forall_cons.
  - induction a as [|y a IH]; cbn [fold_right]; [split; [intros _; apply Forall_nil_2|done]|]. by rewrite IH, Forall_cons.
Qed.

(** Values that a program has: the constructors give them, and so do assignment and
    writing through a reference to a part. *)
Inductive made : Value_impl -> Prop :=
| made_new : made impl.Value_new
| made_c_str s : made (impl.Value_c_str s)
| made_String s : made (impl.Value_String s)
| made_Object o : (forall m, m ∈ o -> made m.2) -> made (impl.Value_Object o)
| made_Array a : (forall y, y ∈ a -> made y) -> made (impl.Value_Array a)
| made_bool b : made (impl.Value_bool b)
| made_int i : made (impl.Value_int i)
| made_int64 i : made (impl.Value_int64 i)
| made_uint64 i : made (impl.Value_uint64 i)
| made_double d : made (impl.Value_double d)
| made_copy x : made x -> made (impl.Value_copy x)
| made_assign x y : made x -> made y -> made (impl.assign x y)
| made_write_obj f o x x' : made x -> impl.get_obj x = Ret o -> (forall m, m ∈ f o -> made m.2) -> impl.write_obj f x = Ret x' -> made x'
| made_write_array f a x x' : made x -> impl.get_array x = Ret a -> (forall y, y ∈ f a -> made y) -> impl.write_array f x = Ret x' -> made x'.

Lemma made_tagged x : made x -> tagged x.
Proof.
  induction 1 as [| | |o _ IH|a _ IH| | | | | |[]|[] []|f o [t v u] x' _ [Ht _]%tagged_parts Ho _ IH Hw|f a [t v u] x' _ [Ht _]%tagged_parts Ha _ IH Hw]; try done.
  - apply tagged_parts. split; [done|]. apply Forall_fmap, Forall_forall. exact IH.
  - apply tagged_parts. split; [done|]. apply Forall_forall. exact IH.
  - unfold impl.get_obj, impl.write_obj, impl.check_type in *. cbn [impl.type impl.v_] in *. destruct t, v; try done. cbn in Ho, Hw. injection Ho as ->. injection Hw as <-.
    apply tagged_parts. split; [done|]. apply Forall_fmap, Forall_forall. exact IH.
  - unfold impl.get_array, impl.write_array, impl.check_type in *. cbn [impl.type impl.v_] in *. destruct t, v; try done. cbn in Ha, Hw. injection Ha as ->. injection Hw as <-.
    apply tagged_parts. split; [done|]. apply Forall_forall. exact IH.
Qed.

(** Below the top, [operator==] is that of [JsonValue]. *)
Lemma eqb_below_abs x : tagged x -> forall y, tagged y -> impl.eqb_below x y = Value_eqb (abs x) (abs y).
Proof.
  induction x as [t v u IH] using Value_impl_nested_ind. intros [Ht Hx]%tagged_parts [t' v' u'] [Ht' Hy]%tagged_parts. cbn [impl.eqb_below].
  destruct t, v as [[]|o|a|b|i|d]; try done; destruct t', v' as [[]|o'|a'|b'|i'|d']; try done; cbn [parts abs Value_eqb] in *.
  - clear Ht Ht'. rewrite (bool_decide_true (obj_type = obj_type)) by done. cbn [andb]. revert o' Hy. induction o as [|[n y] o IHo]; intros [|[n' y'] o'] Hy; try done. apply Forall_cons in IH as [IHy IH], Hx as [Hx1 Hx], Hy as [Hy1 Hy].
    cbn [fmap list_fmap fst snd]. specialize (IHo IH Hx o' Hy). cbn [fst snd] in *. by rewrite IHy, IHo.
  - clear Ht Ht'. rewrite (bool_decide_true (array_type = array_type)) by done. cbn [andb]. revert a' Hy. induction a as [|y a IHa]; intros [|y' a'] Hy; try done. apply Forall_cons in IH as [IHy IH], Hx as [Hx1 Hx], Hy as [Hy1 Hy].
    cbn [fmap list_fmap]. specialize (IHa IH Hx a' Hy). by rewrite IHy, IHa.
Qed.

(** ** Properties *)

(** C37. A value cannot be made whose type and variant disagree: whatever is built by
    the constructors, copied, assigned or written through a reference to a part, each
    accessor returns the content of a value of its type and throws the
    [runtime_error] of [check_type] on every other, so that [boost::get] is never
    asked for another alternative; [get_value] is as safe; and [operator==] compares
    the values of [JsonValue] that are stored. *)
Theorem values_stay_tagged x (Hx : made x) :
  impl.get_str x = match abs x with Str s => Ret s | _ => Throws runtime_error end /\
  (o ← impl.get_obj x; Ret (abs_members o)) = match abs x with Obj ms => Ret ms | _ => Throws runtime_error end /\
  (a ← impl.get_array x; Ret (abs_elements a)) = match abs x with Arr es => Ret es | _ => Throws runtime_error end /\
  impl.get_bool x = match abs x with Bool b => Ret b | _ => Throws runtime_error end /\
  impl.get_int64 x = match abs x with Int i _ => Ret i | _ => Throws runtime_error end /\
  impl.get_uint64 x = match abs x with Int i _ => Ret (u64 i) | _ => Throws runtime_error end /\
  impl.get_int x = match abs x with Int i _ => Ret (s32 i) | _ => Throws runtime_error end /\
  impl.get_real x = match abs x with Int i u => Ret (double_of_Z (if u then u64 i else i)) | Real d => Ret d | _ => Throws runtime_error end /\
  impl.is_null x = is_null (abs x) /\ impl.is_uint64 x = is_uint64 (abs x) /\
  (forall T (t : impl.Type_to_type T), match impl.get_value t x with Ret _ => True | Throws e => e = runtime_error | _ => False end) /\
  (forall y, made y -> impl.eqb_below x y = Value_eqb (abs x) (abs y)).
Proof.
  pose proof (made_tagged x Hx) as Ht. split_and!; [..|intros y Hy; by apply eqb_below_abs, made_tagged]; clear Hx;
    destruct x as [t v u]; apply tagged_parts in Ht as [Ht _]; destruct t, v as [[]|o|a|b|i|d]; try done; destruct u; try done; by intros ? [].
Qed.

Definition nested_value : Value_impl := impl.assign impl.Value_new (impl.Value_Object [(lit "a", impl.Value_uint64 7); (lit "b", impl.Value_String (lit "x"))]).

Lemma values_stay_tagged_witness : impl.get_str nested_value = Throws runtime_error /\
  (o ← impl.get_obj nested_value; Ret (abs_members o)) = Ret [(lit "a", Int 7 true); (lit "b", Str (lit "x"))].
Proof.
  assert (made nested_value) as H.
  { apply made_assign; [constructor|]. apply made_Object. intros m [-> |Hm]%elem_of_cons; [apply made_uint64|]. apply list_elem_of_singleton in Hm as ->. apply made_String. }
  split; [apply (values_stay_tagged nested_value H)|exact (proj1 (proj2 (values_stay_tagged nested_value H)))].
Defined.

