(* ===== verification/JsonEscape.v ===== *)
(** * JSON string escapes

    [add_esc_chars] of the writer ([json_spirit_writer_template.h]) and
    [substitute_esc_chars] of the reader ([json_spirit_reader_template.h]),
    for [std::string]. The iterators of the reader are the rest of the input
    from their position on. [iswprint] is that of the "C" locale, which the
    server never leaves. *)

From S2P Require Import Prelude CppString.

Local Open Scope Z_scope.

Definition backslash : ascii := "092"%char.
Definition backspace : ascii := "008"%char.
Definition formfeed : ascii := "012"%char.

(** ** Writer *)

Definition to_hex_char (c : Z) : outcome ascii :=
  if c <=? 15 then Ret (if c <? 10 then char_of_Z (48 + c) else char_of_Z (65 - 10 + c)) else Aborts.

Definition non_printable_to_string (c : Z) : outcome bytes :=
  d5 ← to_hex_char (Z.land c 15);
  let c := Z.shiftr c 4 in
  d4 ← to_hex_char (Z.land c 15);
  let c := Z.shiftr c 4 in
  d3 ← to_hex_char (Z.land c 15);
  let c := Z.shiftr c 4 in
  d2 ← to_hex_char (Z.land c 15);
  Ret [backslash; "u"%char; d2; d3; d4; d5].

Definition add_esc_char (c : ascii) : option bytes :=
  if (c =? dquote)%char then Some [backslash; dquote]
  else if (c =? backslash)%char then Some [backslash; backslash]
  else if (c =? backspace)%char then Some [backslash; "b"%char]
  else if (c =? formfeed)%char then Some [backslash; "f"%char]
  else if (c =? lf)%char then Some [backslash; "n"%char]
  else if (c =? cr)%char then Some [backslash; "r"%char]
  else if (c =? tab)%char then Some [backslash; "t"%char]
  else None.

Definition iswprint (c : Z) : bool := (32 <=? c) && (c <=? 126).

(** One turn of the loop of [add_esc_chars]. *)
Definition escape (c : ascii) : outcome bytes :=
  match add_esc_char c with
  | Some e => Ret e
  | None =>
      let unsigned_c := if 0 <=? char_int c then char_int c else 256 + char_int c in
      if iswprint unsigned_c then Ret [c] else non_printable_to_string unsigned_c
  end.

Fixpoint add_esc_chars (s : bytes) : outcome bytes :=
  match s with
  | [] => Ret []
  | c :: s' => e ← escape c; r ← add_esc_chars s'; Ret (e ++ r)
  end.

(** ** Reader *)

(** [char] arithmetic: the result is an [int]. *)
Definition hex_to_num (c : ascii) : Z :=
  let z := char_int c in
  if (48 <=? z) && (z <=? 57) then z - 48
  else if (97 <=? z) && (z <=? 102) then z - 97 + 10
  else if (65 <=? z) && (z <=? 70) then z - 65 + 10
  else 0.

Definition hex_str_to_char (c1 c2 : ascii) : ascii :=
  char_of_Z (Z.shiftl (hex_to_num c1) 4 + hex_to_num c2).

Definition unicode_str_to_char (c1 c2 c3 c4 : ascii) : ascii :=
  char_of_Z (Z.shiftl (hex_to_num c1) 12 + Z.shiftl (hex_to_num c2) 8 +
             Z.shiftl (hex_to_num c3) 4 + hex_to_num c4).

(** The escapes of one character. *)
Definition simple_escape (c2 : ascii) : bytes :=
  if (c2 =? "t")%char then [tab]
  else if (c2 =? "b")%char then [backspace]
  else if (c2 =? "f")%char then [formfeed]
  else if (c2 =? "n")%char then [lf]
  else if (c2 =? "r")%char then [cr]
  else if (c2 =? backslash)%char then [backslash]
  else if (c2 =? "/")%char then ["/"%char]
  else if (c2 =? dquote)%char then [dquote]
  else [].

(** The loop of [substitute_esc_chars], from the position [i]: a character
    that is not a backslash, or that is the last one, is copied; after a
    backslash [append_esc_char_and_incr_iter] reads the escape. An escape that
    is unknown or cut short by the end of the string gives nothing. *)
Fixpoint substitute_esc_chars (s : bytes) : bytes :=
  match s with
  | c :: (c2 :: rest) as t =>
      if (c =? backslash)%char then
        if (c2 =? "x")%char then
          match rest with
          | h1 :: h2 :: rest' => hex_str_to_char h1 h2 :: substitute_esc_chars rest'
          | _ => substitute_esc_chars rest
          end
        else if (c2 =? "u")%char then
          match rest with
          | h1 :: h2 :: h3 :: h4 :: rest' =>
              unicode_str_to_char h1 h2 h3 h4 :: substitute_esc_chars rest'
          | _ => substitute_esc_chars rest
          end
        else simple_escape c2 ++ substitute_esc_chars rest
      else c :: substitute_esc_chars t
  | _ => s
  end.

Example substitute_examples :
  substitute_esc_chars (lit "a\u0041\n\q\x4a") = lit "aA" ++ [lf] ++ lit "J" /\
  substitute_esc_chars (lit "\u00") = lit "00" /\
  substitute_esc_chars (lit "a\") = lit "a\".
Proof. by vm_compute. Qed.

(** ** Properties *)

(** The three shapes an escaped character takes. *)
Definition escape_shape (c : ascii) (e : bytes) : bool :=
  match e with
  | [d] => (d =? c)%char && negb (c =? backslash)%char && negb (c =? dquote)%char && iswprint (char_uint d)
  | [b; d] =>
      (b =? backslash)%char && negb (d =? "x")%char && negb (d =? "u")%char &&
      bool_decide (simple_escape d = [c]) && iswprint (char_uint d)
  | [b; u; h1; h2; h3; h4] =>
      (b =? backslash)%char && (u =? "u")%char && (unicode_str_to_char h1 h2 h3 h4 =? c)%char &&
      forallb (fun d => isdigit d || ((65 <=? char_uint d) && (char_uint d <=? 70))) [h1; h2; h3; h4]
  | _ => false
  end.

Lemma escape_total c : exists e, escape c = Ret e /\ escape_shape c e = true.
Proof.
  assert (match escape c with Ret e => escape_shape c e | _ => false end = true) as H by by_all_chars c.
  destruct (escape c) as [e| | |]; try discriminate. eauto.
Qed.

Lemma substitute_escape c e t :
  escape_shape c e = true -> substitute_esc_chars (e ++ t) = c :: substitute_esc_chars t.
Proof.
  destruct e as [|b [|u [|h1 [|h2 [|h3 [|h4 [|? ?]]]]]]]; try discriminate; unfold escape_shape;
    rewrite ?andb_true_iff, ?negb_true_iff, ?Ascii.eqb_eq.
  - intros [[[-> H] _] _]. simpl. destruct t as [|d t]; [done|]. by rewrite H.
  - intros [[[[-> H1] H2] H3%bool_decide_eq_true] _]. simpl. by rewrite H1, H2, H3.
  - intros [[[-> ->] <-] _]. reflexivity.
Qed.

(** The tokens an escaped character is made of: a character that needs no
    escape, or a backslash and a character that is not the start of a
    hexadecimal or octal escape. *)
Definition esc_token (t : bytes) : bool :=
  match t with
  | [c] => negb (c =? backslash)%char && negb (c =? dquote)%char
  | [b; c] => (b =? backslash)%char && negb (c =? "x")%char && negb (c =? "X")%char &&
              negb ((48 <=? char_uint c) && (char_uint c <=? 55))
  | _ => false
  end.

Definition tokens (e : bytes) : list bytes :=
  match e with
  | b :: c :: hs => [b; c] :: ((fun h => [h]) <$> hs)
  | _ => [e]
  end.

Lemma tokens_concat e : concat (tokens e) = e.
Proof.
  destruct e as [|b [|c hs]]; [done..|]. simpl. do 2 f_equal.
  induction hs as [|h hs IH]; [done|]. simpl. f_equal. apply IH.
Qed.

Lemma escape_esc_tokens c e : escape c = Ret e -> forallb esc_token (tokens e) = true.
Proof.
  assert (match escape c with Ret e => forallb esc_token (tokens e) | _ => true end = true) as H by by_all_chars c.
  by intros E; rewrite E in H.
Qed.

Lemma escape_tokens s : exists e, add_esc_chars s = Ret e /\ substitute_esc_chars e = s /\
  exists ts, e = concat ts /\ forallb esc_token ts = true.
Proof.
  induction s as [|c s (e & He & Hs & ts & -> & Hts)].
  - exists []. split; [done|]. split; [done|]. by exists [].
  - destruct (escape_total c) as (x & Hx & Hshape). exists (x ++ concat ts). split; [|split].
    + simpl. by rewrite Hx, outcome_bind_ret, He, outcome_bind_ret.
    + rewrite (substitute_escape c x _ Hshape). by rewrite Hs.
    + exists (tokens x ++ ts). rewrite concat_app, tokens_concat, forallb_app, Hts.
      by rewrite (escape_esc_tokens c x Hx).
Qed.

(** Escaping is total and is undone by unescaping, for every byte string:
    no assertion of the writer fails, and the reader's [substitute_esc_chars]
    gives back the string, quotes, control characters and bytes that are not
    ASCII included. *)
Theorem escape_roundtrip s :
  exists e, add_esc_chars s = Ret e /\ substitute_esc_chars e = s.
Proof. destruct (escape_tokens s) as (e & He & Hs & _). by exists e. Qed.

(** What an escaped string is made of: no quote that a backslash does not
    precede, and printable ASCII only. *)
Definition is_escape (e : bytes) : bool :=
  match e with
  | [c] => negb (c =? backslash)%char && negb (c =? dquote)%char && iswprint (char_uint c)
  | b :: c :: hs => (b =? backslash)%char && iswprint (char_uint c) &&
      forallb (fun d => isdigit d || ((65 <=? char_uint d) && (char_uint d <=? 70))) hs
  | [] => false
  end.

(** An escaped string cannot end the JSON string it is written in: it is a
    sequence of printable characters other than quote and backslash, and of
    escapes that start with a backslash. *)
Theorem escape_safe s e (H : add_esc_chars s = Ret e) :
  exists es, e = concat es /\ Forall (fun x => is_escape x = true) es.
Proof.
  revert e H. induction s as [|c s IH]; intros e H.
  - injection H as <-. by exists [].
  - simpl in H. destruct (escape_total c) as (x & Hx & Hshape). rewrite Hx, outcome_bind_ret in H.
    destruct (add_esc_chars s) as [r| | |]; try discriminate. injection H as <-.
    destruct (IH r eq_refl) as (es & -> & Hes). exists (x :: es). split; [done|].
    constructor; [|done].
    destruct x as [|b [|u [|h1 [|h2 [|h3 [|h4 [|? ?]]]]]]]; try discriminate;
      unfold escape_shape, is_escape in *; rewrite ?andb_true_iff in *.
    + destruct Hshape as [[[->%Ascii.eqb_eq ?] ?] ?]. done.
    + destruct Hshape as [[[[? ?] ?] ?] ?]. done.
    + destruct Hshape as [[[? ->%Ascii.eqb_eq] ?] ?]. done.
Qed.

Lemma escape_safe_witness :
  exists es, lit "a\u0000" = concat es /\ Forall (fun x => is_escape x = true) es.
Proof. apply (escape_safe ["a"%char; nul]). vm_compute. reflexivity. Defined.
