(* ===== verification/JsonWriter.v ===== *)
(** * JSON writer

    [Generator], [write_stream] and [write_string]
    ([json_spirit_writer_template.h]) and the entry points [write] and
    [write_formatted] ([json_spirit_writer.cc]). The stream is the bytes
    written to it. *)

From Stdlib Require Import Floats.SpecFloat.
From S2P Require Import Prelude CppString JsonValue JsonEscape.

Local Open Scope Z_scope.

(** ** [ostream << double] with [showpoint], [fixed] and [setprecision(8)]:
    the exact value rounded half to even at eight decimals *)

Definition round_half_even (n d : Z) : Z :=
  let q := n / d in
  let r := n mod d in
  if 2 * r <? d then q
  else if d <? 2 * r then q + 1
  else if Z.even q then q else q + 1.

Definition scaled (m : positive) (e : Z) : Z :=
  if 0 <=? e then Z.pos m * 10 ^ 8 * 2 ^ e
  else round_half_even (Z.pos m * 10 ^ 8) (2 ^ (- e)).

(** The eight digits of a fraction. *)
Definition eight_digits (f : Z) : bytes :=
  let ds := show_Z f in replicate (8 - length ds) "0"%char ++ ds.

Definition show_scaled (z : Z) : bytes := show_Z (z / 10 ^ 8) ++ lit "." ++ eight_digits (z mod 10 ^ 8).

Definition sign_text (s : bool) : bytes := if s then lit "-" else [].

Definition show_fixed8 (d : spec_float) : bytes :=
  match d with
  | S754_zero s => sign_text s ++ show_scaled 0
  | S754_infinity s => sign_text s ++ lit "inf"
  | S754_nan => lit "nan"
  | S754_finite s m e => sign_text s ++ show_scaled (scaled m e)
  end.

Example show_fixed8_examples :
  show_fixed8 (double_of_Z 3) = lit "3.00000000" /\
  show_fixed8 (SFdiv 53 1024 (double_of_Z (-1)) (double_of_Z 3)) = lit "-0.33333333".
Proof. by vm_compute. Qed.

(** ** [Generator] *)

Section generator.
Context (pretty : bool).

Definition indent (indentation_level : nat) : bytes :=
  if pretty then concat (replicate indentation_level (lit "    ")) else [].
Definition space : bytes := if pretty then lit " " else [].
Definition new_line : bytes := if pretty then [lf] else [].

Definition output_str (s : bytes) : outcome bytes :=
  e ← add_esc_chars s; Ret ([dquote] ++ e ++ [dquote]).

Definition output_int (value : Value) : outcome bytes :=
  if is_uint64 value then u ← get_uint64 value; Ret (show_Z u)
  else i ← get_int64 value; Ret (show_Z i).

(** The loop of [output_array_or_obj], each element written by [output]. *)
Definition output_elements {A} (indentation_level : nat) (output : A -> outcome bytes) :
    list A -> outcome bytes :=
  fix go (t : list A) : outcome bytes :=
    match t with
    | [] => Ret []
    | i :: next =>
        s ← output i;
        r ← go next;
        Ret (indent indentation_level ++ s ++
             match next with [] => [] | _ => lit "," end ++ new_line ++ r)
    end.

Definition output_array_or_obj (indentation_level : nat) (start_char end_char : ascii)
    (elements : outcome bytes) : outcome bytes :=
  es ← elements;
  Ret ([start_char] ++ new_line ++ es ++ indent indentation_level ++ [end_char]).

Fixpoint output (indentation_level : nat) (value : Value) : outcome bytes :=
  match value with
  | Obj obj =>
      output_array_or_obj indentation_level "{" "}"
        (output_elements (S indentation_level)
           (fun member =>
              n ← output_str member.1;
              v ← output (S indentation_level) member.2;
              Ret (n ++ space ++ lit ":" ++ space ++ v)) obj)
  | Arr arr =>
      output_array_or_obj indentation_level "[" "]"
        (output_elements (S indentation_level) (output (S indentation_level)) arr)
  | Str s => output_str s
  | Bool b => Ret (if b then lit "true" else lit "false")
  | Int _ _ => output_int value
  | Real _ => d ← get_real value; Ret (show_fixed8 d)
  | Null => Ret (lit "null")
  end.

Definition write_stream (value : Value) (os : bytes) : outcome bytes :=
  o ← output 0 value; Ret (os ++ o).

Definition write_string (value : Value) : outcome bytes := write_stream value [].
End generator.

Definition write (value : Value) : outcome bytes := write_string false value.
Definition write_formatted (value : Value) : outcome bytes := write_string true value.

(** To a stream; and for [mValue], whose objects are iterated in the order of the
    map, which is that of the list. *)
Definition write_ostream (value : Value) (os : bytes) : outcome bytes := write_stream false value os.
Definition write_formatted_ostream (value : Value) (os : bytes) : outcome bytes := write_stream true value os.
Definition mwrite (value : Value) : outcome bytes := write_string false value.
Definition mwrite_formatted (value : Value) : outcome bytes := write_string true value.
Definition mwrite_ostream (value : Value) (os : bytes) : outcome bytes := write_stream false value os.
Definition mwrite_formatted_ostream (value : Value) (os : bytes) : outcome bytes := write_stream true value os.

Example write_examples :
  write (Obj [(lit "a", Arr [Value_int 1; Null]); (lit "b", Bool true)]) =
    Ret (lit "{" ++ [dquote] ++ lit "a" ++ [dquote] ++ lit ":[1,null]," ++
         [dquote] ++ lit "b" ++ [dquote] ++ lit ":true}") /\
  write_formatted (Arr [Value_int 1; Value_uint64 (2 ^ 64 - 1)]) =
    Ret (lit "[" ++ [lf] ++ lit "    1," ++ [lf] ++ lit "    18446744073709551615" ++ [lf] ++ lit "]").
Proof. by vm_compute. Qed.

(** ** Totality *)

Lemma output_str_total s : exists o, output_str s = Ret o.
Proof.
  unfold output_str. assert (exists e, add_esc_chars s = Ret e) as [e ->].
  { induction s as [|c s [e He]]; [by eexists|]. destruct (escape_total c) as (x & Hx & _).
    simpl. rewrite Hx, outcome_bind_ret, He. by eexists. }
  by eexists.
Qed.

Lemma output_elements_cons {A} pretty l (out : A -> outcome bytes) x t :
  output_elements pretty l out (x :: t) =
    (s ← out x; r ← output_elements pretty l out t;
     Ret (indent pretty l ++ s ++ match t with [] => [] | _ => lit "," end ++ new_line pretty ++ r)).
Proof. reflexivity. Qed.

Lemma output_elements_total {A} pretty l (out : A -> outcome bytes) t :
  Forall (fun x => exists o, out x = Ret o) t -> exists o, output_elements pretty l out t = Ret o.
Proof.
  induction 1 as [|x t [o Ho] _ [r Hr]]; [by eexists|].
  rewrite output_elements_cons, Ho, outcome_bind_ret, Hr. by eexists.
Qed.

Lemma output_total pretty v : forall l, exists o, output pretty l v = Ret o.
Proof.
  induction v as [ms H|es H|s|b|i u|d|] using Value_nested_ind; intros l; cbn [output].
  - unfold output_array_or_obj.
    destruct (output_elements_total pretty (S l) (fun member =>
      n ← output_str member.1; v ← output pretty (S l) member.2;
      Ret (n ++ space pretty ++ lit ":" ++ space pretty ++ v)) ms) as [o ->]; [|by eexists].
    eapply Forall_impl; [exact H|]. intros m Hm. destruct (output_str_total m.1) as [n ->].
    destruct (Hm (S l)) as [o Ho]. rewrite outcome_bind_ret, Ho. by eexists.
  - unfold output_array_or_obj.
    destruct (output_elements_total pretty (S l) (output pretty (S l)) es) as [o ->]; [|by eexists].
    eapply Forall_impl; [exact H|]. auto.
  - apply output_str_total.
  - by eexists.
  - destruct u; by eexists.
  - by eexists.
  - by eexists.
Qed.

Lemma write_total v : exists o, write v = Ret o.
Proof. unfold write, write_string, write_stream. destruct (output_total false v 0) as [o ->]. by eexists. Qed.
