(* ===== verification/Classic.v ===== *)
(** * Grammars with semantic actions

    The JSON grammar of [json_spirit_reader_template.h] is written with
    Boost.Spirit.Classic: rules that refer to each other, a skipper of white
    space, and semantic actions, which are run as soon as the expression they
    are attached to matches, and are not undone when the parser goes back.

    An expression is a value of [sc], typed by its attribute; [St] is the
    state the actions work on and [R] the names of the rules. Boost's parser
    is the parameter [SpiritClassic], with the documented semantics of each
    combinator as laws. A rule that calls a rule takes a frame of the stack:
    the parser is given the number of calls the stack has room for, and a
    call beyond it is undefined. *)

From Stdlib Require Import Floats.SpecFloat.
From S2P Require Import Prelude CppString JsonValue.

Local Open Scope Z_scope.

Inductive sc (St R : Type) : Type -> Type :=
| ch_p (c : ascii) : sc St R ascii                                        (* ch_p(c), 'c' *)
| str_p (s : bytes) : sc St R unit                                        (* str_p("s") *)
| eps_p : sc St R unit                                                    (* eps_p *)
| lex_escape_ch_p : sc St R unit                                          (* lex_escape_ch_p *)
| strict_real_p : sc St R spec_float                                      (* strict_real_p *)
| int64_p : sc St R Z                                                     (* int_parser<int64_t> *)
| uint64_p : sc St R Z                                                    (* uint_parser<uint64_t> *)
| lexeme_d (e : sc St R unit) : sc St R unit                              (* lexeme_d[e] *)
| confix_star_p (o : ascii) (e : sc St R unit) (c : ascii) : sc St R unit (* confix_p(o, *e, c) *)
| seq_p {A B} (e : sc St R A) (f : sc St R B) : sc St R unit              (* e >> f *)
| alt_p {A B} (e : sc St R A) (f : sc St R B) : sc St R unit              (* e | f *)
| diff_p {A B} (e : sc St R A) (f : sc St R B) : sc St R unit             (* e - f *)
| star_p (e : sc St R unit) : sc St R unit                                (* *e *)
| opt_p (e : sc St R unit) : sc St R unit                                 (* !e *)
| rule_p (r : R) : sc St R unit                                           (* a rule *)
| act_p {A} (e : sc St R A) (f : bytes -> bytes -> A -> St -> outcome St) : sc St R unit. (* e[f] *)
Arguments ch_p {St R} c.
Arguments str_p {St R} s.
Arguments eps_p {St R}.
Arguments lex_escape_ch_p {St R}.
Arguments strict_real_p {St R}.
Arguments int64_p {St R}.
Arguments uint64_p {St R}.
Arguments lexeme_d {St R} e.
Arguments confix_star_p {St R} o e c.
Arguments seq_p {St R A B} e f.
Arguments alt_p {St R A B} e f.
Arguments diff_p {St R A B} e f.
Arguments star_p {St R} e.
Arguments opt_p {St R} e.
Arguments rule_p {St R} r.
Arguments act_p {St R A} e f.

Declare Scope spirit_scope.
Delimit Scope spirit_scope with spirit.
Infix ">>>" := seq_p (at level 45, left associativity) : spirit_scope.
Infix "|||" := alt_p (at level 50, left associativity) : spirit_scope.
Infix "@!" := act_p (at level 40, left associativity) : spirit_scope.

(** The position of the scanner after the skipper, when it has one. *)
Definition skip (skipper : bool) (s : bytes) : bytes :=
  if skipper then drop_while isspace s else s.

(** The range of two iterators, each the rest of the input from it. *)
Definition matched (s rest : bytes) : bytes := take (length s - length rest) s.

(** A parse: the attribute and the rest, or no match, with the state; an
    action may throw, and so on. *)
Abbreviation scanned St A := (outcome (option (A * bytes) * St)).

(** A match that took something. *)
Definition advanced {A} (s : bytes) (o : option (A * bytes)) : Prop :=
  match o with Some (_, s') => exists p, s = p ++ s' /\ p ≠ [] | None => True end.

(** What a number can start with, and what may not follow the digits of an
    integer that is not part of a real. *)
Definition number_start (s : bytes) : bool :=
  match s with
  | c :: _ => isdigit c || (c =? "-")%char || (c =? "+")%char || (c =? ".")%char
  | [] => false
  end.
Definition number_end (rest : bytes) : bool :=
  match rest with
  | c :: _ => negb (isdigit c || (c =? ".")%char || (c =? "e")%char || (c =? "E")%char)
  | [] => true
  end.
Definition is_octal (c : ascii) : bool := (48 <=? char_uint c) && (char_uint c <=? 55).

Class SpiritClassic : Type := {
  sc_parse {St R A : Type} (env : R -> sc St R unit) (skipper : bool) (stack : nat)
    (e : sc St R A) (s : bytes) (st : St) : scanned St A;
  sc_ch St R (env : R -> sc St R unit) k d c s st :
    sc_parse env k d (ch_p c) s st =
      Ret (match skip k s with
           | c' :: s' => if (c' =? c)%char then Some (c', s') else None
           | [] => None
           end, st);
  sc_str St R (env : R -> sc St R unit) k d t s st :
    sc_parse env k d (str_p t) s st =
      Ret (if starts_with (skip k s) t then Some (tt, drop (length t) (skip k s)) else None, st);
  sc_eps St R (env : R -> sc St R unit) k d s st :
    sc_parse env k d eps_p s st = Ret (Some (tt, s), st);
  (* any character but a backslash, or a backslash with what it escapes *)
  sc_escape_plain St R (env : R -> sc St R unit) k d c s s' st :
    skip k s = c :: s' -> c ≠ "092"%char ->
    sc_parse env k d lex_escape_ch_p s st = Ret (Some (tt, s'), st);
  sc_escape_escaped St R (env : R -> sc St R unit) k d c s s' st :
    skip k s = "092"%char :: c :: s' -> c ≠ "x"%char -> c ≠ "X"%char -> is_octal c = false ->
    sc_parse env k d lex_escape_ch_p s st = Ret (Some (tt, s'), st);
  sc_escape_advanced St R (env : R -> sc St R unit) k d s st :
    exists o, sc_parse env k d lex_escape_ch_p s st = Ret (o, st) /\ advanced (skip k s) o;
  (* a real needs a point or an exponent; an integer out of range is no match *)
  sc_real_advanced St R (env : R -> sc St R unit) k d s st :
    exists o, sc_parse env k d strict_real_p s st = Ret (o, st) /\ advanced (skip k s) o;
  sc_real_none St R (env : R -> sc St R unit) k d s st :
    number_start (skip k s) = false -> sc_parse env k d strict_real_p s st = Ret (None, st);
  sc_real_int St R (env : R -> sc St R unit) k d z rest s st :
    skip k s = show_Z z ++ rest -> number_end rest = true ->
    sc_parse env k d strict_real_p s st = Ret (None, st);
  sc_int64_advanced St R (env : R -> sc St R unit) k d s st :
    exists o, sc_parse env k d int64_p s st = Ret (o, st) /\ advanced (skip k s) o;
  sc_int64_none St R (env : R -> sc St R unit) k d s st :
    number_start (skip k s) = false -> sc_parse env k d int64_p s st = Ret (None, st);
  sc_int64_int St R (env : R -> sc St R unit) k d z rest s st :
    skip k s = show_Z z ++ rest -> number_end rest = true ->
    sc_parse env k d int64_p s st =
      Ret (if (- 2 ^ 63 <=? z) && (z <? 2 ^ 63) then Some (z, rest) else None, st);
  sc_uint64_advanced St R (env : R -> sc St R unit) k d s st :
    exists o, sc_parse env k d uint64_p s st = Ret (o, st) /\ advanced (skip k s) o;
  sc_uint64_none St R (env : R -> sc St R unit) k d s st :
    number_start (skip k s) = false -> sc_parse env k d uint64_p s st = Ret (None, st);
  sc_uint64_int St R (env : R -> sc St R unit) k d z rest s st :
    skip k s = show_Z z ++ rest -> 0 <= z -> number_end rest = true ->
    sc_parse env k d uint64_p s st = Ret (if z <? 2 ^ 64 then Some (z, rest) else None, st);
  sc_lexeme St R (env : R -> sc St R unit) k d e s st :
    sc_parse env k d (lexeme_d e) s st = sc_parse env false d e (skip k s) st;
  sc_confix St R (env : R -> sc St R unit) k d o e c s st :
    sc_parse env k d (confix_star_p o e c) s st =
      sc_parse env k d (seq_p (seq_p (ch_p o) (star_p (diff_p e (ch_p c)))) (ch_p c)) s st;
  sc_seq St R (env : R -> sc St R unit) k d A B (e : sc St R A) (f : sc St R B) s st :
    sc_parse env k d (seq_p e f) s st =
      ('(o, st1) ← sc_parse env k d e s st;
       match o with
       | Some (_, s1) =>
           '(o2, st2) ← sc_parse env k d f s1 st1;
           Ret (match o2 with Some (_, s2) => Some (tt, s2) | None => None end, st2)
       | None => Ret (None, st1)
       end);
  sc_alt St R (env : R -> sc St R unit) k d A B (e : sc St R A) (f : sc St R B) s st :
    sc_parse env k d (alt_p e f) s st =
      ('(o, st1) ← sc_parse env k d e s st;
       match o with
       | Some (_, s1) => Ret (Some (tt, s1), st1)
       | None =>
           '(o2, st2) ← sc_parse env k d f s st1;
           Ret (match o2 with Some (_, s2) => Some (tt, s2) | None => None end, st2)
       end);
  (* a match of [f] as long as that of [e] excludes it *)
  sc_diff St R (env : R -> sc St R unit) k d A B (e : sc St R A) (f : sc St R B) s st :
    sc_parse env k d (diff_p e f) s st =
      ('(o, st1) ← sc_parse env k d e s st;
       match o with
       | Some (_, s1) =>
           '(o2, st2) ← sc_parse env k d f s st1;
           Ret (match o2 with
                | Some (_, s2) => if (length s2 <=? length s1)%nat then None else Some (tt, s1)
                | None => Some (tt, s1)
                end, st2)
       | None => Ret (None, st1)
       end);
  sc_star_stop St R (env : R -> sc St R unit) k d e s st st1 :
    sc_parse env k d e s st = Ret (None, st1) ->
    sc_parse env k d (star_p e) s st = Ret (Some (tt, s), st1);
  sc_star_next St R (env : R -> sc St R unit) k d e s st s1 st1 :
    sc_parse env k d e s st = Ret (Some (tt, s1), st1) -> (length s1 < length s)%nat ->
    sc_parse env k d (star_p e) s st = sc_parse env k d (star_p e) s1 st1;
  sc_star_stuck St R (env : R -> sc St R unit) k d e s st :
    match sc_parse env k d e s st with
    | Ret _ => True
    | Throws x => sc_parse env k d (star_p e) s st = Throws x
    | Aborts => sc_parse env k d (star_p e) s st = Aborts
    | Undefined => sc_parse env k d (star_p e) s st = Undefined
    end;
  sc_opt St R (env : R -> sc St R unit) k d e s st :
    sc_parse env k d (opt_p e) s st =
      ('(o, st1) ← sc_parse env k d e s st;
       Ret (match o with Some (_, s1) => Some (tt, s1) | None => Some (tt, s) end, st1));
  sc_rule St R (env : R -> sc St R unit) k d r s st :
    sc_parse env k d (rule_p r) s st =
      match d with O => Undefined | S d' => sc_parse env k d' (env r) s st end;
  (* the action gets the iterators around the match, the skipper having run
     before the first; one for the attribute ignores them *)
  sc_act St R (env : R -> sc St R unit) k d A (e : sc St R A) f s st :
    sc_parse env k d (act_p e f) s st =
      ('(o, st1) ← sc_parse env k d e (skip k s) st;
       match o with
       | Some (a, s1) => st2 ← f (skip k s) s1 a st1; Ret (Some (tt, s1), st2)
       | None => Ret (None, st1)
       end);
}.

(** ** An instance, for examples *)

Definition scan_digits (s : bytes) : bytes * bytes := (take_while isdigit s, drop_while isdigit s).

Definition dec_number (neg : bool) (ds : bytes) : Z :=
  let v := digits_value 10 dec_value ds in if neg then - v else v.

Definition scan_integer (lo hi : Z) (s : bytes) : option (Z * bytes) :=
  let '(neg, r) := scan_sign s in
  let '(ds, rest) := scan_digits r in
  match ds with
  | [] => None
  | _ => let z := dec_number neg ds in if (lo <=? z) && (z <? hi) then Some (z, rest) else None
  end.

Definition scan_unsigned (hi : Z) (s : bytes) : option (Z * bytes) :=
  match s with
  | c :: _ => if isdigit c then scan_integer 0 hi s else None
  | [] => None
  end.

Definition scan_exponent (s : bytes) : option (Z * bytes) :=
  match s with
  | c :: s' => if (c =? "e")%char || (c =? "E")%char then scan_integer (- 400) 400 s' else None
  | [] => None
  end.

Definition real_value (neg : bool) (ds : bytes) (ex : Z) : spec_float :=
  let m := double_of_Z (dec_number neg ds) in
  if 0 <=? ex then SFmul 53 1024 m (double_of_Z (10 ^ ex))
  else SFdiv 53 1024 m (double_of_Z (10 ^ (- ex))).

Definition scan_real (s : bytes) : option (spec_float * bytes) :=
  let '(neg, r0) := scan_sign s in
  let '(ds, r1) := scan_digits r0 in
  match r1 with
  | c :: r2 =>
      if (c =? ".")%char then
        let '(fs, r3) := scan_digits r2 in
        if bool_decide (ds ++ fs = []) then None
        else
          let n := Z.of_nat (length fs) in
          match scan_exponent r3 with
          | Some (ex, r4) => Some (real_value neg (ds ++ fs) (ex - n), r4)
          | None => Some (real_value neg (ds ++ fs) (- n), r3)
          end
      else if bool_decide (ds = []) then None
      else match scan_exponent r1 with
           | Some (ex, r4) => Some (real_value neg ds ex, r4)
           | None => None
           end
  | [] => None
  end.

Definition scan_escape (s : bytes) : option (unit * bytes) :=
  match s with
  | c :: s' =>
      if (c =? "092")%char then
        match s' with
        | d :: s'' =>
            if (d =? "x")%char || (d =? "X")%char then
              match take 2 (take_while isxdigit s'') with
              | [] => None
              | hs => Some (tt, drop (length hs) s'')
              end
            else if is_octal d then Some (tt, drop (length (take 3 (take_while is_octal s'))) s')
            else Some (tt, s'')
        | [] => None
        end
      else Some (tt, s')
  | [] => None
  end.

Lemma scan_sign_suffix s : exists p, s = p ++ (scan_sign s).2.
Proof.
  destruct s as [|c s]; [by exists []|]. simpl.
  destruct (c =? "-")%char; [by exists [c]|]. destruct (c =? "+")%char; [by exists [c]|]. by exists [].
Qed.

Lemma advanced_app {A} (s p r : bytes) (o : option (A * bytes)) :
  s = p ++ r -> advanced r o -> advanced s o.
Proof.
  intros -> H. destruct o as [[a s']|]; [|done]. destruct H as (q & -> & Hq).
  exists (p ++ q). split; [by rewrite app_assoc|]. by destruct p.
Qed.

Lemma advanced_digits s r : (scan_digits s).1 ≠ [] -> (scan_digits s).2 = r ->
  forall A (a : A), advanced s (Some (a, r)).
Proof. intros H <- A a. exists (take_while isdigit s). by rewrite take_drop_while. Qed.

Lemma scan_integer_advanced lo hi s : advanced s (scan_integer lo hi s).
Proof.
  unfold scan_integer. destruct (scan_sign_suffix s) as [p Hp].
  destruct (scan_sign s) as [neg r]. simpl in Hp. apply (advanced_app s p r); [done|].
  pose proof (advanced_digits r) as H. destruct (scan_digits r) as [[|d ds] rest]; [done|].
  case_match; [|done]. by apply (H rest).
Qed.

Lemma scan_unsigned_advanced hi s : advanced s (scan_unsigned hi s).
Proof.
  unfold scan_unsigned. destruct s as [|c s]; [done|].
  destruct (isdigit c); [apply scan_integer_advanced|done].
Qed.

Lemma scan_exponent_suffix s z r : scan_exponent s = Some (z, r) -> exists p, s = p ++ r.
Proof.
  unfold scan_exponent. destruct s as [|c s]; [done|]. destruct (_ || _); [|done]. intros H.
  pose proof (scan_integer_advanced (-400) 400 s) as Ha. rewrite H in Ha.
  destruct Ha as (p & -> & _). by exists (c :: p).
Qed.

Lemma scan_real_advanced s : advanced s (scan_real s).
Proof.
  unfold scan_real. destruct (scan_sign_suffix s) as [p Hp].
  destruct (scan_sign s) as [neg r]. simpl in Hp. apply (advanced_app s p r); [done|]. clear.
  unfold scan_digits. pose proof (take_drop_while isdigit r) as Hr. revert Hr.
  generalize (take_while isdigit r) as ds. destruct (drop_while isdigit r) as [|c r2]; [done|].
  intros ds <-. destruct (c =? ".")%char.
  - case_bool_decide; [done|]. pose proof (take_drop_while isdigit r2) as Hr2. revert Hr2.
    generalize (take_while isdigit r2) as fs, (drop_while isdigit r2) as r3. intros fs r3 <-.
    destruct (scan_exponent r3) as [[ex r4]|] eqn:E.
    + apply scan_exponent_suffix in E as [q ->]. exists (ds ++ c :: fs ++ q).
      split; [by rewrite <-!app_assoc; simpl; rewrite <-!app_assoc|]. by destruct ds.
    + exists (ds ++ c :: fs). split; [by rewrite <-!app_assoc|]. by destruct ds.
  - case_bool_decide; [done|]. destruct (scan_exponent (c :: r2)) as [[ex r4]|] eqn:E; [|done].
    apply scan_exponent_suffix in E as [q ->]. exists (ds ++ q). split; [by rewrite app_assoc|].
    by destruct ds.
Qed.

Lemma take_drop_advanced n (s : bytes) d : advanced (d :: s) (Some (tt, drop n s)).
Proof. exists (d :: take n s). split; [|done]. simpl. by rewrite take_drop. Qed.

Lemma scan_escape_advanced s : advanced s (scan_escape s).
Proof.
  unfold scan_escape. destruct s as [|c s]; [done|].
  destruct (c =? "092")%char; [|by exists [c]].
  destruct s as [|d s]; [done|]. destruct (_ || _).
  - destruct (take 2 _) as [|h hs]; [done|]. apply (advanced_app _ [c] (d :: s)); [done|].
    apply take_drop_advanced.
  - destruct (is_octal d); [apply take_drop_advanced|]. by exists [c; d].
Qed.

Lemma number_start_none s : number_start s = false ->
  scan_real s = None /\ (forall lo hi, scan_integer lo hi s = None).
Proof.
  destruct s as [|c s]; [done|]. unfold number_start. rewrite !orb_false_iff.
  intros [[[Hd Hm] Hp] Hdot]. unfold scan_real, scan_integer, scan_digits. simpl. rewrite Hm, Hp.
  simpl. rewrite Hd, Hdot. by split.
Qed.

Lemma drop_while_stop f (ds r : bytes) :
  forallb f ds = true -> match r with c :: _ => f c = false | [] => True end ->
  take_while f (ds ++ r) = ds /\ drop_while f (ds ++ r) = r.
Proof.
  intros Hds Hr. induction ds as [|c ds IH]; simpl.
  - destruct r as [|c r]; [done|]. simpl. by rewrite Hr.
  - simpl in Hds. apply andb_true_iff in Hds as [Hc Hds]. rewrite Hc.
    destruct (IH Hds) as [-> ->]. done.
Qed.

Lemma number_end_stop r : number_end r = true -> match r with c :: _ => isdigit c = false | [] => True end.
Proof.
  destruct r as [|c r]; [done|]. unfold number_end. rewrite negb_true_iff, !orb_false_iff. tauto.
Qed.

(** The text of an integer: a sign for the negative ones, then the digits of
    its absolute value. *)
Lemma show_Z_scan z : exists ds, forallb isdigit ds = true /\ ds ≠ [] /\
  (forall r, scan_sign (show_Z z ++ r) = (z <? 0, ds ++ r)) /\ dec_number (z <? 0) ds = z.
Proof.
  unfold show_Z. destruct (Z.ltb_spec z 0) as [Hz|Hz].
  - destruct (show_nonneg_spec (- z) ltac:(lia)) as (Hd & Hv & Hne).
    exists (show_nonneg (- z)). repeat split; try done. unfold dec_number. rewrite Hv. lia.
  - destruct (show_nonneg_spec z Hz) as (Hd & Hv & Hne).
    exists (show_nonneg z). split; [done|]. split; [done|]. split; [|done].
    intros r. destruct (show_nonneg z) as [|c ds]; [done|]. simpl app.
    apply scan_sign_digit. simpl in Hd. by apply andb_true_iff in Hd as [? _].
Qed.

Lemma scan_integer_show lo hi z r : number_end r = true ->
  scan_integer lo hi (show_Z z ++ r) = if (lo <=? z) && (z <? hi) then Some (z, r) else None.
Proof.
  intros Hr. destruct (show_Z_scan z) as (ds & Hds & Hne & Hs & Hz).
  unfold scan_integer. rewrite Hs. unfold scan_digits.
  destruct (drop_while_stop isdigit ds r Hds (number_end_stop r Hr)) as [-> ->].
  destruct ds; [done|]. by rewrite Hz.
Qed.

Lemma scan_real_show z r : number_end r = true -> scan_real (show_Z z ++ r) = None.
Proof.
  intros Hr. destruct (show_Z_scan z) as (ds & Hds & Hne & Hs & Hz).
  unfold scan_real. rewrite Hs. unfold scan_digits.
  destruct (drop_while_stop isdigit ds r Hds (number_end_stop r Hr)) as [-> ->].
  destruct r as [|c r]; [done|]. unfold number_end in Hr. rewrite negb_true_iff, !orb_false_iff in Hr.
  destruct Hr as [[[_ Hdot] He] HE]. rewrite Hdot. rewrite bool_decide_eq_false_2 by done.
  simpl. by rewrite He, HE.
Qed.

Lemma scan_unsigned_show hi z r : 0 <= z -> number_end r = true ->
  scan_unsigned hi (show_Z z ++ r) = if z <? hi then Some (z, r) else None.
Proof.
  intros Hz Hr. pose proof (scan_integer_show 0 hi z r Hr) as H.
  rewrite (proj2 (Z.leb_le _ _) Hz) in H. simpl andb in H. rewrite <-H. unfold scan_unsigned.
  unfold show_Z. rewrite (proj2 (Z.ltb_ge _ _) Hz).
  destruct (show_nonneg_spec z Hz) as (Hd & _ & Hne). destruct (show_nonneg z) as [|c ds]; [done|].
  simpl in Hd. apply andb_true_iff in Hd as [Hc _]. cbn [app]. by rewrite Hc.
Qed.

(** *** The interpreter *)

Section interpreter.
Context {St R : Type}.

Fixpoint run_star (p : bytes -> St -> scanned St unit) (fuel : nat) (s : bytes) (st : St) : scanned St unit :=
  '(o, st1) ← p s st;
  match o with
  | Some (_, s1) =>
      match fuel with
      | S f => if (length s1 <? length s)%nat then run_star p f s1 st1 else Ret (Some (tt, s1), st1)
      | O => Ret (Some (tt, s1), st1)
      end
  | None => Ret (Some (tt, s), st1)
  end.

Definition run_seq {A B} (p : bytes -> St -> scanned St A) (q : bytes -> St -> scanned St B)
    (s : bytes) (st : St) : scanned St unit :=
  '(o, st1) ← p s st;
  match o with
  | Some (_, s1) =>
      '(o2, st2) ← q s1 st1;
      Ret (match o2 with Some (_, s2) => Some (tt, s2) | None => None end, st2)
  | None => Ret (None, st1)
  end.

Definition run_diff {A B} (p : bytes -> St -> scanned St A) (q : bytes -> St -> scanned St B)
    (s : bytes) (st : St) : scanned St unit :=
  '(o, st1) ← p s st;
  match o with
  | Some (_, s1) =>
      '(o2, st2) ← q s st1;
      Ret (match o2 with
           | Some (_, s2) => if (length s2 <=? length s1)%nat then None else Some (tt, s1)
           | None => Some (tt, s1)
           end, st2)
  | None => Ret (None, st1)
  end.

Definition run_ch (c : ascii) (s : bytes) : option (ascii * bytes) :=
  match s with
  | c' :: s' => if (c' =? c)%char then Some (c', s') else None
  | [] => None
  end.

(** One expression, given how to run a rule. *)
Fixpoint run_sc {A} (rule : bool -> R -> bytes -> St -> scanned St unit) (k : bool) (e : sc St R A) :
    bytes -> St -> scanned St A :=
  match e in sc _ _ A return bytes -> St -> scanned St A with
  | ch_p c => fun s st => Ret (run_ch c (skip k s), st)
  | str_p t => fun s st =>
      Ret (if starts_with (skip k s) t then Some (tt, drop (length t) (skip k s)) else None, st)
  | eps_p => fun s st => Ret (Some (tt, s), st)
  | lex_escape_ch_p => fun s st => Ret (scan_escape (skip k s), st)
  | strict_real_p => fun s st => Ret (scan_real (skip k s), st)
  | int64_p => fun s st => Ret (scan_integer (- 2 ^ 63) (2 ^ 63) (skip k s), st)
  | uint64_p => fun s st => Ret (scan_unsigned (2 ^ 64) (skip k s), st)
  | lexeme_d e => fun s st => run_sc rule false e (skip k s) st
  | confix_star_p o e c =>
      run_seq (run_seq (fun s st => Ret (run_ch o (skip k s), st))
                 (fun s st => run_star (run_diff (run_sc rule k e)
                    (fun s st => Ret (run_ch c (skip k s), st))) (length s) s st))
        (fun s st => Ret (run_ch c (skip k s), st))
  | seq_p e f => run_seq (run_sc rule k e) (run_sc rule k f)
  | alt_p e f => fun s st =>
      '(o, st1) ← run_sc rule k e s st;
      match o with
      | Some (_, s1) => Ret (Some (tt, s1), st1)
      | None =>
          '(o2, st2) ← run_sc rule k f s st1;
          Ret (match o2 with Some (_, s2) => Some (tt, s2) | None => None end, st2)
      end
  | diff_p e f => run_diff (run_sc rule k e) (run_sc rule k f)
  | star_p e => fun s st => run_star (run_sc rule k e) (length s) s st
  | opt_p e => fun s st =>
      '(o, st1) ← run_sc rule k e s st;
      Ret (match o with Some (_, s1) => Some (tt, s1) | None => Some (tt, s) end, st1)
  | rule_p r => rule k r
  | act_p e f => fun s st =>
      '(o, st1) ← run_sc rule k e (skip k s) st;
      match o with
      | Some (a, s1) => st2 ← f (skip k s) s1 a st1; Ret (Some (tt, s1), st2)
      | None => Ret (None, st1)
      end
  end.

Fixpoint run_rule (env : R -> sc St R unit) (d : nat) (k : bool) (r : R) (s : bytes) (st : St) : scanned St unit :=
  match d with
  | O => Undefined
  | S d' => run_sc (run_rule env d') k (env r) s st
  end.

Lemma run_star_fuel p f1 f2 s st :
  (length s <= f1)%nat -> (length s <= f2)%nat -> run_star p f1 s st = run_star p f2 s st.
Proof.
  revert f2 s st. induction f1 as [|f1 IH]; intros f2 s st H1 H2.
  - destruct s; [|simpl in H1; lia]. destruct f2; simpl; [done|].
    by destruct (p [] st) as [[[[? s']|] st']| | |].
  - destruct f2 as [|f2]; simpl.
    + destruct s; [|simpl in H2; lia]. simpl. by destruct (p [] st) as [[[[? s']|] st']| | |].
    + destruct (p s st) as [[[[? s']|] st']| | |]; simpl; try done.
      destruct (Nat.ltb_spec (length s') (length s)); [|done]. apply IH; lia.
Qed.

Lemma run_star_next p s st s1 st1 :
  p s st = Ret (Some (tt, s1), st1) -> (length s1 < length s)%nat ->
  run_star p (length s) s st = run_star p (length s1) s1 st1.
Proof.
  intros H Hlt. destruct s as [|c s]; [simpl in Hlt; lia|].
  change (length (c :: s)) with (S (length s)). simpl run_star at 1. rewrite H. simpl mbind. cbv iota beta.
  rewrite (proj2 (Nat.ltb_lt _ _)) by (simpl in *; lia). apply run_star_fuel; simpl in *; lia.
Qed.
End interpreter.

Definition peg_classic : SpiritClassic.
Proof.
  refine {| sc_parse St R A env k d e := run_sc (run_rule env d) k e |}; intros; try reflexivity.
  - simpl. rewrite H. simpl. destruct (Ascii.eqb_spec c "092"); [done|]. done.
  - simpl. rewrite H. simpl. rewrite (proj2 (Ascii.eqb_neq _ _) H0), (proj2 (Ascii.eqb_neq _ _) H1), H2. done.
  - eexists. split; [done|apply scan_escape_advanced].
  - eexists. split; [done|apply scan_real_advanced].
  - simpl. by rewrite (proj1 (number_start_none _ H)).
  - simpl. by rewrite H, scan_real_show.
  - eexists. split; [done|apply scan_integer_advanced].
  - simpl. by rewrite (proj2 (number_start_none _ H)).
  - simpl. by rewrite H, scan_integer_show.
  - eexists. split; [done|apply scan_unsigned_advanced].
  - simpl. unfold scan_unsigned. pose proof (proj2 (number_start_none _ H)) as Hn.
    destruct (skip k s); [done|]. case_match; [|done]. by rewrite Hn.
  - simpl. by rewrite H, scan_unsigned_show.
  - simpl. destruct (length s); simpl; by rewrite H.
  - simpl. by apply run_star_next.
  - destruct (run_sc _ k e s st) eqn:E; [done|..]; simpl; destruct (length s); simpl; by rewrite E.
  - simpl. by destruct d.
Defined.
