(* ===== verification/JsonReader.v ===== *)
(** * JSON reader

    [Semantic_actions], [Json_grammer] and the [read_*] functions of
    [json_spirit_reader_template.h], [read] and [read_or_throw] of
    [json_spirit_reader.cc] and the readers of [json_spirit_stream_reader.h],
    for [char]. The templates are over [Config_type], which has objects as
    vectors or as maps, and over [Iter_type]. The grammar is an expression of
    [Classic]; the [Value*] of the actions is a path of positions from the
    value that is read. The only pointers kept are to the current object or
    array and to those it is in; a vector or map grows at the current one only,
    so a pointer is never to an element of a vector that has moved. *)

From S2P Require Import Prelude CppString JsonValue JsonEscape JsonWriter Classic.

Local Open Scope Z_scope.

(** ** Iterators

    An iterator is the rest of its input. What [throw_error] throws depends on its
    type: a string, or for a position iterator, an [Error_position]. *)
Class Iter_type : Type := throw_error : bytes -> bytes -> exn.

Definition string_iterator : Iter_type := fun _ reason => string_thrown reason.

(** [get_position] of Boost's [position_iterator], from the text it has gone over
    and the rest: lines and columns count from one. *)
Class PositionIterator : Type := {
  get_position (before after : bytes) : Z * Z;
  position_start after : get_position [] after = (1, 1);
  position_column before c after : c ≠ "010"%char -> c ≠ "013"%char -> c ≠ "009"%char ->
    get_position (before ++ [c]) after = ((get_position before (c :: after)).1, (get_position before (c :: after)).2 + 1);
  position_line before after :
    get_position (before ++ ["010"%char]) after = ((get_position before ("010"%char :: after)).1 + 1, 1)
}.

Definition position_iterator {position : PositionIterator} (input : bytes) : Iter_type :=
  fun begin reason =>
    let '(line, column) := get_position (matched input begin) begin in Error_position line column reason.

(** ** Pointers *)

Definition child (v : Value) (i : nat) : option Value :=
  match v with
  | Obj ms => snd <$> ms !! i
  | Arr es => es !! i
  | _ => None
  end.

Definition set_child (i : nat) (x v : Value) : Value :=
  match v with
  | Obj ms => Obj (alter (fun m => (m.1, x)) i ms)
  | Arr es => Arr (<[i := x]> es)
  | _ => v
  end.

Fixpoint value_at (p : list nat) (v : Value) : option Value :=
  match p with
  | [] => Some v
  | i :: p' => child v i ≫= value_at p'
  end.

Fixpoint put (p : list nat) (x v : Value) : Value :=
  match p with
  | [] => x
  | i :: p' => match child v i with Some c => set_child i (put p' x c) v | None => v end
  end.

(** ** Actions *)

(** The back of [stack_] is the first of the list. *)
Record Semantic_actions : Type := MkActions {
  sa_value_ : Value;
  current_p_ : option (list nat);
  stack_ : list (list nat);
  name_ : bytes
}.

Section reader.
Context {config : Config_type} {iter : Iter_type}.

Definition Semantic_actions_new (value : Value) : Semantic_actions := MkActions value None [] [].

Definition is_eq (s c_str : bytes) : bool :=
  (fix go (s c : bytes) : bool :=
     match s with
     | [] => true
     | i :: s' => match c with d :: c' => if (i =? d)%char then go s' c' else false | [] => false end
     end) s c_str.

Definition get_str_ (s : bytes) : outcome bytes :=
  if (2 <=? length s)%nat then Ret (substitute_esc_chars (take (length s - 2) (drop 1 s))) else Aborts.

Definition add_first (value : Value) (a : Semantic_actions) : outcome (list nat * Semantic_actions) :=
  match current_p_ a with
  | None => Ret ([], MkActions value (Some []) (stack_ a) (name_ a))
  | Some _ => Aborts
  end.

Definition add_to_current (value : Value) (a : Semantic_actions) : outcome (list nat * Semantic_actions) :=
  match current_p_ a with
  | None => add_first value a
  | Some p =>
      c ← or_undefined (value_at p (sa_value_ a));
      let set c' := MkActions (put p c' (sa_value_ a)) (Some p) (stack_ a) (name_ a) in
      match c with
      | Arr es => Ret (p ++ [length es], set (Arr (es ++ [value])))
      | Obj ms => let '(ms', i) := config_add ms (name_ a) value in Ret (p ++ [i], set (Obj ms'))
      | _ => Aborts
      end
  end.

Definition begin_compound (empty : Value) (a : Semantic_actions) : outcome Semantic_actions :=
  match current_p_ a with
  | None => '(_, a') ← add_first empty a; Ret a'
  | Some p =>
      '(q, a') ← add_to_current empty (MkActions (sa_value_ a) (current_p_ a) (p :: stack_ a) (name_ a));
      Ret (MkActions (sa_value_ a') (Some q) (stack_ a') (name_ a'))
  end.

Definition end_compound (a : Semantic_actions) : outcome Semantic_actions :=
  if bool_decide (current_p_ a = Some []) then Ret a
  else
    match stack_ a with
    | p :: stack => Ret (MkActions (sa_value_ a) (Some p) stack (name_ a))
    | [] => Undefined
    end.

Definition begin_obj (_ _ : bytes) (c : ascii) (a : Semantic_actions) : outcome Semantic_actions :=
  if (c =? "{")%char then begin_compound (Obj []) a else Aborts.
Definition end_obj (_ _ : bytes) (c : ascii) (a : Semantic_actions) : outcome Semantic_actions :=
  if (c =? "}")%char then end_compound a else Aborts.
Definition begin_array (_ _ : bytes) (c : ascii) (a : Semantic_actions) : outcome Semantic_actions :=
  if (c =? "[")%char then begin_compound (Arr []) a else Aborts.
Definition end_array (_ _ : bytes) (c : ascii) (a : Semantic_actions) : outcome Semantic_actions :=
  if (c =? "]")%char then end_compound a else Aborts.

Definition new_name (begin end_ : bytes) (_ : unit) (a : Semantic_actions) : outcome Semantic_actions :=
  p ← or_undefined (current_p_ a);
  v ← or_undefined (value_at p (sa_value_ a));
  if bool_decide (type v = obj_type) then
    n ← get_str_ (matched begin end_);
    Ret (MkActions (sa_value_ a) (current_p_ a) (stack_ a) n)
  else Aborts.

(** [add_to_current] with the pointer it returns unused. *)
Definition add_value (value : Value) (a : Semantic_actions) : outcome Semantic_actions :=
  '(_, a') ← add_to_current value a; Ret a'.

Definition new_str (begin end_ : bytes) (_ : unit) (a : Semantic_actions) : outcome Semantic_actions :=
  s ← get_str_ (matched begin end_); add_value (Str s) a.
Definition new_true (begin end_ : bytes) (_ : unit) (a : Semantic_actions) : outcome Semantic_actions :=
  if is_eq (matched begin end_) (lit "true") then add_value (Bool true) a else Aborts.
Definition new_false (begin end_ : bytes) (_ : unit) (a : Semantic_actions) : outcome Semantic_actions :=
  if is_eq (matched begin end_) (lit "false") then add_value (Bool false) a else Aborts.
Definition new_null (begin end_ : bytes) (_ : unit) (a : Semantic_actions) : outcome Semantic_actions :=
  if is_eq (matched begin end_) (lit "null") then add_value Null a else Aborts.
Definition new_int (_ _ : bytes) (i : Z) (a : Semantic_actions) : outcome Semantic_actions :=
  add_value (Value_int64 i) a.
Definition new_uint64 (_ _ : bytes) (ui : Z) (a : Semantic_actions) : outcome Semantic_actions :=
  add_value (Value_uint64 ui) a.
Definition new_real (_ _ : bytes) (d : SpecFloat.spec_float) (a : Semantic_actions) : outcome Semantic_actions :=
  add_value (Real d) a.

(** [throw_not_value] and the others, by their reasons. *)
Definition throw_reason (reason : bytes) (begin end_ : bytes) (_ : unit) (_ : Semantic_actions) : outcome Semantic_actions :=
  Throws (throw_error begin reason).
Definition throw_not_value := throw_reason (lit "not a value").
Definition throw_not_array := throw_reason (lit "not an array").
Definition throw_not_object := throw_reason (lit "not an object").
Definition throw_not_colon := throw_reason (lit "no colon in pair").

End reader.

(** ** Grammar *)

Inductive rule : Type :=
| json_ | object_ | members_ | pair_ | array_ | elements_ | value_ | string_ | number_.

Abbreviation json_sc := (sc Semantic_actions rule).

Section grammar.
Context {config : Config_type} {iter : Iter_type}.
Local Open Scope spirit_scope.
Let r (x : rule) : json_sc unit := rule_p x.

Definition json_grammer (x : rule) : json_sc unit :=
  match x with
  | json_ => r value_ ||| eps_p @! throw_not_value
  | value_ =>
      r string_ @! new_str
      ||| r number_
      ||| r object_
      ||| r array_
      ||| str_p (lit "true") @! new_true
      ||| str_p (lit "false") @! new_false
      ||| str_p (lit "null") @! new_null
  | object_ =>
      ch_p "{" @! begin_obj
      >>> opt_p (r members_)
      >>> (ch_p "}" @! end_obj ||| eps_p @! throw_not_object)
  | members_ => r pair_ >>> star_p (ch_p "," >>> r pair_)
  | pair_ =>
      r string_ @! new_name
      >>> (ch_p ":" ||| eps_p @! throw_not_colon)
      >>> (r value_ ||| eps_p @! throw_not_value)
  | array_ =>
      ch_p "[" @! begin_array
      >>> opt_p (r elements_)
      >>> (ch_p "]" @! end_array ||| eps_p @! throw_not_array)
  | elements_ => r value_ >>> star_p (ch_p "," >>> r value_)
  | string_ => lexeme_d (confix_star_p dquote lex_escape_ch_p dquote)
  | number_ => strict_real_p @! new_real ||| int64_p @! new_int ||| uint64_p @! new_uint64
  end.
End grammar.

(** ** Reading *)

Section read.
Context {classic : SpiritClassic} {config : Config_type} (stack : nat).

Section range.
Context {iter : Iter_type}.

(** The rest of the input and the value. *)
Definition read_range_or_throw (s : bytes) (value : Value) : outcome (bytes * Value) :=
  '(info, a) ← sc_parse json_grammer true stack (rule_p json_) s (Semantic_actions_new value);
  match info with
  | Some (_, stop) => Ret (skip true stop, sa_value_ a)
  | None => Aborts
  end.

(** [catch (...)] *)
Definition read_range (s : bytes) (value : Value) : outcome (option (bytes * Value)) :=
  match read_range_or_throw s value with
  | Ret x => Ret (Some x)
  | Throws _ => Ret None
  | Aborts => Aborts
  | Undefined => Undefined
  end.
End range.

Definition read_string (s : bytes) (value : Value) : outcome (option Value) :=
  o ← read_range (iter := string_iterator) s value; Ret (option_map snd o).

(** A [std::istream] is what can be read from it; the iterators of
    [Multi_pass_iters] go over that, spaces included. *)
Definition Multi_pass_iters (is_ : bytes) : bytes := is_.

Definition read_stream (is_ : bytes) (value : Value) : outcome (option Value) :=
  o ← read_range (iter := string_iterator) (Multi_pass_iters is_) value; Ret (option_map snd o).

Context {position : PositionIterator}.

Definition add_posn_iter_and_read_range_or_throw (s : bytes) (value : Value) : outcome Value :=
  '(_, v) ← read_range_or_throw (iter := position_iterator s) s value; Ret v.

Definition read_string_or_throw (s : bytes) (value : Value) : outcome Value :=
  add_posn_iter_and_read_range_or_throw s value.

Definition read_stream_or_throw (is_ : bytes) (value : Value) : outcome Value :=
  add_posn_iter_and_read_range_or_throw (Multi_pass_iters is_) value.

(** [Stream_reader]: its iterator goes on where the value before ended; it stays
    when there was none. *)
Definition Stream_reader_new (is_ : bytes) : bytes := Multi_pass_iters is_.

Definition read_next (begin_ : bytes) (value : Value) : outcome (option Value * bytes) :=
  o ← read_range (iter := string_iterator) begin_ value;
  Ret match o with Some (stop, v) => (Some v, stop) | None => (None, begin_) end.

(** [Stream_reader_thrower]: the input and the iterator in it. *)
Record Stream_reader_thrower : Type := MkThrower { thrower_input : bytes; posn_begin_ : bytes }.

Definition Stream_reader_thrower_new (is_ : bytes) : Stream_reader_thrower := MkThrower (Multi_pass_iters is_) (Multi_pass_iters is_).

Definition thrower_read_next (r : Stream_reader_thrower) (value : Value) : outcome (Value * Stream_reader_thrower) :=
  '(stop, v) ← read_range_or_throw (iter := position_iterator (thrower_input r)) (posn_begin_ r) value;
  Ret (v, MkThrower (thrower_input r) stop).
End read.

(** The functions of [json_spirit_reader.cc], for [Value] and, with [m], for [mValue]:
    of a string, of a stream, and of two iterators, the first of which moves. *)
Section overloads.
Context {classic : SpiritClassic} {position : PositionIterator} (stack : nat).

Definition read : bytes -> Value -> outcome (option Value) := read_string (config := Config_vector) stack.
Definition read_or_throw : bytes -> Value -> outcome Value := read_string_or_throw (config := Config_vector) stack.
Definition read_istream : bytes -> Value -> outcome (option Value) := read_stream (config := Config_vector) stack.
Definition read_istream_or_throw : bytes -> Value -> outcome Value := read_stream_or_throw (config := Config_vector) stack.
Definition read_iterators : bytes -> Value -> outcome (option (bytes * Value)) :=
  read_range (config := Config_vector) (iter := string_iterator) stack.
Definition read_iterators_or_throw : bytes -> Value -> outcome (bytes * Value) :=
  read_range_or_throw (config := Config_vector) (iter := string_iterator) stack.

Definition mread : bytes -> Value -> outcome (option Value) := read_string (config := Config_map) stack.
Definition mread_or_throw : bytes -> Value -> outcome Value := read_string_or_throw (config := Config_map) stack.
Definition mread_istream : bytes -> Value -> outcome (option Value) := read_stream (config := Config_map) stack.
Definition mread_istream_or_throw : bytes -> Value -> outcome Value := read_stream_or_throw (config := Config_map) stack.
Definition mread_iterators : bytes -> Value -> outcome (option (bytes * Value)) :=
  read_range (config := Config_map) (iter := string_iterator) stack.
Definition mread_iterators_or_throw : bytes -> Value -> outcome (bytes * Value) :=
  read_range_or_throw (config := Config_map) (iter := string_iterator) stack.
End overloads.

(** Positions for examples: a column for every character but a line feed. *)
Fixpoint count_position (p : Z * Z) (before : bytes) : Z * Z :=
  match before with
  | [] => p
  | c :: before' => count_position (if (c =? "010")%char then (p.1 + 1, 1) else (p.1, p.2 + 1)) before'
  end.

Lemma count_position_snoc p before c :
  count_position p (before ++ [c]) =
    if (c =? "010")%char then ((count_position p before).1 + 1, 1) else ((count_position p before).1, (count_position p before).2 + 1).
Proof. revert p. induction before as [|b before IH]; intros p; [done|]. apply IH. Qed.

Definition counted_positions : PositionIterator.
Proof.
  refine {| get_position before _ := count_position (1, 1) before |}.
  - done.
  - intros before c _ H1 _ _. rewrite count_position_snoc. by rewrite (proj2 (Ascii.eqb_neq _ _) H1).
  - intros before _. by rewrite count_position_snoc.
Defined.

Definition quoted (s : string) : bytes := [dquote] ++ lit s ++ [dquote].

Example read_examples :
  read (classic := peg_classic) 20 (lit "{ " ++ quoted "a" ++ lit " : [1, -2.5e1, null]," ++ quoted "b" ++ lit ":true} x") Null =
    Ret (Some (Obj [(lit "a", Arr [Value_int 1; Real (double_of_Z (-25)); Null]); (lit "b", Bool true)])) /\
  read (classic := peg_classic) 20 (lit "[1,]") Null = Ret None /\
  read (classic := peg_classic) 3 (lit "[[[[") Null = Undefined /\
  mread (classic := peg_classic) 20 (lit "{" ++ quoted "b" ++ lit ":1," ++ quoted "a" ++ lit ":[{}]," ++ quoted "b" ++ lit ":2}") Null =
    Ret (Some (Obj [(lit "a", Arr [Obj []]); (lit "b", Value_int 2)])) /\
  read_or_throw (classic := peg_classic) (position := counted_positions) 20 (lit "[1," ++ ["010"%char] ++ lit "  2 : 3]") Null =
    Throws (Error_position 2 5 (lit "not an array")) /\
  (r ← thrower_read_next (classic := peg_classic) (config := Config_vector) (position := counted_positions) 20 (Stream_reader_thrower_new (lit "[1] 2 x")) Null;
   r ← thrower_read_next (classic := peg_classic) (config := Config_vector) (position := counted_positions) 20 r.2 Null;
   thrower_read_next (classic := peg_classic) (config := Config_vector) (position := counted_positions) 20 r.2 Null) =
    Throws (Error_position 1 7 (lit "not a value")).
Proof. by vm_compute. Qed.
