(* ===== verification/JsonRoundTrip.v ===== *)
(** * The JSON reader is total and undoes the writer

    Theorems about [JsonReader]: on any input it returns, no assertion of the
    actions fails and no null or dangling pointer is used; and it reads what
    [JsonWriter] writes. [JsonReader] is the interface that [Sync] is proved
    against, with the reader of json_spirit as instance. *)

From S2P Require Import Prelude CppString StdMap JsonValue JsonEscape JsonWriter Classic JsonReader.

Local Open Scope Z_scope.

(** ** Pointers *)

Lemma child_set_child v i x c : child v i = Some c -> child (set_child i x v) i = Some x.
Proof.
  destruct v as [ms|es| | | | |]; simpl; try done.
  - intros H. apply fmap_Some in H as ([n w] & H & _). by rewrite list_lookup_alter_eq, H.
  - intros H. apply list_lookup_insert_eq. by eapply lookup_lt_Some.
Qed.

Lemma set_child_twice v i x y : set_child i y (set_child i x v) = set_child i y v.
Proof.
  destruct v as [ms|es| | | | |]; simpl; try done.
  - by rewrite list_alter_alter_eq.
  - by rewrite list_insert_insert_eq.
Qed.

Lemma value_at_put p x v c : value_at p v = Some c -> value_at p (put p x v) = Some x.
Proof.
  revert v. induction p as [|i p IH]; intros v; simpl; [done|]. intros H.
  apply bind_Some in H as (w & Hw & H). rewrite Hw. rewrite (child_set_child _ _ _ _ Hw). simpl. by apply IH.
Qed.

Lemma put_put p x y v c : value_at p v = Some c -> put p y (put p x v) = put p y v.
Proof.
  revert v. induction p as [|i p IH]; intros v; simpl; [done|]. intros H.
  apply bind_Some in H as (w & Hw & H). rewrite Hw. rewrite (child_set_child _ _ _ _ Hw).
  rewrite set_child_twice. by rewrite IH.
Qed.

Lemma value_at_snoc p i v c : value_at p v = Some c -> value_at (p ++ [i]) v = child c i.
Proof.
  revert v. induction p as [|j p IH]; intros v; simpl.
  - intros [= ->]. by destruct (child c i).
  - intros H. apply bind_Some in H as (w & Hw & H). rewrite Hw. simpl. by apply IH.
Qed.

Lemma put_snoc p i x v c d :
  value_at p v = Some c -> child c i = Some d -> put (p ++ [i]) x v = put p (set_child i x c) v.
Proof.
  revert v. induction p as [|j p IH]; intros v; simpl.
  - intros [= ->] ->. done.
  - intros H Hd. apply bind_Some in H as (w & Hw & H). rewrite Hw. by rewrite (IH w).
Qed.

(** ** Adding to the current object or array *)

Section actions.
Context {config : Config_type}.

Definition container (v : Value) : bool := match v with Obj _ | Arr _ => true | _ => false end.
Definition slot (name : bytes) (x v : Value) : nat :=
  match v with Obj ms => (config_add ms name x).2 | Arr es => length es | _ => 0 end.
Definition push (name : bytes) (x v : Value) : Value :=
  match v with
  | Obj ms => Obj (config_add ms name x).1
  | Arr es => Arr (es ++ [x])
  | _ => v
  end.

Lemma child_push name x v : container v = true -> child (push name x v) (slot name x v) = Some x.
Proof.
  destruct v as [ms|es| | | | |]; try done; intros _; simpl.
  - by destruct (config_add_there ms name x) as [n ->].
  - by rewrite list_lookup_middle by done.
Qed.

Lemma set_child_push name x y v :
  container v = true -> set_child (slot name x v) y (push name x v) = push name y v.
Proof.
  destruct v as [ms|es| | | | |]; try done; intros _; simpl.
  - f_equal. apply config_add_alter.
  - by rewrite insert_app_r_alt, Nat.sub_diag by lia.
Qed.

Definition focus (a : Semantic_actions) (p : list nat) (c : Value) : Prop :=
  current_p_ a = Some p /\ value_at p (sa_value_ a) = Some c.

(** [a'] is [a] with [c'] at [p], and the name left aside. *)
Definition rewrites (a : Semantic_actions) (p : list nat) (c' : Value) (a' : Semantic_actions) : Prop :=
  sa_value_ a' = put p c' (sa_value_ a) /\ current_p_ a' = Some p /\ stack_ a' = stack_ a.

(** Nothing is read yet, or an object or array is current. *)
Definition ready (a : Semantic_actions) : Prop :=
  match current_p_ a with
  | None => True
  | Some p => exists c, value_at p (sa_value_ a) = Some c /\ container c = true
  end.

(** [v] is the value read, or was added to the current object or array. *)
Definition added (a : Semantic_actions) (v : Value) (a' : Semantic_actions) : Prop :=
  match current_p_ a with
  | None => sa_value_ a' = v /\ current_p_ a' = Some []
  | Some p => exists c, value_at p (sa_value_ a) = Some c /\ rewrites a p (push (name_ a) v c) a'
  end.

Lemma focus_ready a p c : focus a p c -> container c = true -> ready a.
Proof. intros [H1 H2] H. unfold ready. rewrite H1. eauto. Qed.

Lemma rewrites_focus a p c c' a' : focus a p c -> rewrites a p c' a' -> focus a' p c'.
Proof.
  intros [_ H] (Hv & Hp & _). split; [done|]. rewrite Hv. by eapply value_at_put.
Qed.

Lemma rewrites_trans a p c c1 a1 c2 a2 :
  focus a p c -> rewrites a p c1 a1 -> rewrites a1 p c2 a2 -> rewrites a p c2 a2.
Proof.
  intros [_ Hf] (Hv1 & _ & Hs1) (Hv2 & Hp2 & Hs2). repeat split; [|done|by rewrite Hs2].
  rewrite Hv2, Hv1. by eapply put_put.
Qed.

Lemma added_focus a p c v a' : focus a p c -> added a v a' -> rewrites a p (push (name_ a) v c) a'.
Proof. intros [H1 H2]. unfold added. rewrite H1. intros (c' & Hc & H). by simplify_eq. Qed.

Lemma put_self p v c : value_at p v = Some c -> put p c v = v.
Proof.
  revert v. induction p as [|i p IH]; intros v; simpl; [congruence|].
  intros H. apply bind_Some in H as (w & Hw & H). rewrite Hw, (IH w H).
  destruct v as [ms|es| | | | |]; simpl in *; try done; f_equal.
  - apply fmap_Some in Hw as ([n x] & Hl & ->). simpl. apply list_eq. intros j.
    destruct (decide (i = j)) as [<-|Hj].
    + by rewrite list_lookup_alter_eq, Hl.
    + by rewrite list_lookup_alter_ne.
  - by apply list_insert_id.
Qed.

Lemma rewrites_same a p c a' : focus a p c ->
  sa_value_ a' = sa_value_ a -> current_p_ a' = current_p_ a -> stack_ a' = stack_ a -> rewrites a p c a'.
Proof.
  intros [Hp Hv] H1 H2 H3. repeat split; [|by rewrite H2|done]. rewrite H1. by rewrite (put_self p _ c).
Qed.

Lemma add_to_current_spec a p c v : focus a p c -> container c = true ->
  add_to_current v a = Ret (p ++ [slot (name_ a) v c], MkActions (put p (push (name_ a) v c) (sa_value_ a)) (Some p) (stack_ a) (name_ a)).
Proof. intros [H1 H2] Hc. unfold add_to_current. rewrite H1, H2. destruct c as [ms|es| | | | |]; try done. cbn. by destruct (config_add ms (name_ a) v). Qed.

Lemma add_value_spec a v : ready a -> exists a', add_value v a = Ret a' /\ added a v a'.
Proof.
  unfold ready, add_value, added. destruct (current_p_ a) as [p|] eqn:Hp.
  - intros (c & Hc & Hcont). rewrite (add_to_current_spec a p c v); [|by split|done].
    eexists. split; [done|]. by exists c.
  - intros _. unfold add_to_current, add_first. rewrite Hp. by eexists.
Qed.

(** An object or array is begun empty; when it is ended, it has been added. *)
Lemma compound_spec a empty : ready a ->
  exists a1 q, begin_compound empty a = Ret a1 /\ focus a1 q empty /\
    forall x a2, rewrites a1 q x a2 -> exists a3, end_compound a2 = Ret a3 /\ added a x a3.
Proof.
  unfold ready, begin_compound, added. destruct (current_p_ a) as [p|] eqn:Hp.
  - intros (c & Hc & Hcont).
    rewrite (add_to_current_spec _ p c empty); [|by split|done]. cbn.
    eexists _, _. split; [done|]. unfold focus. cbn. split.
    + split; [done|]. erewrite value_at_snoc by (by eapply value_at_put). by apply child_push.
    + intros x a2 (Hv & Hp2 & Hs). cbn in Hv, Hs. unfold end_compound. rewrite Hp2.
      rewrite bool_decide_eq_false_2 by (by destruct p). rewrite Hs. eexists. split; [done|].
      exists c. split; [done|]. repeat split. cbn. rewrite Hv.
      rewrite (put_snoc p (slot (name_ a) empty c) x _ (push (name_ a) empty c) empty);
        [|by eapply value_at_put|by apply child_push].
      rewrite (put_put p _ _ _ c Hc). by rewrite set_child_push.
  - intros _. unfold add_first. rewrite Hp. cbn. eexists _, []. split; [done|]. split; [done|].
    intros x a2 (Hv & Hp2 & _). unfold end_compound. rewrite Hp2. cbn in *. by eexists.
Qed.

End actions.

(** ** Reasoning about a parse

    [wp lim exc m Q F]: the parse [m] ends as [Q] says when it matches and as
    [F] says when it does not; it throws only what is [exc], and runs out of
    stack only if [lim]. *)

Definition wp {A} (lim : Prop) (exc : exn -> Prop) (m : scanned Semantic_actions A)
    (Q : A -> bytes -> Semantic_actions -> Prop) (F : Semantic_actions -> Prop) : Prop :=
  match m with
  | Ret (Some (x, s'), a') => Q x s' a'
  | Ret (None, a') => F a'
  | Throws e => exc e
  | Aborts => False
  | Undefined => lim
  end.

Definition wp_action (lim : Prop) (exc : exn -> Prop) (m : outcome Semantic_actions) (Q : Semantic_actions -> Prop) : Prop :=
  match m with Ret a => Q a | Throws e => exc e | Aborts => False | Undefined => lim end.

Lemma skip_idem k s : skip k (skip k s) = skip k s.
Proof.
  unfold skip. destruct k; [|done]. induction s as [|c s IH]; simpl; [done|].
  destruct (isspace c) eqn:E; [done|]. simpl. by rewrite E.
Qed.

Lemma skip_length k s : (length (skip k s) <= length s)%nat.
Proof.
  unfold skip. destruct k; [|done]. induction s as [|c s IH]; simpl; [done|].
  destruct (isspace c); simpl; lia.
Qed.

Lemma matched_app p s : matched (p ++ s) s = p.
Proof. unfold matched. rewrite length_app. replace (length p + length s - length s)%nat with (length p) by lia. apply take_app_length. Qed.

Section wp.
Context {classic : SpiritClassic} {config : Config_type} {iter : Iter_type}.
Context (lim : Prop) (exc : exn -> Prop) (k : bool) (d : nat) (s : bytes) (a : Semantic_actions).
Implicit Types (Q : unit -> bytes -> Semantic_actions -> Prop) (F : Semantic_actions -> Prop).
Abbreviation parse e s a := (sc_parse json_grammer k d e s a).

Lemma wp_mono {A} (lim' : Prop) (m : scanned Semantic_actions A)
    (Q' Q'' : A -> bytes -> Semantic_actions -> Prop) F F' :
  wp lim' exc m Q' F -> (lim' -> lim) -> (forall x s1 a1, Q' x s1 a1 -> Q'' x s1 a1) ->
  (forall a1, F a1 -> F' a1) -> wp lim exc m Q'' F'.
Proof. destruct m as [[[[x s1]|] a1]| | |]; simpl; auto. Qed.

Lemma wp_seq {A B} (e : json_sc A) (f : json_sc B) Q F :
  wp lim exc (parse e s a) (fun _ s1 a1 => wp lim exc (parse f s1 a1) (fun _ s2 a2 => Q tt s2 a2) F) F ->
  wp lim exc (parse (seq_p e f) s a) Q F.
Proof.
  rewrite sc_seq. destruct (parse e s a) as [[[[x s1]|] a1]| | |]; simpl; try done.
  by destruct (parse f s1 a1) as [[[[y s2]|] a2]| | |].
Qed.

Lemma wp_alt {A B} (e : json_sc A) (f : json_sc B) Q F :
  wp lim exc (parse e s a) (fun _ s1 a1 => Q tt s1 a1)
    (fun a1 => wp lim exc (parse f s a1) (fun _ s2 a2 => Q tt s2 a2) F) ->
  wp lim exc (parse (alt_p e f) s a) Q F.
Proof.
  rewrite sc_alt. destruct (parse e s a) as [[[[x s1]|] a1]| | |]; simpl; try done.
  by destruct (parse f s a1) as [[[[y s2]|] a2]| | |].
Qed.

Lemma wp_diff {A B} (e : json_sc A) (f : json_sc B) Q F :
  wp lim exc (parse e s a) (fun _ s1 a1 =>
    wp lim exc (parse f s a1) (fun _ s2 a2 => if (length s2 <=? length s1)%nat then F a2 else Q tt s1 a2)
      (fun a2 => Q tt s1 a2)) F ->
  wp lim exc (parse (diff_p e f) s a) Q F.
Proof.
  rewrite sc_diff. destruct (parse e s a) as [[[[x s1]|] a1]| | |]; simpl; try done.
  destruct (parse f s a1) as [[[[y s2]|] a2]| | |]; simpl; try done. by destruct (_ <=? _)%nat.
Qed.

Lemma wp_opt (e : json_sc unit) Q F :
  wp lim exc (parse e s a) Q (fun a1 => Q tt s a1) -> wp lim exc (parse (opt_p e) s a) Q F.
Proof. rewrite sc_opt. by destruct (parse e s a) as [[[[[] s1]|] a1]| | |]. Qed.

Lemma wp_act {A} (e : json_sc A) f Q F :
  wp lim exc (parse e (skip k s) a) (fun x s1 a1 =>
    wp_action lim exc (f (skip k s) s1 x a1) (fun a2 => Q tt s1 a2)) F ->
  wp lim exc (parse (act_p e f) s a) Q F.
Proof.
  rewrite sc_act. destruct (parse e (skip k s) a) as [[[[x s1]|] a1]| | |]; simpl; try done.
  by destruct (f _ _ x a1).
Qed.

Lemma wp_ch c (Q : ascii -> bytes -> Semantic_actions -> Prop) F :
  (forall s', skip k s = c :: s' -> Q c s' a) -> F a -> wp lim exc (parse (ch_p c) s a) Q F.
Proof.
  rewrite sc_ch. destruct (skip k s) as [|c' s'] eqn:E; simpl; [done|].
  destruct (Ascii.eqb_spec c' c) as [->|]; simpl; auto.
Qed.

Lemma wp_str t Q F :
  (forall s', skip k s = t ++ s' -> Q tt s' a) -> F a -> wp lim exc (parse (str_p t) s a) Q F.
Proof.
  rewrite sc_str. destruct (starts_with (skip k s) t) eqn:E; simpl; [|done].
  apply starts_with_spec in E as [r Hr]. intros H _. rewrite Hr, drop_app_length. by apply H.
Qed.

Lemma wp_eps Q F : Q tt s a -> wp lim exc (parse eps_p s a) Q F.
Proof. by rewrite sc_eps. Qed.

Lemma wp_advanced {A} (e : json_sc A) (Q : A -> bytes -> Semantic_actions -> Prop) F :
  (exists o, parse e s a = Ret (o, a) /\ advanced (skip k s) o) ->
  (forall x p s', skip k s = p ++ s' -> p ≠ [] -> Q x s' a) -> F a ->
  wp lim exc (parse e s a) Q F.
Proof.
  intros (o & -> & Ho) HQ HF. destruct o as [[x s']|]; simpl; [|done].
  destruct Ho as (p & Hp & Hne). by eapply HQ.
Qed.

(** What is not read, is an error. *)
Lemma wp_or_throw {A} (e : json_sc A) reason Q F :
  exc (throw_error (skip k s) reason) -> wp lim exc (parse e s a) (fun _ s1 a1 => Q tt s1 a1) (fun _ => True) ->
  wp lim exc (parse (alt_p e (act_p eps_p (throw_reason reason))) s a) Q F.
Proof.
  intros Hexc H. apply wp_alt. eapply wp_mono; [exact H|done|done|].
  intros a1 _. rewrite sc_act, sc_eps. simpl. done.
Qed.
End wp.

Section wp_recursive.
Context {classic : SpiritClassic} {config : Config_type} {iter : Iter_type}.
Context (lim : Prop) (exc : exn -> Prop) (k : bool).
Implicit Types (Q : unit -> bytes -> Semantic_actions -> Prop) (F : Semantic_actions -> Prop).

Lemma wp_rule d r s a Q F :
  (d = 0%nat -> lim) ->
  (forall d', d = S d' -> wp lim exc (sc_parse json_grammer k d' (json_grammer r) s a) Q F) ->
  wp lim exc (sc_parse json_grammer k d (rule_p r) s a) Q F.
Proof. rewrite sc_rule. destruct d; simpl; auto. Qed.

Lemma wp_star d (I : bytes -> Semantic_actions -> Prop) e s a Q F :
  I s a ->
  (forall s a, I s a ->
     wp lim exc (sc_parse json_grammer k d e s a)
       (fun _ s1 a1 => (length s1 < length s)%nat /\ I s1 a1) (fun a1 => Q tt s a1)) ->
  wp lim exc (sc_parse json_grammer k d (star_p e) s a) Q F.
Proof.
  intros HI Hstep. remember (length s) as n eqn:Hn. revert s a Hn HI.
  induction n as [n IH] using lt_wf_ind. intros s a Hn HI.
  pose proof (Hstep s a HI) as H. pose proof (sc_star_stuck _ _ json_grammer k d e s a) as Hs.
  destruct (sc_parse json_grammer k d e s a) as [[[[[] s1]|] a1]| | |] eqn:E; simpl in H.
  - destruct H as [Hlt HI']. rewrite (sc_star_next _ _ _ _ _ _ _ _ _ _ E Hlt).
    eapply (IH (length s1)); [lia|done|done].
  - by rewrite (sc_star_stop _ _ _ _ _ _ _ _ _ E).
  - by rewrite Hs.
  - done.
  - by rewrite Hs.
Qed.
End wp_recursive.

(** ** The reader is total *)

Section total.
Context {classic : SpiritClassic} {config : Config_type} {iter : Iter_type}.
Abbreviation parse d e s a := (sc_parse json_grammer true d e s a).

(** What the actions of the grammar throw. *)
Definition reasons : list bytes := [lit "not a value"; lit "not an array"; lit "not an object"; lit "no colon in pair"].
Definition reasoned (e : exn) : Prop := exists begin reason, reason ∈ reasons /\ e = throw_error begin reason.

Lemma throws_reason begin reason : existsb (fun r => bool_decide (r = reason)) reasons = true -> reasoned (throw_error begin reason).
Proof.
  intros (r & Hr & Hd)%existsb_exists. exists begin, reason. split; [|done]. apply list_elem_of_In. by apply bool_decide_eq_true in Hd as <-.
Qed.

(** A string is a quote, characters and escapes, and a quote. *)
Lemma string_reads (lim : Prop) (exc : exn -> Prop) d s a : (d = 0%nat -> lim) ->
  wp lim exc (parse d (rule_p string_) s a)
    (fun _ s1 a1 => a1 = a /\ exists p, skip true s = p ++ s1 /\ (2 <= length p)%nat) (fun a1 => a1 = a).
Proof.
  intros Hlim. apply wp_rule; [done|]. intros d' ->. cbn [json_grammer]. rewrite sc_lexeme.
  generalize (skip true s). clear s. intros s. rewrite sc_confix.
  apply wp_seq, wp_seq, wp_ch; [|done]. intros s1 Hs1.
  apply (wp_star _ _ _ _ (fun s2 a2 => a2 = a /\ exists p, s1 = p ++ s2)); [split; [done|by exists []]|].
  intros s2 a2 [-> [p Hp]]. apply wp_diff.
  apply wp_advanced; [apply sc_escape_advanced| |].
  - intros [] q s3 Hq Hne. apply wp_ch; [intros s4 Hs4|].
    + destruct (Nat.leb_spec (length s4) (length s3)).
      * apply wp_ch; [|done]. intros s5 Hs5. split; [done|]. exists ([dquote] ++ p ++ [dquote]).
        simpl in Hs1, Hs5. rewrite Hs1, Hp, Hs5. split; [by rewrite <-!app_assoc|]. rewrite !length_app. simpl. lia.
      * simpl in Hq. subst. split; [rewrite length_app; destruct q; [done|simpl; lia]|].
        split; [done|]. exists (p ++ q). by rewrite app_assoc.
    + simpl in Hq. subst. split; [rewrite length_app; destruct q; [done|simpl; lia]|].
      split; [done|]. exists (p ++ q). by rewrite app_assoc.
  - apply wp_ch; [|done]. intros s5 Hs5. split; [done|]. exists ([dquote] ++ p ++ [dquote]).
    simpl in Hs1, Hs5. rewrite Hs1, Hp, Hs5. split; [by rewrite <-!app_assoc|]. rewrite !length_app. simpl. lia.
Qed.

Lemma get_str_long p : (2 <= length p)%nat -> exists n, get_str_ p = Ret n.
Proof. intros H. unfold get_str_. rewrite (proj2 (Nat.leb_le _ _) H). eauto. Qed.

(** An action on a string token. *)
Lemma string_act (lim : Prop) d s a f (Q : unit -> bytes -> Semantic_actions -> Prop)
    (F : Semantic_actions -> Prop) :
  (d = 0%nat -> lim) ->
  (forall b n s1, (length s1 < length s)%nat -> get_str_ (matched b s1) = Ret n ->
     wp_action lim reasoned (f b s1 tt a) (fun a2 => Q tt s1 a2)) ->
  F a ->
  wp lim reasoned (parse d (act_p (rule_p string_) f) s a) Q F.
Proof.
  intros Hlim Hf HF. apply wp_act. eapply wp_mono; [by apply (string_reads lim)|done| |by intros a1 ->].
  intros [] s1 a1 (-> & p & Hp & Hlen). rewrite skip_idem in Hp.
  destruct (get_str_long p Hlen) as [n Hn]. eapply Hf; [|by rewrite Hp, matched_app].
  pose proof (skip_length true s) as H. rewrite Hp, length_app in H. lia.
Qed.

Lemma add_value_act lim v a (Q : Semantic_actions -> Prop) :
  ready a -> (forall a1, added a v a1 -> Q a1) -> wp_action lim reasoned (add_value v a) Q.
Proof. intros Hr HQ. destruct (add_value_spec a v Hr) as (a1 & -> & Ha). by apply HQ. Qed.

(** What a value leaves: less input, and a value added. *)
Definition value_post (s : bytes) (a : Semantic_actions) (_ : unit) (s1 : bytes) (a1 : Semantic_actions) : Prop :=
  (length s1 < length s)%nat /\ exists v, added a v a1.

Lemma number_act {A} (lim : Prop) d s a (e : json_sc A) mk F :
  ready a -> (forall d s a, exists o, parse d e s a = Ret (o, a) /\ advanced (skip true s) o) ->
  F a ->
  wp lim reasoned (parse d (act_p e (fun _ _ x => add_value (mk x))) s a) (value_post s a) F.
Proof.
  intros Hr He HF. apply wp_act, wp_advanced; [apply He| |done].
  intros x p s1 Hp Hne. apply add_value_act; [done|]. intros a1 Ha. split; [|by eexists].
  rewrite skip_idem in Hp. pose proof (skip_length true s) as H. rewrite Hp, length_app in H.
  destruct p; [done|simpl in H; lia].
Qed.

Lemma number_reads (lim : Prop) d s a : ready a -> (d = 0%nat -> lim) ->
  wp lim reasoned (parse d (rule_p number_) s a) (value_post s a) (fun a1 => a1 = a).
Proof.
  intros Hr Hlim. apply wp_rule; [done|]. intros d' ->. cbn [json_grammer].
  apply wp_alt, wp_alt. apply (number_act _ _ _ _ _ Real); [done|intros; apply sc_real_advanced|].
  apply (number_act _ _ _ _ _ Value_int64); [done|intros; apply sc_int64_advanced|].
  apply (number_act _ _ _ _ _ Value_uint64); [done|intros; apply sc_uint64_advanced|done].
Qed.

(** The range of a literal is the literal. *)
Lemma new_true_literal s1 a : new_true (lit "true" ++ s1) s1 tt a = add_value (Bool true) a.
Proof. unfold new_true. by rewrite matched_app. Qed.
Lemma new_false_literal s1 a : new_false (lit "false" ++ s1) s1 tt a = add_value (Bool false) a.
Proof. unfold new_false. by rewrite matched_app. Qed.
Lemma new_null_literal s1 a : new_null (lit "null" ++ s1) s1 tt a = add_value Null a.
Proof. unfold new_null. by rewrite matched_app. Qed.
#[local] Hint Resolve new_true_literal new_false_literal new_null_literal : core.

Lemma literal_act (lim : Prop) d s a t f v F : ready a -> t ≠ [] -> (forall s1, f (t ++ s1) s1 tt a = add_value v a) -> F a ->
  wp lim reasoned (parse d (act_p (str_p t) f) s a) (value_post s a) F.
Proof.
  intros Hr Ht Hf HF. apply wp_act, wp_str; [|done]. intros s1 Hs1. rewrite skip_idem in Hs1.
  rewrite Hs1, Hf. apply add_value_act; [done|]. intros a1 Ha. split; [|by eexists].
  pose proof (skip_length true s) as H. rewrite Hs1, length_app in H. destruct t; [done|simpl in H; lia].
Qed.

Definition value_safe (d : nat) : Prop := forall s a, ready a ->
  wp (d < 4 * length s + 2)%nat reasoned (parse d (rule_p value_) s a) (value_post s a) (fun a1 => a1 = a).

Section safe.
Context (d : nat) (IH : forall d', (d' < d)%nat -> value_safe d').

Lemma ch_shorter c s s' : skip true s = c :: s' -> (length s' < length s)%nat.
Proof. intros H. pose proof (skip_length true s) as Hl. rewrite H in Hl. simpl in Hl. lia. Qed.

(** A sequence [x >> *(',' >> x)], of which each turn leaves [I]. *)
Lemma separated_reads (I : Semantic_actions -> Prop) lim (x : json_sc unit) s a :
  (forall s' a', (length s' <= length s)%nat -> I a' ->
     wp lim reasoned (parse d x s' a') (fun _ s1 a1 => (length s1 < length s')%nat /\ I a1) (fun a1 => a1 = a')) ->
  I a ->
  wp lim reasoned (parse d (seq_p x (star_p (seq_p (ch_p ",") x))) s a)
    (fun _ s1 a1 => (length s1 < length s)%nat /\ I a1) (fun a1 => a1 = a).
Proof.
  intros Hx HI. apply wp_seq. eapply wp_mono; [by apply Hx|done| |done].
  intros [] s1 a1 [Hlt HI1].
  apply (wp_star _ _ _ _ (fun s2 a2 => (length s2 < length s)%nat /\ I a2)); [done|].
  intros s2 a2 [Hlt2 HI2]. apply wp_seq, wp_ch; [|done]. intros s3 Hs3.
  pose proof (ch_shorter _ _ _ Hs3). eapply wp_mono; [apply (Hx s3); [lia|done]|done| |by intros ? ->].
  intros [] s4 a4 [Hlt4 HI4]. repeat split; [lia..|done].
Qed.

Definition object_at (a : Semantic_actions) (p : list nat) (a1 : Semantic_actions) : Prop :=
  exists ms, rewrites a p (Obj ms) a1.
Definition array_at (a : Semantic_actions) (p : list nat) (a1 : Semantic_actions) : Prop :=
  exists es, rewrites a p (Arr es) a1.

Lemma pair_reads s a p ms : focus a p (Obj ms) ->
  wp (d < 4 * length s + 2)%nat reasoned (parse d (rule_p pair_) s a)
    (fun _ s1 a1 => (length s1 < length s)%nat /\ object_at a p a1) (fun a1 => a1 = a).
Proof.
  intros Hf. apply wp_rule; [lia|]. intros d' ->. cbn [json_grammer]. apply wp_seq, wp_seq.
  apply string_act; [lia| |done]. intros b n s1 Hs1 Hn. unfold new_name.
  destruct (Hf) as [-> Hv]. simpl or_undefined. rewrite outcome_bind_ret, Hv. simpl or_undefined.
  rewrite outcome_bind_ret. rewrite bool_decide_eq_true_2 by done. rewrite Hn. simpl.
  set (a1 := MkActions _ _ _ _).
  assert (rewrites a p (Obj ms) a1) as Hr1 by (apply rewrites_same; simpl; [done|done|by destruct Hf|done]).
  assert (focus a1 p (Obj ms)) as Hf1 by by eapply rewrites_focus.
  apply wp_or_throw; [by apply throws_reason|]. apply wp_ch; [|done]. intros s2 Hs2. pose proof (ch_shorter _ _ _ Hs2).
  apply wp_or_throw; [by apply throws_reason|].
  eapply wp_mono; [apply (IH d'); [lia|by eapply focus_ready]|lia| |done].
  intros [] s3 a3 (Hs3 & v & Ha). split; [lia|]. eexists. eapply rewrites_trans; [done|done|].
  by apply (added_focus _ _ (Obj ms)).
Qed.
End safe.

Lemma rewrites_refl a p c : focus a p c -> rewrites a p c a.
Proof. intros H. by apply rewrites_same. Qed.

Lemma members_reads d s a p ms : (forall d', (d' < d)%nat -> value_safe d') -> focus a p (Obj ms) ->
  wp (d < 4 * length s + 3)%nat reasoned (parse d (rule_p members_) s a)
    (fun _ s1 a1 => (length s1 < length s)%nat /\ object_at a p a1) (fun a1 => a1 = a).
Proof.
  intros IH Hf. apply wp_rule; [lia|]. intros d' ->. cbn [json_grammer].
  apply separated_reads; [|exists ms; by apply rewrites_refl].
  intros s' a' Hle [ms' Hr']. eapply wp_mono.
  - apply (pair_reads d' ltac:(intros; apply IH; lia) s' a' p ms'). by eapply rewrites_focus.
  - lia.
  - intros [] s1 a1 (Hlt & ms1 & Hr1). split; [done|]. exists ms1. by eapply rewrites_trans.
  - done.
Qed.

Lemma elements_reads d s a p es : (forall d', (d' < d)%nat -> value_safe d') -> focus a p (Arr es) ->
  wp (d < 4 * length s + 3)%nat reasoned (parse d (rule_p elements_) s a)
    (fun _ s1 a1 => (length s1 < length s)%nat /\ array_at a p a1) (fun a1 => a1 = a).
Proof.
  intros IH Hf. apply wp_rule; [lia|]. intros d' ->. cbn [json_grammer].
  apply separated_reads; [|exists es; by apply rewrites_refl].
  intros s' a' Hle [es' Hr']. assert (focus a' p (Arr es')) as Hf' by by eapply rewrites_focus.
  eapply wp_mono; [apply (IH d'); [lia|by eapply focus_ready]|lia| |done].
  intros [] s1 a1 (Hlt & v & Ha). split; [done|]. exists (es' ++ [v]).
  eapply rewrites_trans; [done|done|]. by apply (added_focus _ _ (Arr es')).
Qed.

(** An object or an array: the opening character, what is inside, and the
    closing one. *)
Lemma compound_reads (lim : Prop) d s a open close empty x fbegin fend reason F :
  ready a -> (forall b e, fbegin b e open = begin_compound empty) -> (forall b e, fend b e close = end_compound) ->
  existsb (fun r => bool_decide (r = reason)) reasons = true ->
  (forall q s1 a1, (length s1 < length s)%nat -> focus a1 q empty ->
     wp lim reasoned (parse d x s1 a1)
       (fun _ s2 a2 => (length s2 < length s1)%nat /\ exists c, rewrites a1 q c a2) (fun a2 => a2 = a1)) ->
  F a ->
  wp lim reasoned (parse d (seq_p (seq_p (act_p (ch_p open) fbegin) (opt_p x))
    (alt_p (act_p (ch_p close) fend) (act_p eps_p (throw_reason reason)))) s a) (value_post s a) F.
Proof.
  intros Hr Hb He Hreason Hx HF. apply wp_seq, wp_seq, wp_act, wp_ch; [|done]. intros s1 Hs1.
  rewrite skip_idem in Hs1. rewrite Hb. destruct (compound_spec a empty Hr) as (a1 & q & -> & Hf & Hend). simpl.
  pose proof (ch_shorter _ _ _ Hs1) as Hlt. apply wp_opt.
  assert (forall s2 a2 c, (length s2 <= length s1)%nat -> rewrites a1 q c a2 ->
    wp lim reasoned (parse d (alt_p (act_p (ch_p close) fend) (act_p eps_p (throw_reason reason))) s2 a2)
      (value_post s a) F) as Hclose.
  { intros s2 a2 c Hle Hrw. apply wp_or_throw; [by apply throws_reason|]. apply wp_act, wp_ch; [|done].
    intros s3 Hs3. rewrite skip_idem in Hs3. rewrite He.
    destruct (Hend c a2 Hrw) as (a3 & -> & Ha3). simpl. pose proof (ch_shorter _ _ _ Hs3).
    split; [lia|by eexists]. }
  eapply wp_mono; [by apply Hx|done| |].
  - intros [] s2 a2 (Hlt2 & c & Hc). eapply Hclose; [lia|done].
  - intros a2 ->. eapply (Hclose _ _ empty); [done|by apply rewrites_refl].
Qed.

Lemma object_reads d s a : (forall d', (d' < d)%nat -> value_safe d') -> ready a ->
  wp (d < 4 * length s + 1)%nat reasoned (parse d (rule_p object_) s a) (value_post s a) (fun a1 => a1 = a).
Proof.
  intros IH Hr. apply wp_rule; [lia|]. intros d' ->. cbn [json_grammer].
  apply (compound_reads _ _ _ _ _ _ (Obj [])); [done|done|done|done| |done].
  intros q s1 a1 Hlt Hf. eapply wp_mono; [apply (members_reads d' s1 a1 q []); [intros; apply IH; lia|done]|lia| |done].
  intros [] s2 a2 (Hlt2 & ms & Hms). eauto.
Qed.

Lemma array_reads d s a : (forall d', (d' < d)%nat -> value_safe d') -> ready a ->
  wp (d < 4 * length s + 1)%nat reasoned (parse d (rule_p array_) s a) (value_post s a) (fun a1 => a1 = a).
Proof.
  intros IH Hr. apply wp_rule; [lia|]. intros d' ->. cbn [json_grammer].
  apply (compound_reads _ _ _ _ _ _ (Arr [])); [done|done|done|done| |done].
  intros q s1 a1 Hlt Hf. eapply wp_mono; [apply (elements_reads d' s1 a1 q []); [intros; apply IH; lia|done]|lia| |done].
  intros [] s2 a2 (Hlt2 & ms & Hms). eauto.
Qed.

Lemma value_reads d : value_safe d.
Proof.
  induction d as [d IH] using lt_wf_ind. intros s a Hr. apply wp_rule; [lia|]. intros d' ->.
  cbn [json_grammer]. do 6 apply wp_alt.
  apply string_act; [lia| |].
  { intros b n s1 Hlt Hn. unfold new_str. rewrite Hn, outcome_bind_ret. apply add_value_act; [done|].
    intros a1 Ha. split; [done|by eexists]. }
  eapply wp_mono; [apply (number_reads (S d' < 4 * length s + 2)%nat); [done|lia]|done|done|]. intros a1 ->.
  assert (forall d'', (d'' < d')%nat -> value_safe d'') as IH' by (intros; apply IH; lia).
  eapply wp_mono; [by apply object_reads|lia|done|]. intros a1 ->.
  eapply wp_mono; [by apply array_reads|lia|done|]. intros a1 ->.
  apply (literal_act _ _ _ _ _ _ (Bool true)); [done|done|auto|].
  apply (literal_act _ _ _ _ _ _ (Bool false)); [done|done|auto|].
  apply (literal_act _ _ _ _ _ _ Null); [done|done|auto|done].
Qed.

Lemma range_returns stack s value :
  match read_range_or_throw stack s value with
  | Ret _ => True
  | Throws e => reasoned e
  | Undefined => (stack < 4 * length s + 3)%nat
  | Aborts => False
  end.
Proof.
  assert (wp (stack < 4 * length s + 3)%nat reasoned
    (parse stack (rule_p json_) s (Semantic_actions_new value)) (fun _ _ _ => True) (fun _ => False)) as H.
  { apply wp_rule; [lia|]. intros d' ->. cbn [json_grammer]. apply wp_or_throw; [by apply throws_reason|].
    eapply wp_mono; [by apply value_reads|lia|done|done]. }
  unfold read_range_or_throw.
  by destruct (parse stack (rule_p json_) s (Semantic_actions_new value)) as [[[[[] s1]|] a1]| | |].
Qed.
End total.

Lemma string_returns {classic : SpiritClassic} {config : Config_type} stack s value :
  match read_string stack s value with
  | Ret _ => True
  | Undefined => (stack < 4 * length s + 3)%nat
  | _ => False
  end.
Proof.
  unfold read_string, read_range. pose proof (range_returns (iter := string_iterator) stack s value) as H.
  by destruct (read_range_or_throw stack s value) as [[]| | |].
Qed.

(** C21. The JSON reader is total: on a stack for four calls a byte of the input,
    and three more, it returns a value or that there is none, whatever the bytes, be
    its objects vectors or maps: no assertion of its actions fails, no null,
    dangling or missing pointer is used, and no exception leaves it. *)
Theorem read_total {classic : SpiritClassic} {config : Config_type} stack s value
    (Hstack : (4 * length s + 3 <= stack)%nat) :
  exists o, read_string stack s value = Ret o.
Proof.
  pose proof (string_returns stack s value) as H. destruct (read_string stack s value) as [o|e| |]; [by exists o|done|done|lia].
Qed.

Lemma read_total_witness : exists o, read_string (classic := peg_classic) (config := Config_map) 43 (lit "]{[,:}a") Null = Ret o.
Proof. apply (read_total (classic := peg_classic) (config := Config_map)). vm_compute; lia. Defined.

(** ** The reader undoes the writer *)

(** What the writer writes. *)
Definition quote (s : bytes) : bytes :=
  dquote :: match add_esc_chars s with Ret e => e | _ => [] end ++ [dquote].

Definition commas {A} (gap : bytes) (text : A -> bytes) (xs : list A) : bytes :=
  match xs with
  | [] => []
  | x :: xs => text x ++ concat ((fun y => ","%char :: gap ++ text y) <$> xs)
  end.

(** Elements on lines of their own between brackets. *)
Definition line_gap (pretty : bool) (l : nat) : bytes := new_line pretty ++ indent pretty l.

Definition lines {A} (pretty : bool) (l : nat) (text : A -> bytes) (xs : list A) : bytes :=
  match xs with
  | [] => line_gap pretty l
  | _ => line_gap pretty (S l) ++ commas (line_gap pretty (S l)) text xs ++ line_gap pretty l
  end.

Definition int_text (i : Z) (u : bool) : bytes := show_Z (if u then u64 i else i).

Fixpoint text (pretty : bool) (l : nat) (v : Value) : bytes :=
  match v with
  | Obj ms =>
      "{"%char :: lines pretty l (fun m => quote m.1 ++ space pretty ++ ":"%char :: space pretty ++ text pretty (S l) m.2) ms ++ ["}"%char]
  | Arr es => "["%char :: lines pretty l (text pretty (S l)) es ++ ["]"%char]
  | Str s => quote s
  | Bool b => if b then lit "true" else lit "false"
  | Int i u => int_text i u
  | Real d => show_fixed8 d
  | Null => lit "null"
  end.

(** Without white space. *)
Definition compact : Value -> bytes := text false 0.

(** The values whose text is exact: no doubles, integers of 64 bits. *)
Fixpoint exact (v : Value) : bool :=
  match v with
  | Obj ms => forallb (fun m => exact m.2) ms
  | Arr es => forallb exact es
  | Int i _ => (- 2 ^ 63 <=? i) && (i <? 2 ^ 63)
  | Real _ => false
  | _ => true
  end.

(** An unsigned integer that an [int64_t] can hold is read as signed. *)
Fixpoint normalize (v : Value) : Value :=
  match v with
  | Obj ms => Obj ((fun m => (m.1, normalize m.2)) <$> ms)
  | Arr es => Arr (normalize <$> es)
  | Int i u => Int i (u && (i <? 0))
  | _ => v
  end.

Fixpoint height (v : Value) : nat :=
  match v with
  | Obj ms => S (max_list ((fun m => height m.2) <$> ms))
  | Arr es => S (max_list (height <$> es))
  | _ => 0
  end.

Lemma output_str_quote s : output_str s = Ret (quote s).
Proof. unfold output_str, quote. by destruct (escape_tokens s) as (e & -> & _). Qed.

Lemma output_elements_text {A} pretty l (out : A -> outcome bytes) text x xs :
  Forall (fun x => out x = Ret (text x)) (x :: xs) ->
  output_elements pretty l out (x :: xs) = Ret (indent pretty l ++ commas (line_gap pretty l) text (x :: xs) ++ new_line pretty).
Proof.
  revert x. induction xs as [|y xs IH]; intros x [Hx Hxs]%Forall_cons; rewrite output_elements_cons, Hx, outcome_bind_ret.
  - cbn. by rewrite !app_nil_r.
  - rewrite (IH y Hxs), outcome_bind_ret. do 2 f_equal. unfold commas, line_gap. cbn [fmap list_fmap concat].
    change (lit ",") with [","%char]. rewrite <-!app_assoc. cbn [app]. by rewrite <-!app_assoc.
Qed.

Lemma output_lines {A} pretty l start_ end_ (out : A -> outcome bytes) text xs : Forall (fun x => out x = Ret (text x)) xs ->
  output_array_or_obj pretty l start_ end_ (output_elements pretty (S l) out xs) = Ret (start_ :: lines pretty l text xs ++ [end_]).
Proof.
  intros H. unfold output_array_or_obj, lines. destruct xs as [|x xs].
  - cbn. unfold line_gap. by rewrite <-app_assoc.
  - rewrite (output_elements_text pretty (S l) out text x xs H), outcome_bind_ret. unfold line_gap. cbn [app]. do 2 f_equal. by rewrite <-!app_assoc.
Qed.

Lemma output_text pretty v : forall l, output pretty l v = Ret (text pretty l v).
Proof.
  induction v as [ms H|es H|s|b|i u|d|] using Value_nested_ind; intros l; cbn [output text].
  - apply output_lines. eapply Forall_impl; [exact H|]. intros m Hm. by rewrite output_str_quote, outcome_bind_ret, Hm.
  - apply output_lines. eapply Forall_impl; [exact H|]. auto.
  - apply output_str_quote.
  - done.
  - by destruct u.
  - done.
  - done.
Qed.

Lemma write_string_text pretty v : write_string pretty v = Ret (text pretty 0 v).
Proof. unfold write_string, write_stream. by rewrite output_text. Qed.

Lemma write_compact v : write v = Ret (compact v).
Proof. apply write_string_text. Qed.

(** Without white space, at every level. *)
Lemma text_compact l v : text false l v = compact v.
Proof.
  unfold compact. generalize 0%nat. revert l. induction v as [ms H|es H| | | | |] using Value_nested_ind; intros l n; try done; cbn [text]; do 2 f_equal.
  - destruct H as [|m ms Hm H]; [done|]. unfold lines, commas. cbn [line_gap new_line indent app space]. rewrite (Hm (S l) (S n)). do 2 f_equal.
    f_equal. induction H as [|m' ms' Hm' _ IH]; [done|]. rewrite !fmap_cons. by rewrite IH, (Hm' (S l) (S n)).
  - destruct H as [|m ms Hm H]; [done|]. unfold lines, commas. cbn [line_gap new_line indent app]. rewrite (Hm (S l) (S n)). do 2 f_equal.
    f_equal. induction H as [|m' ms' Hm' _ IH]; [done|]. rewrite !fmap_cons. by rewrite IH, (Hm' (S l) (S n)).
Qed.

Lemma commas_compact es : commas [] compact es = commas (line_gap false 1) (text false 1) es.
Proof.
  destruct es as [|e es]; [done|]. unfold commas. rewrite (text_compact 1 e). f_equal. f_equal. apply list_fmap_ext. intros _ x _. by rewrite (text_compact 1 x).
Qed.

Lemma blank_line pretty l : forallb isspace (line_gap pretty l) = true.
Proof.
  unfold line_gap, new_line, indent. destruct pretty; [|done]. cbn. induction l as [|l IH]; [done|]. cbn. exact IH.
Qed.

Lemma blank_space pretty : forallb isspace (space pretty) = true.
Proof. by destruct pretty. Qed.

Lemma skip_blank gap s : forallb isspace gap = true -> skip true (gap ++ s) = skip true s.
Proof. induction gap as [|c gap IH]; [done|]. cbn. intros [-> H]%andb_true_iff. by apply IH. Qed.

Lemma blank_end gap s : gap ≠ [] -> forallb isspace gap = true -> number_end (gap ++ s) = true.
Proof.
  destruct gap as [|c gap]; [done|]. cbn. intros _ [Hc _]%andb_true_iff. destruct (isdigit c) eqn:E; [by rewrite (isdigit_not_space c E) in Hc|].
  destruct (Ascii.eqb_spec c "."); [by subst|]. destruct (Ascii.eqb_spec c "e"); [by subst|]. by destruct (Ascii.eqb_spec c "E"); [subst|].
Qed.

Lemma blank_end_or gap s : forallb isspace gap = true -> number_end s = true -> number_end (gap ++ s) = true.
Proof. intros Hg Hs. destruct (decide (gap = [])) as [->|H]; [done|by apply blank_end]. Qed.

(** Objects whose members, added in this order, stay in it: all of them when objects
    are vectors, those with increasing names when they are maps. *)
Definition ordered {config : Config_type} (names : list bytes) : Prop :=
  forall before name after (o : list (bytes * Value)) x, names = before ++ name :: after -> o.*1 = before ->
    (config_add o name x).1 = o ++ [(name, x)].

Fixpoint in_order {config : Config_type} (v : Value) : Prop :=
  match v with
  | Obj ms => ordered ms.*1 /\ fold_right (fun m rest => in_order m.2 /\ rest) True ms
  | Arr es => fold_right (fun e rest => in_order e /\ rest) True es
  | _ => True
  end.

Lemma in_order_obj {config : Config_type} ms : in_order (Obj ms) <-> ordered ms.*1 /\ Forall (fun m => in_order m.2) ms.
Proof.
  cbn [in_order]. apply and_iff_compat_l. induction ms as [|m ms IH]; cbn [fold_right]; [split; [intros _; apply Forall_nil_2|done]|].
  by rewrite IH, Forall_cons.
Qed.

Lemma in_order_arr {config : Config_type} es : in_order (Arr es) <-> Forall in_order es.
Proof.
  cbn [in_order]. induction es as [|e es IH]; cbn [fold_right]; [split; [intros _; apply Forall_nil_2|done]|]. by rewrite IH, Forall_cons.
Qed.

Lemma vector_in_order v : in_order (config := Config_vector) v.
Proof.
  induction v as [ms IH|es IH| | | | |] using Value_nested_ind; try done.
  - apply in_order_obj. split; [done|]. exact IH.
  - by apply in_order_arr.
Qed.

Lemma map_ordered names : StronglySorted (fun a b => bytes_ltb a b = true) names -> ordered (config := Config_map) names.
Proof.
  intros Hs before name after o x -> <-. cbn. apply map_assign_last, Forall_forall. intros [n y] Hn.
  apply StronglySorted_app in Hs as (Hs & _ & _).
  assert (bytes_ltb n name = true) as Hlt by (apply Hs; [by apply list_elem_of_fmap; exists (n, y)|left]). cbn [fst]. split; [|exact Hlt]. exact (ltb_asym bytes_ltb n name Hlt).
Qed.

Section written.
Context {classic : SpiritClassic} {config : Config_type} {iter : Iter_type}.
Abbreviation parse d e s a := (sc_parse json_grammer true d e s a).
Abbreviation wpr m Q := (wp False (fun _ => False) m Q (fun _ => False)).

Lemma wp_eq {A} lim exc (m : scanned Semantic_actions A) x s1 a1
    (Q : A -> bytes -> Semantic_actions -> Prop) F :
  m = Ret (Some (x, s1), a1) -> Q x s1 a1 -> wp lim exc m Q F.
Proof. by intros ->. Qed.

Lemma wp_none {A} lim exc (m : scanned Semantic_actions A) a1 Q (F : Semantic_actions -> Prop) :
  m = Ret (None, a1) -> F a1 -> wp lim exc m Q F.
Proof. by intros ->. Qed.

Lemma wp_fails {A} (m : scanned Semantic_actions A) a :
  wp False (fun _ => False) m (fun _ _ _ => False) (fun a1 => a1 = a) -> m = Ret (None, a).
Proof. destruct m as [[[[x s1]|] a1]| | |]; try done. by intros ->. Qed.

Lemma ch_eq k d c s a :
  isspace c = false -> sc_parse json_grammer k d (ch_p c) (c :: s) a = Ret (Some (c, s), a).
Proof. intros Hc. rewrite sc_ch. unfold skip. simpl. destruct k; rewrite ?Hc; by rewrite Ascii.eqb_refl. Qed.

Lemma ch_fails k d c c' s a : isspace c' = false -> c' ≠ c ->
  sc_parse json_grammer k d (ch_p c) (c' :: s) a = Ret (None, a).
Proof.
  intros Hs Hc. rewrite sc_ch. unfold skip. simpl.
  destruct k; rewrite ?Hs; by rewrite (proj2 (Ascii.eqb_neq _ _) Hc).
Qed.

Lemma dquote_not_escape t : esc_token t = true -> forall s d a,
  wpr (sc_parse json_grammer false d (diff_p lex_escape_ch_p (ch_p dquote)) (t ++ s) a)
    (fun _ s1 a1 => s1 = s /\ a1 = a).
Proof.
  intros Ht s d a. apply wp_diff. destruct t as [|b [|c [|? ?]]]; try discriminate Ht.
  - simpl in Ht. rewrite andb_true_iff, !negb_true_iff, !Ascii.eqb_neq in Ht. destruct Ht as [Hb Hq].
    eapply wp_eq; [by eapply sc_escape_plain|]. apply wp_ch; [|done]. simpl. by intros s' [= ? _].
  - simpl in Ht. rewrite !andb_true_iff, !negb_true_iff, !Ascii.eqb_neq, Ascii.eqb_eq in Ht.
    destruct Ht as [[[-> Hx] HX] Ho].
    eapply wp_eq; [by eapply sc_escape_escaped|]. apply wp_ch; [|done]. simpl. by intros s' [= ? _].
Qed.

Lemma string_written d s rest a : (d ≠ 0)%nat ->
  parse d (rule_p string_) (quote s ++ rest) a = Ret (Some (tt, rest), a).
Proof.
  intros Hd. assert (wpr (parse d (rule_p string_) (quote s ++ rest) a)
    (fun _ s1 a1 => s1 = rest /\ a1 = a)) as H.
  { apply wp_rule; [done|]. intros d' ->. cbn [json_grammer]. rewrite sc_lexeme.
    unfold quote. destruct (escape_tokens s) as (e & -> & _ & ts & -> & Hts). cbn [app].
    unfold skip. cbn [drop_while]. replace (isspace dquote) with false by done. cbv iota.
    rewrite sc_confix. apply wp_seq, wp_seq. eapply wp_eq; [by apply ch_eq|].
    rewrite <-app_assoc.
    apply (wp_star _ _ _ _ (fun s2 a2 => a2 = a /\ exists ts, s2 = concat ts ++ [dquote] ++ rest /\
      forallb esc_token ts = true)); [split; [done|by eexists]|]. clear ts Hts.
    intros s2 a2 [-> ([|t ts] & -> & Hts)]; cbn [concat app].
    - apply wp_diff. eapply wp_eq; [by eapply sc_escape_plain|]. eapply wp_eq; [by apply ch_eq|].
      rewrite Nat.leb_refl. eapply wp_eq; [by apply ch_eq|]. done.
    - simpl in Hts. apply andb_true_iff in Hts as [Ht Hts]. rewrite <-app_assoc.
      eapply wp_mono; [by apply dquote_not_escape|done| |done]. intros [] s3 a3 [-> ->].
      split; [|split; [done|by exists ts]]. rewrite (length_app t). destruct t; [done|simpl; lia]. }
  destruct (parse d _ _ a) as [[[[[] s1]|] a1]| | |]; try done. by destruct H as [-> ->].
Qed.

Lemma get_str_quote s : get_str_ (quote s) = Ret s.
Proof.
  unfold get_str_, quote. destruct (escape_tokens s) as (e & -> & He & _).
  change (dquote :: e ++ [dquote]) with ([dquote] ++ e ++ [dquote]).
  rewrite !length_app. simpl length. rewrite (proj2 (Nat.leb_le _ _)) by lia.
  rewrite drop_app_length'; [|done]. rewrite take_app_length'; [by rewrite He|lia].
Qed.

(** What a printed value can start with. *)
Definition value_start (c : ascii) : bool := negb (isspace c).

Lemma string_fails d c s a : (d ≠ 0)%nat -> isspace c = false -> c ≠ dquote ->
  parse d (rule_p string_) (c :: s) a = Ret (None, a).
Proof.
  intros Hd Hs Hc. rewrite sc_rule. destruct d; [done|]. cbn [json_grammer].
  rewrite sc_lexeme, sc_confix, !sc_seq. unfold skip. simpl drop_while. rewrite Hs.
  rewrite ch_fails by done. done.
Qed.

Lemma number_fails d c s a : (d ≠ 0)%nat -> isspace c = false -> number_start [c] = false ->
  parse d (rule_p number_) (c :: s) a = Ret (None, a).
Proof.
  intros Hd Hs Hc. rewrite sc_rule. destruct d; [done|]. cbn [json_grammer].
  assert (number_start (skip true (skip true (c :: s))) = false) as H.
  { rewrite skip_idem. simpl. by rewrite Hs. }
  apply wp_fails, wp_alt, wp_alt, wp_act.
  eapply wp_none; [by apply sc_real_none|]. apply wp_act.
  eapply wp_none; [by apply sc_int64_none|]. apply wp_act.
  by eapply wp_none; [by apply sc_uint64_none|].
Qed.

Lemma bracket_fails d r c s a : (d ≠ 0)%nat -> isspace c = false ->
  (r = object_ /\ c ≠ "{"%char \/ r = array_ /\ c ≠ "["%char) ->
  parse d (rule_p r) (c :: s) a = Ret (None, a).
Proof.
  intros Hd Hs Hc. rewrite sc_rule. destruct d; [done|].
  assert (skip true (c :: s) = c :: s) as Hk by (simpl; by rewrite Hs).
  destruct Hc as [[-> Hc]|[-> Hc]]; cbn [json_grammer]; rewrite !sc_seq, sc_act, Hk, ch_fails by done; done.
Qed.

Lemma str_fails d t f c s a : isspace c = false -> head t ≠ Some c -> t ≠ [] ->
  parse d (act_p (str_p t) f) (c :: s) a = Ret (None, a).
Proof.
  intros Hs Ht Hne. rewrite sc_act, sc_str, skip_idem. simpl. rewrite Hs.
  destruct t as [|b t]; [done|]. simpl.
  destruct (Ascii.eqb_spec b c); [by subst|]. destruct (Ascii.eqb_spec c b); [by subst|]. done.
Qed.

Lemma literal_written lim exc d t f v a rest (Q : unit -> bytes -> Semantic_actions -> Prop) F :
  ready a -> t ≠ [] -> match t with c :: _ => isspace c = false | [] => True end ->
  f (t ++ rest) rest tt a = add_value v a -> (forall a1, added a v a1 -> Q tt rest a1) ->
  wp lim exc (parse d (act_p (str_p t) f) (t ++ rest) a) Q F.
Proof.
  intros Hr Hne Hs Hf HQ. assert (skip true (t ++ rest) = t ++ rest) as Hk.
  { destruct t as [|c t]; [done|]. simpl. by rewrite Hs. }
  apply wp_act. rewrite Hk. eapply wp_eq.
  - rewrite sc_str, Hk, starts_with_app, drop_app_length. reflexivity.
  - rewrite Hf. destruct (add_value_spec a v Hr) as (a1 & -> & Ha). by apply HQ.
Qed.

(** *** Spaces before a rule *)

(** A scanner that skips the spaces it starts on. *)
Definition leading (x : json_sc unit) : Prop := forall d gap s a, forallb isspace gap = true -> parse d x (gap ++ s) a = parse d x s a.

Lemma leading_act {A} (x : json_sc A) f : leading (act_p x f).
Proof. intros d gap s a Hg. by rewrite !sc_act, skip_blank. Qed.

Lemma leading_alt x y : leading x -> leading y -> leading (alt_p x y).
Proof. intros Hx Hy d gap s a Hg. rewrite !sc_alt, Hx by done. destruct (parse d x s a) as [[[[[] s1]|] a1]| | |]; try done. rewrite !outcome_bind_ret. by rewrite Hy. Qed.

Lemma leading_seq {B} x (y : json_sc B) : leading x -> leading (seq_p x y).
Proof. intros Hx d gap s a Hg. by rewrite !sc_seq, Hx. Qed.

Lemma leading_rule r : leading (json_grammer r) -> leading (rule_p r).
Proof. intros H d gap s a Hg. rewrite !sc_rule. destruct d; [done|]. by apply H. Qed.

Lemma ch_gap d c gap s a : forallb isspace gap = true -> parse d (ch_p c) (gap ++ s) a = parse d (ch_p c) s a.
Proof. intros Hg. by rewrite !sc_ch, skip_blank. Qed.

Create HintDb blank.
#[local] Hint Resolve leading_act leading_alt leading_seq leading_rule : blank.

Lemma leading_value : leading (rule_p value_).
Proof.
  assert (leading (rule_p number_)) by (apply leading_rule; cbn [json_grammer]; auto with blank).
  assert (leading (rule_p object_)) by (apply leading_rule; cbn [json_grammer]; auto with blank).
  assert (leading (rule_p array_)) by (apply leading_rule; cbn [json_grammer]; auto with blank).
  apply leading_rule. cbn [json_grammer]. auto 10 with blank.
Qed.

Lemma leading_pair : leading (rule_p pair_).
Proof. apply leading_rule. cbn [json_grammer]. auto with blank. Qed.

Lemma leading_members : leading (rule_p members_).
Proof. apply leading_rule. cbn [json_grammer]. apply leading_seq, leading_pair. Qed.

Lemma leading_elements : leading (rule_p elements_).
Proof. apply leading_rule. cbn [json_grammer]. apply leading_seq, leading_value. Qed.

(** What follows a value: the end of the object or array, a comma, or
    anything that does not go on a number. *)
Definition value_written (v : Value) : Prop := forall pretty l d a rest,
  (4 * height v + 2 <= d)%nat -> exact v = true -> in_order v -> ready a -> number_end rest = true ->
  wpr (parse d (rule_p value_) (text pretty l v ++ rest) a) (fun _ s1 a1 => s1 = rest /\ added a (normalize v) a1).

Lemma show_Z_head z : exists c t, show_Z z = c :: t /\ isspace c = false /\ c ≠ dquote.
Proof.
  unfold show_Z. destruct (Z.ltb_spec z 0); [by eexists _, _|].
  destruct (show_nonneg_spec z ltac:(lia)) as (Hd & _ & Hne). destruct (show_nonneg z) as [|c t]; [done|].
  simpl in Hd. apply andb_true_iff in Hd as [Hc _]. exists c, t. split; [done|].
  split; [by apply isdigit_not_space|]. by intros ->.
Qed.

Lemma number_written d i u rest a : (d ≠ 0)%nat -> ready a -> number_end rest = true ->
  (- 2 ^ 63 <=? i) && (i <? 2 ^ 63) = true ->
  wpr (parse d (rule_p number_) (int_text i u ++ rest) a)
    (fun _ s1 a1 => s1 = rest /\ added a (normalize (Int i u)) a1).
Proof.
  intros Hd Hr He Hi. apply wp_rule; [done|]. intros d' ->. cbn [json_grammer].
  assert (exists z, int_text i u = show_Z z /\
    (z = i /\ normalize (Int i u) = Value_int64 z \/
     2 ^ 63 <= z < 2 ^ 64 /\ normalize (Int i u) = Value_uint64 z)) as (z & Hz & Hcase).
  { unfold int_text. eexists. split; [done|]. rewrite andb_true_iff, Z.leb_le, Z.ltb_lt in Hi.
    unfold normalize, Value_int64, Value_uint64. destruct u; simpl; [|by left].
    destruct (Z.ltb_spec i 0) as [Hneg|Hpos]; simpl.
    - right. unfold u64. replace (i mod 2 ^ 64) with (i + 2 ^ 64) by (apply (Z.mod_unique_pos _ _ (-1)); lia).
      split; [lia|]. f_equal. unfold s64. rewrite <-(Z.mod_unique_pos _ _ 1 (i + 2 ^ 63)); lia.
    - left. unfold u64. rewrite Z.mod_small by lia. done. }
  assert (skip true (int_text i u ++ rest) = show_Z z ++ rest) as Hk.
  { rewrite Hz. destruct (show_Z_head z) as (c & t & -> & Hc & _). simpl. by rewrite Hc. }
  apply wp_alt, wp_alt, wp_act. eapply wp_none; [eapply sc_real_int; [by rewrite skip_idem|done]|].
  apply wp_act. destruct Hcase as [[-> Hn]|[Hz' Hn]]; rewrite Hn.
  - eapply wp_eq; [rewrite (sc_int64_int _ _ _ _ _ i rest); [by rewrite Hi|by rewrite skip_idem|done]|].
    destruct (add_value_spec a (Value_int64 i) Hr) as (a1 & Ha & Ha1). unfold new_int. rewrite Ha. by split.
  - eapply wp_none.
    { rewrite (sc_int64_int _ _ _ _ _ z rest); [|by rewrite skip_idem|done].
      rewrite (proj2 (Z.ltb_ge z _)) by lia. by rewrite andb_false_r. }
    apply wp_act. eapply wp_eq.
    { rewrite (sc_uint64_int _ _ _ _ _ z rest); [|by rewrite skip_idem|lia|done].
      by rewrite (proj2 (Z.ltb_lt z _)) by lia. }
    destruct (add_value_spec a (Value_uint64 z) Hr) as (a1 & Ha & Ha1). unfold new_uint64. rewrite Ha. by split.
Qed.

(** A printed sequence: [I] holds of what is done after each element. *)
Lemma separated_written {X} (x : json_sc unit) gap (text : X -> bytes) (I : list X -> Semantic_actions -> Prop)
    d rest a y ys :
  leading x -> forallb isspace gap = true -> number_end rest = true -> (forall s', skip true rest ≠ ","%char :: s') ->
  (forall dn z zs tail a', y :: ys = dn ++ z :: zs -> number_end tail = true -> I dn a' ->
     wpr (parse d x (text z ++ tail) a') (fun _ s1 a1 => s1 = tail /\ I (dn ++ [z]) a1)) ->
  I [] a ->
  wpr (parse d (seq_p x (star_p (seq_p (ch_p ",") x))) (commas gap text (y :: ys) ++ rest) a)
    (fun _ s1 a1 => s1 = rest /\ I (y :: ys) a1).
Proof.
  intros Hlead Hgap He Hc Hx HI. apply wp_seq. unfold commas. rewrite <-app_assoc.
  set (more := fun zs : list X => concat ((fun z => ","%char :: gap ++ text z) <$> zs)).
  assert (forall zs, number_end (more zs ++ rest) = true) as Hmore by by intros [|z zs].
  eapply wp_mono; [apply (Hx [] y ys); [done|apply (Hmore ys)|done]|done| |done]. intros [] s1 a1 [-> HI1].
  apply (wp_star _ _ _ _ (fun s2 a2 => exists dn zs,
    y :: ys = dn ++ zs /\ s2 = more zs ++ rest /\ I dn a2)); [by exists [y], ys|].
  intros s2 a2 (dn & zs & Hdn & -> & HI2). destruct zs as [|z zs].
  - rewrite app_nil_r in Hdn. rewrite Hdn.
    apply wp_seq, wp_ch; [|done]. intros s' Hs'. by destruct (Hc s').
  - unfold more. cbn [fmap list_fmap concat]. fold (more zs). cbn [app]. rewrite <-app_assoc.
    apply wp_seq. eapply wp_eq; [by apply ch_eq|]. rewrite <-app_assoc, Hlead by done.
    eapply wp_mono; [apply (Hx dn z zs); [done|apply (Hmore zs)|done]|done| |done].
    intros [] s3 a3 [-> HI3]. split; [simpl; rewrite !length_app; lia|].
    exists (dn ++ [z]), zs. rewrite <-app_assoc. done.
Qed.

Lemma pair_written pretty l d m rest a p ms : value_written m.2 ->
  (4 * height m.2 + 3 <= d)%nat -> exact m.2 = true -> in_order m.2 ->
  (forall x, (config_add ms m.1 x).1 = ms ++ [(m.1, x)]) -> focus a p (Obj ms) -> number_end rest = true ->
  wpr (parse d (rule_p pair_) ((quote m.1 ++ space pretty ++ ":"%char :: space pretty ++ text pretty l m.2) ++ rest) a)
    (fun _ s1 a1 => s1 = rest /\ rewrites a p (Obj (ms ++ [(m.1, normalize m.2)])) a1).
Proof.
  intros IH Hd He Ho Hend Hf Hrest. apply wp_rule; [lia|]. intros d' ->. cbn [json_grammer].
  apply wp_seq, wp_seq, wp_act. rewrite <-app_assoc.
  change (skip true (quote m.1 ++ ?r)) with (quote m.1 ++ r).
  eapply wp_eq; [apply string_written; lia|]. unfold new_name. rewrite matched_app.
  destruct (Hf) as [-> Hv]. simpl or_undefined. rewrite outcome_bind_ret, Hv. simpl or_undefined.
  rewrite outcome_bind_ret, bool_decide_eq_true_2 by done. rewrite get_str_quote. simpl wp_action.
  set (a1 := MkActions _ _ _ _).
  assert (rewrites a p (Obj ms) a1) as Hr1 by (apply rewrites_same; simpl; [done|done|by destruct Hf|done]).
  assert (focus a1 p (Obj ms)) as Hf1 by by eapply rewrites_focus.
  apply wp_alt. rewrite <-app_assoc, ch_gap by apply blank_space. cbn [app]. eapply wp_eq; [by apply ch_eq|]. apply wp_alt.
  rewrite <-app_assoc, leading_value by apply blank_space.
  eapply wp_mono; [apply IH; [lia|done|done|by eapply focus_ready|done]|done| |done].
  intros [] s2 a2 [-> Ha]. split; [done|]. eapply rewrites_trans; [done|done|]. rewrite <-Hend.
  by apply (added_focus a1 p (Obj ms)).
Qed.

Lemma height_le {A} (h : A -> nat) xs x : x ∈ xs -> (h x <= max_list (h <$> xs))%nat.
Proof. intros H. apply max_list_elem_of_le. by apply list_elem_of_fmap_2. Qed.

Lemma members_written pretty l d m ms rest a p :
  Forall (fun m => value_written m.2) (m :: ms) -> forallb (fun m => exact m.2) (m :: ms) = true -> in_order (Obj (m :: ms)) ->
  (4 * max_list ((fun m => height m.2) <$> m :: ms) + 4 <= d)%nat -> focus a p (Obj []) ->
  number_end rest = true -> (forall s', skip true rest ≠ ","%char :: s') ->
  wpr (parse d (rule_p members_)
    (commas (line_gap pretty l) (fun m => quote m.1 ++ space pretty ++ ":"%char :: space pretty ++ text pretty l m.2) (m :: ms) ++
     rest) a)
    (fun _ s1 a1 => s1 = rest /\
       rewrites a p (Obj ((fun m => (m.1, normalize m.2)) <$> m :: ms)) a1).
Proof.
  intros IH He [Ho Hms]%in_order_obj Hd Hf Hend Hcomma. apply wp_rule; [lia|]. intros d' ->. cbn [json_grammer].
  apply (separated_written _ _ _ (fun dn => rewrites a p (Obj ((fun m => (m.1, normalize m.2)) <$> dn))));
    [apply leading_pair|apply blank_line|done|done| |by apply rewrites_refl].
  intros dn z zs tail a' Hdn Htail HI. assert (z ∈ m :: ms) as Hz by (rewrite Hdn; set_solver).
  assert (focus a' p (Obj ((fun m => (m.1, normalize m.2)) <$> dn))) as Hf' by by eapply rewrites_focus.
  eapply wp_mono.
  - apply (pair_written pretty l d' z tail a' p ((fun m => (m.1, normalize m.2)) <$> dn));
      [|pose proof (height_le (fun m => height m.2) _ _ Hz); lia| | | |done|done].
    + by eapply (proj1 (Forall_forall _ _) IH).
    + by apply (forallb_elem _ _ _ He).
    + by apply (proj1 (Forall_forall _ _) Hms).
    + intros x. apply (Ho dn.*1 z.1 zs.*1); [by rewrite Hdn, fmap_app|]. by rewrite <-list_fmap_compose.
  - done.
  - intros [] s1 a1 [-> Hr]. split; [done|]. rewrite fmap_app. by eapply rewrites_trans.
  - done.
Qed.

Lemma elements_written pretty l d e es rest a p :
  Forall value_written (e :: es) -> forallb exact (e :: es) = true -> in_order (Arr (e :: es)) ->
  (4 * max_list (height <$> e :: es) + 3 <= d)%nat -> focus a p (Arr []) ->
  number_end rest = true -> (forall s', skip true rest ≠ ","%char :: s') ->
  wpr (parse d (rule_p elements_) (commas (line_gap pretty l) (text pretty l) (e :: es) ++ rest) a)
    (fun _ s1 a1 => s1 = rest /\ rewrites a p (Arr (normalize <$> e :: es)) a1).
Proof.
  intros IH He Ho%in_order_arr Hd Hf Hend Hcomma. apply wp_rule; [lia|]. intros d' ->. cbn [json_grammer].
  apply (separated_written _ _ _ (fun dn => rewrites a p (Arr (normalize <$> dn))));
    [apply leading_value|apply blank_line|done|done| |by apply rewrites_refl].
  intros dn z zs tail a' Hdn Htail HI. assert (z ∈ e :: es) as Hz by (rewrite Hdn; set_solver).
  assert (focus a' p (Arr (normalize <$> dn))) as Hf' by by eapply rewrites_focus.
  eapply wp_mono.
  - apply (proj1 (Forall_forall _ _) IH z Hz);
      [pose proof (height_le height _ _ Hz); lia|by apply (forallb_elem _ _ _ He)|by apply (proj1 (Forall_forall _ _) Ho)|by eapply focus_ready|done].
  - done.
  - intros [] s1 a1 [-> Ha]. split; [done|]. rewrite fmap_app. eapply rewrites_trans; [done|done|].
    by apply (added_focus a' p (Arr (normalize <$> dn))).
  - done.
Qed.

Lemma compound_written d open close empty c inner gap rest x fbegin fend reason a :
  isspace open = false -> isspace close = false -> forallb isspace gap = true ->
  ready a -> (forall b e, fbegin b e open = begin_compound empty) -> (forall b e, fend b e close = end_compound) ->
  (forall q a1, focus a1 q empty ->
     wp False (fun _ => False) (parse d x (inner ++ gap ++ close :: rest) a1)
       (fun _ s2 a2 => s2 = gap ++ close :: rest /\ rewrites a1 q c a2)
       (fun a2 => a2 = a1 /\ inner = [] /\ c = empty)) ->
  wpr (parse d (seq_p (seq_p (act_p (ch_p open) fbegin) (opt_p x))
    (alt_p (act_p (ch_p close) fend) (act_p eps_p (throw_reason reason)))) (open :: inner ++ gap ++ close :: rest) a)
    (fun _ s1 a1 => s1 = rest /\ added a c a1).
Proof.
  intros Ho Hc Hgap Hr Hb He Hx. apply wp_seq, wp_seq, wp_act.
  assert (skip true (open :: inner ++ gap ++ close :: rest) = open :: inner ++ gap ++ close :: rest) as Hk
    by (simpl; by rewrite Ho).
  rewrite Hk. eapply wp_eq; [by apply ch_eq|]. rewrite Hb.
  destruct (compound_spec a empty Hr) as (a1 & q & -> & Hf & Hend). simpl wp_action.
  assert (forall a2, rewrites a1 q c a2 ->
    wpr (parse d (alt_p (act_p (ch_p close) fend) (act_p eps_p (throw_reason reason))) (gap ++ close :: rest) a2)
      (fun _ s1 a1 => s1 = rest /\ added a c a1)) as Hclose.
  { intros a2 Hrw. apply wp_alt, wp_act. assert (skip true (gap ++ close :: rest) = close :: rest) as Hk2
      by (rewrite skip_blank by done; simpl; by rewrite Hc). rewrite Hk2. eapply wp_eq; [by apply ch_eq|]. rewrite He.
    destruct (Hend c a2 Hrw) as (a3 & -> & Ha3). done. }
  apply wp_opt. eapply wp_mono; [by apply Hx|done| |].
  - intros [] s2 a2 [-> Hrw]. by apply Hclose.
  - intros a2 (-> & -> & ->). apply Hclose. by apply rewrites_refl.
Qed.

Lemma value_fails d s a : (2 <= d)%nat ->
  parse d (rule_p value_) ("]"%char :: s) a = Ret (None, a).
Proof.
  intros Hd. apply wp_fails, wp_rule; [lia|]. intros d' ->. cbn [json_grammer].
  do 6 apply wp_alt. apply wp_act. change (skip true ("]"%char :: s)) with ("]"%char :: s).
  eapply wp_none; [apply string_fails; [lia|done|done]|].
  eapply wp_none; [apply number_fails; [lia|done|done]|].
  eapply wp_none; [apply bracket_fails; [lia|done|by left]|].
  eapply wp_none; [apply bracket_fails; [lia|done|by right]|].
  do 2 (eapply wp_none; [by apply str_fails|]). by eapply wp_none; [by apply str_fails|].
Qed.

Lemma members_fail d s a : (3 <= d)%nat ->
  parse d (rule_p members_) ("}"%char :: s) a = Ret (None, a).
Proof.
  intros Hd. apply wp_fails, wp_rule; [lia|]. intros d' ->. cbn [json_grammer].
  apply wp_seq, wp_rule; [lia|]. intros d'' ->. cbn [json_grammer].
  apply wp_seq, wp_seq, wp_act. change (skip true ("}"%char :: s)) with ("}"%char :: s).
  eapply wp_none; [apply string_fails; [lia|done|done]|done].
Qed.

Lemma elements_fail d s a : (3 <= d)%nat ->
  parse d (rule_p elements_) ("]"%char :: s) a = Ret (None, a).
Proof.
  intros Hd. apply wp_fails, wp_rule; [lia|]. intros d' ->. cbn [json_grammer].
  apply wp_seq. eapply wp_none; [apply value_fails; lia|done].
Qed.

Lemma object_written pretty l d ms rest a :
  Forall (fun m => value_written m.2) ms -> forallb (fun m => exact m.2) ms = true -> in_order (Obj ms) ->
  (4 * max_list ((fun m => height m.2) <$> ms) + 5 <= d)%nat -> ready a ->
  wpr (parse d (rule_p object_) (text pretty l (Obj ms) ++ rest) a)
    (fun _ s1 a1 => s1 = rest /\ added a (normalize (Obj ms)) a1).
Proof.
  intros IH He Ho Hd Hr. apply wp_rule; [lia|]. intros d' ->. cbn [json_grammer text]. pose proof (blank_line pretty) as Hb.
  destruct ms as [|m ms]; cbn [lines app]; rewrite <-!app_assoc; cbn [app].
  - apply (compound_written _ _ _ (Obj []) _ []); [done..|]. intros q a1 Hf.
    eapply wp_none; [cbn [app]; rewrite leading_members by done; apply members_fail; lia|done].
  - rewrite (app_assoc (line_gap pretty (S l))). apply (compound_written _ _ _ (Obj [])); [done..|]. intros q a1 Hf.
    rewrite <-app_assoc, leading_members by done.
    eapply wp_mono; [apply (members_written pretty (S l) d' m ms (line_gap pretty l ++ "}"%char :: rest) a1 q); [done|done|done|lia|done|by apply blank_end_or|by rewrite skip_blank]|done|by intros []|done].
Qed.

Lemma array_written pretty l d es rest a :
  Forall value_written es -> forallb exact es = true -> in_order (Arr es) ->
  (4 * max_list (height <$> es) + 4 <= d)%nat -> ready a ->
  wpr (parse d (rule_p array_) (text pretty l (Arr es) ++ rest) a)
    (fun _ s1 a1 => s1 = rest /\ added a (normalize (Arr es)) a1).
Proof.
  intros IH He Ho Hd Hr. apply wp_rule; [lia|]. intros d' ->. cbn [json_grammer text]. pose proof (blank_line pretty) as Hb.
  destruct es as [|e es]; cbn [lines app]; rewrite <-!app_assoc; cbn [app].
  - apply (compound_written _ _ _ (Arr []) _ []); [done..|]. intros q a1 Hf.
    eapply wp_none; [cbn [app]; rewrite leading_elements by done; apply elements_fail; lia|done].
  - rewrite (app_assoc (line_gap pretty (S l))). apply (compound_written _ _ _ (Arr [])); [done..|]. intros q a1 Hf.
    rewrite <-app_assoc, leading_elements by done.
    eapply wp_mono; [apply (elements_written pretty (S l) d' e es (line_gap pretty l ++ "]"%char :: rest) a1 q); [done|done|done|lia|done|by apply blank_end_or|by rewrite skip_blank]|done|by intros []|done].
Qed.

Lemma all_written v : value_written v.
Proof.
  induction v as [ms H|es H|s|b|i u|x|] using Value_nested_ind; intros pretty l d a rest Hd He Ho Hr Hrest;
    (apply wp_rule; [lia|]); intros d' ->; cbn [json_grammer]; do 6 apply wp_alt; try discriminate He.
  - apply wp_act. change (skip true (text pretty l (Obj ms) ++ rest)) with (text pretty l (Obj ms) ++ rest).
    eapply wp_none; [apply string_fails; [lia|done|done]|].
    eapply wp_none; [apply number_fails; [lia|done|done]|].
    eapply wp_mono; [apply (object_written pretty l d' ms rest a); [done|done|done|simpl in Hd; lia|done]|done|by intros []|done].
  - apply wp_act. change (skip true (text pretty l (Arr es) ++ rest)) with (text pretty l (Arr es) ++ rest).
    eapply wp_none; [apply string_fails; [lia|done|done]|].
    eapply wp_none; [apply number_fails; [lia|done|done]|].
    eapply wp_none; [apply bracket_fails; [lia|done|by left]|].
    eapply wp_mono; [apply (array_written pretty l d' es rest a); [done|done|done|simpl in Hd; lia|done]|done|by intros []|done].
  - apply wp_act. cbn [text]. change (skip true (quote s ++ rest)) with (quote s ++ rest).
    eapply wp_eq; [apply string_written; lia|]. unfold new_str.
    rewrite matched_app, get_str_quote, outcome_bind_ret. by destruct (add_value_spec a (Str s) Hr) as (a1 & -> & Ha).
  - apply wp_act.
    assert (skip true (text pretty l (Bool b) ++ rest) = text pretty l (Bool b) ++ rest) as Hk by by destruct b.
    rewrite Hk. eapply wp_none; [destruct b; apply string_fails; by try lia|].
    eapply wp_none; [destruct b; apply number_fails; by try lia|].
    eapply wp_none; [destruct b; apply bracket_fails; by try lia; try (by left)|].
    eapply wp_none; [destruct b; apply bracket_fails; by try lia; try (by right)|].
    destruct b; cbn [text].
    + apply (literal_written _ _ _ _ _ (Bool true)); [done|done|done|apply new_true_literal|done].
    + eapply wp_none; [by apply str_fails|]. apply (literal_written _ _ _ _ _ (Bool false)); [done|done|done|apply new_false_literal|done].
  - apply wp_act. cbn [text]. unfold int_text at 1 2.
    destruct (show_Z_head (if u then u64 i else i)) as (c & t & Hz & Hc & Hq).
    assert (skip true (int_text i u ++ rest) = int_text i u ++ rest) as Hk.
    { unfold int_text. rewrite Hz. simpl. by rewrite Hc. }
    eapply wp_none; [rewrite Hz; simpl skip; rewrite Hc; apply string_fails; [lia|done|done]|].
    eapply wp_mono; [by apply number_written; [lia|..]|done|by intros []|done].
  - apply wp_act. cbn [text]. change (skip true (lit "null" ++ rest)) with (lit "null" ++ rest).
    eapply wp_none; [apply string_fails; [lia|done|done]|].
    eapply wp_none; [apply number_fails; [lia|done|done]|].
    eapply wp_none; [apply bracket_fails; [lia|done|by left]|].
    eapply wp_none; [apply bracket_fails; [lia|done|by right]|].
    do 2 (eapply wp_none; [by apply str_fails|]). apply (literal_written _ _ _ _ _ Null); [done|done|done|apply new_null_literal|done].
Qed.

Lemma range_text pretty stack v rest value :
  exact v = true -> in_order v -> (4 * height v + 3 <= stack)%nat -> number_end rest = true ->
  read_range_or_throw stack (text pretty 0 v ++ rest) value = Ret (skip true rest, normalize v).
Proof.
  intros He Ho Hd Hrest.
  assert (wpr (parse stack (rule_p json_) (text pretty 0 v ++ rest) (Semantic_actions_new value))
    (fun _ s1 a1 => s1 = rest /\ sa_value_ a1 = normalize v)) as H.
  { apply wp_rule; [lia|]. intros d' ->. cbn [json_grammer]. apply wp_alt.
    eapply wp_mono; [by apply all_written; [lia|..]|done| |done]. by intros [] s1 a1 [-> [Ha _]]. }
  unfold read_range_or_throw.
  destruct (parse stack (rule_p json_) _ _) as [[[[[] s1]|] a1]| | |]; try done. cbn in H |- *. by destruct H as [-> ->].
Qed.

(** An array that goes on with neither a comma nor its bracket. *)
Lemma array_unclosed stack e es rest value :
  forallb exact (e :: es) = true -> in_order (Arr (e :: es)) -> (4 * height (Arr (e :: es)) + 3 <= stack)%nat -> number_end rest = true ->
  (forall s', skip true rest ≠ ","%char :: s') -> (forall s', skip true rest ≠ "]"%char :: s') ->
  read_range_or_throw stack ("["%char :: commas [] compact (e :: es) ++ rest) value = Throws (throw_error (skip true rest) (lit "not an array")).
Proof.
  intros He Ho Hd Hrest Hcomma Hclose. rewrite commas_compact. cbn [height] in Hd. set (exc := fun x => x = throw_error (skip true rest) (lit "not an array")).
  assert (wp False exc (parse stack (rule_p json_) ("["%char :: commas (line_gap false 1) (text false 1) (e :: es) ++ rest) (Semantic_actions_new value)) (fun _ _ _ => False) (fun _ => False)) as H.
  { apply wp_rule; [lia|]. intros d0 ->. cbn [json_grammer]. apply wp_alt, wp_rule; [lia|]. intros d1 ->. cbn [json_grammer]. do 6 apply wp_alt.
    apply wp_act. change (skip true ("["%char :: ?r)) with ("["%char :: r).
    eapply wp_none; [apply string_fails; [lia|done|done]|]. eapply wp_none; [apply number_fails; [lia|done|done]|]. eapply wp_none; [apply bracket_fails; [lia|done|by left]|].
    apply wp_rule; [lia|]. intros d2 ->. cbn [json_grammer]. apply wp_seq, wp_seq, wp_act. change (skip true ("["%char :: ?r)) with ("["%char :: r).
    eapply wp_eq; [by apply ch_eq|]. set (a0 := Semantic_actions_new value).
    change (begin_array ?b ?e0 "["%char a0) with (begin_compound (Arr []) a0). destruct (compound_spec a0 (Arr []) I) as (a1 & q & -> & Hf & _). cbn [wp_action]. apply wp_opt.
    pose proof (elements_written false 1 d2 e es rest a1 q ltac:(apply Forall_forall; intros; apply all_written) He Ho ltac:(lia) Hf Hrest Hcomma) as Hw.
    destruct (parse d2 (rule_p elements_) _ a1) as [[[[[] s2]|] a2]| | |]; try done. destruct Hw as [-> _]. cbn [wp].
    apply wp_alt, wp_act, wp_ch; [intros s' Hs'; rewrite skip_idem in Hs'; by destruct (Hclose s')|]. apply wp_act, wp_eps. done. }
  unfold read_range_or_throw. destruct (parse stack (rule_p json_) _ _) as [[[[[] s1]|] a1]|x| |]; try done. cbn in H |- *. by rewrite H.
Qed.
End written.

Lemma read_text {classic : SpiritClassic} pretty stack v rest value :
  exact v = true -> (4 * height v + 3 <= stack)%nat -> number_end rest = true ->
  read stack (text pretty 0 v ++ rest) value = Ret (Some (normalize v)).
Proof.
  intros He Hd Hrest. unfold read, read_string, read_range. rewrite (range_text pretty) by (done || apply vector_in_order). done.
Qed.

Lemma normalize_eq v : exact v = true -> Value_eqb (normalize v) v = true.
Proof.
  induction v as [ms H|es H|s|b|i u|x|] using Value_nested_ind; simpl; try done.
  - induction H as [|[n v] ms Hv _ IH]; simpl; [done|]. intros [H1 H2]%andb_true_iff.
    simpl in Hv. rewrite bool_decide_eq_true_2, (Hv H1) by done. simpl. by apply IH.
  - induction H as [|v es Hv _ IH]; simpl; [done|]. intros [H1 H2]%andb_true_iff.
    rewrite (Hv H1). simpl. by apply IH.
  - intros _. by apply bool_decide_eq_true.
  - intros _. by destruct b.
  - intros _. apply Z.eqb_refl.
Qed.

(** C20. The reader undoes the writers. A value without doubles, whose integers
    fit 64 bits, is written by [write], and by [write_formatted] with its lines and
    indentation, as a text that, whatever follows it that does not go on its last
    number, reads as a value equal to it in the sense of [operator==]: the same but
    for the flag of the unsigned integers that an [int64_t] can hold; four calls for
    each object or array it is nested in, and three, are stack enough. *)
Theorem read_write {classic : SpiritClassic} stack v rest value
    (Hexact : exact v = true) (Hstack : (4 * height v + 3 <= stack)%nat)
    (Hrest : number_end rest = true) :
  exists w f, write v = Ret w /\ write_formatted v = Ret f /\
    read stack (w ++ rest) value = Ret (Some (normalize v)) /\ read stack (f ++ rest) value = Ret (Some (normalize v)) /\
    Value_eqb (normalize v) v = true.
Proof.
  exists (text false 0 v), (text true 0 v). split_and!; [apply write_string_text|apply write_string_text|by apply read_text|by apply read_text|by apply normalize_eq].
Qed.

Lemma read_write_witness :
  let v := Obj [(lit "blobs", Arr [Obj [(lit "size", Value_int (-7)); (lit "x", Value_uint64 (2 ^ 64 - 1))]]);
                (lit "a" ++ [dquote; nul], Str [dquote; "255"%char]); (lit "n", Null)] in
  exists w f, write v = Ret w /\ write_formatted v = Ret f /\ read (classic := peg_classic) 20 (w ++ crlf) Null = Ret (Some (normalize v)) /\
    read (classic := peg_classic) 20 (f ++ crlf) Null = Ret (Some (normalize v)) /\ Value_eqb (normalize v) v = true.
Proof. intros v. apply (read_write (classic := peg_classic) 20 v crlf Null); [reflexivity|simpl; lia|reflexivity]. Defined.

(** ** Maps, streams and positions *)

(** Values whose objects a [std::map] can hold as they are. *)
Fixpoint sorted_names (v : Value) : Prop :=
  match v with
  | Obj ms => StronglySorted (fun a b => bytes_ltb a b = true) ms.*1 /\ fold_right (fun m rest => sorted_names m.2 /\ rest) True ms
  | Arr es => fold_right (fun e rest => sorted_names e /\ rest) True es
  | _ => True
  end.

Lemma sorted_in_order v : sorted_names v -> in_order (config := Config_map) v.
Proof.
  induction v as [ms IH|es IH| | | | |] using Value_nested_ind; try done; cbn [sorted_names in_order].
  - intros [Hs H]. split; [by apply map_ordered|]. clear Hs. induction IH as [|m ms Hm _ IHms]; [done|]. cbn [fold_right] in *. destruct H. by split; [apply Hm|apply IHms].
  - intros H. induction IH as [|e es He _ IHes]; [done|]. cbn [fold_right] in *. destruct H. by split; [apply He|apply IHes].
Qed.

(** What is printed does not start with a space. *)
Lemma skip_compact v s : exact v = true -> skip true (compact v ++ s) = compact v ++ s.
Proof.
  destruct v as [ms|es|t|b|i u|d|]; intros He; try done; [by destruct b|]. unfold compact. cbn [text]. unfold int_text.
  destruct (show_Z_head (if u then u64 i else i)) as (c & t & -> & Hc & _). simpl. by rewrite Hc.
Qed.

(** A loop on [read_next]: the values up to the first failure, and where the reader
    is then. *)
Fixpoint read_values {classic : SpiritClassic} {config : Config_type} (stack n : nat) (begin_ : bytes) : outcome (list Value * bytes) :=
  match n with
  | O => Ret ([], begin_)
  | S n' =>
      '(o, begin_) ← read_next stack begin_ Null;
      match o with
      | Some v => '(vs, begin_) ← read_values stack n' begin_; Ret (v :: vs, begin_)
      | None => Ret ([], begin_)
      end
  end.

Lemma read_next_compact {classic : SpiritClassic} {config : Config_type} stack v gap more :
  exact v = true -> in_order v -> (4 * height v + 3 <= stack)%nat -> gap ≠ [] -> forallb isspace gap = true ->
  read_next stack (compact v ++ gap ++ more) Null = Ret (Some (normalize v), skip true more).
Proof.
  intros He Ho Hs Hgap Hblank. unfold read_next, read_range. rewrite (range_text false) by (done || by apply blank_end). rewrite outcome_bind_ret. by rewrite skip_blank.
Qed.

Definition stream_text (gap : bytes) (vs : list Value) : bytes := concat ((fun v => compact v ++ gap) <$> vs).

(** C35. Several values in a stream. Values without doubles, written one after the
    other with white space after each, are read in turn by a [Stream_reader], to the
    end of the stream, into vectors in any case and into maps when the names of each
    object are increasing. *)
Theorem stream_reader_reads {classic : SpiritClassic} {config : Config_type} stack gap vs
    (Hgap : gap ≠ []) (Hblank : forallb isspace gap = true)
    (Hvs : Forall (fun v => exact v = true /\ (4 * height v + 3 <= stack)%nat /\ (config = Config_vector \/ config = Config_map /\ sorted_names v)) vs) :
  read_values stack (length vs) (Stream_reader_new (stream_text gap vs)) = Ret (normalize <$> vs, []).
Proof.
  unfold Stream_reader_new, Multi_pass_iters, stream_text. induction Hvs as [|v vs (He & Hs & Hc) Hvs IH]; [done|].
  cbn [length read_values]. rewrite !fmap_cons. cbn [concat]. rewrite <-app_assoc, read_next_compact; [|done| |done..].
  - rewrite outcome_bind_ret. assert (skip true (concat ((fun v => compact v ++ gap) <$> vs)) = concat ((fun v => compact v ++ gap) <$> vs)) as ->.
    { destruct Hvs as [|w vs (Hw & _) _]; [done|]. rewrite fmap_cons. cbn [concat]. rewrite <-app_assoc. by apply skip_compact. }
    by rewrite IH.
  - destruct Hc as [-> |[-> Hc]]; [apply vector_in_order|by apply sorted_in_order].
Qed.

Definition lf : bytes := ["010"%char].

Lemma stream_reader_reads_witness :
  read_values (classic := peg_classic) (config := Config_map) 12 2
    (Stream_reader_new (stream_text lf [Obj [(lit "a", Value_int 1); (lit "b", Arr [Null])]; Value_int 7])) =
    Ret ([Obj [(lit "a", Value_int 1); (lit "b", Arr [Null])]; Value_int 7], []).
Proof.
  apply (stream_reader_reads (classic := peg_classic) (config := Config_map) 12 lf [Obj [(lit "a", Value_int 1); (lit "b", Arr [Null])]; Value_int 7]).
  - discriminate.
  - reflexivity.
  - apply Forall_cons. split; [|apply Forall_cons; split; [|apply Forall_nil; exact I]]; (split; [reflexivity|split; [cbn; lia|right; split; [reflexivity|]]]).
    + cbn. split; [|done]. repeat constructor.
    + exact I.
Defined.

(** C36. Where an error is. An array that goes on, after some of its elements and white
    space, with neither a comma nor its bracket, makes [read_or_throw] throw the
    [Error_position] of the first character that does not fit, lines and columns
    counted over the text before it; and whatever it throws is an [Error_position]
    with one of the four reasons of the grammar. *)
Theorem error_positions {classic : SpiritClassic} {position : PositionIterator} stack :
  (forall s value, match read_or_throw stack s value with
                   | Ret _ => True
                   | Throws e => exists begin reason, reason ∈ reasons /\
                       e = Error_position (get_position (matched s begin) begin).1 (get_position (matched s begin) begin).2 reason
                   | Undefined => (stack < 4 * length s + 3)%nat
                   | Aborts => False
                   end) /\
  (forall e es gap rest value,
     forallb exact (e :: es) = true -> (4 * height (Arr (e :: es)) + 3 <= stack)%nat -> forallb isspace gap = true -> number_end (gap ++ rest) = true ->
     match rest with c :: _ => isspace c = false /\ c ≠ ","%char /\ c ≠ "]"%char | [] => True end ->
     let text := "["%char :: commas [] compact (e :: es) ++ gap in
     read_or_throw stack (text ++ rest) value =
       Throws (Error_position (get_position text rest).1 (get_position text rest).2 (lit "not an array"))).
Proof.
  split.
  - intros s value. unfold read_or_throw, read_string_or_throw, add_posn_iter_and_read_range_or_throw.
    pose proof (range_returns (config := Config_vector) (iter := position_iterator s) stack s value) as H.
    destruct (read_range_or_throw stack s value) as [[]|x| |]; try done. destruct H as (begin & reason & Hr & ->). exists begin, reason. split; [done|].
    unfold throw_error, position_iterator. by destruct (get_position (matched s begin) begin).
  - intros e es gap rest value He Hs Hgap Hend Hrest text. unfold read_or_throw, read_string_or_throw, add_posn_iter_and_read_range_or_throw.
    assert (text ++ rest = "["%char :: commas [] compact (e :: es) ++ gap ++ rest) as Etext by (unfold text; cbn [app]; by rewrite <-app_assoc).
    assert (skip true (gap ++ rest) = rest) as Hskip.
    { rewrite skip_blank by done. destruct rest as [|c rest]; [done|]. cbn. by destruct Hrest as [-> _]. }
    rewrite Etext. rewrite array_unclosed; [|done|apply vector_in_order|done|done|..].
    + rewrite Hskip, <-Etext. unfold throw_error, position_iterator. rewrite matched_app. by destruct (get_position text rest).
    + intros s' Hs'. rewrite Hskip in Hs'. rewrite Hs' in Hrest. by destruct Hrest as (_ & ? & _).
    + intros s' Hs'. rewrite Hskip in Hs'. rewrite Hs' in Hrest. by destruct Hrest as (_ & _ & ?).
Qed.

Lemma error_positions_witness :
  read_or_throw (classic := peg_classic) (position := counted_positions) 20 (lit "[1,true" ++ lf ++ lit "  : 3]") Null = Throws (Error_position 2 3 (lit "not an array")).
Proof.
  exact (proj2 (error_positions (classic := peg_classic) (position := counted_positions) 20) (Value_int 1) [Bool true] (lf ++ lit "  ") (lit ": 3]") Null
    eq_refl ltac:(cbn; lia) eq_refl eq_refl ltac:(split; [reflexivity|split; discriminate])).
Defined.

(** ** The interface *)

(** A JSON reader with a stack for [json_stack] calls: total, and exact on what
    the writer writes. *)
Class JsonReader : Type := {
  json_stack : nat;
  json_read (s : bytes) : outcome (option Value);
  json_read_total s :
    match json_read s with
    | Ret _ => True
    | Undefined => (json_stack < 4 * length s + 3)%nat
    | _ => False
    end;
  json_read_write v w rest :
    write v = Ret w -> exact v = true -> (4 * height v + 3 <= json_stack)%nat -> number_end rest = true ->
    json_read (w ++ rest) = Ret (Some (normalize v))
}.

Definition json_spirit_reader (classic : SpiritClassic) (stack : nat) : JsonReader.
Proof.
  refine {| json_stack := stack; json_read s := read stack s Null |}.
  - intros s. apply (string_returns stack s Null).
  - intros v w rest Hw He Hs Hr. rewrite write_compact in Hw. injection Hw as <-. by apply read_text.
Defined.
