(* ===== verification/RequestHandler.v ===== *)
(** * The request handler

    [http::server3::request_handler] ([request_handler.hpp],
    [request_handler.cpp]), with [ENABLE_STATIC] on: URL decoding, the
    dispatch on path and method, and one handler per kind of request. A
    handler is given the reply by reference and changes it, between calls on the
    blob index, its files and the compressor: it is a program of [Calls].
    [handler] is the method [handle_request]; [handle_request] here runs it with no
    other thread between its calls, on a [store] of the index.

    Parameter: [StaticFiles], what the operating system gives to a reader of
    a path under the static directory. *)

From S2P Require Import Prelude CppString StdMap Http MimeTypes Reply Config Hash BlobKey.
From S2P Require Import Blob BlobIndex Calls Qi QueryString Multipart JsonValue JsonEscape JsonWriter.

Local Open Scope Z_scope.

Class StaticFiles : Type := { open_for_read : bytes -> option bytes }.

(** ** Decoding *)

(** [url_decode]; a value read from two characters is converted to [char]. *)
Fixpoint url_decode (s : bytes) : option bytes :=
  match s with
  | [] => Some []
  | c :: s' =>
      if (c =? "%")%char then
        match s' with
        | a :: b :: s'' =>
            match stream_hex_int [a; b] with
            | Some value => (char_of_Z value ::.) <$> url_decode s''
            | None => None
            end
        | _ => None
        end
      else if (c =? "+")%char then (" "%char ::.) <$> url_decode s'
      else (c ::.) <$> url_decode s'
  end.

(** [request_handler::get_header]: names are compared in lower case. *)
Definition get_header_ci (headers : list header) (name : bytes) : bytes :=
  let lower_name := to_lower_copy name in
  match List.find (fun h => bool_decide (to_lower_copy (name_ h) = lower_name)) headers with
  | Some h => value_ h
  | None => []
  end.

(** ** Replies in place *)

Definition set_status (s : reply.status_type) (r : reply.reply) : reply.reply :=
  reply.Reply s (reply.headers r) (reply.content r).
Definition set_content (c : bytes) (r : reply.reply) : reply.reply :=
  reply.Reply (reply.status r) (reply.headers r) c.
Definition push_reply_header (name value : bytes) (r : reply.reply) : reply.reply :=
  reply.Reply (reply.status r) (reply.headers r ++ [header_pair name value]) (reply.content r).
Definition push_lengths (length_of content_type : bytes) (r : reply.reply) : reply.reply :=
  push_reply_header (lit "Content-Type") content_type
    (push_reply_header (lit "Content-Length") length_of r).
Definition content_size (r : reply.reply) : bytes := show_Z (Z.of_nat (length (reply.content r))).

Section handlers.
Context {digest : Digest} {platform : Platform} {qi : Qi} {static : StaticFiles} {zopfli : Zopfli}.
Context (c_ : Config).

(** The extension of the path and the path of the file. *)
Definition static_extension (request_path : bytes) : outcome bytes :=
  let last_slash_pos := str_find_last_of request_path "/" in
  let last_dot_pos := str_find_last_of request_path "." in
  if negb (last_dot_pos =? npos) && (last_slash_pos <? last_dot_pos) then
    substr request_path (u64 (last_dot_pos + 1)) npos
  else Ret [].

Definition static_path (request_path : bytes) : bytes :=
  if ends_with request_path (lit "/") then request_path ++ lit "index.html" else request_path.

Definition handle_static (request_path : bytes) (req : request) (rep : reply.reply) : program reply.reply :=
  let request_path := static_path request_path in
  extension ← Done (static_extension request_path);
  let full_path := static_directory c_ ++ request_path in
  mret match open_for_read (c_str full_path) with
      | None => reply.stock_reply reply.not_found
      | Some file =>
          let rep := set_status reply.ok rep in
          let rep := set_content (reply.content rep ++ file) rep in
          push_lengths (content_size rep) (extension_to_type extension) rep
      end.

Definition handle_check (request_path : bytes) (req : request) (rep : reply.reply) : program reply.reply :=
  blob_ref ← Done (substr request_path 1 npos);
  foundBlob ← invoke (call_get blob_ref);
  match foundBlob with
  | None => mret (reply.stock_reply reply.not_found)
  | Some p =>
      b ← invoke (call_blob p);
      mret (push_lengths (show_Z (size_ b)) (lit "application/octet-stream") (set_status reply.ok rep))
  end.

(** The encoding asked for, if the server has it. *)
Definition output_type (accept_encoding : bytes) : option ZopfliFormat :=
  if bool_decide (accept_encoding ≠ []) then
    if starts_with accept_encoding (lit "gzip") then Some ZOPFLI_FORMAT_GZIP
    else if starts_with accept_encoding (lit "deflate") then Some ZOPFLI_FORMAT_DEFLATE
    else if starts_with accept_encoding (lit "zlib") then Some ZOPFLI_FORMAT_ZLIB
    else None
  else None.

Definition encoding_name (t : ZopfliFormat) : bytes :=
  match t with
  | ZOPFLI_FORMAT_GZIP => lit "gzip"
  | ZOPFLI_FORMAT_ZLIB => lit "zlib"
  | ZOPFLI_FORMAT_DEFLATE => lit "deflate"
  end.

Definition handle_get (request_path : bytes) (req : request) (rep : reply.reply) : program reply.reply :=
  blob_ref ← Done (substr request_path 1 npos);
  foundBlob ← invoke (call_get blob_ref);
  match foundBlob with
  | None => mret (reply.stock_reply reply.not_found)
  | Some p =>
      b ← invoke (call_blob p);
      is_ ← invoke (call_open (filePath_ b));
      match is_ with
      | None => mret (reply.stock_reply reply.not_found)
      | Some file =>
          let compress := output_type (get_header_ci (req_headers req) (lit "Accept-Encoding")) in
          let rep := set_status reply.ok rep in
          let rep := set_content (reply.content rep ++ file) rep in
          rep ← match compress with
                | Some t => out ← invoke (call_compress t (reply.content rep)); mret (set_content out rep)
                | None => mret rep
                end;
          let rep := push_lengths (content_size rep) (lit "application/octet-stream") rep in
          mret match compress with
               | Some t => push_reply_header (lit "Content-Encoding") (encoding_name t) rep
               | None => rep
               end
      end
  end.

(** The object of a blob in a listing. *)
Definition blob_value (blobRef : bytes) (size : Z) : Value :=
  Obj [(lit "blobRef", Str blobRef); (lit "size", Value_int size)].

(** The loop over a page: the first 25 entries are shown. *)
Fixpoint enumerate_stat (count : Z) (blobs : list (BlobKey * nat)) : program Array :=
  match blobs with
  | [] => mret []
  | (k, p) :: blobs' =>
      if count <? 25 then
        b ← invoke (call_blob p);
        rest ← enumerate_stat (count + 1) blobs';
        mret (blob_value (blobref k) (size_ b) :: rest)
      else enumerate_stat (count + 1) blobs'
  end.

Definition json_reply (content : bytes) (rep : reply.reply) : reply.reply :=
  let rep := set_content (content ++ crlf) (set_status reply.ok rep) in
  push_lengths (content_size rep) (lit "application/json") rep.

Definition enumerate_result (stat : Array) (blobs : list (BlobKey * nat)) : Value :=
  Obj ([(lit "blobs", Arr stat)] ++
       (if 25 <? Z.of_nat (length blobs) then
          match last blobs with
          | Some (k, _) => [(lit "continueAfter", Str (blobref k))]
          | None => []
          end
        else []) ++
       [(lit "canLongPoll", Str (lit "false"))]).

Definition handle_enumerate (request_path : bytes) (req : request) (rep : reply.reply) : program reply.reply :=
  after ← Done (decode_query_string_after request_path);
  blobs ← invoke (call_paginate after 26);
  stat ← enumerate_stat 0 blobs;
  content ← Done (write (enumerate_result stat blobs));
  mret (json_reply content rep).

Definition parse_boundry_header (header_value : bytes) : Header :=
  match qi_parse header_tokens.query header_value [] with
  | (Some _, m) => MkHeader (lit "Content-Type") m
  | (None, _) => MkHeader (lit "Content-Type") []
  end.

(** The loop over the parts of an upload. *)
Fixpoint put_parts (parts : list Part) : program unit :=
  match parts with
  | [] => mret tt
  | part :: parts' =>
      match part_payload part with
      | [] => put_parts parts'
      | payload => _ ← invoke (call_add_blob None payload); put_parts parts'
      end
  end.

Definition handle_put (request_path : bytes) (req : request) (rep : reply.reply) : program reply.reply :=
  let body := req_content req in
  let content_type := get_header_ci (req_headers req) (lit "Content-Type") in
  if bool_decide (content_type = []) then mret (reply.stock_reply reply.bad_request)
  else
    match attributeValue (lit "boundary") (parse_boundry_header content_type) with
    | Some boundary =>
        mpfd ← Done (MultiPartFormData_new boundary body);
        _ ← put_parts (parts_ mpfd);
        mret (set_status reply.ok rep)
    | None => mret (set_status reply.ok rep)
    end.

(** The loop over the references asked of [/stat]. *)
Fixpoint stat_blobs (blobs : list bytes) : program Array :=
  match blobs with
  | [] => mret []
  | blob :: blobs' =>
      foundBlob ← invoke (call_get blob);
      match foundBlob with
      | Some p =>
          b ← invoke (call_blob p);
          rest ← stat_blobs blobs';
          mret (blob_value blob (size_ b) :: rest)
      | None => stat_blobs blobs'
      end
  end.

Definition stat_result (stat : Array) : Value :=
  Obj [(lit "stat", Arr stat); (lit "maxUploadSize", Value_int 1048576);
       (lit "uploadUrl", Str (lit "/upload")); (lit "uploadUrlExpirationSeconds", Value_int 7200);
       (lit "canLongPoll", Bool false)].

(** The references of the request, or none when it must be refused: the
    position of [camliversion=1] is an [unsigned]. *)
Definition stat_request_blobs (request_path : bytes) (req : request) : outcome (option (list bytes)) :=
  if bool_decide (req_method req = lit "GET") then
    let foundCamliVersion := u32 (str_find request_path (lit "camliversion=1")) in
    if foundCamliVersion =? npos then Ret None
    else blobs ← decode_query_string_blobs [] request_path; Ret (Some blobs)
  else if bool_decide (req_method req = lit "POST") then
    blobs ← decode_query_string_blobs [] (req_content req); Ret (Some blobs)
  else Ret (Some []).

Definition handle_stat (request_path : bytes) (req : request) (rep : reply.reply) : program reply.reply :=
  blobs ← Done (stat_request_blobs request_path req);
  match blobs with
  | None => mret (reply.stock_reply reply.bad_request)
  | Some blobs =>
      stat ← stat_blobs blobs;
      content ← Done (write (stat_result stat));
      mret (json_reply content rep)
  end.

Definition path_refused (request_path : bytes) : bool :=
  match request_path with
  | [] => true
  | c :: _ => negb (c =? "/")%char || bool_decide (is_Some (find_nat request_path (lit "..")))
  end.

(** [handle_request], as a thread of the pool runs it. *)
Definition handler (req : request) (rep : reply.reply) : program reply.reply :=
  let is_method m := bool_decide (req_method req = m) in
  match url_decode (req_uri req) with
  | None => mret (reply.stock_reply reply.bad_request)
  | Some request_path =>
      if path_refused request_path then mret (reply.stock_reply reply.bad_request)
      else if starts_with request_path (lit "/static/") then handle_static request_path req rep
      else if starts_with request_path (lit "/stat") then handle_stat request_path req rep
      else if starts_with request_path (lit "/enumerate-blobs") && is_method (lit "GET") then
        handle_enumerate request_path req rep
      else if is_method (lit "HEAD") then handle_check request_path req rep
      else if is_method (lit "GET") then handle_get request_path req rep
      else if is_method (lit "PUT") || is_method (lit "POST") then handle_put request_path req rep
      else mret (reply.stock_reply reply.bad_request)
  end.

(** [handle_request] with no other thread between its calls. *)
Definition handle_request (req : request) (rep : reply.reply) (st : store) : outcome (reply.reply * store) :=
  run c_ (handler req rep) st.
End handlers.

(** ** URL decoding *)

(** A URL with the characters [plain] written as they are and the others in
    hexadecimal. *)
Definition url_encode (plain : ascii -> bool) (s : bytes) : bytes :=
  concat ((fun c => if plain c then [c] else "%"%char :: hex_byte c) <$> s).

(** Percent-encoding is undone, for every byte and for every choice of the
    characters left as they are, as long as they are neither [%] nor [+]. *)
Theorem url_decode_encode plain s
    (Hplain : forall c, plain c = true -> c ≠ "%"%char /\ c ≠ "+"%char) :
  url_decode (url_encode plain s) = Some s.
Proof.
  induction s as [|c s IH]; [done|]. unfold url_encode. rewrite fmap_cons. cbn [concat].
  fold (url_encode plain s). destruct (plain c) eqn:E.
  - destruct (Hplain c E) as [H1 H2]. simpl.
    rewrite (proj2 (Ascii.eqb_neq _ _) H1), (proj2 (Ascii.eqb_neq _ _) H2). by rewrite IH.
  - pose proof (stream_hex_byte c) as Hx. unfold hex_byte in *. cbn [app url_decode].
    change ("%" =? "%")%char with true. cbv iota. rewrite Hx, IH.
    cbn [fmap option_fmap option_map]. by rewrite char_of_Z_uint.
Qed.

Lemma url_decode_encode_witness :
  url_decode (lit "/stat%3F") = Some (lit "/stat?").
Proof.
  apply (url_decode_encode (fun c => negb (one_of (lit "?%+") c)) (lit "/stat?")).
  intros c Hc. split; intros ->; vm_compute in Hc; discriminate.
Defined.

Lemma url_decode_plain s :
  forallb (fun c => negb (c =? "%")%char && negb (c =? "+")%char) s = true -> url_decode s = Some s.
Proof.
  induction s as [|c s IH]; [done|]. cbn [forallb url_decode].
  rewrite !andb_true_iff, !negb_true_iff. intros [[-> ->] Hs]. by rewrite IH.
Qed.

(** ** Static files *)

Definition confined (path : bytes) : Prop :=
  starts_with path (lit "/static/") = true /\ find_nat path (lit "..") = None.

Lemma find_dots_cons c d s :
  find_nat (c :: d :: s) (lit "..") = None <->
  ((c =? ".")%char && (d =? ".")%char = false /\ find_nat (d :: s) (lit "..") = None).
Proof.
  change (lit "..") with ["."%char; "."%char]. rewrite (Ascii.eqb_sym c), (Ascii.eqb_sym d).
  cbn [find_nat]. cbn [starts_with]. rewrite andb_true_r.
  destruct (("." =? c)%char && ("." =? d)%char).
  - split; [done|by intros [? _]].
  - rewrite fmap_None. tauto.
Qed.

Lemma no_dots_index s :
  find_nat (s ++ lit "/") (lit "..") = None ->
  find_nat (s ++ lit "/" ++ lit "index.html") (lit "..") = None.
Proof.
  change (lit "/") with ["/"%char]. induction s as [|c s IH]; [done|]. cbn [app].
  destruct s as [|d s]; cbn [app] in *; intros [H1 H2]%find_dots_cons; apply find_dots_cons.
  - split; [done|]. by apply IH.
  - split; [done|]. by apply IH.
Qed.

Lemma static_path_confined path : confined path -> confined (static_path path).
Proof.
  intros [Hs Hd]. unfold static_path. destruct (ends_with path (lit "/")) eqn:E; [|done].
  unfold ends_with in E. apply starts_with_spec in E as [r Hr].
  apply (f_equal reverse) in Hr. rewrite reverse_involutive, reverse_app, reverse_involutive in Hr.
  subst path. split.
  - apply starts_with_spec in Hs as [q Hq]. rewrite Hq, <-app_assoc. apply starts_with_app.
  - rewrite <-app_assoc. by apply no_dots_index.
Qed.

(** C32. No path traversal: the reply and the store depend only on the files
    whose path is the static directory followed by a path that starts with
    [/static/] and has no [..] in it (up to a NUL byte of the request, where
    the C string ends). *)
Theorem static_confined {digest : Digest} {platform : Platform} {qi : Qi} {zopfli : Zopfli}
    (files1 files2 : StaticFiles) c_ req rep st
    (Hsame : forall p, confined p ->
       @open_for_read files1 (c_str (static_directory c_ ++ p)) =
       @open_for_read files2 (c_str (static_directory c_ ++ p))) :
  handle_request (static := files1) c_ req rep st = handle_request (static := files2) c_ req rep st.
Proof.
  unfold handle_request, handler. destruct (url_decode (req_uri req)) as [path|]; [|done].
  destruct (path_refused path) eqn:Hp; [done|].
  destruct (starts_with path (lit "/static/")) eqn:Hs; [|done].
  unfold handle_static. rewrite (Hsame (static_path path)); [done|].
  apply static_path_confined. split; [done|].
  unfold path_refused in Hp. destruct path as [|c path]; [done|].
  apply orb_false_iff in Hp as [_ Hp%bool_decide_eq_false].
  destruct (find_nat _ _); [|done]. exfalso. apply Hp. eauto.
Qed.

(** ** Safety *)

Section safety.
Context {digest : Digest} {platform : Platform} {qi : Qi} {static : StaticFiles} {zopfli : Zopfli}.
Context (c_ : Config).

(** A computation that returns. *)
Definition returns {A} (m : outcome A) : Prop := exists x, m = Ret x.

Lemma returns_bind {A B} (m : outcome A) (f : A -> outcome B) :
  returns m -> (forall x, m = Ret x -> returns (f x)) -> returns (m ≫= f).
Proof. intros [x ->] H. by apply H. Qed.

Lemma returns_ret {A} (x : A) : returns (Ret x).
Proof. by exists x. Qed.

Lemma substr_one c s : substr (c :: s) 1 npos = Ret (take (Z.to_nat (Z.min npos (Z.of_nat (length s)))) s).
Proof.
  unfold substr. rewrite (proj2 (Z.ltb_ge _ _)) by (simpl; lia).
  change (drop (Z.to_nat 1) (c :: s)) with s. do 4 f_equal. simpl length. lia.
Qed.

Lemma decode_blobs_returns blobs input : returns (decode_query_string_blobs blobs input).
Proof.
  unfold decode_query_string_blobs. apply returns_bind; [|intros; apply returns_ret].
  unfold after_question_mark. rewrite u32_npos_ne. by apply substr_after.
Qed.

Lemma decode_after_returns input : returns (decode_query_string_after input).
Proof.
  unfold decode_query_string_after. rewrite u32_npos_ne. simpl negb. cbv iota.
  apply returns_bind; [by apply substr_after|intros; apply returns_ret].
Qed.

Lemma stat_request_returns path req : returns (stat_request_blobs path req).
Proof.
  unfold stat_request_blobs. rewrite u32_npos_ne. repeat case_match; try apply returns_ret;
    (apply returns_bind; [apply decode_blobs_returns|intros; apply returns_ret]).
Qed.

Lemma add_header_returns i part : returns (add_header i part).
Proof.
  unfold add_header. rewrite u32_npos_ne. apply returns_bind; [apply substr_zero|]. intros n _.
  apply returns_bind; [by apply substr_after|]. intros. apply returns_ret.
Qed.

Lemma add_headers_returns is_ part : returns (add_headers is_ part).
Proof.
  revert part. induction is_ as [|i is_ IH]; intros part; [apply returns_ret|]. cbn [add_headers].
  apply returns_bind; [apply add_header_returns|]. intros. apply IH.
Qed.

Lemma add_parts_returns chunks form : returns (add_parts chunks form).
Proof.
  revert form. induction chunks as [|c chunks IH]; intros form; [apply returns_ret|]. cbn [add_parts].
  destruct (qi_parse _ _ _) as [[s|] v]; [|apply IH].
  apply returns_bind; [|intros; apply IH]. unfold part_of_tokens.
  destruct (reverse v); [apply returns_ret|apply add_headers_returns].
Qed.

Lemma form_returns b body : returns (MultiPartFormData_new b body).
Proof.
  unfold MultiPartFormData_new. destruct (qi_parse _ _ _) as [[s|] v]; [apply add_parts_returns|apply returns_ret].
Qed.

Lemma find_last_bound s c n : find_last_nat s c = Some n -> (n < length s)%nat.
Proof.
  revert n. induction s as [|d s IH]; intros n; [done|]. simpl.
  destruct (find_last_nat s c); [intros [= <-]; specialize (IH _ eq_refl); lia|].
  destruct (d =? c)%char; [intros [= <-]; lia|done].
Qed.

Lemma static_extension_returns path : returns (static_extension path).
Proof.
  unfold static_extension, str_find_last_of. destruct (find_last_nat _ ".") as [n|] eqn:E.
  - apply find_last_bound in E. case_match; [|apply returns_ret].
    assert (u64 (Z.of_nat n + 1) <= Z.of_nat n + 1) by (apply Z.mod_le; lia).
    unfold substr. rewrite (proj2 (Z.ltb_ge _ _)) by lia. apply returns_ret.
  - rewrite Z.eqb_refl. apply returns_ret.
Qed.

(** The calls that a request may lead to: a [PUT] or a [POST] adds blobs under no
    reference of its own; a [GET] compresses the file of a blob for the encoding
    that it accepts. *)
Definition asked (req : request) (rep : reply.reply) (c : call) (st : store) : Prop :=
  match c with
  | call_add_blob provided_hash _ => provided_hash = None /\ (req_method req = lit "PUT" \/ req_method req = lit "POST")
  | call_compress t content =>
      req_method req = lit "GET" /\ output_type (get_header_ci (req_headers req) (lit "Accept-Encoding")) = Some t /\
      exists path file, disk st !! path = Some file /\ content = reply.content rep ++ file
  | _ => True
  end.

Lemma asked_stable req rep : stable (asked req rep).
Proof.
  intros c st st' Hl. destruct c; try done. intros (? & ? & path & file & Hp & ->). split_and!; [done..|]. exists path, file. split; [by eapply later_file|done].
Qed.

Section handlers.
Context (req : request) (rep : reply.reply).
Local Abbreviation safely m := (always c_ (asked req rep) m (fun _ _ => True)).

Lemma safely_ret {A} (x : A) st : safely (mret x) st.
Proof. exact I. Qed.

(** A computation that returns, then the rest. *)
Lemma safely_compute {A B} (o : outcome A) (f : A -> program B) st : returns o -> (forall x, o = Ret x -> safely (f x) st) -> safely (Done o ≫= f) st.
Proof. intros [x ->] H. by apply H. Qed.

Lemma safely_bind {A B} (m : program A) (f : A -> program B) st : safely m st -> (forall x st', later st st' -> safely (f x) st') -> safely (m ≫= f) st.
Proof. intros Hm Hf. eapply always_bind; [exact Hm|]. auto. Qed.

(** A call, then what is done with its answer. *)
Lemma safely_invoke {B} c (f : answer c -> program B) st : asked req rep c st -> call_ok c st ->
  (forall a st', later st st' -> answer_ok c a st' -> safely (f a) st') -> safely (invoke c ≫= f) st.
Proof.
  intros Hc Hok Hf. eapply (always_bind _ _ _ _ (fun a st' => answer_ok c a st')); [by apply always_invoke|]. intros x st' Hl Ha. by apply Hf.
Qed.

Lemma handle_static_safely path st : safely (handle_static c_ path req rep) st.
Proof. apply safely_compute; [apply static_extension_returns|]. intros. apply safely_ret. Qed.

Lemma handle_check_safely path st : path ≠ [] -> safely (handle_check path req rep) st.
Proof.
  destruct path as [|c path]; [done|]. intros _. apply safely_compute; [rewrite substr_one; apply returns_ret|]. intros ref _.
  apply safely_invoke; [done..|]. intros [p|] st' _ Hp; [|apply safely_ret]. apply safely_invoke; [done|by apply Hp|]. intros. apply safely_ret.
Qed.

Lemma handle_get_safely path st : path ≠ [] -> req_method req = lit "GET" -> safely (handle_get path req rep) st.
Proof.
  destruct path as [|c path]; [done|]. intros _ Hm. apply safely_compute; [rewrite substr_one; apply returns_ret|]. intros ref _.
  apply safely_invoke; [done..|]. intros [p|] st1 _ Hp; [|apply safely_ret]. apply safely_invoke; [done|by apply Hp|]. intros b st2 _ _.
  apply safely_invoke; [done..|]. intros [file|] st3 _ Hfile; [|apply safely_ret]. cbv zeta. apply safely_bind; [|intros; apply safely_ret].
  destruct (output_type _) as [t|] eqn:E; [|apply safely_ret]. apply safely_invoke; [|done|intros; apply safely_ret].
  split_and!; [done..|]. exists (filePath_ b), file. by split.
Qed.

Lemma enumerate_stat_safely n blobs st : Forall (fun e => is_Some (heap st !! e.2)) blobs -> safely (enumerate_stat n blobs) st.
Proof.
  revert n st. induction blobs as [|[k p] blobs IH]; intros n st; [intros; apply safely_ret|]. intros [Hp Hb]%Forall_cons. cbn [enumerate_stat].
  destruct (n <? 25); [|by apply IH]. apply safely_invoke; [done..|]. intros b st' Hl _. apply safely_bind; [|intros; apply safely_ret].
  apply IH. eapply Forall_impl; [exact Hb|]. intros e He. by eapply later_lookup.
Qed.

Lemma handle_enumerate_safely path st : safely (handle_enumerate path req rep) st.
Proof.
  apply safely_compute; [apply decode_after_returns|]. intros after _. apply safely_invoke; [done..|]. intros blobs st1 _ Hb.
  apply safely_bind; [by apply enumerate_stat_safely|]. intros stat st2 _. apply safely_compute; [apply write_total|]. intros. apply safely_ret.
Qed.

Lemma put_parts_safely parts st : req_method req = lit "PUT" \/ req_method req = lit "POST" -> safely (put_parts parts) st.
Proof.
  intros Hm. revert st. induction parts as [|[hs [|x payload]] parts IH]; intros st; [apply safely_ret|apply IH|]. cbn [put_parts part_payload].
  apply safely_invoke; [by split|done|]. intros _ st' _ _. apply IH.
Qed.

Lemma handle_put_safely path st : req_method req = lit "PUT" \/ req_method req = lit "POST" -> safely (handle_put path req rep) st.
Proof.
  intros Hm. unfold handle_put. destruct (bool_decide _); [apply safely_ret|]. destruct (attributeValue _ _); [|apply safely_ret].
  apply safely_compute; [apply form_returns|]. intros form _. apply safely_bind; [by apply put_parts_safely|]. intros. apply safely_ret.
Qed.

Lemma stat_blobs_safely blobs st : safely (stat_blobs blobs) st.
Proof.
  revert st. induction blobs as [|b blobs IH]; intros st; [apply safely_ret|]. cbn [stat_blobs]. apply safely_invoke; [done..|].
  intros [p|] st1 _ Hp; [|apply IH]. apply safely_invoke; [done|by apply Hp|]. intros x st2 _ _. apply safely_bind; [apply IH|]. intros. apply safely_ret.
Qed.

Lemma handle_stat_safely path st : safely (handle_stat path req rep) st.
Proof.
  apply safely_compute; [apply stat_request_returns|]. intros [blobs|] _; [|apply safely_ret]. apply safely_bind; [apply stat_blobs_safely|]. intros stat st1 _.
  apply safely_compute; [apply write_total|]. intros. apply safely_ret.
Qed.

(** Whatever the request, and whatever the other threads do to the index between
    the calls of the handler. *)
Lemma handler_safely st : safely (handler c_ req rep) st.
Proof.
  unfold handler. destruct (url_decode (req_uri req)) as [path|]; [|apply safely_ret]. destruct (path_refused path) eqn:Hp; [apply safely_ret|].
  assert (path ≠ []) as Hne by (by intros ->).
  destruct (starts_with path (lit "/static/")); [apply handle_static_safely|]. destruct (starts_with path (lit "/stat")); [apply handle_stat_safely|].
  destruct (_ && _); [apply handle_enumerate_safely|]. destruct (bool_decide (req_method req = lit "HEAD")); [by apply handle_check_safely|].
  destruct (bool_decide (req_method req = lit "GET")) eqn:Hg; [apply bool_decide_eq_true in Hg; by apply handle_get_safely|].
  destruct (_ || _) eqn:Hm; [|apply safely_ret]. apply handle_put_safely. by apply orb_true_iff in Hm as [?%bool_decide_eq_true|?%bool_decide_eq_true]; [left|right].
Qed.
End handlers.

(** The handler alone: a reply and a well-formed store, or a failure of the file
    system or of the compressor, each on a request that asks for it. *)
Lemma handle_request_outcome req rep st : store_ok st ->
  match handle_request c_ req rep st with
  | Ret (_, st') => store_ok st'
  | o => exists c st1, asked req rep c st1 /\ may_fail c o /\ (req_method req = lit "GET" -> st1 = st)
  end.
Proof.
  intros Hst. pose proof (always_run c_ _ _ _ st Hst (handler_safely req rep st)) as H. unfold handle_request.
  assert (req_method req = lit "GET" -> always c_ (fun c st => asked req rep c st /\ reads_only c) (handler c_ req rep) (fun _ _ => True) st) as Hget.
  { intros Hg. eapply always_mono; [|done|apply handler_safely]. intros c st1 Hc. split; [done|]. destruct c; try done. destruct Hc as [_ [Hm|Hm]]; by rewrite Hg in Hm. }
  destruct (decide (req_method req = lit "GET")) as [Hg|Hg].
  - pose proof (always_run c_ _ _ _ st Hst (Hget Hg)) as H'. clear H.
    destruct (run c_ _ st) as [[r st']|e| |]; [by apply H'|..]; destruct H' as (c & st1 & [Hc _] & Hf & Hs); exists c, st1; (split_and!; [done..|]); intros _; apply Hs; by intros ? ? [].
  - destruct (run c_ _ st) as [[r st']|e| |]; [by apply H|..]; destruct H as (c & st1 & Hc & Hf & _); by exists c, st1.
Qed.

(** Whatever a request holds, it only adds contents. *)
Lemma perform_grows files c st cs a st' (Hopen : forall path, open_for_write_ok path = true) :
  refines c_ files st cs -> perform c_ c st = Ret (a, st') -> exists new, refines c_ files st' (cs ++ new).
Proof.
  intros Hr. destruct (decide (reads_only c)) as [Hc|Hc].
  - intros ->%perform_reads_only; [|done]. exists []. by rewrite app_nil_r.
  - destruct c as [| provided content | | | |]; try (by destruct Hc). cbn [perform]. intros E.
    pose proof (add_blob_grows c_ files provided content st cs Hr (Hopen _)) as Hg. by rewrite E in Hg.
Qed.

Lemma run_grows {A} files (m : program A) st cs x st' (Hopen : forall path, open_for_write_ok path = true) :
  refines c_ files st cs -> run c_ m st = Ret (x, st') -> exists new, refines c_ files st' (cs ++ new).
Proof.
  revert st cs. induction m as [o|c k IH]; intros st cs Hr; cbn [run].
  - destruct o; try done. intros [= _ <-]. exists []. by rewrite app_nil_r.
  - destruct (perform c_ c st) as [[a st1]| | |] eqn:E; try done. rewrite outcome_bind_ret. intros H.
    destruct (perform_grows files c st cs a st1 Hopen Hr E) as [new1 Hr1]. destruct (IH a st1 _ Hr1 H) as [new2 Hr2]. exists (new1 ++ new2). by rewrite app_assoc.
Qed.
End safety.
