(* ===== verification/HttpStore.v ===== *)
(** * The blob protocol

    What the requests of the protocol do to a store that holds a list of
    contents ([BlobIndex.refines]): upload, download, check, stat and
    enumeration, from the request line to the reply. *)

From S2P Require Import Prelude CppString StdMap Http MimeTypes Reply Config Hash BlobKey.
From S2P Require Import Blob BlobIndex Calls Qi QueryString Multipart JsonValue JsonEscape JsonWriter RequestHandler.

Local Open Scope Z_scope.

Section protocol.
Context {digest : Digest} {platform : Platform} {qi : Qi} {static : StaticFiles} {zopfli : Zopfli}.
Context (c_ : Config).

(** A reply as a connection hands it to the handler. *)
Definition fresh (rep : reply.reply) : Prop := reply.headers rep = [] /\ reply.content rep = [].

(** ** Download and check *)

Definition uri_plain (c : ascii) : bool := negb (c =? "%")%char && negb (c =? "+")%char.

(** A path that names a blob: not one of the other resources. *)
Record blob_uri (ref : bytes) : Prop := {
  bu_plain : forallb uri_plain ref = true;
  bu_dots : find_nat ("/"%char :: ref) (lit "..") = None;
  bu_stat : starts_with ("/"%char :: ref) (lit "/stat") = false;
  bu_enumerate : starts_with ("/"%char :: ref) (lit "/enumerate-blobs") = false;
  bu_short : Z.of_nat (length ref) < 2 ^ 32;
}.

Definition octets (length_of : bytes) : list header :=
  [header_pair (lit "Content-Length") length_of;
   header_pair (lit "Content-Type") (lit "application/octet-stream")].

(** The reply to a download: the content, encoded as the client asked. *)
Definition download_reply (accept_encoding content : bytes) : outcome reply.reply :=
  match output_type accept_encoding with
  | Some t =>
      out ← ZopfliCompress t content;
      Ret (reply.Reply reply.ok
        (octets (show_Z (Z.of_nat (length out))) ++ [header_pair (lit "Content-Encoding") (encoding_name t)]) out)
  | None => Ret (reply.Reply reply.ok (octets (show_Z (Z.of_nat (length content)))) content)
  end.

Definition check_reply (content : bytes) : reply.reply :=
  reply.Reply reply.ok (octets (show_Z (s32 (Z.of_nat (length content))))) [].

Lemma starts_with_static path : starts_with path (lit "/stat") = false -> starts_with path (lit "/static/") = false.
Proof.
  intros H. destruct (starts_with path (lit "/static/")) eqn:E; [|done].
  apply starts_with_spec in E as [r ->]. discriminate.
Qed.

Lemma substr_tail c s : Z.of_nat (length s) < 2 ^ 32 -> substr (c :: s) 1 npos = Ret s.
Proof. intros H. rewrite substr_one. rewrite take_ge; [done|]. unfold npos. lia. Qed.

Lemma blob_request req rep ref :
  blob_uri ref -> req_uri req = "/"%char :: ref ->
  handler c_ req rep =
    if bool_decide (req_method req = lit "HEAD") then handle_check ("/"%char :: ref) req rep
    else if bool_decide (req_method req = lit "GET") then handle_get ("/"%char :: ref) req rep
    else if bool_decide (req_method req = lit "PUT") || bool_decide (req_method req = lit "POST") then
      handle_put ("/"%char :: ref) req rep
    else mret (reply.stock_reply reply.bad_request).
Proof.
  intros [Hp Hd Hs He _] Hu. unfold handler. rewrite Hu, url_decode_plain.
  - unfold path_refused. rewrite Hd. change (negb ("/" =? "/")%char) with false.
    cbn [orb]. rewrite bool_decide_false by (by intros [? ?]).
    by rewrite (starts_with_static _ Hs), Hs, He.
  - cbn [forallb]. apply andb_true_iff. split; [done|]. exact Hp.
Qed.

Lemma download_spec req rep st cs ref :
  refines c_ ∅ st cs -> collision_free cs -> blob_uri ref -> fresh rep ->
  req_uri req = "/"%char :: ref -> req_method req = lit "GET" ->
  handle_request c_ req rep st =
    (r ← match abs_find ref cs with
         | Some c => download_reply (get_header_ci (req_headers req) (lit "Accept-Encoding")) c
         | None => Ret (reply.stock_reply reply.not_found)
         end;
     Ret (r, st)).
Proof.
  intros Hr Hcf Hb [Hh Hc0] Hu Hm. unfold handle_request. rewrite (blob_request req rep ref Hb Hu).
  rewrite Hm. rewrite bool_decide_false by done. rewrite bool_decide_true by done.
  unfold handle_get. rewrite substr_tail by apply Hb. autorewrite with program.
  pose proof (get_refines c_ ∅ ref st cs Hcf Hr (bu_short _ Hb)) as Hg.
  destruct (abs_find ref cs) as [c|].
  - destruct Hg as (p & b & -> & Hp & Hc & Hf & _). autorewrite with program.
    unfold deref. rewrite Hp. cbn [or_undefined]. autorewrite with program. rewrite Hf.
    rewrite (content_file c_ ∅ st cs c eq_refl Hcf Hr Hc). cbv zeta.
    unfold download_reply, push_lengths, push_reply_header, set_content, set_status, content_size.
    cbn [reply.headers reply.content reply.status]. rewrite Hh, Hc0. cbn [app].
    destruct (output_type _) as [t|]; [|done]. rewrite run_bind. autorewrite with program. by destruct (ZopfliCompress t c).
  - by rewrite Hg.
Qed.

Lemma check_spec req rep st cs ref :
  refines c_ ∅ st cs -> collision_free cs -> blob_uri ref -> fresh rep ->
  req_uri req = "/"%char :: ref -> req_method req = lit "HEAD" ->
  handle_request c_ req rep st =
    Ret (match abs_find ref cs with
         | Some c => check_reply c
         | None => reply.stock_reply reply.not_found
         end, st).
Proof.
  intros Hr Hcf Hb [Hh Hc0] Hu Hm. unfold handle_request. rewrite (blob_request req rep ref Hb Hu).
  rewrite Hm. rewrite bool_decide_true by done.
  unfold handle_check. rewrite substr_tail by apply Hb. autorewrite with program.
  pose proof (get_refines c_ ∅ ref st cs Hcf Hr (bu_short _ Hb)) as Hg.
  destruct (abs_find ref cs) as [c|].
  - destruct Hg as (p & b & -> & Hp & _ & _ & Hz). autorewrite with program.
    unfold deref. rewrite Hp. cbn [or_undefined]. autorewrite with program. rewrite Hz.
    unfold check_reply, push_lengths, push_reply_header, set_status.
    cbn [reply.headers reply.content reply.status]. by rewrite Hh, Hc0.
  - by rewrite Hg.
Qed.

(** ** Upload *)

Definition multipart_type (boundary : bytes) : bytes := lit "multipart/form-data; boundary=" ++ boundary.

Record boundary_ok (b : bytes) : Prop := {
  bo_chars : forallb ascii_char b = true;
  bo_head : match b with c :: _ => c ≠ dquote | [] => False end;
}.

Lemma parse_unquoted_value v :
  boundary_ok v -> qi_parse header_tokens.value v [] = (Some [], v).
Proof.
  intros [Hc Hh]. unfold header_tokens.value. destruct v as [|c v]; [done|].
  rewrite qi_alt, qi_seq, parse_lit_char_ne by congruence.
  rewrite (plus_one_char _ _ _ _ (one_char_Char ascii_char)).
  pose proof (span_class ascii_char (c :: v) [] Hc I) as H. rewrite app_nil_r in H. by rewrite H.
Qed.

Lemma parse_multipart_type b :
  boundary_ok b ->
  qi_parse header_tokens.query (multipart_type b) [] =
    (Some [], [(lit "boundary", b); (lit "multipart/form-data", [])]).
Proof.
  intros Hb. unfold header_tokens.query, multipart_type.
  change (lit "multipart/form-data; boundary=" ++ b) with
    (print_attr (lit "multipart/form-data", []) ++ lit ";" ++ lit " " ++ lit "boundary" ++ lit "=" ++ b).
  rewrite qi_seq, qi_insert, parse_attr.
  2: { split_and!; [done|vm_compute; reflexivity..]. }
  2: { right. eexists. reflexivity. }
  rewrite qi_seq.
  assert (qi_parse header_tokens.pair (lit "boundary" ++ lit "=" ++ b) ([], []) =
    (Some [], (lit "boundary", b))) as Hp.
  { unfold header_tokens.pair. rewrite qi_pair. cbn [fst snd]. rewrite parse_attr_key.
    - rewrite qi_opt, qi_seq, parse_lit_app, parse_unquoted_value by done. done.
    - done.
    - vm_compute. reflexivity.
    - right. eexists. right. reflexivity. }
  set (m := insert_pair [] _).
  assert (qi_parse (Seq (Lit (lit ";")) (Seq (Lit (lit " ")) (Insert header_tokens.pair)))
    (lit ";" ++ lit " " ++ lit "boundary" ++ lit "=" ++ b) m =
    (Some [], insert_pair m (lit "boundary", b))) as E.
  { by rewrite qi_seq, parse_lit_app, qi_seq, parse_lit_app, qi_insert, Hp. }
  rewrite (qi_star_step _ _ _ _ _ _ E) by (simpl; lia).
  rewrite (qi_star_fail _ _ _ _ (insert_pair m (lit "boundary", b))); [|by rewrite qi_seq, qi_lit].
  by rewrite qi_opt, qi_eol.
Qed.

Lemma boundary_of_type b :
  boundary_ok b -> attributeValue (lit "boundary") (parse_boundry_header (multipart_type b)) = Some b.
Proof. intros Hb. unfold parse_boundry_header. by rewrite parse_multipart_type. Qed.

(** What an upload stores: the payloads that are not empty. *)
Definition payloads (ps : list form_part) : list bytes :=
  filter (fun c => c ≠ []) (fp_payload <$> ps).

Lemma put_parts_refines ps st cs :
  Forall (writable c_) (payloads ps) -> refines c_ ∅ st cs ->
  exists st', run c_ (put_parts (part_of <$> ps)) st = Ret (tt, st') /\ refines c_ ∅ st' (cs ++ payloads ps).
Proof.
  revert st cs. induction ps as [|p ps IH]; intros st cs Hw Hr.
  - exists st. by rewrite app_nil_r.
  - unfold payloads in *. rewrite !fmap_cons, filter_cons in *. cbn [put_parts part_of part_payload].
    destruct (fp_payload p) as [|x c] eqn:E.
    + rewrite decide_False in * by (by intros F; apply F). by apply IH.
    + rewrite decide_True in * by done. apply Forall_cons in Hw as [[Hd Ho] Hw].
      autorewrite with program. rewrite add_blob_spec by done. cbn [accepts]. rewrite outcome_bind_ret.
      destruct (IH (add_result c_ (x :: c) st) (cs ++ [x :: c]) Hw) as (st' & Hst' & Hr').
      { by apply add_result_refines. }
      exists st'. split; [done|]. by rewrite <-app_assoc in Hr'.
Qed.

(** A request that uploads a form. *)
Record upload_request (req : request) (b : bytes) (ps : list form_part) : Prop := {
  ur_method : req_method req = lit "PUT" \/ req_method req = lit "POST";
  ur_uri : exists r, blob_uri r /\ req_uri req = "/"%char :: r;
  ur_boundary : boundary_ok b;
  ur_type : get_header_ci (req_headers req) (lit "Content-Type") = multipart_type b;
  ur_body : req_content req = print_form b ps;
}.

Lemma upload_dispatch req rep st b ps :
  upload_request req b ps ->
  handle_request c_ req rep st =
    (mpfd ← MultiPartFormData_new b (print_form b ps);
     '(_, st) ← run c_ (put_parts (parts_ mpfd)) st;
     Ret (set_status reply.ok rep, st)).
Proof.
  intros [Hm (r & Hu & Hr) Hb Ht Hbody]. unfold handle_request. rewrite (blob_request req rep r Hu Hr).
  assert (req_method req ≠ lit "HEAD" /\ req_method req ≠ lit "GET" /\
    (bool_decide (req_method req = lit "PUT") || bool_decide (req_method req = lit "POST")) = true)
    as (H1 & H2 & H3).
  { destruct Hm as [->| ->]; split_and!; try done. }
  rewrite !bool_decide_false, H3 by done. unfold handle_put. rewrite Ht, Hbody.
  rewrite bool_decide_false by done. rewrite boundary_of_type by done. autorewrite with program.
  destruct (MultiPartFormData_new _ _); try done. rewrite !outcome_bind_ret, run_bind. by destruct (run _ _ _) as [[]| | |].
Qed.

Lemma upload_spec req rep st cs b p ps :
  refines c_ ∅ st cs -> upload_request req b (p :: ps) -> Forall (part_ok b) (p :: ps) ->
  Forall (writable c_) (payloads (p :: ps)) ->
  exists st', handle_request c_ req rep st = Ret (set_status reply.ok rep, st') /\
    refines c_ ∅ st' (cs ++ payloads (p :: ps)).
Proof.
  intros Hr Hu Hok Hw. rewrite (upload_dispatch req rep st b _ Hu), parse_print_form by done.
  rewrite outcome_bind_ret. cbn [parts_].
  destruct (put_parts_refines (p :: ps) st cs Hw Hr) as (st' & -> & Hr').
  exists st'. by rewrite outcome_bind_ret.
Qed.

(** ** Stat *)

(** The references asked for that name a content, with its size. *)
Definition known (blobs : list bytes) (cs : list bytes) : Array :=
  omap (fun ref => (fun c => blob_value ref (s32 (Z.of_nat (length c)))) <$> abs_find ref cs) blobs.

Lemma stat_blobs_spec blobs st cs :
  refines c_ ∅ st cs -> collision_free cs -> Forall (fun r => Z.of_nat (length r) < 2 ^ 32) blobs ->
  run c_ (stat_blobs blobs) st = Ret (known blobs cs, st).
Proof.
  intros Hr Hcf. induction 1 as [|ref blobs Href _ IH]; [done|]. cbn [stat_blobs]. autorewrite with program.
  pose proof (get_refines c_ ∅ ref st cs Hcf Hr Href) as Hg. unfold known in *. cbn [omap list_omap].
  destruct (abs_find ref cs) as [c|].
  - destruct Hg as (p & b & -> & Hp & _ & _ & Hz). autorewrite with program.
    unfold deref. rewrite Hp. cbn [or_undefined].
    unfold Array in *. by rewrite outcome_bind_ret, run_bind, IH, outcome_bind_ret, Hz.
  - rewrite Hg, outcome_bind_ret. exact IH.
Qed.

(** A path of [/stat] that is not a file. *)
Definition stat_path (path : bytes) : Prop :=
  path_refused path = false /\ starts_with path (lit "/static/") = false /\
  starts_with path (lit "/stat") = true.

Lemma stat_dispatch req rep path :
  url_decode (req_uri req) = Some path -> stat_path path -> handler c_ req rep = handle_stat path req rep.
Proof. intros Hu (H1 & H2 & H3). unfold handler. by rewrite Hu, H1, H2, H3. Qed.

Lemma stat_blobs_given path req : exists blobs, stat_request_blobs path req = Ret (Some blobs).
Proof.
  unfold stat_request_blobs. rewrite u32_npos_ne. repeat case_match.
  - destruct (decode_blobs_returns [] path) as [x ->]. by eexists.
  - destruct (decode_blobs_returns [] (req_content req)) as [x ->]. by eexists.
  - by eexists.
Qed.

Lemma stat_spec req rep st cs path blobs :
  refines c_ ∅ st cs -> collision_free cs -> url_decode (req_uri req) = Some path -> stat_path path ->
  stat_request_blobs path req = Ret (Some blobs) -> Forall (fun r => Z.of_nat (length r) < 2 ^ 32) blobs ->
  exists content, write (stat_result (known blobs cs)) = Ret content /\
    handle_request c_ req rep st = Ret (json_reply content rep, st).
Proof.
  intros Hst Hcf Huri Hpath Hblobs Hlen. destruct (write_total (stat_result (known blobs cs))) as [content Hc]. exists content.
  split; [done|]. unfold handle_request. rewrite (stat_dispatch req rep path Huri Hpath). unfold handle_stat. rewrite Hblobs. autorewrite with program.
  rewrite run_bind, (stat_blobs_spec blobs st cs Hst Hcf Hlen). autorewrite with program. by rewrite Hc.
Qed.

(** The query of a conforming [/stat] request, in its URI or its body: pairs with
    distinct keys, the version among them. *)
Record stat_request (req : request) (p : bytes * bytes) (ps : list (bytes * bytes)) : Prop := {
  sr_given :
    req_method req = lit "GET" /\ req_uri req = lit "/stat?" ++ print_query p ps /\
      forallb uri_plain (req_uri req) = true /\ find_nat (req_uri req) (lit "..") = None \/
    req_method req = lit "POST" /\ req_uri req = lit "/stat" /\ req_content req = print_query p ps;
  sr_version : (lit "camliversion", lit "1") ∈ p :: ps;
  sr_pairs : Forall pair_ok (p :: ps);
  sr_keys : NoDup (p :: ps).*1;
  sr_short : Z.of_nat (length (print_query p ps)) < 2 ^ 31;
}.

(** The references it asks for. *)
Definition blob_pairs (p : bytes * bytes) (ps : list (bytes * bytes)) : list (bytes * bytes) :=
  filter (fun e => starts_with e.1 (lit "blob") = true) (query_map (p :: ps)).

Lemma blob_pairs_spec p ps : NoDup (p :: ps).*1 ->
  blob_pairs p ps ≡ₚ filter (fun e => starts_with e.1 (lit "blob") = true) (p :: ps) /\
  StronglySorted (fun a b => bytes_ltb a.1 b.1 = true) (blob_pairs p ps).
Proof.
  intros Hk. unfold blob_pairs. split; [|apply sorted_filter, query_map_sorted]. apply filter_Permutation.
  assert (fold_left insert_pair (p :: ps) [] ≡ₚ (p :: ps) ++ []) as H by (apply (map_insert_all bytes_ltb); by rewrite app_nil_r). by rewrite app_nil_r in H.
Qed.

Lemma stat_request_asks req p ps : stat_request req p ps ->
  exists path, url_decode (req_uri req) = Some path /\ stat_path path /\
    stat_request_blobs path req = Ret (Some (blob_pairs p ps).*2).
Proof.
  intros [Hg Hv Hp Hk Hl]. assert (Z.of_nat (length (print_query p ps)) < 2 ^ 32) as Hl' by lia.
  destruct Hg as [(Hm & Hu & Hplain & Hdots)|(Hm & Hu & Hc)].
  - exists (req_uri req). split; [by apply url_decode_plain|]. split.
    + split_and!; [|by rewrite Hu..]. unfold path_refused. rewrite Hdots, Hu. done.
    + unfold stat_request_blobs. rewrite bool_decide_true, u32_npos_ne by done.
      assert (req_uri req = lit "/stat" ++ "?"%char :: print_query p ps) as -> by exact Hu.
      destruct (decode_printed_query (lit "/stat") p ps [] ltac:(by apply (bool_decide_eq_true_1 _)) Hp) as [-> _]; [|done].
      rewrite length_app. cbn [length]. change (length (lit "/stat")) with 5%nat. lia.
  - exists (lit "/stat"). rewrite Hu. split; [done|]. split; [done|]. unfold stat_request_blobs. rewrite Hm, Hc.
    change (bool_decide (lit "POST" = lit "GET")) with false. change (bool_decide (lit "POST" = lit "POST")) with true. cbv iota.
    unfold decode_query_string_blobs. rewrite after_question_mark_none, outcome_bind_ret by (try done; by apply print_pairs_no_question).
    apply Forall_cons in Hp as [Hp Hps]. by rewrite (parse_query p ps Hp Hps).
Qed.

Lemma print_rest_short q ps : q ∈ ps -> (length q.2 <= length (print_rest ps))%nat.
Proof.
  induction ps as [|p ps IH]; [by intros ?%elem_of_nil|]. cbn [print_rest]. rewrite elem_of_cons. cbn [length]. rewrite length_app.
  intros [->|Hq]; [|specialize (IH Hq); lia]. unfold print_pair. rewrite length_app. destruct p.2; cbn [length]; lia.
Qed.

Lemma blob_pairs_short p ps r : NoDup (p :: ps).*1 -> r ∈ (blob_pairs p ps).*2 -> (length r <= length (print_query p ps))%nat.
Proof.
  intros Hk (q & -> & Hq)%list_elem_of_fmap. rewrite (proj1 (blob_pairs_spec p ps Hk)) in Hq. apply list_elem_of_filter in Hq as [_ Hq].
  change (print_query p ps) with (print_pair p ++ print_rest ps). rewrite length_app. apply elem_of_cons in Hq as [->|Hq]; [|pose proof (print_rest_short q ps Hq); lia].
  unfold print_pair. rewrite length_app. destruct p.2; cbn [length]; lia.
Qed.

(** ** Enumeration *)

Definition entry_value (st : store) (e : BlobKey * nat) : Value :=
  blob_value (blobref e.1) (match heap st !! e.2 with Some b => size_ b | None => 0 end).

Lemma enumerate_stat_take st n es :
  Forall (fun e => is_Some (heap st !! e.2)) es -> 0 <= n ->
  run c_ (enumerate_stat n es) st = Ret (entry_value st <$> take (Z.to_nat (25 - n)) es, st).
Proof.
  intros H. revert n. induction H as [|[k p] es [b Hb] _ IH]; intros n Hn; [by rewrite take_nil|].
  simpl in Hb. cbn [enumerate_stat]. destruct (Z.ltb_spec n 25).
  - autorewrite with program. unfold deref. rewrite Hb. cbn [or_undefined]. unfold Array in *. rewrite outcome_bind_ret, run_bind, IH by lia.
    rewrite outcome_bind_ret. replace (Z.to_nat (25 - n)) with (S (Z.to_nat (25 - (n + 1)))) by lia.
    cbn [take fmap list_fmap]. unfold entry_value at 2. simpl. by rewrite Hb.
  - rewrite IH by lia. by replace (Z.to_nat (25 - n)) with O by lia;
      replace (Z.to_nat (25 - (n + 1))) with O by lia.
Qed.

(** The reply to an enumeration of the entries [es] from a reference on. *)
Lemma handle_enumerate_spec path req rep st after es :
  decode_query_string_after path = Ret after ->
  entries_from after st = Ret es -> Forall (fun e => is_Some (heap st !! e.2)) es ->
  run c_ (handle_enumerate path req rep) st =
    (content ← write (enumerate_result (entry_value st <$> take 25 es) (take 26 es)); Ret (json_reply content rep, st)).
Proof.
  intros Hd He Hf. unfold handle_enumerate. rewrite Hd. autorewrite with program. rewrite paginate_eq, He, !outcome_bind_ret.
  change (Z.to_nat (Z.max 1 (u64 26))) with 26%nat. rewrite run_bind, enumerate_stat_take; [|by apply Forall_take|lia].
  autorewrite with program. change (Z.to_nat (25 - 0)) with 25%nat. rewrite take_take. done.
Qed.

Lemma last_take_26 (es : list (BlobKey * nat)) e rest :
  drop 25 es = e :: rest -> (25 < Z.of_nat (length (take 26 es))) /\ last (take 26 es) = Some e.
Proof.
  intros H. assert (take 26 es = take 25 es ++ [e]) as ->.
  { apply take_S_snoc. rewrite <-(Nat.add_0_r 25), <-lookup_drop. by rewrite H. }
  assert (25 < length es)%nat.
  { apply (f_equal length) in H. rewrite length_drop in H. simpl in H. lia. }
  rewrite last_snoc, length_app, length_take. cbn [length]. split; [lia|done].
Qed.

(** What a client reads in it. *)
Lemma enumerate_result_fields stat blobs :
  exists o, enumerate_result stat blobs = Obj o /\ find_value o (lit "blobs") = Arr stat /\
    find_value o (lit "continueAfter") =
      match (if 25 <? Z.of_nat (length blobs) then last blobs else None) with
      | Some (k, _) => Str (blobref k)
      | None => Null
      end.
Proof.
  unfold enumerate_result. eexists. split; [reflexivity|]. split; [reflexivity|].
  destruct (25 <? Z.of_nat (length blobs)); [|reflexivity]. by destruct (last blobs) as [[k p]|].
Qed.

Lemma refines_keys st cs :
  refines c_ ∅ st cs -> Forall (fun e => create_blob_key (blobref e.1) = Ret (Some e.1)) (blobs_ st).
Proof.
  intros Hr. apply Forall_forall. intros [k p] Hkp. simpl.
  apply (map_find_In BlobKey_ltb) in Hkp; [|apply Hr].
  destruct (ref_entry _ _ _ _ Hr k p Hkp) as (b & c & _ & _ & Hc & _). by eapply create_content_key.
Qed.
End protocol.

(** ** Properties *)

Section properties.
Context {digest : Digest} {platform : Platform} {qi : Qi} {static : StaticFiles} {zopfli : Zopfli}.
Context (c_ : Config).

(** A [HEAD] of a reference answers 200 with the size of the content it
    names, reduced to an [int], and no body, or the stock 404; and it changes
    nothing. *)
Theorem check_reports_size req rep st cs ref
    (Hst : refines c_ ∅ st cs) (Hcf : collision_free cs) (Href : blob_uri ref) (Hrep : fresh rep)
    (Huri : req_uri req = "/"%char :: ref) (Hm : req_method req = lit "HEAD") :
  handle_request c_ req rep st =
    Ret (match abs_find ref cs with
         | Some c => check_reply c
         | None => reply.stock_reply reply.not_found
         end, st).
Proof. by apply check_spec. Qed.

(** An upload with a part that is not 7-bit answers 200 like any other,
    and stores nothing at all: neither that part nor the others. *)
Theorem binary_upload_acknowledged req rep st b ps q post
    (Hreq : upload_request req b (ps ++ q :: post)) (Hps : Forall (part_ok b) ps)
    (Hb : no_boundary b (print_part q)) (Hhigh : exists c, c ∈ fp_payload q /\ ascii_char c = false) :
  handle_request c_ req rep st = Ret (set_status reply.ok rep, st).
Proof. rewrite (upload_dispatch c_ req rep st b _ Hreq). by rewrite form_high_dropped. Qed.

(** C34. A [/stat] request answers 200 with the JSON object of the protocol. For a
    [GET], or a [POST] with the query as its body, whose query holds
    [camliversion=1] and no key twice, the [stat] array has, for each value of a key
    that starts with [blob], in the order of these keys, the reference and the size
    of the content it names, and nothing for the references that name none; no two
    contents of the store share a digest. *)
Theorem stat_lists_known req rep st cs p ps
    (Hst : refines c_ ∅ st cs) (Hcf : collision_free cs) (Hreq : stat_request req p ps) :
  exists asked content,
    asked ≡ₚ filter (fun e => starts_with e.1 (lit "blob") = true) (p :: ps) /\
    StronglySorted (fun a b => bytes_ltb a.1 b.1 = true) asked /\
    write (stat_result (known asked.*2 cs)) = Ret content /\
    handle_request c_ req rep st = Ret (json_reply content rep, st).
Proof.
  pose proof (sr_keys _ _ _ Hreq) as Hk. destruct (blob_pairs_spec p ps Hk) as [Hperm Hsorted]. exists (blob_pairs p ps).
  destruct (stat_request_asks req p ps Hreq) as (path & Hu & Hp & Hb).
  destruct (stat_spec c_ req rep st cs path _ Hst Hcf Hu Hp Hb) as (content & H1 & H2); [|by exists content].
  apply Forall_forall. intros r Hr%blob_pairs_short; [|done]. pose proof (sr_short _ _ _ Hreq). lia.
Qed.

(** The check of [camliversion] in [/stat] never fires: the position is an
    [unsigned] compared with the 64-bit [npos], so a request without it is
    answered 200 like the others. *)
Theorem stat_version_unchecked req rep st path
    (Hst : store_ok st) (Huri : url_decode (req_uri req) = Some path) (Hpath : stat_path path) :
  exists r, handle_request c_ req rep st = Ret (r, st) /\ reply.status r = reply.ok.
Proof.
  unfold handle_request. rewrite (stat_dispatch c_ req rep path Huri Hpath). unfold handle_stat.
  destruct (stat_blobs_given path req) as [blobs ->]. autorewrite with program. rewrite run_bind.
  set (quiet := fun (c : call) (_ : store) => match c with call_add_blob _ _ | call_compress _ _ => False | _ => True end).
  assert (always c_ quiet (stat_blobs blobs) (fun _ _ => True) st) as H.
  { eapply always_mono; [|done|apply (stat_blobs_safely c_ (Request [] [] 0 0 [] [] []) rep blobs st)].
    intros c st' Hc. destruct c; try done; [by destruct Hc as [_ [?|?]]|by destruct Hc]. }
  pose proof (always_run c_ _ _ _ st Hst H) as Hr.
  destruct (run c_ (stat_blobs blobs) st) as [[stat st']|e| |]; [|by destruct Hr as ([] & ? & ? & ? & _)..].
  destruct Hr as (_ & _ & ->); [|by intros []]. autorewrite with program.
  destruct (write_total (stat_result stat)) as [content ->]. by eexists.
Qed.

End properties.

(** ** Examples *)

Section witnesses.
Let D : Digest := toy_digest.
Let P : Platform := working_platform.
Let Q : Qi := peg_qi.
Let F : StaticFiles := {| open_for_read _ := None |}.
Let ZF : Zopfli := {| ZopfliCompress _ c := Ret c |}.
Local Existing Instance D.
Local Existing Instance P.
Local Existing Instance Q.
Local Existing Instance F.
Local Existing Instance ZF.

Definition sample_upload (ps : list form_part) : request :=
  Request (lit "POST") (lit "/upload") 1 1
    [header_pair (lit "content-type") (multipart_type (lit "XX"))] (print_form (lit "XX") ps) [].
Definition sample_get (method ref : bytes) : request := Request method ("/"%char :: ref) 1 1 [] [] [].
Definition fresh_reply : reply.reply := reply.Reply reply.ok [] [].
Definition hello_ref : bytes := blobref (blob_key_for (lit "hello") 5 sha1).
Definition hello_part : form_part := sample_part (lit "hello").

Lemma sample_upload_ok ps : upload_request (sample_upload ps) (lit "XX") ps.
Proof.
  split; [by right| |split; [reflexivity|discriminate]|reflexivity|reflexivity].
  exists (lit "upload"). split; [|reflexivity]. split; vm_compute; reflexivity.
Qed.

Lemma hello_part_ok : part_ok (lit "XX") hello_part.
Proof. apply sample_part_ok; vm_compute; reflexivity. Qed.

Lemma hello_uri : blob_uri hello_ref.
Proof. split; vm_compute; reflexivity. Qed.

Lemma collision_free_one c : collision_free [c].
Proof. intros c1 c2 t ->%list_elem_of_singleton ->%list_elem_of_singleton _. done. Qed.

(** A store that holds one content. *)
Definition hello_store : store :=
  match add_blob Config_new None (lit "hello") st0 with Ret (_, st) => st | _ => st0 end.

Lemma hello_refines : refines Config_new ∅ hello_store [lit "hello"].
Proof.
  unfold hello_store. rewrite add_blob_spec by done. simpl accepts. cbv iota.
  by apply (add_result_refines Config_new ∅ _ st0 []), refines_new.
Qed.

Lemma check_reports_size_witness :
  handle_request Config_new (sample_get (lit "HEAD") hello_ref) fresh_reply hello_store =
    Ret (reply.Reply reply.ok (octets (lit "5")) [], hello_store).
Proof.
  rewrite (check_reports_size Config_new _ fresh_reply hello_store [lit "hello"] hello_ref hello_refines).
  - f_equal.
  - apply collision_free_one.
  - apply hello_uri.
  - split; reflexivity.
  - reflexivity.
  - reflexivity.
Defined.

Lemma binary_upload_acknowledged_witness :
  handle_request Config_new (sample_upload [hello_part; sample_part ["137"%char]]) fresh_reply st0 =
    Ret (fresh_reply, st0).
Proof.
  apply (binary_upload_acknowledged Config_new _ fresh_reply st0 (lit "XX") [hello_part]
    (sample_part ["137"%char]) []).
  - apply sample_upload_ok.
  - apply Forall_singleton, hello_part_ok.
  - apply no_boundary_b_ok. vm_compute. reflexivity.
  - exists "137"%char. split; [left|reflexivity].
Defined.

Definition sample_pairs : list (bytes * bytes) := [(lit "blob2", lit "sha1-0"); (lit "blob1", hello_ref)].
Definition sample_stat : request :=
  Request (lit "GET") (lit "/stat?" ++ print_query (lit "camliversion", lit "1") sample_pairs) 1 1 [] [] [].

Lemma sample_stat_ok : stat_request sample_stat (lit "camliversion", lit "1") sample_pairs.
Proof.
  split.
  - left. split_and!; vm_compute; reflexivity.
  - left.
  - repeat (apply Forall_cons; split; [split; vm_compute; auto|]). apply Forall_nil. exact I.
  - apply (bool_decide_eq_true_1 _). vm_compute. reflexivity.
  - vm_compute. reflexivity.
Qed.

Lemma stat_lists_known_witness :
  exists asked content, asked ≡ₚ sample_pairs /\ write (stat_result (known asked.*2 [lit "hello"])) = Ret content /\
    handle_request Config_new sample_stat fresh_reply hello_store = Ret (json_reply content fresh_reply, hello_store).
Proof.
  destruct (stat_lists_known Config_new sample_stat fresh_reply hello_store [lit "hello"] (lit "camliversion", lit "1") sample_pairs)
    as (asked & content & H1 & _ & H2 & H3).
  - apply hello_refines.
  - apply collision_free_one.
  - exact sample_stat_ok.
  - exists asked, content. split; [exact H1|]. split; [exact H2|exact H3].
Defined.

Lemma stat_version_unchecked_witness :
  exists r, handle_request Config_new (sample_get (lit "GET") (lit "stat")) fresh_reply st0 = Ret (r, st0) /\
    reply.status r = reply.ok.
Proof.
  apply (stat_version_unchecked Config_new _ fresh_reply st0 (lit "/stat")).
  - apply store_ok_new.
  - vm_compute. reflexivity.
  - split_and!; vm_compute; reflexivity.
Defined.

Lemma static_confined_witness :
  let leak := {| open_for_read p := if bool_decide (p = lit "/etc/passwd") then Some (lit "root") else None |} in
  handle_request (static := F) Config_new (sample_get (lit "GET") (lit "static/x")) fresh_reply st0 =
  handle_request (static := leak) Config_new (sample_get (lit "GET") (lit "static/x")) fresh_reply st0.
Proof.
  intros leak. apply (static_confined F leak Config_new).
  intros p [Hs _]. apply starts_with_spec in Hs as [r ->].
  change (None = if bool_decide (c_str (lit "/static/" ++ r) = lit "/etc/passwd") then Some (lit "root") else None).
  rewrite bool_decide_false; [reflexivity|]. intros E.
  apply (f_equal (take 2)) in E. vm_compute in E. discriminate.
Defined.
End witnesses.
