(* ===== verification/Enumeration.v ===== *)
(** * Enumeration

    What [/enumerate-blobs] answers, page by page, and what a client that follows
    [continueAfter] gets: it sends requests and reads the JSON of the replies. The
    reader of the client is an instance of [JsonReader]. *)

From S2P Require Import Prelude CppString StdMap Http Reply Config Hash BlobKey Blob BlobIndex Calls.
From S2P Require Import Qi QueryString JsonValue JsonWriter Classic JsonRoundTrip RequestHandler HttpStore.

Local Open Scope Z_scope.

Definition first_reply : reply.reply := reply.Reply reply.ok [] [].

(** ** What an enumeration says *)

(** The entries of a store of contents: their text is exact. *)
Definition small (st : store) (e : BlobKey * nat) : Prop :=
  match heap st !! e.2 with Some b => int_min <= size_ b <= int_max | None => True end.

Lemma entry_value_exact st e : small st e ->
  exact (entry_value st e) = true /\ normalize (entry_value st e) = entry_value st e /\
  height (entry_value st e) = 1%nat.
Proof.
  unfold small. intros H. unfold entry_value, blob_value, Value_int. split; [|done]. simpl.
  rewrite andb_true_r. apply andb_true_iff. rewrite Z.leb_le, Z.ltb_lt.
  destruct (heap st !! e.2); unfold int_min, int_max in *; lia.
Qed.

Lemma page_exact st es blobs : Forall (small st) es ->
  let v := enumerate_result (entry_value st <$> es) blobs in
  exact v = true /\ normalize v = v /\ (height v <= 3)%nat.
Proof.
  intros H. assert (forallb exact (entry_value st <$> es) = true /\
    normalize <$> (entry_value st <$> es) = entry_value st <$> es /\
    (max_list (height <$> (entry_value st <$> es)) <= 1)%nat) as (H1 & H2 & H3).
  { induction H as [|e es He _ (IH1 & IH2 & IH3)]; [split_and!; [done|done|simpl; lia]|].
    destruct (entry_value_exact st e He) as (E1 & E2 & E3).
    split; [change (exact (entry_value st e) && forallb exact (entry_value st <$> es) = true); by rewrite E1, IH1|].
    split; [|change (Nat.max (height (entry_value st e)) (max_list (height <$> (entry_value st <$> es))) <= 1)%nat; lia].
    change (normalize (entry_value st e) :: (normalize <$> (entry_value st <$> es)) = entry_value st e :: (entry_value st <$> es)).
    by rewrite E2, IH2. }
  intros v. assert (forall more, Forall (fun m => exists s, m.2 = Str s) more ->
    let v := Obj ([(lit "blobs", Arr (entry_value st <$> es))] ++ more) in
    exact v = true /\ normalize v = v /\ (height v <= 3)%nat) as Hmore.
  { intros more Hm w. subst w. cbn [app exact normalize height forallb snd]. rewrite H1. cbn [fmap list_fmap fst snd normalize height].
    rewrite H2.
    assert (forallb (fun m => exact m.2) more = true /\ (fun m => (m.1, normalize m.2)) <$> more = more /\
      max_list ((fun m => height m.2) <$> more) = 0%nat) as (M1 & M2 & M3).
    { induction Hm as [|[n x] more [s Hs] _ (I1 & I2 & I3)]; [done|]. cbn in Hs. subst x. cbn. split; [done|].
      split; [by f_equal|done]. }
    rewrite M1. split; [done|]. split; [by f_equal; f_equal|].
    change (S (Nat.max (S (max_list (height <$> (entry_value st <$> es)))) (max_list ((fun m => height m.2) <$> more))) <= 3)%nat. lia. }
  apply (Hmore ((if 25 <? Z.of_nat (length blobs) then match last blobs with
      | Some (k, _) => [(lit "continueAfter", Str (blobref k))] | None => [] end else []) ++
    [(lit "canLongPoll", Str (lit "false"))])).
  apply Forall_app. split; [|by apply Forall_singleton; eexists].
  destruct (_ <? _); [|done]. destruct (last blobs) as [[k p]|]; [|done]. apply Forall_singleton. by eexists.
Qed.


(** ** What the server answers *)

Definition enum_path (last : bytes) : bytes :=
  lit "/enumerate-blobs" ++ match last with [] => [] | _ => lit "?after=" ++ last end.

Section remote.
Context {digest : Digest} {platform : Platform} {qi : Qi} {static : StaticFiles} {zopfli : Zopfli}.
Context (c_ : Config).

(** A reference of a content, by its characters. *)
Definition ref_char (c : ascii) : bool := isdigit c || between "a" "z" c || between "A" "Z" c || (c =? "-")%char.

Lemma content_ref_chars k c : k ∈ content_keys c -> forallb ref_char (blobref k) = true.
Proof.
  intros [t ->]%elem_of_content_keys.
  assert (forall x, is_hex_upper x = true -> ref_char x = true) as Hx.
  { intros x. apply implb_true_iff. by_all_chars x. }
  unfold blobref. destruct t; cbn [hash_type hash_value blob_key_for]; rewrite !forallb_app;
    (apply andb_true_iff; split; [done|]); (apply andb_true_iff; split; [done|]);
    (eapply forallb_impl; [exact Hx|]); [apply sha1_hex_digits|apply sha256_hex_digits].
Qed.

Lemma content_ref_head k c : k ∈ content_keys c -> exists r, blobref k = lit "sha" ++ r.
Proof. intros [t ->]%elem_of_content_keys. by destruct t; eexists. Qed.

Lemma no_dots s : "."%char ∉ s -> find_nat s (lit "..") = None.
Proof.
  intros H. apply find_nat_None. intros i. apply starts_with_false. intros r Hr. apply H.
  assert ("."%char ∈ drop i s) as Hin by (rewrite Hr; left).
  rewrite <-(take_drop i s). apply elem_of_app. by right.
Qed.

Lemma ref_char_not f s x : forallb ref_char s = true -> f = x -> ref_char x = false -> f ∉ s.
Proof. intros Hs -> Hx Hin. apply (forallb_elem _ _ _ Hs) in Hin. congruence. Qed.

Lemma content_ref_uri k c : k ∈ content_keys c -> blob_uri (blobref k).
Proof.
  intros Hk. pose proof (content_ref_chars k c Hk) as Hc. destruct (content_ref_head k c Hk) as [r Hr].
  split.
  - eapply forallb_impl; [|exact Hc]. clear. intros x. apply implb_true_iff. by_all_chars x.
  - apply no_dots. rewrite not_elem_of_cons. split; [done|]. by eapply ref_char_not.
  - by rewrite Hr.
  - by rewrite Hr.
  - by eapply content_key_blobref_length.
Qed.

(** The path of an enumeration names its page. *)
Definition page_at (last : bytes) (after : option bytes) : Prop :=
  last = [] /\ after = None \/
  exists k c, k ∈ content_keys c /\ last = blobref k /\ after = Some last.

Lemma enum_path_plain last after : page_at last after ->
  forallb uri_plain (enum_path last) = true /\ find_nat (enum_path last) (lit "..") = None /\
  (nul ∉ enum_path last) /\ decode_query_string_after (enum_path last) = Ret after.
Proof.
  intros [[-> ->]|(k & c & Hk & -> & ->)].
  - split; [done|]. split; [done|]. split; [by apply (bool_decide_eq_true_1 _)|].
    unfold decode_query_string_after. rewrite u32_npos_ne. simpl negb. cbv iota.
    change (u32 (u32 (str_find (enum_path []) (lit "?")) + 1)) with 0.
    rewrite substr_ret by (apply (bool_decide_eq_true_1 _); reflexivity). rewrite outcome_bind_ret.
    unfold query, pair, key. rewrite qi_seq, qi_insert, qi_pair, qi_seq, qi_char. done.
  - pose proof (content_ref_chars k c Hk) as Hc. destruct (content_ref_head k c Hk) as [r Hr].
    assert (length (blobref k) <= 71)%nat as Hlen.
    { pose proof (content_key_value_length k c Hk). unfold blobref. rewrite !length_app.
      change (length (lit "-")) with 1%nat. lia. }
    assert (enum_path (blobref k) = lit "/enumerate-blobs" ++ "?"%char :: print_query (lit "after", blobref k) []) as He.
    { unfold enum_path, print_query, print_pair. cbn [fst snd]. rewrite Hr. cbn. by rewrite app_nil_r. }
    assert (forall x, ref_char x = false -> x ∉ blobref k) as Hnot by (intros x Hx; by eapply ref_char_not).
    assert (enum_path (blobref k) = lit "/enumerate-blobs" ++ lit "?after=" ++ blobref k) as He2.
    { unfold enum_path. by destruct (blobref k). }
    split; [|split; [|split]].
    + rewrite He2, !forallb_app. apply andb_true_iff. split; [done|].
      apply andb_true_iff. split; [done|]. eapply forallb_impl; [|exact Hc]. clear. intros x.
      apply implb_true_iff. by_all_chars x.
    + apply no_dots. rewrite He2, !not_elem_of_app.
      split; [by apply (bool_decide_eq_true_1 _)|]. split; [by apply (bool_decide_eq_true_1 _)|by apply Hnot].
    + rewrite He2, !not_elem_of_app.
      split; [by apply (bool_decide_eq_true_1 _)|]. split; [by apply (bool_decide_eq_true_1 _)|by apply Hnot].
    + rewrite He. unfold decode_query_string_after. rewrite u32_npos_ne. simpl negb. cbv iota.
      assert (pair_ok (lit "after", blobref k)) as Hok.
      { split; [done|]. cbn [snd]. eapply forallb_impl; [|exact Hc]. clear. intros x. apply implb_true_iff. by_all_chars x. }
      pose proof (after_question_mark_app (lit "/enumerate-blobs") (print_query (lit "after", blobref k) [])
        ltac:(by apply (bool_decide_eq_true_1 _))) as Ha.
      unfold after_question_mark in Ha. rewrite u32_npos_ne in Ha. simpl negb in Ha. cbv iota in Ha.
      rewrite Ha, outcome_bind_ret.
      * by rewrite (parse_query _ [] Hok (Forall_nil_2 _)).
      * unfold print_query, print_pair. cbn [fst snd print_rest]. rewrite Hr in *.
        change (match lit "sha" ++ r with [] => [] | v => "="%char :: v end) with ("="%char :: lit "sha" ++ r).
        rewrite app_nil_r, !length_app. cbn [length]. rewrite length_app. cbn [length].
        change (length (lit "/enumerate-blobs")) with 16%nat. change (length (lit "after")) with 5%nat. lia.
Qed.

Lemma refines_small files st cs : refines c_ files st cs -> Forall (small st) (blobs_ st).
Proof.
  intros Hr. apply Forall_forall. intros [k p] Hkp. unfold small. simpl.
  apply (map_find_In BlobKey_ltb) in Hkp; [|apply Hr].
  destruct (ref_entry _ _ _ _ Hr k p Hkp) as (b & c & -> & _ & _ & _ & -> & _). apply s32_range.
Qed.

(** The reply to the request for a page. *)
Lemma enumerate_answer req rep st cs last after es :
  refines c_ ∅ st cs -> page_at last after -> entries_from after st = Ret es -> (exists m, blobs_ st = m ++ es) ->
  req_method req = lit "GET" -> req_uri req = enum_path last ->
  exists w, write (enumerate_result (entry_value st <$> take 25 es) (take 26 es)) = Ret w /\
    handle_request c_ req rep st = Ret (json_reply w rep, st).
Proof.
  intros Hr Hp He [m Hm] Hmeth Huri. destruct (enum_path_plain last after Hp) as (Hplain & Hdots & _ & Hdec).
  destruct (write_total (enumerate_result (entry_value st <$> take 25 es) (take 26 es))) as [w Hw].
  exists w. split; [done|]. unfold handle_request, handler. rewrite Huri, (url_decode_plain _ Hplain).
  assert (exists t, enum_path last = lit "/enumerate-blobs" ++ t) as [t Ht] by by eexists.
  unfold path_refused. rewrite Hdots. rewrite Ht at 1.
  change (match lit "/enumerate-blobs" ++ t with [] => true | c :: _ => _ end) with false. cbv iota.
  replace (starts_with (enum_path last) (lit "/static/")) with false by by rewrite Ht.
  replace (starts_with (enum_path last) (lit "/stat")) with false by by rewrite Ht.
  rewrite Hmeth, bool_decide_eq_true_2 by done. rewrite Ht at 1. rewrite starts_with_app. cbv [andb].
  rewrite (handle_enumerate_spec c_ _ _ _ _ after es Hdec He), Hw; [done|].
  destruct (refines_store_ok _ _ _ _ Hr) as [_ Hf]. rewrite Hm in Hf. by apply Forall_app in Hf as [_ ?].
Qed.
End remote.

(** ** A client that follows [continueAfter] *)

Section client.
Context {digest : Digest} {platform : Platform} {qi : Qi} {static : StaticFiles} {zopfli : Zopfli} {reader : JsonReader}.
Context (c_ : Config) (request_of : bytes -> request).

(** For [fuel] pages at most, from the page after [last] on: the entries of the
    [blobs] arrays. *)
Fixpoint enumerate_pages (fuel : nat) (last : bytes) (st : store) : outcome Array :=
  match fuel with
  | O => Undefined
  | S f =>
      '(rep, st) ← handle_request c_ (request_of (enum_path last)) first_reply st;
      v ← json_read (reply.content rep);
      match v with
      | Some v =>
          obj ← get_obj v;
          page ← get_array (find_value obj (lit "blobs"));
          match find_value obj (lit "continueAfter") with
          | Null => Ret page
          | next => ref ← get_str next; rest ← enumerate_pages f ref st; Ret (page ++ rest)
          end
      | None => Undefined
      end
  end.

Context (Hmethod : forall path, req_method (request_of path) = lit "GET") (Huri : forall path, req_uri (request_of path) = path).
Context (Hstack : (15 <= json_stack)%nat).

(** One page, as the client has it. *)
Lemma enumerate_page fuel last after es m st cs :
  refines c_ ∅ st cs -> page_at last after -> entries_from after st = Ret es -> blobs_ st = m ++ es ->
  enumerate_pages (S fuel) last st =
    match drop 25 es with
    | [] => Ret (entry_value st <$> take 25 es)
    | (k, _) :: _ => rest ← enumerate_pages fuel (blobref k) st; Ret ((entry_value st <$> take 25 es) ++ rest)
    end.
Proof.
  intros Hr Hp He Hm.
  destruct (enumerate_answer c_ (request_of (enum_path last)) first_reply st cs last after es Hr Hp He (ex_intro _ m Hm) (Hmethod _) (Huri _)) as (w & Hw & Hans).
  assert (Forall (small st) (take 25 es)) as Hs.
  { apply Forall_take. pose proof (refines_small _ _ _ _ Hr) as Hall. rewrite Hm in Hall. by apply Forall_app in Hall as [_ ?]. }
  destruct (page_exact st (take 25 es) (take 26 es) Hs) as (Hexact & Hnorm & Hheight).
  cbn [enumerate_pages]. rewrite Hans, outcome_bind_ret. change (reply.content (json_reply w first_reply)) with (w ++ crlf).
  rewrite (json_read_write _ w crlf Hw Hexact), outcome_bind_ret, Hnorm by (done || lia).
  destruct (enumerate_result_fields (entry_value st <$> take 25 es) (take 26 es)) as (o & -> & Hblobs & Hnext).
  change (get_obj (Obj o)) with (Ret o). rewrite outcome_bind_ret, Hblobs, Hnext.
  change (get_array (Arr ?a)) with (Ret a). rewrite outcome_bind_ret. destruct (drop 25 es) as [|[k p] rest] eqn:Hd.
  - assert (length es <= 25)%nat by (apply (f_equal length) in Hd; rewrite length_drop in Hd; simpl in Hd; lia).
    by rewrite (proj2 (Z.ltb_ge _ _)) by (rewrite length_take; lia).
  - destruct (last_take_26 es (k, p) rest Hd) as [Hlen Hl]. by rewrite (proj2 (Z.ltb_lt _ _) Hlen), Hl.
Qed.

Lemma entries_from_next m es k p rest st cs : refines c_ ∅ st cs -> blobs_ st = m ++ es -> drop 25 es = (k, p) :: rest ->
  entries_from (Some (blobref k)) st = Ret ((k, p) :: rest) /\ page_at (blobref k) (Some (blobref k)) /\ blobs_ st = (m ++ take 25 es) ++ (k, p) :: rest.
Proof.
  intros Hr Hm Hd. assert (blobs_ st = (m ++ take 25 es) ++ (k, p) :: rest) as Hm' by by rewrite <-app_assoc, <-Hd, take_drop.
  assert ((k, p) ∈ blobs_ st) as Hkp by (rewrite Hm'; apply elem_of_app; right; left).
  split_and!; [| |done].
  - unfold entries_from. pose proof (refines_keys _ _ _ Hr) as Hk. rewrite Forall_forall in Hk. specialize (Hk _ Hkp). cbn [fst] in Hk.
    rewrite Hk, outcome_bind_ret, Hm'. f_equal. apply (map_lower_bound_key BlobKey_ltb). rewrite <-Hm'. apply Hr.
  - right. apply (map_find_In BlobKey_ltb) in Hkp; [|apply Hr]. destruct (ref_entry _ _ _ _ Hr k p Hkp) as (_ & c & _ & _ & Hk & _). by exists k, c.
Qed.

Lemma enumerate_pages_from fuel last after es m st cs :
  refines c_ ∅ st cs -> page_at last after -> entries_from after st = Ret es -> blobs_ st = m ++ es -> (length es < fuel)%nat ->
  enumerate_pages fuel last st = Ret (entry_value st <$> es).
Proof.
  intros Hr. revert last after es m. induction fuel as [|fuel IH]; intros last after es m Hp He Hm Hl; [lia|].
  rewrite (enumerate_page fuel last after es m st cs Hr Hp He Hm). destruct (drop 25 es) as [|[k p] rest] eqn:Hd.
  - rewrite take_ge; [done|]. apply (f_equal length) in Hd. rewrite length_drop in Hd. simpl in Hd. lia.
  - destruct (entries_from_next m es k p rest st cs Hr Hm Hd) as (He' & Hp' & Hm').
    assert (length ((k, p) :: rest) < fuel)%nat by (apply (f_equal length) in Hd; rewrite length_drop in Hd; simpl in *; lia).
    rewrite (IH _ _ _ _ Hp' He' Hm'), outcome_bind_ret by done. rewrite <-fmap_app, <-Hd. by rewrite take_drop.
Qed.
End client.

(** C22. Enumeration is complete and exact. A client that sends [GET]s of
    [/enumerate-blobs], reads the JSON of the replies with a stack for fifteen calls,
    and goes on at [?after=] with what [continueAfter] says, gets every entry of the
    index once, in key order, each with its reference and size, and stops; more pages
    than there are entries are fuel enough. No other request comes in between. *)
Theorem enumeration_complete {digest : Digest} {platform : Platform} {qi : Qi} {static : StaticFiles} {zopfli : Zopfli} {reader : JsonReader}
    c_ request_of st cs fuel
    (Hmethod : forall path, req_method (request_of path) = lit "GET") (Huri : forall path, req_uri (request_of path) = path)
    (Hst : refines c_ ∅ st cs) (Hstack : (15 <= json_stack)%nat) (Hfuel : (length (blobs_ st) < fuel)%nat) :
  enumerate_pages c_ request_of fuel [] st = Ret (entry_value st <$> blobs_ st).
Proof. apply (enumerate_pages_from c_ request_of Hmethod Huri Hstack fuel [] None (blobs_ st) [] st cs); try done. by left. Qed.

Lemma enumeration_complete_witness :
  enumerate_pages (digest := toy_digest) (platform := working_platform) (qi := peg_qi) (static := {| open_for_read _ := None |})
    (zopfli := {| ZopfliCompress _ c := Ret c |}) (reader := json_spirit_reader peg_classic 40) Config_new
    (fun path => Request (lit "GET") path 1 1 [] [] []) 5 [] hello_store =
    Ret [blob_value hello_ref 5; blob_value (blobref (blob_key_for (digest := toy_digest) (lit "hello") 5 sha256)) 5].
Proof.
  rewrite (enumeration_complete (digest := toy_digest) (platform := working_platform) (qi := peg_qi) (static := {| open_for_read _ := None |})
    (zopfli := {| ZopfliCompress _ c := Ret c |}) (reader := json_spirit_reader peg_classic 40) Config_new
    (fun path => Request (lit "GET") path 1 1 [] [] []) hello_store [lit "hello"] 5).
  - vm_compute. reflexivity.
  - reflexivity.
  - reflexivity.
  - apply hello_refines.
  - vm_compute. lia.
  - vm_compute. lia.
Defined.
