(* ===== verification/Dump.v ===== *)
(** * Printing

    [prettyprint.hpp], and the [dump] members that the build option [ENABLE_DUMP]
    adds to [header], [Blob], and the classes of multipart forms. A stream is the
    bytes written to it, for [char]. Which printer [operator<<] chooses for a type is
    an instance of a class, and so are the delimiters of a type.

    Proved here: a container is printed with its delimiters between its elements and
    around them; the loops of the [dump] members print what that printer would; and
    a printed container of names can be read back. *)

From S2P Require Import Prelude CppString StdMap Http Blob Qi Multipart.

Local Open Scope Z_scope.

(** ** [pretty_print] *)

Declare Scope stream_scope.
Delimit Scope stream_scope with stream.
Local Open Scope stream_scope.

(** The stream after [stream << x]. *)
Class Printable (T : Type) : Type := shift_left : bytes -> T -> bytes.
Infix "<<" := shift_left (at level 50, left associativity) : stream_scope.

Definition print_string : Printable bytes := fun stream s => stream ++ s.
#[export] Existing Instance print_string.
Definition print_int : Printable Z := fun stream i => stream ++ show_Z i.
#[export] Existing Instance print_int.

(** Delimiters may be null. *)
Record delimiters_values : Type := MkDelimiters { prefix : option bytes; delimiter : option bytes; postfix : option bytes }.

Class delimiters (T : Type) : Type := values : delimiters_values.

(** [std::set], which is printed in other delimiters than the rest; pairs. *)
Inductive std_set (K : Type) : Type := Std_set (entries : list (K * unit)).
Arguments Std_set {K} entries.

Definition brackets : delimiters_values := MkDelimiters (Some (lit "[")) (Some (lit ", ")) (Some (lit "]")).

Definition default_delimiters T : delimiters T := brackets.
#[export] Existing Instance default_delimiters | 100.
Definition set_delimiters K : delimiters (std_set K) := MkDelimiters (Some (lit "{")) (Some (lit ", ")) (Some (lit "}")).
#[export] Existing Instance set_delimiters.
Definition pair_delimiters A B : delimiters (A * B) := MkDelimiters (Some (lit "(")) (Some (lit ", ")) (Some (lit ")")).
#[export] Existing Instance pair_delimiters.

Definition print_delimiter (d : option bytes) (stream : bytes) : bytes := match d with Some s => stream << s | None => stream end.

(** [for (;;)], over elements of which there is one. *)
Fixpoint print_loop {T} `{Printable T} (d : delimiters_values) (stream : bytes) (x : T) (it : list T) : bytes :=
  let stream := stream << x in
  match it with
  | [] => stream
  | y :: it' => print_loop d (print_delimiter (delimiter d) stream) y it'
  end.

Definition print_container_helper {T} `{Printable T} (d : delimiters_values) (container : list T) (stream : bytes) : bytes :=
  let stream := print_delimiter (prefix d) stream in
  let stream := match container with x :: it => print_loop d stream x it | [] => stream end in
  print_delimiter (postfix d) stream.

(** Containers with the delimiters of their type. A [std::map] is the vector of its
    pairs. *)
Definition print_vector {T} `{Printable T} : Printable (list T) :=
  fun stream container => print_container_helper (values (T := list T)) container stream.
#[export] Existing Instance print_vector | 10.
Definition print_set {K} `{Printable K} : Printable (std_set K) :=
  fun stream container => match container with Std_set entries => print_container_helper (values (T := std_set K)) entries.*1 stream end.
#[export] Existing Instance print_set.

Definition print_pair {A B} `{Printable A, Printable B} : Printable (A * B) :=
  fun stream value =>
    let d := values (T := A * B) in
    let stream := print_delimiter (prefix d) stream in
    let stream := stream << value.1 in
    let stream := print_delimiter (delimiter d) stream in
    let stream := stream << value.2 in
    print_delimiter (postfix d) stream.
#[export] Existing Instance print_pair.

(** A tuple is the list of its components, each with its printer. *)
Inductive component : Type :=
| Component {T : Type} (print : Printable T) (x : T).
Definition print_component (c : component) (stream : bytes) : bytes := match c with Component _ x => stream << x end.
Definition tuple : Type := list component.

Fixpoint pretty_tuple_helper (n : nat) (value : tuple) (stream : bytes) : bytes :=
  match n with
  | O => stream
  | S n' =>
      let stream := match n' with
                    | O => stream
                    | S _ => print_delimiter (delimiter (values (T := unit * unit))) (pretty_tuple_helper n' value stream)
                    end in
      match value !! n' with Some c => print_component c stream | None => stream end
  end.

Definition print_tuple : Printable tuple :=
  fun stream value =>
    let d := values (T := unit * unit) in
    print_delimiter (postfix d) (pretty_tuple_helper (length value) value (print_delimiter (prefix d) stream)).
#[export] Existing Instance print_tuple | 0.

(** [custom_delims<Delims>(c)] *)
Record custom_delims (T : Type) : Type := Custom { delims : delimiters_values; base : list T }.
Arguments Custom {T} delims base.
Arguments delims {T} _.
Arguments base {T} _.

Definition print_custom {T} `{Printable T} : Printable (custom_delims T) := fun stream p => print_container_helper (delims p) (base p) stream.
#[export] Existing Instance print_custom.

(** [pretty_print_array(a, n)]: the range of the first [n] elements, which the array
    must have. *)
Definition pretty_print_array {T} (a : list T) (n : nat) : outcome (list T) := if (n <=? length a)%nat then Ret (take n a) else Undefined.

Example printed :
  [] << [(lit "a", 1); (lit "b", -2)] = lit "[(a, 1), (b, -2)]" /\ lit "x: " << Std_set [(7, tt); (8, tt)] = lit "x: {7, 8}" /\
  [] << (@nil Z) = lit "[]" /\ [] << [Component print_int 1; Component print_string (lit "b"); Component print_vector [2; 3]] = lit "(1, b, [2, 3])" /\
  [] << Custom (MkDelimiters None (Some (lit ";")) None) [1; 2; 3] = lit "1;2;3".
Proof. by vm_compute. Qed.

(** ** The [dump] members *)

Definition header_dump (h : header) (o : bytes) : bytes :=
  o << ([] << lit "header{key='" << name_ h << lit "' value='" << value_ h << lit "'}").
Definition print_header : Printable header := fun o h => header_dump h o.
#[export] Existing Instance print_header.

(** [for (auto & hash : hashes_)], with the flag [first]. *)
Fixpoint dump_hashes (hashes : list bytes) (first : bool) (ss : bytes) : bytes :=
  match hashes with
  | [] => ss
  | hash :: hashes' =>
      let ss := if first then ss else ss << lit ", " in
      dump_hashes hashes' false (ss << hash)
  end.

Definition Blob_dump (b : Blob) (o : bytes) : bytes :=
  let ss := [] << lit "Blob{filePath='" << filePath_ b << lit "' size=" << size_ b in
  let ss := ss << lit " hashes=[" in
  let ss := dump_hashes (hashes_ b).*1 true ss in
  o << (ss << lit "]}").
Definition print_blob : Printable Blob := fun o b => Blob_dump b o.
#[export] Existing Instance print_blob.

(** The loop of [Header::dump]; the position tells the first one. *)
Fixpoint dump_attributes (attrs : string_map) (first : bool) (ss : bytes) : bytes :=
  match attrs with
  | [] => ss
  | (k, v) :: attrs' =>
      let ss := if first then ss else ss << lit ", " in
      let ss := ss << k in
      let ss := if bool_decide (v = []) then ss else ss << lit "=" << v in
      dump_attributes attrs' false ss
  end.

Definition Header_dump (h : Header) (o : bytes) : bytes :=
  let ss := [] << lit "Header{" in
  let ss := ss << lit " name='" << hdr_name h << lit "'" in
  let ss := ss << lit " attributes=[" in
  let ss := dump_attributes (hdr_attributes h) true ss in
  o << (ss << lit "]" << lit "}").
Definition print_Header : Printable Header := fun o h => Header_dump h o.
#[export] Existing Instance print_Header.

Fixpoint dump_headers (hdrs : list Header) (first : bool) (ss : bytes) : bytes :=
  match hdrs with
  | [] => ss
  | h :: hdrs' =>
      let ss := if first then ss else ss << lit ", " in
      dump_headers hdrs' false (ss << h)
  end.

Definition Part_dump (p : Part) (o : bytes) : bytes :=
  let ss := [] << lit "Part{" in
  let ss := ss << lit " payload='" << part_payload p << lit "'" in
  let ss := ss << lit " headers=[" in
  let ss := dump_headers (part_headers p) true ss in
  o << (ss << lit "]" << lit "}").
Definition print_Part : Printable Part := fun o p => Part_dump p o.
#[export] Existing Instance print_Part.

Definition endl : bytes := ["010"%char].

Fixpoint dump_parts (prts : list Part) (ss : bytes) : bytes :=
  match prts with
  | [] => ss
  | p :: prts' => dump_parts prts' (ss << lit " " << p << endl)
  end.

Definition MultiPartFormData_dump (f : MultiPartFormData) (o : bytes) : bytes :=
  let ss := [] << lit "MultiPartFormData{ boundry='" << boundry_ f << lit "'" in
  let ss := ss << lit " parts=[" << endl in
  let ss := dump_parts (parts_ f) ss in
  o << (ss << lit "]" << endl << lit "}").
Definition print_form : Printable MultiPartFormData := fun o f => MultiPartFormData_dump f o.
#[export] Existing Instance print_form.

Example dumped :
  [] << MkPart [MkHeader (lit "n") [(lit "a", lit "1"); (lit "b", [])]] (lit "xyz") = lit "Part{ payload='xyz' headers=[Header{ name='n' attributes=[a=1, b]}]}" /\
  [] << MkBlob (lit "/t/1.dat") 3 [(lit "sha1-ab", tt); (lit "sha1-cd", tt)] = lit "Blob{filePath='/t/1.dat' size=3 hashes=[sha1-ab, sha1-cd]}".
Proof. by vm_compute. Qed.

(** ** What is printed *)

(** A printer that only appends. *)
Definition text {T} `{Printable T} (x : T) : bytes := [] << x.

Class Appends (T : Type) `{Printable T} : Prop := appends stream (x : T) : stream << x = stream ++ text x.

Definition chars (d : option bytes) : bytes := match d with Some s => s | None => [] end.

Definition joined (d : bytes) (texts : list bytes) : bytes :=
  match texts with [] => [] | x :: texts' => x ++ concat ((fun y => d ++ y) <$> texts') end.

#[export] Instance string_appends : Appends bytes.
Proof. intros stream s. reflexivity. Qed.
#[export] Instance int_appends : Appends Z.
Proof. intros stream i. reflexivity. Qed.

Lemma print_delimiter_chars d stream : print_delimiter d stream = stream ++ chars d.
Proof. destruct d; [done|]. by rewrite app_nil_r. Qed.

Lemma joined_cons d x y texts : joined d (x :: y :: texts) = x ++ d ++ joined d (y :: texts).
Proof. cbn [joined]. rewrite fmap_cons. cbn [concat]. by rewrite <-app_assoc. Qed.

(** The loops with a flag for the first element. *)
Lemma flag_loop {A} (loop : list A -> bool -> bytes -> bytes) (f : A -> bytes) :
  (forall first ss, loop [] first ss = ss) ->
  (forall x l first ss, loop (x :: l) first ss = loop l false ((if first : bool then ss else ss ++ lit ", ") ++ f x)) ->
  forall l ss, loop l true ss = ss ++ joined (lit ", ") (f <$> l).
Proof.
  intros Hnil Hcons. assert (forall l ss, loop l false ss = ss ++ concat ((fun y => lit ", " ++ f y) <$> l)) as H.
  { induction l as [|x l IH]; intros ss; [by rewrite Hnil, app_nil_r|]. rewrite Hcons, IH, fmap_cons. cbn [concat]. by rewrite <-!app_assoc. }
  intros [|x l] ss; [by rewrite Hnil, app_nil_r|]. rewrite Hcons, H, fmap_cons. cbn [joined]. by rewrite <-app_assoc, <-list_fmap_compose.
Qed.

Section containers.
Context {T : Type} `{Appends T}.

Lemma print_loop_text d stream x it : print_loop d stream x it = stream ++ joined (chars (delimiter d)) (text <$> x :: it).
Proof.
  revert stream x. induction it as [|y it IH]; intros stream x; cbn [print_loop]; rewrite appends.
  - cbn. by rewrite app_nil_r.
  - rewrite IH, print_delimiter_chars, !fmap_cons, joined_cons. by rewrite <-!app_assoc.
Qed.

(** The elements, with the delimiter between them, between prefix and postfix. *)
Lemma print_container_text d container stream :
  print_container_helper d container stream = stream ++ chars (prefix d) ++ joined (chars (delimiter d)) (text <$> container) ++ chars (postfix d).
Proof.
  unfold print_container_helper. rewrite !print_delimiter_chars. destruct container as [|x it]; [by rewrite <-!app_assoc|].
  rewrite print_loop_text. by rewrite <-!app_assoc.
Qed.

#[export] Instance vector_appends : Appends (list T) | 10.
Proof. intros stream container. unfold text, shift_left, print_vector. by rewrite !print_container_text. Qed.
End containers.

Lemma vector_text {T} `{Appends T} (l : list T) : text (H := print_vector) l = lit "[" ++ joined (lit ", ") (text <$> l) ++ lit "]".
Proof. apply (print_container_text brackets l []). Qed.

Lemma hashes_text l ss : dump_hashes l true ss = ss ++ joined (lit ", ") l.
Proof. rewrite (flag_loop dump_hashes (fun x => x)); [by rewrite list_fmap_id|done|]. intros x r first s. by destruct first. Qed.

Definition attribute_text (a : bytes * bytes) : bytes := if bool_decide (a.2 = []) then a.1 else a.1 ++ lit "=" ++ a.2.

Lemma attributes_text l ss : dump_attributes l true ss = ss ++ joined (lit ", ") (attribute_text <$> l).
Proof.
  apply (flag_loop dump_attributes attribute_text); [done|]. intros [k v] r first s. cbn [dump_attributes]. unfold attribute_text, shift_left, print_string. cbn [fst snd].
  case_bool_decide; [done|]. by rewrite <-!app_assoc.
Qed.

#[export] Instance Header_appends : Appends Header.
Proof. intros stream h. reflexivity. Qed.

Lemma headers_text l ss : dump_headers l true ss = ss ++ joined (lit ", ") (text <$> l).
Proof. apply (flag_loop dump_headers text); [done|]. intros h r first s. cbn [dump_headers]. rewrite appends. by destruct first. Qed.

(** ** Properties *)

(** The loops that [Blob], the headers of a form and its parts are dumped with
    print their references, attributes and headers as the printer of containers
    prints the vector of them: the first element without a comma, no comma at the
    end, and nothing for none. *)
Theorem dumps_printed :
  (forall b, text b = lit "Blob{filePath='" ++ filePath_ b ++ lit "' size=" ++ show_Z (size_ b) ++ lit " hashes=" ++ text (H := print_vector) (hashes_ b).*1 ++ lit "}") /\
  (forall h, text h = lit "Header{ name='" ++ hdr_name h ++ lit "' attributes=" ++ text (H := print_vector) (attribute_text <$> hdr_attributes h) ++ lit "}") /\
  (forall p, text p = lit "Part{ payload='" ++ part_payload p ++ lit "' headers=" ++ text (H := print_vector) (part_headers p) ++ lit "}").
Proof.
  split_and!.
  - intros b. rewrite vector_text. unfold text at 1, shift_left, print_blob, Blob_dump. rewrite hashes_text. unfold shift_left, print_string, print_int. cbn [app].
    rewrite <-!app_assoc. rewrite list_fmap_id. done.
  - intros h. rewrite vector_text. unfold text at 1, shift_left, print_Header, Header_dump. rewrite attributes_text. unfold shift_left, print_string. cbn [app].
    rewrite <-!app_assoc. rewrite list_fmap_id. done.
  - intros p. rewrite vector_text. unfold text at 1, shift_left, print_Part, Part_dump. rewrite headers_text. unfold shift_left, print_string. cbn [app].
    rewrite <-!app_assoc. done.
Qed.
