(* ===== verification/Connection.v ===== *)
(** * Connections

    [http::server3::connection] ([connection.hpp], [connection.cpp]): reads
    are parsed until the parser decides, then one reply is written and the
    connection ends. The state names the operation that is pending; a
    completion handler is a function of the completion's result. Boost.Asio
    calls the handlers of a connection one at a time (its strand).

    When a request is complete, [handle_read] is [handling] it: the thread is
    between two calls of the handler's program ([Calls]), or inside one. The steps
    [enter], [leave] and [finish] begin a call, end it and start the write; [Server]
    has what other threads do in between. The write reads the buffers of the reply
    in a [Memory] ([Reply]), and [sent] is what it read. *)

From S2P Require Import Prelude CppString Http RequestParser Reply Config Hash BlobKey Blob.
From S2P Require Import BlobIndex Calls Qi QueryString Multipart JsonValue JsonWriter RequestHandler.

Local Open Scope Z_scope.

(** What the connection waits for. *)
Inductive operation : Type :=
| async_read_some
| handling (inside : bool) (h : program reply.reply)
| async_write (buffers : list reply.const_buffer)
| closed.

Record connection : Type := MkConnection {
  request_ : request;
  request_parser_ : request_parser;
  reply_ : reply.reply;
  pending : operation;
  is_shutdown : bool;
  sent : bytes;
}.

Definition with_pending (o : operation) (conn : connection) : connection :=
  MkConnection (request_ conn) (request_parser_ conn) (reply_ conn) o (is_shutdown conn) (sent conn).

(** The members a constructor leaves indeterminate: two version numbers, the
    body counter and the status. *)
Record indeterminate : Type := Indet {
  i_major : Z; i_minor : Z; i_body : Z; i_status : reply.status_type;
}.

Definition reply_new (i : indeterminate) : reply.reply := reply.Reply (i_status i) [] [].

(** The constructor, then [start()]. *)
Definition connection_start (i : indeterminate) : connection :=
  MkConnection (request_new (i_major i) (i_minor i)) (request_parser_new (i_body i)) (reply_new i)
    async_read_some false [].

Definition buffer_size : nat := Z.to_nat 8192.

(** How a write ends, and the memory it read: after all buffers, or with an error
    after some. *)
Inductive write_result : Type :=
| written (m : reply.Memory)
| failed (n : nat) (m : reply.Memory).

Definition write_read (r : write_result) (rep : reply.reply) (buffers : list reply.const_buffer) : outcome bytes :=
  match r with
  | written m => reply.write_buffers m rep buffers
  | failed n m => reply.write_buffers m rep (take n buffers)
  end.

Definition write_succeeds (r : write_result) : bool := match r with written _ => true | failed _ _ => false end.

Section handlers.
Context {digest : Digest} {platform : Platform} {qi : Qi} {static : StaticFiles} {zopfli : Zopfli}.
Context (c_ : Config).

(** The end of [handle_read]: [reply_] and the write that starts. *)
Definition start_write (rep : reply.reply) (conn : connection) : connection :=
  MkConnection (request_ conn) (request_parser_ conn) rep (async_write (reply.to_buffers rep)) (is_shutdown conn) (sent conn).

(** [handle_read]: [None] is an error, otherwise the bytes transferred. *)
Definition handle_read (e : option bytes) (conn : connection) : outcome connection :=
  match e with
  | None => Ret (with_pending closed conn)
  | Some buffer =>
      '(result, p, req, _) ← parse (request_parser_ conn) (request_ conn) buffer;
      let conn := MkConnection req p (reply_ conn) async_read_some (is_shutdown conn) (sent conn) in
      Ret match result with
          | TTrue => with_pending (handling false (handler c_ req (reply_ conn))) conn
          | TFalse => start_write (reply.stock_reply reply.bad_request) conn
          | Indeterminate => conn
          end
  end.

(** *** Steps of the handler *)

Definition enter (conn : connection) : outcome connection :=
  match pending conn with
  | handling false (Call c k) => Ret (with_pending (handling true (Call c k)) conn)
  | _ => Undefined
  end.

Definition leave (conn : connection) (st : store) : outcome (connection * store) :=
  match pending conn with
  | handling true (Call c k) => '(a, st) ← perform c_ c st; Ret (with_pending (handling false (k a)) conn, st)
  | _ => Undefined
  end.

Definition finish (conn : connection) : outcome connection :=
  match pending conn with
  | handling false (Done o) => rep ← o; Ret (start_write rep conn)
  | _ => Undefined
  end.

(** [handle_write], and the write that it ends. *)
Definition handle_write (r : write_result) (conn : connection) : outcome connection :=
  match pending conn with
  | async_write buffers =>
      out_ ← write_read r (reply_ conn) buffers;
      Ret (MkConnection (request_ conn) (request_parser_ conn) (reply_ conn) closed
             (if write_succeeds r then true else is_shutdown conn) out_)
  | _ => Undefined
  end.

(** Reads, one segment of the stream each, while one is pending. *)
Fixpoint feed (segments : list bytes) (conn : connection) : outcome connection :=
  match segments with
  | [] => Ret conn
  | s :: segments' =>
      match pending conn with
      | async_read_some => conn ← handle_read (Some s) conn; feed segments' conn
      | _ => Ret conn
      end
  end.

(** A connection on a server with nothing else to do: the reads, the handler if
    there is a request, the write. *)
Definition session (m : reply.Memory) (segments : list bytes) (conn : connection) (st : store) : outcome (connection * store) :=
  conn ← feed segments conn;
  match pending conn with
  | handling _ h =>
      '(rep, st) ← run c_ h st;
      conn ← handle_write (written m) (start_write rep conn);
      Ret (conn, st)
  | async_write _ => conn ← handle_write (written m) conn; Ret (conn, st)
  | _ => Ret (conn, st)
  end.

(** ** Segmentation *)

Lemma handle_read_pending s conn conn' :
  handle_read (Some s) conn = Ret conn' -> pending conn' = async_read_some ->
  exists p req rest, parse (request_parser_ conn) (request_ conn) s = Ret (Indeterminate, p, req, rest) /\
    conn' = MkConnection req p (reply_ conn) async_read_some (is_shutdown conn) (sent conn).
Proof.
  unfold handle_read. destruct (parse _ _ s) as [[[[r p] req] rest]| | |]; try discriminate.
  rewrite outcome_bind_ret. destruct r; intros [= <-]; try discriminate. eauto 8.
Qed.

Lemma feed_stopped segments conn : pending conn ≠ async_read_some -> feed segments conn = Ret conn.
Proof. intros H. destruct segments; [done|]. cbn [feed]. by destruct (pending conn). Qed.

(** Two segments are as good as one. *)
Lemma feed_join a b segments conn :
  pending conn = async_read_some ->
  feed (a :: b :: segments) conn = feed ((a ++ b) :: segments) conn.
Proof.
  intros Hp. cbn [feed]. rewrite Hp. unfold handle_read. rewrite parse_app_eq.
  destruct (parse _ _ a) as [[[[r p] req] rest]| | |]; try done. rewrite !outcome_bind_ret. cbv zeta.
  destruct r; rewrite ?outcome_bind_ret; cbn [with_pending start_write pending request_ request_parser_ reply_ is_shutdown sent].
  - by rewrite feed_stopped.
  - by rewrite feed_stopped.
  - by destruct (parse p req b) as [[[[r2 p2] req2] rest2]| | |].
Qed.

Lemma parse_nil p req : parse p req [] = Ret (Indeterminate, p, req, []).
Proof. reflexivity. Qed.

Lemma feed_nil_segment conn : pending conn = async_read_some -> feed [[]] conn = Ret conn.
Proof. intros Hp. cbn [feed]. rewrite Hp. unfold handle_read. rewrite parse_nil. destruct conn. simpl in *. by subst. Qed.

Lemma feed_concat segments conn : pending conn = async_read_some -> feed segments conn = feed [concat segments] conn.
Proof.
  intros Hp. destruct segments as [|s segments]; [by rewrite feed_nil_segment|].
  cbn [concat]. revert s. induction segments as [|t segments IH]; intros s.
  - cbn [concat]. by rewrite app_nil_r.
  - rewrite feed_join by done. rewrite IH. cbn [concat]. by rewrite app_assoc.
Qed.

(** The network cannot change the answer: two ways to cut a stream in
    segments lead a connection to the same state, to the same undefined
    behaviour, or both to wait for more. *)
Theorem segmentation_independent conn segments1 segments2
    (Hpending : pending conn = async_read_some) (Hsame : concat segments1 = concat segments2) :
  feed segments1 conn = feed segments2 conn.
Proof. by rewrite (feed_concat segments1), (feed_concat segments2), Hsame. Qed.

(** A whole request, in any segments. *)
Lemma feed_request i req segments rest :
  wf_request is_token req -> content_ok (lower_names req) -> concat segments = print_request req ++ rest ->
  exists p, feed segments (connection_start i) =
    Ret (MkConnection (lower_names req) p (reply_new i) (handling false (handler c_ (lower_names req) (reply_new i))) false []).
Proof.
  intros Hwf Hbody Hsegments. destruct (parse_printed (i_body i) (i_major i) (i_minor i) req rest Hwf Hbody) as [p Hp].
  exists p. rewrite feed_concat by done. rewrite Hsegments. cbn [feed pending connection_start].
  unfold handle_read. cbn [request_ request_parser_ reply_ is_shutdown sent connection_start]. by rewrite Hp, !outcome_bind_ret.
Qed.

(** C19. A connection answers. When a client sends a well-formed request, whose
    [Content-Length] announces its body, in any segments and with anything after
    it, the handler is given the request, header names in lower case, exactly once,
    and the connection ends, with what the handler leaves of the store. What it
    has sent of the reply depends on the headers, whose strings are destroyed
    before the write: by the language, a reply without headers is sent as it is,
    and any other makes the program undefined; where the strings are still in
    memory, every reply is sent as it is; and whatever is in their place, a
    message that is sent has the status line, the content and the length of the
    reply. *)
Theorem request_answered i st req segments rest
    (Hwf : wf_request is_token req) (Hbody : content_ok (lower_names req))
    (Hsegments : concat segments = print_request req ++ rest) :
  exists p,
    let ended rep out_ := MkConnection (lower_names req) p rep closed true out_ in
    match handle_request c_ (lower_names req) (reply_new i) st with
    | Ret (rep, st') =>
        session reply.destroyed segments (connection_start i) st =
          (if bool_decide (reply.headers rep = []) then Ret (ended rep (reply.print_reply rep), st') else Undefined) /\
        session reply.intact segments (connection_start i) st = Ret (ended rep (reply.print_reply rep), st') /\
        forall m conn st2, session m segments (connection_start i) st = Ret (conn, st2) ->
          conn = ended rep (sent conn) /\ st2 = st' /\
          exists lines, sent conn = reply.status_string (reply.status rep) ++ lines ++ crlf ++ reply.content rep /\
            length (sent conn) = length (reply.print_reply rep)
    | Throws e => forall m, session m segments (connection_start i) st = Throws e
    | Aborts => forall m, session m segments (connection_start i) st = Aborts
    | Undefined => forall m, session m segments (connection_start i) st = Undefined
    end.
Proof.
  destruct (feed_request i req segments rest Hwf Hbody Hsegments) as [p Hf]. exists p. intros ended.
  assert (forall m, session m segments (connection_start i) st =
    ('(rep, st') ← handle_request c_ (lower_names req) (reply_new i) st; out_ ← reply.write_buffers m rep (reply.to_buffers rep);
     Ret (MkConnection (lower_names req) p rep closed true out_, st'))) as Hs.
  { intros m. unfold session, handle_request. rewrite Hf, outcome_bind_ret. cbn [pending].
    destruct (run _ _ _) as [[rep st']| | |]; try done. rewrite !outcome_bind_ret. unfold handle_write. cbn [start_write pending reply_ write_read].
    by destruct (reply.write_buffers _ _ _). }
  destruct (handle_request c_ _ _ st) as [[rep st']|e| |]; [|intros m; by rewrite Hs..]. split_and!.
  - rewrite Hs, outcome_bind_ret, reply.write_reply. destruct (reply.headers rep); [by rewrite bool_decide_true|by rewrite bool_decide_false].
  - rewrite Hs, outcome_bind_ret, reply.write_intact, outcome_bind_ret; [done|]. by apply Forall_true.
  - intros m conn st2. rewrite Hs, outcome_bind_ret. destruct (reply.write_buffers m rep _) as [out_| | |] eqn:E; try done.
    rewrite outcome_bind_ret. intros [= <- <-]. split_and!; [done..|]. cbn [sent].
    destruct (reply.write_frame m rep out_ E) as (lines & -> & Hl). exists lines. split; [done|]. unfold reply.print_reply. rewrite !length_app. lia.
Qed.

(** A connection serves one request: once it has decided, further input is not
    looked at, whatever the handler does and however the write ends, and
    whatever [want_keepalive] says. *)
Theorem one_request_per_connection s conn conn' segments
    (Hread : handle_read (Some s) conn = Ret conn') (Hdone : pending conn' ≠ async_read_some) :
  feed segments conn' = Ret conn' /\
  (forall conn2, enter conn' = Ret conn2 \/ finish conn' = Ret conn2 \/ (exists r, handle_write r conn' = Ret conn2) \/
     (exists st st2, leave conn' st = Ret (conn2, st2)) ->
   pending conn2 ≠ async_read_some /\ feed segments conn2 = Ret conn2).
Proof.
  split; [by apply feed_stopped|]. intros conn2 H. enough (pending conn2 ≠ async_read_some) as Hp by (split; [done|by apply feed_stopped]).
  unfold enter, finish, handle_write, leave in H. destruct (pending conn') as [|[] [o|c k]|bs|]; (destruct H as [H|[H|[[r H]|(st & st2 & H)]]]); try done.
  - apply outcome_bind_ret_inv in H as ([a st3] & _ & [= <- _]). done.
  - apply outcome_bind_ret_inv in H as (rep & _ & [= <-]). done.
  - injection H as <-. done.
  - apply outcome_bind_ret_inv in H as (out_ & _ & [= <-]). done.
Qed.
End handlers.

(** ** Examples *)

Section witnesses.
Let D : Digest := toy_digest.
Let P : Platform := working_platform.
Let Q : Qi := peg_qi.
Let F : StaticFiles := {| open_for_read _ := None |}.
Let ZF : Zopfli := {| ZopfliCompress _ c := Ret c |}.
Local Existing Instance D.
Local Existing Instance P.
Local Existing Instance Q.
Local Existing Instance F.
Local Existing Instance ZF.

Definition sample_start : connection := connection_start (Indet 7 7 7 reply.ok).

Lemma segmentation_independent_witness :
  feed Config_new [lit "GET /sha"; lit "1-0 HTTP/1.1" ++ crlf; crlf] sample_start =
  feed Config_new [lit "GET /sha1-0 HTTP/1.1" ++ crlf ++ crlf] sample_start.
Proof. apply (segmentation_independent Config_new sample_start); reflexivity. Defined.

(** An upload, whose reply has no headers. *)
Definition sample_put : request :=
  Request (lit "PUT") (lit "/upload") 1 1 [header_pair (lit "Content-Type") (lit "text/plain"); header_pair (lit "Content-Length") (lit "1")] (lit "x") [].

Lemma request_answered_witness :
  exists p, session Config_new reply.destroyed [print_request sample_put; lit "more"] sample_start st0 =
    Ret (MkConnection (lower_names sample_put) p (reply.Reply reply.ok [] []) closed true (lit "HTTP/1.0 200 OK" ++ crlf ++ crlf), st0).
Proof.
  destruct (request_answered Config_new (Indet 7 7 7 reply.ok) st0 sample_put
    [print_request sample_put; lit "more"] (lit "more")) as [p Hp].
  - constructor; try reflexivity; try discriminate; try (split; discriminate).
    repeat constructor; discriminate.
  - exists 1. split; [reflexivity|]. split; [discriminate|reflexivity].
  - reflexivity.
  - exists p. cbv zeta in Hp.
    destruct (handle_request Config_new (lower_names sample_put) (reply_new (Indet 7 7 7 reply.ok)) st0) as [[rep st']|e| |] eqn:E;
      vm_compute in E; [injection E as <- <-|discriminate..]. exact (proj1 Hp).
Defined.

Lemma one_request_per_connection_witness :
  match handle_read Config_new (Some (lit "G<")) sample_start with
  | Ret conn => feed Config_new [lit "GET / HTTP/1.1" ++ crlf ++ crlf] conn = Ret conn
  | _ => False
  end.
Proof.
  destruct (handle_read Config_new (Some (lit "G<")) sample_start) as [conn|e| |] eqn:E;
    [|vm_compute in E; discriminate..].
  refine (proj1 (one_request_per_connection Config_new (lit "G<") sample_start conn _ E _)).
  vm_compute in E. injection E as <-. discriminate.
Defined.
End witnesses.
