(* ===== verification/Server.v ===== *)
(** * The server

    [http::server3::server] ([server.hpp], [server.cpp]) and [main]
    ([blobserver.cpp]): the configuration made from the command line, the
    accept loop, the connections that are open, and the index they share with
    the synchronisation thread.

    The threads of the pool run the completion handlers, and the synchronisation
    thread its own program. Each is at a step: a completion handler up to the first
    call of the request handler, the beginning and the end of every call ([Calls]),
    what follows the last one. The steps of the threads come in any order; a thread
    that needs the mutex of the index waits while another is inside a call that
    holds it. Calls of two threads that overlap and use the same memory or the same
    file, one of them to write it, are a data race ([races]), and the program is
    undefined. So [paginate], which takes no lock, races with [add_blob], and two
    threads race to make the table of the CRC of [gzip_container.cc]. Calls that do
    not race act where they end.

    An exception that a completion handler lets out leaves
    [io_service::run], and so its thread: the process ends. *)

From S2P Require Import Prelude CppString Http RequestParser Reply Config Hash BlobKey Blob.
From S2P Require Import BlobIndex Calls Qi QueryString Multipart JsonValue JsonWriter RequestHandler.
From S2P Require Import HttpStore Connection.

Local Open Scope Z_scope.

(** ** The command line

    What [boost::program_options] has parsed: [None] for an option whose count
    is zero. *)
Record variables_map : Type := MkOptions {
  vm_directory : option bytes;
  vm_static_directory : option bytes;
  vm_ip : option bytes;
  vm_port : option bytes;
  vm_sync : option (list bytes);
  vm_threads : option Z;
  vm_sync_delay : option Z;
  vm_help : bool;
}.

Definition when {A} (o : option A) (set : A -> Config -> Config) (c : Config) : Config :=
  match o with Some x => set x c | None => c end.

(** The settings of [main], in its order. *)
Definition main_config (vm : variables_map) : Config :=
  let config := when (vm_directory vm) set_directory Config_new in
  let config := match vm_static_directory vm with
                | Some d => set_static_directory d config
                | None => set_static_directory (lit "./static/") config
                end in
  let config := when (vm_ip vm) set_ip config in
  let config := when (vm_port vm) set_port config in
  let config := when (vm_sync vm) add_sync_servers config in
  let config := when (vm_threads vm) set_threads config in
  when (vm_sync_delay vm) set_sync_delay config.

(** ** The load directory

    With [ENABLE_DEBUG_LOAD], [main] adds the files of a directory to the index. An
    entry that is no regular file is [None]; the content of one that cannot be
    opened too. *)
Record directory_entry : Type := MkEntry { is_regular_file : bool; opened : option bytes }.

(** [while (is.read(buf, sizeof(buf)).gcount() > 0)] *)
Fixpoint read_content (fuel : nat) (is_ content : bytes) : bytes :=
  match fuel with
  | O => content
  | S n =>
      let buf := take 512 is_ in
      if (0 <? length buf)%nat then read_content n (drop 512 is_) (content ++ buf) else content
  end.

Section load.
Context {digest : Digest} {platform : Platform} (config_ : Config).

Definition load_file (file : directory_entry) (bi : store) : outcome store :=
  if is_regular_file file then
    match opened file with
    | Some is_ =>
        let content := read_content (length is_) is_ [] in
        '(_, bi) ← add_blob config_ None content bi; Ret bi
    | None => Ret bi
    end
  else Ret bi.

(** None when the path is no directory. *)
Definition load_directory (v : option (list directory_entry)) (bi : store) : outcome store :=
  match v with Some v => for_each v load_file bi | None => Ret bi end.

Lemma read_content_all fuel is_ content : (length is_ <= fuel)%nat -> read_content fuel is_ content = content ++ is_.
Proof.
  revert is_ content. induction fuel as [|fuel IH]; intros s content Hf; cbn [read_content].
  { destruct s; [by rewrite app_nil_r|cbn in Hf; lia]. }
  destruct (Nat.ltb_spec 0 (length (take 512 s))) as [H|H]; rewrite length_take in H.
  - rewrite IH by (rewrite length_drop; lia). by rewrite <-app_assoc, take_drop.
  - destruct s; [by rewrite app_nil_r|cbn [length] in H; lia].
Qed.

Definition loaded (v : list directory_entry) : list bytes :=
  omap (fun file => if is_regular_file file then opened file else None) v.

(** The index holds the contents of the files; an empty one stops the program. *)
Lemma load_directory_refines files v st cs : refines config_ files st cs -> Forall (fun c => c ≠ [] /\ writable config_ c) (loaded v) ->
  exists st', load_directory (Some v) st = Ret st' /\ refines config_ files st' (cs ++ loaded v).
Proof.
  cbn [load_directory]. revert st cs. induction v as [|[r o] v IH]; intros st cs Hr Hv; cbn [for_each]; [exists st; by rewrite app_nil_r|].
  unfold loaded, load_file in *. cbn [omap list_omap is_regular_file opened] in *. destruct r; [|rewrite outcome_bind_ret; by apply IH].
  destruct o as [c|]; [|rewrite outcome_bind_ret; by apply IH]. apply Forall_cons in Hv as [[Hc [Hd Ho]] Hv].
  rewrite read_content_all by done. cbn [app]. rewrite add_blob_spec, !outcome_bind_ret by done. cbn [accepts].
  destruct (IH _ _ (add_result_refines config_ files c st cs Ho Hr) Hv) as (st' & E & H). exists st'. split; [exact E|]. by rewrite <-app_assoc in H.
Qed.

Lemma load_empty_file v st : load_directory (Some (MkEntry true (Some []) :: v)) st = Aborts.
Proof. reflexivity. Qed.
End load.

(** ** State and handlers *)

(** Beside the members: the call the synchronisation thread is inside of, and the
    flag of [gzip_container.cc] that the table of the CRC is made. *)
Record server : Type := MkServer {
  thread_pool_size_ : Z;
  index_ : store;
  connections : list connection;
  accepting : bool;
  stopped : bool;
  sync_call : option call;
  crc_table_made : bool;
}.

Definition with_connections (l : list connection) (s : server) : server :=
  MkServer (thread_pool_size_ s) (index_ s) l (accepting s) (stopped s) (sync_call s) (crc_table_made s).
Definition with_index (st : store) (s : server) : server :=
  MkServer (thread_pool_size_ s) st (connections s) (accepting s) (stopped s) (sync_call s) (crc_table_made s).
Definition with_accepting (b : bool) (s : server) : server :=
  MkServer (thread_pool_size_ s) (index_ s) (connections s) b (stopped s) (sync_call s) (crc_table_made s).
Definition with_sync_call (o : option call) (s : server) : server :=
  MkServer (thread_pool_size_ s) (index_ s) (connections s) (accepting s) (stopped s) o (crc_table_made s).

Definition start_accept (s : server) : server := with_accepting true s.

(** The constructor: the number of threads is converted to [size_t]. *)
Definition server_new (c : Config) (bi : store) : server :=
  start_accept (MkServer (u64 (threads c)) bi [] false false None false).

(** The completion of the accept that was pending: asio calls the handler once. *)
Definition accept_done (s : server) : server := with_accepting false s.

Definition handle_accept (e : bool) (i : indeterminate) (s : server) : server :=
  let s := if e then s else with_connections (connections s ++ [connection_start i]) s in
  start_accept s.

Definition handle_stop (s : server) : server :=
  MkServer (thread_pool_size_ s) (index_ s) (connections s) (accepting s) true (sync_call s) (crc_table_made s).

(** ** Threads *)

(** The call a connection's thread is inside of, and those of all threads. *)
Definition call_inside (conn : connection) : option call :=
  match pending conn with handling true (Call c _) => Some c | _ => None end.

Definition active (s : server) : list call := omap call_inside (connections s) ++ option_list (sync_call s).

(** The threads of the pool that are in a handler. *)
Definition is_handling (conn : connection) : bool := match pending conn with handling _ _ => true | _ => false end.
Definition busy (s : server) : nat := length (List.filter is_handling (connections s)).

(** A thread of the pool is free for the next completion handler. *)
Definition running (s : server) : bool := negb (stopped s) && (Z.of_nat (busy s) <? thread_pool_size_ s).

(** The calls that take the mutex of the index, and when they get it. *)
Definition locks (c : call) : bool := match c with call_get _ | call_add_blob _ _ => true | _ => false end.
Definition can_begin (c : call) (s : server) : bool := negb (locks c) || negb (existsb locks (active s)).

Definition makes_crc_table (c : call) : bool := match c with call_compress ZOPFLI_FORMAT_GZIP _ => true | _ => false end.

(** What the platform, the clients and the threads do: [e] is true for an error;
    connections are numbered as they are accepted. *)
Inductive event : Type :=
| accept_completes (e : bool) (i : indeterminate)
| read_completes (n : nat) (e : option bytes)
| call_begins (n : nat)
| call_ends (n : nat)
| handler_returns (n : nat)
| write_completes (n : nat) (r : write_result)
| signal_arrives
| sync_begins (c : call)
| sync_ends.

Section server.
Context {digest : Digest} {platform : Platform} {qi : Qi} {static : StaticFiles} {zopfli : Zopfli}.
Context (c_ : Config).

(** Two calls that may not overlap: the map of the index is changed while it is
    walked, a file is written while it is read, the table of the CRC is made twice. *)
Definition races (s : server) (c d : call) : bool :=
  match c, d with
  | call_add_blob _ _, call_paginate _ _ | call_paginate _ _, call_add_blob _ _ => true
  | call_add_blob _ content, call_open path | call_open path, call_add_blob _ content =>
      bool_decide (path = content_path c_ content) && bool_decide (disk (index_ s) !! path = None)
  | call_compress ZOPFLI_FORMAT_GZIP _, call_compress ZOPFLI_FORMAT_GZIP _ => negb (crc_table_made s)
  | _, _ => false
  end.

(** A call begins. *)
Definition begin (c : call) (s : server) : outcome unit :=
  if existsb (races s c) (active s) then Undefined else Ret tt.

(** A call ends: it has acted. *)
Definition end_call (c : call) (st : store) (s : server) : server :=
  MkServer (thread_pool_size_ s) st (connections s) (accepting s) (stopped s) (sync_call s) (crc_table_made s || makes_crc_table c).

(** The call that the thread of a connection is at. *)
Definition call_at (n : nat) (s : server) : option call :=
  conn ← connections s !! n;
  match pending conn with handling _ (Call c _) => Some c | _ => None end.

(** A step of one connection. *)
Definition update (n : nat) (f : connection -> outcome connection) (s : server) : outcome server :=
  conn ← or_undefined (connections s !! n);
  conn ← f conn;
  Ret (with_connections (<[n := conn]> (connections s)) s).

Definition handle_event (ev : event) (s : server) : outcome server :=
  match ev with
  | accept_completes e i => Ret (handle_accept e i (accept_done s))
  | read_completes n e => update n (handle_read c_ e) s
  | call_begins n =>
      c ← or_undefined (call_at n s);
      _ ← begin c s;
      update n enter s
  | call_ends n =>
      c ← or_undefined (call_at n s);
      conn ← or_undefined (connections s !! n);
      '(conn, st) ← leave c_ conn (index_ s);
      Ret (end_call c st (with_connections (<[n := conn]> (connections s)) s))
  | handler_returns n => update n finish s
  | write_completes n r => update n (handle_write r) s
  | signal_arrives => Ret (handle_stop s)
  | sync_begins c => _ ← begin c s; Ret (with_sync_call (Some c) s)
  | sync_ends =>
      c ← or_undefined (sync_call s);
      '(_, st) ← perform c_ c (index_ s);
      Ret (end_call c st (with_sync_call None s))
  end.

(** The calls of the synchronisation thread: it adds blobs under the references it
    was given, and reads blobs that it has found. *)
Definition sync_may (c : call) (st : store) : bool :=
  match c with
  | call_get _ | call_paginate _ _ | call_open _ => true
  | call_add_blob provided_hash _ => bool_decide (is_Some provided_hash)
  | call_blob p => bool_decide (is_Some (heap st !! p))
  | call_compress _ _ => false
  end.

(** The connection has an operation of a kind. *)
Definition waits (n : nat) (kind : operation -> bool) (s : server) : bool :=
  match connections s !! n with Some conn => kind (pending conn) | None => false end.

(** The events that can happen: a completion needs its operation pending and a free
    thread, a read that succeeds brings at most a buffer, and a call may need the
    mutex. *)
Definition enabled (ev : event) (s : server) : bool :=
  match ev with
  | accept_completes _ _ => running s && accepting s
  | read_completes n e =>
      running s && waits n (fun o => match o with async_read_some => true | _ => false end) s &&
      match e with
      | Some b => (0 <? length b)%nat && (length b <=? buffer_size)%nat
      | None => true
      end
  | call_begins n => waits n (fun o => match o with handling false (Call c _) => can_begin c s | _ => false end) s
  | call_ends n => waits n (fun o => match o with handling true (Call _ _) => true | _ => false end) s
  | handler_returns n => waits n (fun o => match o with handling false (Done _) => true | _ => false end) s
  | write_completes n _ => running s && waits n (fun o => match o with async_write _ => true | _ => false end) s
  | signal_arrives => running s
  | sync_begins c => bool_decide (sync_call s = None) && sync_may c (index_ s) && can_begin c s
  | sync_ends => bool_decide (is_Some (sync_call s))
  end.

(** Runs, with the events that made them. *)
Inductive steps : server -> list event -> server -> Prop :=
| steps_nil s : steps s [] s
| steps_snoc s evs s1 ev s2 :
    steps s evs s1 -> enabled ev s1 = true -> handle_event ev s1 = Ret s2 -> steps s (evs ++ [ev]) s2.

(** [main] after its options: the index starts empty over the files of the
    disk; the archive it is saved to is not read back. *)
Definition main_server (vm : variables_map) (files : gmap bytes bytes) : option server :=
  if vm_help vm then None
  else Some (server_new (main_config vm) (BlobIndex_new files)).


(** ** Invariant *)

(** A connection that reads has parsed a stream that is not decided yet; the handler
    that runs can be harmed by no thread; the buffers of a write are those of the
    reply. *)
Definition connection_ok (st : store) (conn : connection) : Prop :=
  match pending conn with
  | async_read_some => parser_inv (request_parser_ conn) (request_ conn) /\ fresh (reply_ conn)
  | handling _ h => fresh (reply_ conn) /\ always c_ (asked (request_ conn) (reply_ conn)) h (fun _ _ => True) st
  | async_write buffers => buffers = reply.to_buffers (reply_ conn)
  | closed => True
  end.

Record server_ok (s : server) : Prop := {
  sok_store : store_ok (index_ s);
  sok_accepting : accepting s = true;
  sok_connections : Forall (connection_ok (index_ s)) (connections s);
  sok_sync : forall c, sync_call s = Some c -> sync_may c (index_ s) = true;
}.

Lemma connection_start_ok st i : connection_ok st (connection_start i).
Proof. split; [apply parser_inv_init|done]. Qed.

Lemma server_new_ok c files : server_ok (server_new c (BlobIndex_new files)).
Proof. constructor; simpl; [apply store_ok_new|done|constructor|done]. Qed.

Lemma connection_ok_later st st' conn : later st st' -> connection_ok st conn -> connection_ok st' conn.
Proof.
  intros Hl. unfold connection_ok. destruct (pending conn); try done. intros [Hf Ha]. split; [done|].
  eapply always_later; [apply asked_stable|done|exact Hl|exact Ha].
Qed.

Lemma sync_may_later c st st' : later st st' -> sync_may c st = true -> sync_may c st' = true.
Proof. intros Hl. destruct c; try done. cbn [sync_may]. rewrite !bool_decide_eq_true. by apply later_lookup. Qed.

(** A connection and the store change. *)
Lemma server_ok_step s n conn st b : server_ok s -> store_ok st -> later (index_ s) st -> connection_ok st conn ->
  server_ok (MkServer (thread_pool_size_ s) st (<[n := conn]> (connections s)) (accepting s) (stopped s) (sync_call s) b).
Proof.
  intros [Hst Ha Hc Hs] Hst' Hl Hconn. constructor; simpl; [done|done| |].
  - apply Forall_insert; [|done]. eapply Forall_impl; [exact Hc|]. intros c. by apply connection_ok_later.
  - intros c Hcall. eapply sync_may_later; [done|]. by apply Hs.
Qed.

(** A read that arrives at a well-formed connection: the parser alone can make
    it undefined, on a character whose arithmetic overflows. *)
Definition overflow (conn : connection) (input : bytes) : Prop :=
  exists pre x post p req, input = pre ++ x :: post /\
    parse (request_parser_ conn) (request_ conn) pre = Ret (Indeterminate, p, req, []) /\
    arith_ok p req x = false.

Lemma parse_overflow p req input : parser_inv p req ->
  match parse p req input with
  | Ret _ => True
  | Undefined => exists pre x post p' req', input = pre ++ x :: post /\
      parse p req pre = Ret (Indeterminate, p', req', []) /\ arith_ok p' req' x = false
  | _ => False
  end.
Proof.
  revert p req. induction input as [|x input IH]; intros p req Hinv; [done|]. cbn [parse].
  destruct (consume p req x) as [[[r p1] req1]|e| |] eqn:E.
  - rewrite outcome_bind_ret. destruct r; [done|done|].
    specialize (IH p1 req1 (consume_inv _ _ _ _ _ _ Hinv E)).
    destruct (parse p1 req1 input) as [|e| |] eqn:F; [done|done|done|].
    destruct IH as (pre & y & post & p' & req' & -> & Hp & Ha).
    exists (x :: pre), y, post, p', req'. split; [done|]. split; [|done]. cbn [parse]. by rewrite E.
  - pose proof (consume_no_exit p req x) as Hn. by rewrite E in Hn.
  - pose proof (consume_no_exit p req x) as Hn. by rewrite E in Hn.
  - exists [], x, input, p, req. split; [done|]. split; [done|].
    apply not_true_iff_false. intros Ha. apply (consume_defined_inv p req x Hinv) in Ha. by rewrite E in Ha.
Qed.

Lemma handle_read_safe e conn st : connection_ok st conn -> pending conn = async_read_some ->
  match handle_read c_ e conn with
  | Ret conn' => forall st', connection_ok st' conn'
  | Undefined => exists b, e = Some b /\ overflow conn b
  | _ => False
  end.
Proof.
  unfold connection_ok at 1. intros Hc Hp. rewrite Hp in Hc. destruct Hc as [Hinv Hf]. unfold handle_read. destruct e as [b|]; [|done].
  pose proof (parse_overflow _ _ b Hinv) as Ho.
  destruct (parse _ _ b) as [[[[r p] req] rest]| | |] eqn:E; [|done|done|by exists b].
  rewrite outcome_bind_ret. pose proof (parse_inv _ _ _ _ _ _ _ Hinv E) as Hi. destruct r; intros st'.
  - split; [done|]. apply handler_safely.
  - done.
  - by split; [apply Hi|].
Qed.

(** *** What a step may come to *)

(** The call that a step begins, or ends. *)
Definition begins (s : server) (ev : event) (c : call) : Prop :=
  ev = sync_begins c \/ exists n, ev = call_begins n /\ call_at n s = Some c.
Definition ends (s : server) (ev : event) (c : call) : Prop :=
  ev = sync_ends /\ sync_call s = Some c \/ exists n, ev = call_ends n /\ call_at n s = Some c.

(** The memory that a write reads. *)
Definition memory_of (r : write_result) : reply.Memory := match r with written m | failed _ m => m end.

(** Why a step is undefined. *)
Inductive undefined_by (s : server) : event -> Prop :=
| int_overflow n b conn : connections s !! n = Some conn -> overflow conn b -> undefined_by s (read_completes n (Some b))
| data_race ev c d : begins s ev c -> d ∈ active s -> races s c d = true -> undefined_by s ev
| destroyed_string n r conn h : connections s !! n = Some conn -> pending conn = async_write (reply.to_buffers (reply_ conn)) ->
    h ∈ reply.headers (reply_ conn) ->
    reply.dead (memory_of r) (name_ h) = None \/ reply.dead (memory_of r) (value_ h) = None ->
    undefined_by s (write_completes n r)
| undefined_compression ev t path content : ends s ev (call_compress t content) -> disk (index_ s) !! path = Some content ->
    ZopfliCompress t content = Undefined -> undefined_by s ev.

(** How an event that can happen ends. *)
Definition step_outcome (s : server) (ev : event) (o : outcome server) : Prop :=
  match o with
  | Ret s' => server_ok s'
  | Throws e =>
      (exists provided content, ends s ev (call_add_blob provided content) /\ e = filesystem_error) \/
      (exists t path content, ends s ev (call_compress t content) /\ disk (index_ s) !! path = Some content /\ ZopfliCompress t content = Throws e)
  | Aborts =>
      (exists ref, ev = sync_ends /\ sync_call s = Some (call_add_blob (Some ref) [])) \/
      (exists t path content, ends s ev (call_compress t content) /\ disk (index_ s) !! path = Some content /\ ZopfliCompress t content = Aborts)
  | Undefined => undefined_by s ev
  end.

Lemma begin_outcome c s ev : begins s ev c -> begin c s = Ret tt \/ begin c s = Undefined /\ undefined_by s ev.
Proof.
  intros Hb. unfold begin. destruct (existsb _ _) eqn:E; [|by left]. right. split; [done|].
  apply existsb_exists in E as (d & Hd & Hr). eapply data_race; [exact Hb|by apply list_elem_of_In|done].
Qed.

Lemma waits_lookup n kind s : waits n kind s = true -> exists conn, connections s !! n = Some conn /\ kind (pending conn) = true.
Proof. unfold waits. destruct (connections s !! n) as [conn|]; [|done]. by exists conn. Qed.

Lemma update_at n f s conn : connections s !! n = Some conn ->
  update n f s = (conn ← f conn; Ret (with_connections (<[n := conn]> (connections s)) s)).
Proof. intros Hn. unfold update. by rewrite Hn. Qed.

Lemma connection_at s n conn : server_ok s -> connections s !! n = Some conn -> connection_ok (index_ s) conn.
Proof. intros Hs Hn. exact (proj1 (Forall_lookup _ _) (sok_connections _ Hs) n conn Hn). Qed.

(** A connection changes, and nothing else. *)
Lemma server_ok_connection s n conn : server_ok s -> connection_ok (index_ s) conn ->
  server_ok (with_connections (<[n := conn]> (connections s)) s).
Proof. intros Hs Hc. by apply (server_ok_step s n conn (index_ s) (crc_table_made s) Hs (sok_store _ Hs)). Qed.

Lemma read_outcome s n e : server_ok s -> enabled (read_completes n e) s = true -> step_outcome s (read_completes n e) (update n (handle_read c_ e) s).
Proof.
  intros Hs [[_ Hen]%andb_true_iff _]%andb_true_iff. apply waits_lookup in Hen as (conn & Hn & Hp). rewrite (update_at n _ s conn Hn).
  assert (pending conn = async_read_some) as Hp' by by destruct (pending conn).
  pose proof (handle_read_safe e conn (index_ s) (connection_at s n conn Hs Hn) Hp') as H.
  destruct (handle_read c_ e conn) as [conn'| | |]; [|done|done|].
  - rewrite outcome_bind_ret. by apply server_ok_connection.
  - destruct H as (b & -> & Ho). by eapply int_overflow.
Qed.

Lemma call_begins_outcome s n : server_ok s -> enabled (call_begins n) s = true -> step_outcome s (call_begins n) (handle_event (call_begins n) s).
Proof.
  intros Hs Hen. apply waits_lookup in Hen as (conn & Hn & Hp). pose proof (connection_at s n conn Hs Hn) as Hok.
  unfold connection_ok in Hok. destruct (pending conn) as [|[] [o|c k]| |] eqn:E; try done.
  assert (call_at n s = Some c) as Hc by (unfold call_at; rewrite Hn; cbn [mbind option_bind]; by rewrite E).
  cbn [handle_event]. rewrite Hc. cbn [or_undefined]. rewrite outcome_bind_ret.
  destruct (begin_outcome c s (call_begins n)) as [->|[-> Hu]]; [by right; exists n| |exact Hu]. rewrite outcome_bind_ret, (update_at n _ s conn Hn).
  unfold enter. rewrite E, outcome_bind_ret. by apply server_ok_connection.
Qed.

(** What a call of a request handler that fails was. *)
Lemma call_fails {A} req rep c (o : outcome A) st : fresh rep -> asked req rep c st -> may_fail c o ->
  (exists p content, c = call_add_blob p content /\ o = Throws filesystem_error) \/
  (exists t path content, c = call_compress t content /\ disk st !! path = Some content /\ may_fail (call_compress t content) o).
Proof.
  intros Hf HP Hm. destruct c as [|p content| | | |t content]; try done; cbn [may_fail] in Hm.
  - destruct o; try done. subst. left. by exists p, content.
  - right. destruct HP as (_ & _ & path & file & Hfile & ->). rewrite (proj2 Hf) in *. by exists t, path, file.
Qed.

Lemma call_ends_outcome s n : server_ok s -> enabled (call_ends n) s = true -> step_outcome s (call_ends n) (handle_event (call_ends n) s).
Proof.
  intros Hs Hen. apply waits_lookup in Hen as (conn & Hn & Hp). pose proof (connection_at s n conn Hs Hn) as Hok.
  unfold connection_ok in Hok. destruct (pending conn) as [|[] [o|c k]| |] eqn:E; try done. destruct Hok as [Hf (HP & Hc & Hk)].
  assert (call_at n s = Some c) as Hat by (unfold call_at; rewrite Hn; cbn [mbind option_bind]; by rewrite E).
  assert (ends s (call_ends n) c) as Hends by (right; by exists n).
  cbn [handle_event]. rewrite Hat, Hn. cbn [or_undefined]. rewrite !outcome_bind_ret. unfold leave. rewrite E.
  pose proof (perform_spec c_ c (index_ s) (sok_store _ Hs) Hc) as Hspec.
  pose proof (fun o : outcome (answer c * store) => call_fails _ _ c o _ Hf HP) as Hfail.
  destruct (perform c_ c (index_ s)) as [[a st]|e| |] eqn:Ep.
  - rewrite !outcome_bind_ret. destruct Hspec as (Hst & Hl & _).
    apply (server_ok_step s n (with_pending (handling false (k a)) conn) st); [done..|]. split; [done|]. apply (Hk (index_ s) a st); [reflexivity|apply Hs|done].
  - destruct (Hfail _ Hspec) as [(p & content & -> & [= ->])|(t & path & content & -> & Hd & Hz)]; [left; by exists p, content|right].
    exists t, path, content. split_and!; [done..|]. cbn [may_fail] in Hz. destruct (ZopfliCompress t content); (done || by subst).
  - destruct (Hfail _ Hspec) as [(p & content & -> & [=])|(t & path & content & -> & Hd & Hz)]. right.
    exists t, path, content. split_and!; [done..|]. cbn [may_fail] in Hz. by destruct (ZopfliCompress t content).
  - destruct (Hfail _ Hspec) as [(p & content & -> & [=])|(t & path & content & -> & Hd & Hz)].
    eapply undefined_compression; [exact Hends|exact Hd|]. cbn [may_fail] in Hz. by destruct (ZopfliCompress t content).
Qed.

Lemma handler_returns_outcome s n : server_ok s -> enabled (handler_returns n) s = true -> step_outcome s (handler_returns n) (update n finish s).
Proof.
  intros Hs Hen. apply waits_lookup in Hen as (conn & Hn & Hp). pose proof (connection_at s n conn Hs Hn) as Hok.
  unfold connection_ok in Hok. rewrite (update_at n _ s conn Hn). unfold finish. destruct (pending conn) as [|[] [o|c k]| |] eqn:E; try done.
  destruct Hok as [_ Ho]. destruct o as [rep| | |]; try done. rewrite !outcome_bind_ret. by apply server_ok_connection.
Qed.

Lemma write_outcome s n r : server_ok s -> enabled (write_completes n r) s = true -> step_outcome s (write_completes n r) (update n (handle_write r) s).
Proof.
  intros Hs [_ Hen]%andb_true_iff. apply waits_lookup in Hen as (conn & Hn & Hp). pose proof (connection_at s n conn Hs Hn) as Hok.
  unfold connection_ok in Hok. rewrite (update_at n _ s conn Hn). unfold handle_write. destruct (pending conn) as [| |buffers|] eqn:E; try done. subst buffers.
  assert (exists bs, write_read r (reply_ conn) (reply.to_buffers (reply_ conn)) = reply.write_buffers (memory_of r) (reply_ conn) bs /\
    forall b, b ∈ bs -> b ∈ reply.to_buffers (reply_ conn)) as (bs & -> & Hbs).
  { destruct r as [m|k m]; cbn [write_read memory_of]; eexists; (split; [done|]); [done|]. intros b Hb. rewrite <-(take_drop k (reply.to_buffers _)). apply elem_of_app. by left. }
  pose proof (reply.write_buffers_outcome (memory_of r) (reply_ conn) bs) as Hw.
  destruct (reply.write_buffers _ _ bs) as [out_| | |]; [|done|done|].
  - rewrite !outcome_bind_ret. by apply server_ok_connection.
  - destruct Hw as (d & Hd%Hbs & Hm). destruct (reply.to_buffers_temporary _ _ Hd) as (h & Hh & Hor).
    eapply (destroyed_string s n r conn h); [done..|]. destruct Hor as [->| ->]; [by left|by right].
Qed.

Lemma sync_begins_outcome s c : server_ok s -> enabled (sync_begins c) s = true -> step_outcome s (sync_begins c) (handle_event (sync_begins c) s).
Proof.
  intros Hs [[_ Hmay]%andb_true_iff _]%andb_true_iff. cbn [handle_event].
  destruct (begin_outcome c s (sync_begins c)) as [->|[-> Hu]]; [by left| |exact Hu]. rewrite outcome_bind_ret.
  destruct Hs. constructor; [done..|]. by intros c' [= <-].
Qed.

Lemma sync_ends_outcome s : server_ok s -> enabled sync_ends s = true -> step_outcome s sync_ends (handle_event sync_ends s).
Proof.
  intros Hs [c Hc]%bool_decide_eq_true. cbn [handle_event]. rewrite Hc. cbn [or_undefined]. rewrite outcome_bind_ret.
  pose proof (sok_sync _ Hs c Hc) as Hmay.
  assert (c = call_add_blob (Some (match c with call_add_blob (Some ref) _ => ref | _ => [] end)) [] \/ call_ok c (index_ s)) as [Hempty|Hok].
  { destruct c as [|[ref|] [|x content]| | | |]; try (by right); try (by left); cbn [sync_may call_ok] in *; try done. right. by apply bool_decide_eq_true in Hmay. }
  - rewrite Hempty in *. cbn [perform]. left. by eexists.
  - pose proof (perform_spec c_ c (index_ s) (sok_store _ Hs) Hok) as Hspec. destruct (perform c_ c (index_ s)) as [[a st]|e| |] eqn:E.
    + rewrite outcome_bind_ret. destruct Hspec as (Hst & Hl & _). destruct Hs as [_ Ha Hcs _]. constructor; simpl; [done|done| |done].
      eapply Forall_impl; [exact Hcs|]. intros conn. by apply connection_ok_later.
    + destruct c as [|provided content| | | |]; try done. cbn [may_fail] in Hspec. left. exists provided, content. split; [by left|done].
    + by destruct c.
    + by destruct c.
Qed.

Lemma handle_event_outcome s ev : server_ok s -> enabled ev s = true -> step_outcome s ev (handle_event ev s).
Proof.
  intros Hs Hen. destruct ev as [e i|n e|n|n|n|n r| |c|].
  - destruct Hs as [Hst Ha Hc Hsync]. cbn [handle_event]. unfold handle_accept. destruct e; constructor; simpl; try done.
    apply Forall_app. split; [done|]. apply Forall_singleton, connection_start_ok.
  - by apply read_outcome.
  - by apply call_begins_outcome.
  - by apply call_ends_outcome.
  - by apply handler_returns_outcome.
  - by apply write_outcome.
  - destruct Hs. by constructor.
  - by apply sync_begins_outcome.
  - by apply sync_ends_outcome.
Qed.

Lemma steps_ok s evs s' : server_ok s -> steps s evs s' -> server_ok s'.
Proof.
  intros Hs. induction 1 as [|s evs s1 ev s2 _ IH Hen Hev]; [done|].
  pose proof (handle_event_outcome s1 ev (IH Hs) Hen) as H. by rewrite Hev in H.
Qed.

Lemma steps_app s evs1 s1 evs2 s2 : steps s evs1 s1 -> steps s1 evs2 s2 -> steps s (evs1 ++ evs2) s2.
Proof.
  intros H1. induction 1 as [s2|s1 evs2 s2 ev s3 _ IH Hen Hev]; [by rewrite app_nil_r|].
  rewrite app_assoc. eapply steps_snoc; [by apply IH|done..].
Qed.

Lemma steps_one s ev s' : enabled ev s = true -> handle_event ev s = Ret s' -> steps s [ev] s'.
Proof. intros. by eapply (steps_snoc s [] s ev); [constructor|..]. Qed.

(** A step of one connection leaves the index. *)
Lemma update_index n f s s' : update n f s = Ret s' -> index_ s' = index_ s.
Proof. unfold update. intros (conn & _ & (conn' & _ & [= <-])%outcome_bind_ret_inv)%outcome_bind_ret_inv. done. Qed.

(** Only the end of a call changes the index. *)
Lemma handle_event_index ev s s' : handle_event ev s = Ret s' ->
  index_ s' = index_ s \/ exists c a, perform c_ c (index_ s) = Ret (a, index_ s').
Proof.
  destruct ev as [e i|n e|n|n|n|n r| |c|]; cbn [handle_event]; try (intros ?%update_index; by left).
  - intros [= <-]. left. by destruct e.
  - intros (c & _ & (u & _ & ?%update_index)%outcome_bind_ret_inv)%outcome_bind_ret_inv. by left.
  - intros (c & _ & (conn & _ & ([conn' st] & Hl & [= <-])%outcome_bind_ret_inv)%outcome_bind_ret_inv)%outcome_bind_ret_inv. right.
    unfold leave in Hl. destruct (pending conn) as [|[] [o|c' k]| |]; try done. apply outcome_bind_ret_inv in Hl as ([a st'] & Hp & [= _ <-]). by exists c', a.
  - intros [= <-]. by left.
  - intros (u & _ & [= <-])%outcome_bind_ret_inv. by left.
  - intros (c & _ & ([a st] & Hp & [= <-])%outcome_bind_ret_inv)%outcome_bind_ret_inv. right. by exists c, a.
Qed.

Lemma steps_grow files s evs s' cs
    (Hopen : forall path, open_for_write_ok path = true) :
  refines c_ files (index_ s) cs -> steps s evs s' -> exists new, refines c_ files (index_ s') (cs ++ new).
Proof.
  intros Hr. induction 1 as [s|s evs s1 ev s2 _ IH _ Hev]; [exists []; by rewrite app_nil_r|].
  specialize (IH Hr) as [new1 Hr1]. destruct (handle_event_index ev s1 s2 Hev) as [->|(c & a & Hp)]; [by exists new1|].
  destruct (perform_grows c_ files c (index_ s1) _ a (index_ s2) Hopen Hr1 Hp) as [new2 Hr2]. exists (new1 ++ new2). by rewrite app_assoc.
Qed.

(** ** One connection among the others *)

(** The bytes that connection [n] receives, segment by segment. *)
Definition reads (n : nat) (evs : list event) : list bytes :=
  omap (fun ev => match ev with
                  | read_completes m (Some b) => if bool_decide (m = n) then Some b else None
                  | _ => None
                  end) evs.

(** A run, with the stores that the calls of connection [n] acted on, in turn. *)
Inductive calls_at (n : nat) : server -> list event -> list store -> server -> Prop :=
| calls_at_nil s : calls_at n s [] [] s
| calls_at_call s evs sts s1 s2 :
    calls_at n s evs sts s1 -> enabled (call_ends n) s1 = true -> handle_event (call_ends n) s1 = Ret s2 ->
    calls_at n s (evs ++ [call_ends n]) (sts ++ [index_ s1]) s2
| calls_at_other s evs sts s1 ev s2 :
    calls_at n s evs sts s1 -> ev ≠ call_ends n -> enabled ev s1 = true -> handle_event ev s1 = Ret s2 ->
    calls_at n s (evs ++ [ev]) sts s2.

(** What is left of a program when its first calls have acted on some stores. *)
Fixpoint resume {A} (m : program A) (sts : list store) {struct sts} : outcome (program A) :=
  match sts, m with
  | [], _ => Ret m
  | st :: sts', Call c k => '(a, _) ← perform c_ c st; resume (k a) sts'
  | _ :: _, Done _ => Undefined
  end.

Lemma resume_snoc {A} (m : program A) sts st c k a st' :
  resume m sts = Ret (Call c k) -> perform c_ c st = Ret (a, st') -> resume m (sts ++ [st]) = Ret (k a).
Proof.
  intros Hm Hp. revert m Hm. induction sts as [|st1 sts IH]; intros m; cbn [app].
  - intros Hm. change (Ret m = Ret (Call c k)) in Hm. injection Hm as ->. cbn [resume]. by rewrite Hp, outcome_bind_ret.
  - destruct m as [o|c1 k1]; [done|]. cbn [resume]. destruct (perform c_ c1 st1) as [[a1 st2]| | |]; try done. rewrite !outcome_bind_ret. apply IH.
Qed.

Lemma reads_snoc n evs ev : reads n (evs ++ [ev]) = reads n evs ++ reads n [ev].
Proof. unfold reads. by rewrite omap_app. Qed.

(** The connection that an event is of. *)
Definition connection_of (ev : event) : option nat :=
  match ev with
  | read_completes n _ | call_begins n | call_ends n | handler_returns n | write_completes n _ => Some n
  | _ => None
  end.

Lemma reads_other n ev : connection_of ev ≠ Some n -> reads n [ev] = [].
Proof.
  destruct ev as [e i|m [b|]|m|m|m|m r| |c|]; cbn [connection_of]; try done. intros H. cbn [reads omap list_omap].
  by rewrite bool_decide_false by (by intros ->).
Qed.

Lemma update_other n m f s s' conn : m ≠ n -> update m f s = Ret s' -> connections s !! n = Some conn -> connections s' !! n = Some conn.
Proof.
  intros Hmn. unfold update. intros (conn1 & _ & (conn2 & _ & [= <-])%outcome_bind_ret_inv)%outcome_bind_ret_inv Hn. simpl. by rewrite list_lookup_insert_ne.
Qed.

(** The other connections, and the synchronisation, do not change it. *)
Lemma handle_event_other n ev s s' conn : connection_of ev ≠ Some n -> handle_event ev s = Ret s' ->
  connections s !! n = Some conn -> connections s' !! n = Some conn.
Proof.
  intros Hne Hev Hn. destruct ev as [e i|m e|m|m|m|m r| |c|]; cbn [connection_of handle_event] in *.
  - injection Hev as <-. destruct e; [done|]. simpl. by apply lookup_app_l_Some.
  - eapply update_other; [|done..]. by intros ->.
  - apply outcome_bind_ret_inv in Hev as (c & _ & (u & _ & Hev)%outcome_bind_ret_inv). eapply update_other; [|done..]. by intros ->.
  - apply outcome_bind_ret_inv in Hev as (c & _ & (conn1 & _ & ([conn2 st] & _ & [= <-])%outcome_bind_ret_inv)%outcome_bind_ret_inv). simpl.
    rewrite list_lookup_insert_ne; [done|]. by intros ->.
  - eapply update_other; [|done..]. by intros ->.
  - eapply update_other; [|done..]. by intros ->.
  - by injection Hev as <-.
  - by apply outcome_bind_ret_inv in Hev as (u & _ & [= <-]).
  - by apply outcome_bind_ret_inv in Hev as (c & _ & ([a st] & _ & [= <-])%outcome_bind_ret_inv).
Qed.

Lemma update_inv n f s s' conn : update n f s = Ret s' -> connections s !! n = Some conn ->
  exists conn', f conn = Ret conn' /\ connections s' !! n = Some conn'.
Proof.
  intros Hu Hn. rewrite (update_at n f s conn Hn) in Hu. apply outcome_bind_ret_inv in Hu as (conn' & Hf & [= <-]).
  exists conn'. split; [done|]. simpl. apply list_lookup_insert_eq. by eapply lookup_lt_Some.
Qed.

Section isolation.
Context (s1 : server) (n : nat) (i : indeterminate).

(** Connection [n], started with the indeterminate values [i], after the events
    [evs], when it has the request [req] and its calls have acted on [sts]. It is in
    the handler, at what the calls leave of it; or it writes the reply that the
    handler has returned; or a write has ended, that read its buffers. *)
Definition computed (evs : list event) (sts : list store) (req : request) (conn : connection) : Prop :=
  let handled := resume (handler c_ req (reply_new i)) sts in
  match pending conn with
  | async_read_some => False
  | handling _ h => reply_ conn = reply_new i /\ handled = Ret h
  | async_write buffers => buffers = reply.to_buffers (reply_ conn) /\ handled = Ret (Done (Ret (reply_ conn)))
  | closed => handled = Ret (Done (Ret (reply_ conn))) /\
      exists r, write_completes n r ∈ evs /\ write_read r (reply_ conn) (reply.to_buffers (reply_ conn)) = Ret (sent conn)
  end.

Definition parsed (evs : list event) : outcome (tribool * request_parser * request * bytes) :=
  parse (request_parser_new (i_body i)) (request_new (i_major i) (i_minor i)) (concat (reads n evs)).

Definition waiting (evs : list event) (sts : list store) (conn : connection) : Prop :=
  pending conn = async_read_some /\ reply_ conn = reply_new i /\ sts = [] /\
  parsed evs = Ret (Indeterminate, request_parser_ conn, request_ conn, []).

Definition decided (evs : list event) (sts : list store) (conn : connection) : Prop :=
  pending conn ≠ async_read_some /\
  exists r p rest, r ≠ Indeterminate /\ parsed evs = Ret (r, p, request_ conn, rest) /\ (r = TTrue -> computed evs sts (request_ conn) conn).

Lemma parsed_other evs ev : reads n [ev] = [] -> parsed (evs ++ [ev]) = parsed evs.
Proof. intros H. unfold parsed. by rewrite reads_snoc, H, app_nil_r. Qed.

Lemma computed_snoc evs ev sts req conn : computed evs sts req conn -> computed (evs ++ [ev]) sts req conn.
Proof.
  unfold computed. destruct (pending conn); try done. intros [H (r & Hr & Hw)]. split; [done|]. exists r. split; [|done]. apply elem_of_app. by left.
Qed.

(** An event that brings the connection nothing leaves what it knows. *)
Lemma settled_snoc evs ev sts conn : reads n [ev] = [] ->
  waiting evs sts conn \/ decided evs sts conn -> waiting (evs ++ [ev]) sts conn \/ decided (evs ++ [ev]) sts conn.
Proof.
  intros H. unfold waiting, decided. rewrite (parsed_other evs ev H). intros [?|(Hp & r & p & rest & Hr & Hparse & Ht)]; [by left|right].
  split; [done|]. exists r, p, rest. split_and!; [done..|]. intros Hr'. by apply computed_snoc, Ht.
Qed.

(** A step of the connection after it has decided. *)
Lemma decided_step evs ev sts sts' conn conn' : reads n [ev] = [] -> decided evs sts conn ->
  request_ conn' = request_ conn -> pending conn' ≠ async_read_some ->
  (computed evs sts (request_ conn) conn -> computed (evs ++ [ev]) sts' (request_ conn) conn') -> decided (evs ++ [ev]) sts' conn'.
Proof.
  intros H (Hp & r & p & rest & Hr & Hparse & Ht) Hreq Hp' Hc. unfold decided. rewrite (parsed_other evs ev H), Hreq.
  split; [done|]. exists r, p, rest. split_and!; [done..|]. intros Hr'. by apply Hc, Ht.
Qed.

Lemma waiting_read evs sts b conn conn' : waiting evs sts conn -> handle_read c_ (Some b) conn = Ret conn' ->
  let evs' := evs ++ [read_completes n (Some b)] in waiting evs' sts conn' \/ decided evs' sts conn'.
Proof.
  intros (Hp & Hrep & -> & Hparse) Hread evs'. unfold waiting, decided, evs', parsed in *.
  rewrite reads_snoc. cbn [reads omap list_omap]. rewrite bool_decide_true by done.
  rewrite concat_app. cbn [concat]. rewrite app_nil_r, parse_app_eq, Hparse, outcome_bind_ret.
  unfold handle_read in Hread. rewrite Hrep in Hread.
  destruct (parse (request_parser_ conn) (request_ conn) b) as [[[[r p] req] rest]| | |] eqn:E; try discriminate.
  rewrite outcome_bind_ret in Hread. injection Hread as <-. destruct r.
  - right. split; [done|]. exists TTrue, p, rest. by split_and!.
  - right. split; [done|]. by exists TFalse, p, rest.
  - left. split_and!; try done. by rewrite (parse_rest_indeterminate _ _ _ _ _ _ E).
Qed.

Definition ends_call (ev : event) : bool := match ev with call_ends m => bool_decide (m = n) | _ => false end.

Lemma decided_event evs ev sts s2 s3 conn :
  connection_of ev = Some n -> connections s2 !! n = Some conn -> enabled ev s2 = true -> handle_event ev s2 = Ret s3 ->
  decided evs sts conn -> (forall buffers, pending conn = async_write buffers -> buffers = reply.to_buffers (reply_ conn)) ->
  exists conn', connections s3 !! n = Some conn' /\
    decided (evs ++ [ev]) (if ends_call ev then sts ++ [index_ s2] else sts) conn'.
Proof.
  intros Hof Hn Hen Hev Hd Hbuf. pose proof Hd as [Hp _].
  destruct ev as [e i0|m e|m|m|m|m r| |c|]; cbn [connection_of] in Hof; try discriminate; injection Hof as ->; cbn [handle_event enabled] in *; unfold waits in Hen; rewrite Hn in Hen.
  - by destruct (pending conn); rewrite ?andb_false_r in Hen.
  - apply outcome_bind_ret_inv in Hev as (c & _ & (u & _ & Hev)%outcome_bind_ret_inv). destruct (update_inv _ _ _ _ _ Hev Hn) as (conn' & Hf & Hn').
    exists conn'. split; [done|]. cbn [ends_call]. unfold enter in Hf. destruct (pending conn) as [|[] [o|c' k]| |] eqn:E; try done.
    injection Hf as <-. eapply decided_step; [done|exact Hd|done|done|]. unfold computed. rewrite E. done.
  - apply outcome_bind_ret_inv in Hev as (c & _ & (conn1 & H1 & ([conn' st] & Hl & [= <-])%outcome_bind_ret_inv)%outcome_bind_ret_inv).
    rewrite Hn in H1. injection H1 as <-. cbn [ends_call]; rewrite bool_decide_true by done. exists conn'. split; [simpl; apply list_lookup_insert_eq; by eapply lookup_lt_Some|].
    unfold leave in Hl. destruct (pending conn) as [|[] [o|c' k]| |] eqn:E; try done. apply outcome_bind_ret_inv in Hl as ([a st'] & Hpf & [= <- _]).
    eapply decided_step; [done|exact Hd|done|done|]. unfold computed. rewrite E. cbn [with_pending pending reply_]. intros [Hr Hc]. split; [done|]. by eapply resume_snoc.
  - destruct (update_inv _ _ _ _ _ Hev Hn) as (conn' & Hf & Hn'). exists conn'. split; [done|]. cbn [ends_call].
    unfold finish in Hf. destruct (pending conn) as [|[] [o|c' k]| |] eqn:E; try done. apply outcome_bind_ret_inv in Hf as (rep & Ho & [= <-]). subst o.
    eapply decided_step; [done|exact Hd|done|done|]. unfold computed. rewrite E. cbn [start_write pending reply_]. by intros [_ Hc].
  - destruct (update_inv _ _ _ _ _ Hev Hn) as (conn' & Hf & Hn'). exists conn'. split; [done|]. cbn [ends_call].
    unfold handle_write in Hf. destruct (pending conn) as [|? ?|buffers|] eqn:E; try done. apply outcome_bind_ret_inv in Hf as (out_ & Ho & [= <-]).
    rewrite (Hbuf buffers eq_refl) in Ho. eapply decided_step; [done|exact Hd|done|done|]. unfold computed. rewrite E. cbn [pending reply_ sent].
    intros [_ Hc]. split; [done|]. exists r. split; [apply elem_of_app; right; by apply list_elem_of_singleton|done].
Qed.

(** The buffers of a write are those of the reply. *)
Definition writes_reply (conn : connection) : Prop := forall buffers, pending conn = async_write buffers -> buffers = reply.to_buffers (reply_ conn).

Lemma step_writes_reply ev s2 s3 conn conn' : connection_of ev = Some n -> handle_event ev s2 = Ret s3 ->
  connections s2 !! n = Some conn -> connections s3 !! n = Some conn' -> writes_reply conn'.
Proof.
  intros Hof Hev Hn Hn'. destruct ev as [e i0|m e|m|m|m|m r| |c|]; cbn [connection_of] in Hof; try discriminate; injection Hof as ->; cbn [handle_event] in Hev.
  - destruct (update_inv _ _ _ _ _ Hev Hn) as (conn2 & Hf & Hn2). rewrite Hn' in Hn2. injection Hn2 as <-. unfold handle_read in Hf. destruct e as [b|]; [|by injection Hf as <-].
    apply outcome_bind_ret_inv in Hf as ([[[r p] req] rest] & _ & [= <-]). by destruct r; intros ? [= <-].
  - apply outcome_bind_ret_inv in Hev as (c & _ & (u & _ & Hev)%outcome_bind_ret_inv). destruct (update_inv _ _ _ _ _ Hev Hn) as (conn2 & Hf & Hn2).
    rewrite Hn' in Hn2. injection Hn2 as <-. unfold enter in Hf. destruct (pending conn) as [|[] [o|c' k]| |]; try done. by injection Hf as <-.
  - apply outcome_bind_ret_inv in Hev as (c & _ & (conn1 & H1 & ([conn2 st] & Hl & [= <-])%outcome_bind_ret_inv)%outcome_bind_ret_inv).
    rewrite Hn in H1. injection H1 as <-. simpl in Hn'. rewrite list_lookup_insert_eq in Hn' by (by eapply lookup_lt_Some). injection Hn' as <-.
    unfold leave in Hl. destruct (pending conn) as [|[] [o|c' k]| |]; try done. by apply outcome_bind_ret_inv in Hl as ([a st'] & _ & [= <- _]).
  - destruct (update_inv _ _ _ _ _ Hev Hn) as (conn2 & Hf & Hn2). rewrite Hn' in Hn2. injection Hn2 as <-. unfold finish in Hf.
    destruct (pending conn) as [|[] [o|c' k]| |]; try done. apply outcome_bind_ret_inv in Hf as (rep & _ & [= <-]). by intros ? [= <-].
  - destruct (update_inv _ _ _ _ _ Hev Hn) as (conn2 & Hf & Hn2). rewrite Hn' in Hn2. injection Hn2 as <-. unfold handle_write in Hf.
    destruct (pending conn); try done. by apply outcome_bind_ret_inv in Hf as (out_ & _ & [= <-]).
Qed.

Lemma connection_history evs s2 :
  connections s1 !! n = Some (connection_start i) -> steps s1 evs s2 -> read_completes n None ∉ evs ->
  exists conn sts, connections s2 !! n = Some conn /\ calls_at n s1 evs sts s2 /\ writes_reply conn /\ (waiting evs sts conn \/ decided evs sts conn).
Proof.
  intros Hn Hs. remember s1 as s0 eqn:Hs0.
  induction Hs as [s|s evs s2 ev s3 Hs IH Hen Hev]; intros Herr; subst s.
  { exists (connection_start i), []. split; [done|]. split; [constructor|]. split; [done|]. left. by split_and!. }
  rewrite not_elem_of_app, list_elem_of_singleton in Herr. destruct Herr as [Herr Hne].
  destruct (IH eq_refl Hn Herr) as (conn & sts & Hconn & Hcalls & Hbuf & Hw). clear IH.
  destruct (decide (connection_of ev = Some n)) as [Hof|Hof].
  - destruct Hw as [Hw|Hd].
    + assert (exists b, ev = read_completes n (Some b)) as [b ->].
      { destruct Hw as [Hp _]. destruct ev as [e i0|m [b|]|m|m|m|m r| |c|]; cbn [connection_of] in Hof; try discriminate; injection Hof as ->; [by exists b|done|..];
          exfalso; cbn [enabled] in Hen; unfold waits in Hen; rewrite Hconn, Hp in Hen; by rewrite ?andb_false_r in Hen. }
      cbn [handle_event] in Hev. destruct (update_inv _ _ _ _ _ Hev Hconn) as (conn' & Hf & Hn'). exists conn', sts. split; [done|].
      split; [by apply (calls_at_other n s1 evs sts s2)|]. split; [by eapply (step_writes_reply (read_completes n (Some b)) s2 s3 conn)|]. by apply (waiting_read evs sts b conn).
    + destruct (decided_event evs ev sts s2 s3 conn Hof Hconn Hen Hev Hd Hbuf) as (conn' & Hn' & Hd'). eexists conn', _. split; [done|].
      split; [|split; [by eapply (step_writes_reply ev s2 s3 conn)|by right]].
      destruct (ends_call ev) eqn:Ec.
      * assert (ev = call_ends n) as -> by (destruct ev; try done; by apply bool_decide_eq_true in Ec as ->). by apply calls_at_call.
      * apply (calls_at_other n s1 evs sts s2); try done. intros ->. cbn [ends_call] in Ec. by rewrite bool_decide_true in Ec.
  - exists conn, sts. split; [by eapply handle_event_other|]. split; [apply (calls_at_other n s1 evs sts s2); [done|by intros ->|done..]|].
    split; [done|]. apply settled_snoc; [by apply reads_other|done].
Qed.
End isolation.

(** *** A request read segment by segment *)

Definition segment_ok (b : bytes) : Prop := (0 < length b <= buffer_size)%nat.

(** Connection [n] is [conn], and the index is [st]; the flag is as it may be. *)
Definition with_connection (n : nat) (conn : connection) (st : store) (b : bool) (s : server) : server :=
  MkServer (thread_pool_size_ s) st (<[n := conn]> (connections s)) (accepting s) (stopped s) (sync_call s) b.

Lemma with_connection_twice n conn conn' st st' b b' s : with_connection n conn st b (with_connection n conn' st' b' s) = with_connection n conn st b s.
Proof. unfold with_connection. simpl. by rewrite list_insert_insert_eq. Qed.

Lemma update_with_connection n f s conn conn' : connections s !! n = Some conn -> f conn = Ret conn' ->
  update n f s = Ret (with_connection n conn' (index_ s) (crc_table_made s) s).
Proof. intros Hn Hf. by rewrite (update_at n f s conn Hn), Hf. Qed.

Lemma with_connection_lookup n conn st b s : (n < length (connections s))%nat -> connections (with_connection n conn st b s) !! n = Some conn.
Proof. intros Hn. by apply list_lookup_insert_eq. Qed.

(** A connection that is in no handler takes no thread, and one that is in no call
    holds no lock. *)
Lemma busy_insert n conn l : is_handling conn = false -> (length (List.filter is_handling (<[n := conn]> l)) <= length (List.filter is_handling l))%nat.
Proof.
  intros Hc. revert n. induction l as [|x l IH]; intros [|n]; [done..| |].
  - change (<[0%nat := conn]> (x :: l)) with (conn :: l). cbn [List.filter]. rewrite Hc. destruct (is_handling x); cbn [length]; lia.
  - change (<[S n := conn]> (x :: l)) with (x :: <[n := conn]> l). cbn [List.filter]. specialize (IH n). destruct (is_handling x); cbn [length]; lia.
Qed.

Lemma active_insert n conn l : call_inside conn = None -> omap call_inside l = [] -> omap call_inside (<[n := conn]> l) = [].
Proof.
  intros Hc. revert n. induction l as [|x l IH]; intros [|n]; [done..| |].
  - change (<[0%nat := conn]> (x :: l)) with (conn :: l). cbn [omap list_omap]. rewrite Hc. by destruct (call_inside x).
  - change (<[S n := conn]> (x :: l)) with (x :: <[n := conn]> l). cbn [omap list_omap]. destruct (call_inside x); [done|]. apply IH.
Qed.

Lemma enabled_read n b s conn :
  running s = true -> connections s !! n = Some conn -> pending conn = async_read_some -> segment_ok b ->
  enabled (read_completes n (Some b)) s = true.
Proof.
  intros Hr Hn Hp [H1 H2]. cbn [enabled]. unfold waits. rewrite Hr, Hn, Hp. simpl.
  by rewrite (proj2 (Nat.ltb_lt _ _) H1), (proj2 (Nat.leb_le _ _) H2).
Qed.

(** Before its last byte a request is not decided. *)
Lemma parse_strict_prefix p req a b p' req' :
  b ≠ [] -> parse p req (a ++ b) = Ret (TTrue, p', req', []) ->
  exists p1 req1, parse p req a = Ret (Indeterminate, p1, req1, []) /\
    parse p1 req1 b = Ret (TTrue, p', req', []).
Proof.
  intros Hb. rewrite parse_app_eq. destruct (parse p req a) as [[[[r p1] req1] rest]| | |] eqn:E; try discriminate.
  rewrite outcome_bind_ret. destruct r; [intros [= _ _ Ha]..|].
  - by apply app_eq_nil in Ha as [_ ?].
  - exists p1, req1. split; [|done]. by rewrite (parse_rest_indeterminate _ _ _ _ _ _ E) in E |- *.
Qed.

Lemma running_with n conn st b s : is_handling conn = false -> running s = true -> running (with_connection n conn st b s) = true.
Proof.
  intros Hc. unfold running. rewrite !andb_true_iff, !Z.ltb_lt. intros [H1 H2]. split; [done|]. pose proof (busy_insert n conn (connections s) Hc) as H.
  unfold busy in *. cbn [with_connection connections thread_pool_size_]. lia.
Qed.

Lemma reads_run n segments s conn p req :
  Forall segment_ok segments -> running s = true -> connections s !! n = Some conn -> pending conn = async_read_some ->
  parse (request_parser_ conn) (request_ conn) (concat segments) = Ret (TTrue, p, req, []) ->
  steps s ((fun b => read_completes n (Some b)) <$> segments)
    (with_connection n (MkConnection req p (reply_ conn) (handling false (handler c_ req (reply_ conn))) (is_shutdown conn) (sent conn)) (index_ s) (crc_table_made s) s).
Proof.
  intros Hseg. revert s conn. induction Hseg as [|b segments Hb Hseg IH]; intros s conn Hrun Hn Hp Hparse.
  { discriminate. }
  cbn [concat] in Hparse. rewrite fmap_cons. change (?x :: ?y) with ([x] ++ y).
  destruct segments as [|b2 segments].
  - cbn [concat] in Hparse. rewrite app_nil_r in Hparse. apply steps_one; [by apply (enabled_read _ _ _ conn)|].
    cbn [handle_event]. eapply update_with_connection; [exact Hn|]. unfold handle_read. by rewrite Hparse.
  - apply parse_strict_prefix in Hparse as (p1 & req1 & H1 & H2).
    2: { apply Forall_cons in Hseg as [[Hlen _] _]. destruct b2; [simpl in Hlen; lia|done]. }
    set (conn1 := MkConnection req1 p1 (reply_ conn) async_read_some (is_shutdown conn) (sent conn)).
    eapply steps_app.
    + apply steps_one; [by apply (enabled_read _ _ _ conn)|]. cbn [handle_event]. eapply (update_with_connection n _ s conn conn1); [exact Hn|].
      unfold handle_read. by rewrite H1.
    + specialize (IH (with_connection n conn1 (index_ s) (crc_table_made s) s) conn1). rewrite with_connection_twice in IH.
      apply IH; [by apply running_with| |done|done]. apply with_connection_lookup. by eapply lookup_lt_Some.
Qed.

(** *** A handler that runs while no other thread is in a call *)

Lemma handler_run n h s conn rep st' :
  omap call_inside (connections s) = [] -> sync_call s = None -> connections s !! n = Some conn -> pending conn = handling false h ->
  run c_ h (index_ s) = Ret (rep, st') ->
  exists evs b, steps s evs (with_connection n (with_pending (handling false (Done (Ret rep))) conn) st' b s) /\ Forall (fun ev => ev = call_begins n \/ ev = call_ends n) evs.
Proof.
  revert s conn. induction h as [o|c k IH]; intros s conn Hact Hsync Hn Hp Hrun; cbn [run] in Hrun.
  - destruct o as [x| | |]; try done. injection Hrun as -> <-. exists [], (crc_table_made s). split; [|done].
    assert (with_connection n (with_pending (handling false (Done (Ret rep))) conn) (index_ s) (crc_table_made s) s = s) as ->; [|constructor].
    unfold with_connection. rewrite <-Hp. destruct conn as [q p r o sh se]. cbn [with_pending request_ request_parser_ reply_ pending is_shutdown sent] in *.
    rewrite list_insert_id by done. by destruct s.
  - apply outcome_bind_ret_inv in Hrun as ([a st1] & Hpf & Hrun).
    set (conn1 := with_pending (handling true (Call c k)) conn). set (s2 := with_connection n conn1 (index_ s) (crc_table_made s) s).
    set (conn2 := with_pending (handling false (k a)) conn). set (s3 := with_connection n conn2 st1 (crc_table_made s || makes_crc_table c) s).
    assert (n < length (connections s))%nat as Hlt by (by eapply lookup_lt_Some).
    destruct (IH a s3 conn2) as (evs & b & Hsteps & Hevs).
    + by apply active_insert.
    + done.
    + by apply with_connection_lookup.
    + done.
    + exact Hrun.
    + exists (call_begins n :: call_ends n :: evs), b. split; [|apply Forall_cons; split; [by left|]; apply Forall_cons; by split; [right|]].
      unfold s3 in Hsteps. rewrite with_connection_twice in Hsteps. change (?x :: ?y :: ?l) with ([x] ++ [y] ++ l). eapply (steps_app s _ s2); [|eapply (steps_app s2 _ s3); [|exact Hsteps]].
      * apply steps_one.
        -- cbn [enabled]. unfold waits. rewrite Hn, Hp. unfold can_begin, active. rewrite Hact, Hsync. by rewrite orb_true_r.
        -- cbn [handle_event]. unfold call_at. rewrite Hn. cbn [mbind option_bind]. rewrite Hp. cbn [or_undefined]. rewrite outcome_bind_ret.
           unfold begin, active. rewrite Hact, Hsync. change (existsb (races s c) ([] ++ option_list None)) with false. cbv iota. rewrite outcome_bind_ret.
           apply (update_with_connection n enter s conn conn1 Hn). unfold enter. by rewrite Hp.
      * assert (connections s2 !! n = Some conn1) as Hn2 by by apply with_connection_lookup. apply steps_one.
        -- cbn [enabled]. unfold waits. by rewrite Hn2.
        -- cbn [handle_event]. unfold call_at. rewrite Hn2. cbn [mbind option_bind]. change (pending conn1) with (handling true (Call c k)). cbn [or_undefined]. rewrite !outcome_bind_ret.
           unfold leave. change (pending conn1) with (handling true (Call c k)). change (index_ s2) with (index_ s). cbv iota. rewrite Hpf, !outcome_bind_ret. unfold end_call, s3, with_connection, with_connections. simpl.
           by rewrite list_insert_insert_eq.
Qed.
(** *** The reply of a handler that is done is written *)

Lemma reply_run n s conn rep m out_ :
  running (with_connection n (start_write rep conn) (index_ s) (crc_table_made s) s) = true -> connections s !! n = Some conn ->
  pending conn = handling false (Done (Ret rep)) -> reply.write_buffers m rep (reply.to_buffers rep) = Ret out_ ->
  steps s [handler_returns n; write_completes n (written m)]
    (with_connection n (MkConnection (request_ conn) (request_parser_ conn) rep closed true out_) (index_ s) (crc_table_made s) s).
Proof.
  intros Hrun Hn Hp Hw. set (s1 := with_connection n (start_write rep conn) (index_ s) (crc_table_made s) s) in *.
  assert (connections s1 !! n = Some (start_write rep conn)) as Hn1 by (apply with_connection_lookup; by eapply lookup_lt_Some).
  change [?x; ?y] with ([x] ++ [y]). apply (steps_app s _ s1); apply steps_one; cbn [enabled handle_event]; unfold waits.
  - by rewrite Hn, Hp.
  - apply (update_with_connection n finish s conn _ Hn). unfold finish. by rewrite Hp.
  - by rewrite Hn1, Hrun.
  - erewrite (update_with_connection n (handle_write (written m)) s1 _ _ Hn1); [unfold s1; by rewrite with_connection_twice|].
    unfold handle_write. cbn [start_write pending reply_ write_read]. by rewrite Hw.
Qed.
(** *** Runs by evaluation *)

(** Events in turn, each one if it is enabled. *)
Fixpoint run_events (evs : list event) (s : server) : option server :=
  match evs with
  | [] => Some s
  | ev :: evs' =>
      if enabled ev s then
        match handle_event ev s with Ret s => run_events evs' s | _ => None end
      else None
  end.

Lemma run_events_steps evs s s' : run_events evs s = Some s' -> steps s evs s'.
Proof.
  revert s. induction evs as [|ev evs IH]; intros s; cbn [run_events]; [intros [= <-]; constructor|].
  destruct (enabled ev s) eqn:E; [|done]. destruct (handle_event ev s) as [s1| | |] eqn:H; try done.
  intros Hs. change (ev :: evs) with ([ev] ++ evs). eapply steps_app; [by apply steps_one|by apply IH].
Qed.

Definition reached (evs : list event) (s : server) : server :=
  match run_events evs s with Some s' => s' | None => s end.

Lemma reached_steps evs s : bool_decide (is_Some (run_events evs s)) = true -> steps s evs (reached evs s).
Proof. unfold reached. intros [s' H]%bool_decide_eq_true. apply run_events_steps. by rewrite H. Qed.

End server.

(** ** Properties *)

Section properties.
Context {digest : Digest} {platform : Platform} {qi : Qi} {static : StaticFiles} {zopfli : Zopfli}.
Context (c_ : Config).

(** C23. What is stored stays. On a platform that opens files for writing, a
    reference that reads a content keeps reading it after any further run of
    the server, whatever clients and synchronisation add, unless a digest
    collides. *)
Theorem stored_stays s evs s' cs
    (Hr : refines c_ ∅ (index_ s) cs) (Hopen : forall path, open_for_write_ok path = true)
    (Hrun : steps c_ s evs s') :
  exists new, refines c_ ∅ (index_ s') (cs ++ new) /\
    (collision_free (cs ++ new) -> forall ref c, Z.of_nat (length ref) < 2 ^ 32 ->
       abs_find ref cs = Some c -> read_ref ref (index_ s) = Ret (Some c) /\ read_ref ref (index_ s') = Ret (Some c)).
Proof.
  destruct (steps_grow c_ ∅ s evs s' cs Hopen Hr Hrun) as [new Hr']. exists new. split; [done|].
  intros Hcf ref c Hlen Hc. split.
  - rewrite (read_ref_refines c_ ∅ ref (index_ s) cs) by (done || exact (collision_free_prefix _ _ Hcf)). by rewrite Hc.
  - rewrite (read_ref_refines c_ ∅ ref (index_ s') (cs ++ new)) by done. by rewrite (abs_find_app ref cs new c Hc).
Qed.

(** C15. Connections do not interfere. Let a connection start at [s1], and let
    the bytes it receives, among any other events, be a printed well-formed
    request. Then what it computes is the handler's work on exactly that request,
    each of its calls on the index and the compressor acting on the store that the
    run had at its end: it is in the handler, at what these calls leave of it, or it
    writes the buffers of the reply that the handler has returned, or a write has
    ended, and what it has sent is what the buffers of that reply were read as. *)
Theorem connection_isolated s1 n i evs s2 req rest
    (Hstart : connections s1 !! n = Some (connection_start i)) (Hrun : steps c_ s1 evs s2)
    (Hreads : concat (reads n evs) = print_request req ++ rest) (Hread_ok : read_completes n None ∉ evs)
    (Hwf : wf_request is_token req) (Hbody : content_ok (lower_names req)) :
  exists conn sts, connections s2 !! n = Some conn /\ calls_at c_ n s1 evs sts s2 /\
    request_ conn = lower_names req /\ computed c_ n i evs sts (lower_names req) conn.
Proof.
  destruct (connection_history c_ s1 n i evs s2 Hstart Hrun Hread_ok) as (conn & sts & Hconn & Hcalls & _ & Hw).
  destruct (parse_printed (i_body i) (i_major i) (i_minor i) req rest Hwf Hbody) as [p Hp].
  unfold waiting, decided, parsed in Hw. rewrite Hreads, Hp in Hw. destruct Hw as [(_ & _ & _ & Hw)|(Hpend & r & p' & rest' & _ & Hw & Ht)]; [done|].
  injection Hw as <- <- Hreq <-. exists conn, sts. rewrite <-Hreq in Ht. split_and!; [done..|]. by apply Ht.
Qed.

(** C18. The server answers. From any state that a run reaches, with a thread of the
    pool free and no thread in a call, a new client that sends a well-formed
    request, in segments of at most a buffer, can be served: a run goes on with
    nothing but the accept and the steps of its connection, reads the segments, and
    ends with the connection closed. The reply is the one the handler makes, its
    store is in place, and what was sent is what the write reads in the buffers of
    the reply: for a reply without headers, as that of an upload, its message. *)
Theorem client_served c0 files evs s i req segments rep st' m out_
    (Hrun : steps c_ (server_new c0 (BlobIndex_new files)) evs s) (Hrunning : running s = true) (Hcalls : active s = [])
    (Hwf : wf_request is_token req) (Hbody : content_ok (lower_names req))
    (Hsegments : concat segments = print_request req) (Hsize : Forall segment_ok segments)
    (Hreq : handle_request c_ (lower_names req) (reply_new i) (index_ s) = Ret (rep, st'))
    (Hwrite : reply.write_buffers m rep (reply.to_buffers rep) = Ret out_) :
  let n := length (connections s) in
  exists evs' s' conn,
    steps c_ s evs' s' /\ Forall (fun ev => ev = accept_completes false i \/ connection_of ev = Some n) evs' /\ reads n evs' = segments /\
    connections s' !! n = Some conn /\ pending conn = closed /\ is_shutdown conn = true /\ reply_ conn = rep /\ sent conn = out_ /\
    index_ s' = st' /\ (reply.headers rep = [] -> out_ = reply.print_reply rep).
Proof.
  intros n. pose proof (steps_ok c_ _ _ _ (server_new_ok c_ c0 files) Hrun) as [_ Ha _ _].
  destruct (parse_printed (i_body i) (i_major i) (i_minor i) req [] Hwf Hbody) as [p Hp].
  rewrite app_nil_r in Hp. set (s1 := handle_accept false i (accept_done s)).
  assert (connections s1 !! n = Some (connection_start i)) as Hn by (unfold s1, n; simpl; by rewrite list_lookup_middle).
  assert (n < length (connections s1))%nat as Hlt by (by eapply lookup_lt_Some).
  assert (running s1 = true) as Hrun1.
  { revert Hrunning. unfold running, busy, s1. cbn [handle_accept accept_done start_accept with_accepting with_connections connections stopped thread_pool_size_].
    by rewrite List.filter_app, length_app, Nat.add_0_r. }
  apply app_eq_nil in Hcalls as [Hact Hsync]. assert (sync_call s = None) as Hsync' by by destruct (sync_call s).
  set (conn1 := MkConnection (lower_names req) p (reply_new i) (handling false (handler c_ (lower_names req) (reply_new i))) false []).
  set (s2 := with_connection n conn1 (index_ s1) (crc_table_made s1) s1).
  assert (steps c_ s1 ((fun b => read_completes n (Some b)) <$> segments) s2) as H2.
  { apply (reads_run c_ n segments s1 (connection_start i) p (lower_names req) Hsize Hrun1 Hn eq_refl). by rewrite Hsegments. }
  destruct (handler_run c_ n (handler c_ (lower_names req) (reply_new i)) s2 conn1 rep st') as (evs3 & b & H3 & Hevs3); [|done|by apply with_connection_lookup|done|exact Hreq|].
  { apply active_insert; [done|]. unfold s1. simpl. by rewrite omap_app, Hact. }
  unfold s2 in H3. rewrite with_connection_twice in H3. set (s3 := with_connection n _ st' b s1) in H3.
  set (s5 := with_connection n (MkConnection (lower_names req) p rep closed true out_) st' b s1).
  assert (steps c_ s3 [handler_returns n; write_completes n (written m)] s5) as H4.
  { pose proof (reply_run c_ n s3 (with_pending (handling false (Done (Ret rep))) conn1) rep m out_) as H. unfold s3 in H. rewrite !with_connection_twice in H.
    apply H; [by apply running_with|by apply with_connection_lookup|done|done]. }
  exists ([accept_completes false i] ++ ((fun b => read_completes n (Some b)) <$> segments) ++ evs3 ++ [handler_returns n; write_completes n (written m)]), s5, (MkConnection (lower_names req) p rep closed true out_).
  assert (reads n evs3 = []) as Hr3.
  { clear - Hevs3. induction Hevs3 as [|ev evs H _ IH]; [done|]. change (ev :: evs) with ([ev] ++ evs). unfold reads. rewrite omap_app. fold (reads n evs). rewrite IH. by destruct H as [->| ->]. }
  split_and!; try done.
  - eapply (steps_app c_ s _ s1); [apply steps_one; [cbn [enabled]; by rewrite Hrunning, Ha|done]|]. eapply steps_app; [exact H2|]. eapply steps_app; [exact H3|exact H4].
  - apply Forall_app. split; [apply Forall_singleton; by left|]. repeat (apply Forall_app; split).
    + apply Forall_fmap, Forall_forall. intros x _. by right.
    + eapply Forall_impl; [exact Hevs3|]. intros ev [->| ->]; by right.
    + apply Forall_cons. split; [by right|]. apply Forall_singleton. by right.
  - unfold reads in *. rewrite !omap_app, Hr3. cbn. rewrite app_nil_r. clear. induction segments as [|b segments IH]; [done|].
    cbn. rewrite bool_decide_true by done. f_equal. exact IH.
  - by apply with_connection_lookup.
  - intros Hh. rewrite (reply.write_bare m rep Hh) in Hwrite. by injection Hwrite.
Qed.
End properties.

(** ** Examples *)

Section witnesses.
Let D : Digest := toy_digest.
Let P : Platform := working_platform.
Let Q : Qi := peg_qi.
Let F : StaticFiles := {| open_for_read _ := None |}.
Let ZF : Zopfli := {| ZopfliCompress _ c := Ret c |}.
Local Existing Instance D.
Local Existing Instance P.
Local Existing Instance Q.
Local Existing Instance F.
Local Existing Instance ZF.

Definition sample_indet : indeterminate := Indet 7 7 7 reply.ok.
Definition server0 : server := server_new Config_new (BlobIndex_new ∅).
Definition two_clients : list event := [accept_completes false sample_indet; accept_completes false sample_indet].
Definition get_bytes : bytes := print_request (sample_get (lit "GET") hello_ref).

(** The requests of two clients, interleaved, while the synchronisation adds a
    content; the second waits for the mutex. *)
Definition interleaved : list event :=
  two_clients ++
  [read_completes 1 (Some (take 9 get_bytes)); read_completes 0 (Some (lit "GET /x"));
   sync_begins (call_add_blob (Some hello_ref) (lit "hello")); read_completes 1 (Some (drop 9 get_bytes)); sync_ends;
   call_begins 1; call_ends 1; call_begins 1; sync_begins (call_get hello_ref); call_ends 1; call_begins 1; sync_ends; call_ends 1;
   handler_returns 1; write_completes 1 (written reply.intact); read_completes 0 (Some (lit "&"))].

(** A page is listed while a blob is added: a data race. *)
Example paginate_race :
  let page := Request (lit "GET") (lit "/enumerate-blobs") 1 1 [] [] [] in
  let s := reached Config_new (two_clients ++ [read_completes 0 (Some (print_request page)); sync_begins (call_add_blob (Some hello_ref) (lit "hello"))]) server0 in
  enabled (call_begins 0) s = true /\ handle_event Config_new (call_begins 0) s = Undefined.
Proof. vm_compute. done. Qed.

Lemma stored_stays_witness :
  exists new, refines Config_new ∅ (index_ (reached Config_new interleaved (with_index hello_store server0))) ([lit "hello"] ++ new).
Proof.
  destruct (stored_stays Config_new (with_index hello_store server0) interleaved
    (reached Config_new interleaved (with_index hello_store server0)) [lit "hello"]) as (new & Hr & _).
  - exact hello_refines.
  - reflexivity.
  - apply (reached_steps Config_new). vm_compute. reflexivity.
  - exists new. exact Hr.
Defined.

Lemma connection_isolated_witness :
  exists conn sts, connections (reached Config_new (drop 2 interleaved) (reached Config_new two_clients server0)) !! 1%nat = Some conn /\
    resume Config_new (handler Config_new (lower_names (sample_get (lit "GET") hello_ref)) (reply_new sample_indet)) sts = Ret (Done (Ret (reply_ conn))) /\
    sent conn = reply.print_reply (reply_ conn) /\ reply.content (reply_ conn) = lit "hello".
Proof.
  destruct (connection_isolated Config_new (reached Config_new two_clients server0) 1 sample_indet (drop 2 interleaved)
    (reached Config_new (drop 2 interleaved) (reached Config_new two_clients server0)) (sample_get (lit "GET") hello_ref) [])
    as (conn & sts & Hconn & _ & _ & Hc).
  - vm_compute. reflexivity.
  - apply (reached_steps Config_new). vm_compute. reflexivity.
  - vm_compute. reflexivity.
  - rewrite list_elem_of_In. cbn. intuition discriminate.
  - constructor; try reflexivity; try discriminate; try (split; discriminate). constructor.
  - exists 0. split; [reflexivity|]. split; [discriminate|reflexivity].
  - exists conn, sts. split; [exact Hconn|].
    assert (pending conn = closed /\ sent conn = reply.print_reply (reply_ conn) /\ reply.content (reply_ conn) = lit "hello") as (Hp & Hs & Hr).
    { clear Hc. revert Hconn. vm_compute. intros [= <-]. split; [|split]; reflexivity. }
    unfold computed in Hc. rewrite Hp in Hc. split; [exact (proj1 Hc)|]. split; [exact Hs|exact Hr].
Defined.

(** An upload to a server with two other clients: its reply is sent, whatever
    becomes of the memory. *)
Definition put_bytes : bytes := print_request sample_put.

Lemma client_served_witness :
  exists evs s' conn, steps Config_new (reached Config_new two_clients server0) evs s' /\ reads 2 evs = [take 9 put_bytes; drop 9 put_bytes] /\
    connections s' !! 2%nat = Some conn /\ pending conn = closed /\ sent conn = lit "HTTP/1.0 200 OK" ++ crlf ++ crlf.
Proof.
  destruct (client_served Config_new Config_new ∅ two_clients (reached Config_new two_clients server0) sample_indet
    sample_put [take 9 put_bytes; drop 9 put_bytes]
    (reply.Reply reply.ok [] []) (BlobIndex_new ∅) reply.destroyed (lit "HTTP/1.0 200 OK" ++ crlf ++ crlf)) as (evs & s' & conn & H1 & _ & H2 & H3 & H4 & _ & _ & H5 & _).
  - apply (reached_steps Config_new). vm_compute. reflexivity.
  - reflexivity.
  - reflexivity.
  - constructor; try reflexivity; try discriminate; try (split; discriminate). repeat constructor; discriminate.
  - exists 1. split; [reflexivity|]. split; [discriminate|reflexivity].
  - vm_compute. reflexivity.
  - repeat (apply Forall_cons; split; [apply (bool_decide_unpack _); vm_compute; exact I|]). constructor.
  - vm_compute. reflexivity.
  - vm_compute. reflexivity.
  - exists evs, s', conn. split; [exact H1|]. split; [exact H2|]. split; [exact H3|]. split; [exact H4|exact H5].
Defined.
End witnesses.
