(* ===== verification/Sync.v ===== *)
(** * Synchronisation

    [blobserver::SyncEnumeration] and [blobserver::Sync] ([Sync.hpp],
    [Sync.cpp]): the thread that every [sync_delay] seconds gets from each
    configured server the blobs it lists and sends it the blobs it lacks.

    Parameters: [JsonReader], the interface of the reader of [json_spirit]
    ([JsonRoundTrip]); and [curl_easy_perform] of libcurl, a function of the
    options of the handle and of a world [W], the rest of the network, that
    gives the bytes it passed to the write function when its result is
    [CURLE_OK].

    Loops that wait for the other server to end them take fuel; a result
    [None] is out of fuel. *)

From S2P Require Import Prelude CppString StdMap Config Hash BlobKey Blob BlobIndex JsonValue.
From S2P Require Import JsonRoundTrip.

Local Open Scope Z_scope.

(** ** [SyncEnumeration] *)

Record SyncEnumeration : Type := MkEnumeration {
  set_last_ : bool;
  last_ : bytes;
  blob_refs_ : list bytes;
}.

Definition SyncEnumeration_new : SyncEnumeration := MkEnumeration false [] [].
Definition enum_last (e : SyncEnumeration) : option bytes := if set_last_ e then Some (last_ e) else None.
Definition set_enum_last (last : bytes) (e : SyncEnumeration) : SyncEnumeration :=
  MkEnumeration true last (blob_refs_ e).
Definition set_blob_refs (refs : list bytes) (e : SyncEnumeration) : SyncEnumeration :=
  MkEnumeration (set_last_ e) (last_ e) refs.
Definition add_blob_ref (blob_ref : bytes) (e : SyncEnumeration) : SyncEnumeration :=
  MkEnumeration (set_last_ e) (last_ e) (blob_refs_ e ++ [blob_ref]).

(** [writer]: the callback appends what it is given and says it took it all,
    an [int]; [size * nmemb] is a [size_t]. *)
Definition writer (data : bytes) (size nmemb : Z) (buffer : option bytes) : option bytes * Z :=
  match buffer with
  | Some b => (Some (b ++ take (Z.to_nat (u64 (size * nmemb))) data), s32 (u64 (size * nmemb)))
  | None => (None, 0)
  end.

(** ** Texts *)

Definition CAMLI_VERSION : Z := 1.

Definition build_stat_url (host : bytes) : bytes := host ++ lit "/stat".

Definition build_enumeration_url (host last : bytes) : bytes :=
  host ++ lit "/enumerate-blobs" ++ (if (0 <? Z.of_nat (length last)) then lit "?after=" ++ last else []).

Definition build_blob_url (host blob_ref : bytes) : bytes :=
  host ++ (if ends_with host (lit "/") then [] else lit "/") ++ blob_ref.

Fixpoint stat_parameters (n : Z) (blobs : list (BlobKey * nat)) : bytes :=
  match blobs with
  | [] => []
  | (k, _) :: blobs' => lit "&blob" ++ show_Z n ++ lit "=" ++ blobref k ++ stat_parameters (n + 1) blobs'
  end.

Definition stat_request (blobs : list (BlobKey * nat)) : bytes :=
  lit "camliversion=" ++ show_Z CAMLI_VERSION ++ stat_parameters 1 blobs.

(** ** Enumerations *)

Section enumeration.
Context {reader : JsonReader}.

(** The members of an entry of the list. *)
Fixpoint parse_blob_obj (obj : Object) (e : SyncEnumeration) : outcome SyncEnumeration :=
  match obj with
  | [] => Ret e
  | (name, value) :: obj' =>
      e ← (if bool_decide (name = lit "blobRef") then s ← get_str value; Ret (add_blob_ref s e) else Ret e);
      parse_blob_obj obj' e
  end.

Fixpoint parse_blobs_array (blobs_array : Array) (e : SyncEnumeration) : outcome SyncEnumeration :=
  match blobs_array with
  | [] => Ret e
  | v :: rest => blob_obj ← get_obj v; e ← parse_blob_obj blob_obj e; parse_blobs_array rest e
  end.

Fixpoint parse_members (obj : Object) (e : SyncEnumeration) : outcome SyncEnumeration :=
  match obj with
  | [] => Ret e
  | (name, value) :: obj' =>
      e ← (if bool_decide (name = lit "continueAfter") then
             s ← get_str value; Ret (set_enum_last s e)
           else Ret e);
      e ← (if bool_decide (name = lit "blobs") || bool_decide (name = lit "stat") then
             blobs_array ← get_array value; parse_blobs_array blobs_array e
           else Ret e);
      parse_members obj' e
  end.

Definition parse_sync_enumeration (content : bytes) : outcome (option SyncEnumeration) :=
  value ← json_read content;
  match value with
  | None => Ret None
  | Some value =>
      if bool_decide (type value = obj_type) then
        obj ← get_obj value;
        e ← parse_members obj SyncEnumeration_new;
        Ret (Some e)
      else Ret None
  end.
End enumeration.

(** ** libcurl *)

(** The file part of a form. *)
Record curl_httppost : Type := MkPost {
  post_name : bytes; post_file : bytes; post_filename : bytes; post_type : bytes;
}.

(** The options of an easy handle. *)
Record easy : Type := MkEasy {
  opt_useragent : option bytes;
  opt_nosignal : Z; opt_header : Z; opt_followlocation : Z; opt_fresh_connect : Z; opt_timeout : Z;
  opt_url : option bytes;
  opt_postfields : option bytes;
  opt_httppost : option curl_httppost;
}.

(** [curl_easy_init] and [curl_easy_reset] give the defaults. *)
Definition easy_default : easy := MkEasy None 0 0 0 0 0 None None None.

Definition set_url (url : bytes) (h : easy) : easy :=
  MkEasy (opt_useragent h) (opt_nosignal h) (opt_header h) (opt_followlocation h) (opt_fresh_connect h)
    (opt_timeout h) (Some (c_str url)) (opt_postfields h) (opt_httppost h).
Definition set_postfields (body : bytes) (h : easy) : easy :=
  MkEasy (opt_useragent h) (opt_nosignal h) (opt_header h) (opt_followlocation h) (opt_fresh_connect h)
    (opt_timeout h) (opt_url h) (Some (c_str body)) (opt_httppost h).
Definition set_httppost (post : curl_httppost) (h : easy) : easy :=
  MkEasy (opt_useragent h) (opt_nosignal h) (opt_header h) (opt_followlocation h) (opt_fresh_connect h)
    (opt_timeout h) (opt_url h) (opt_postfields h) (Some post).

(** The options of [sync_host]. *)
Definition easy_sync : easy := MkEasy (Some (lit "blobserver/1.0.0")) 1 0 1 0 5 None None None.

Definition build_upload (blob_ref : bytes) (blob : Blob) : curl_httppost :=
  MkPost (c_str blob_ref) (c_str (filePath_ blob)) (lit "blob1") (lit "application/octet-stream").

Section sync.
Context {digest : Digest} {platform : Platform} {reader : JsonReader}.
Context {W : Type} (curl_easy_perform : easy -> gmap bytes bytes -> W -> option bytes * W).
Context (ci_ : Config).

(** The handle, the store and the world; the handle's files are those of the
    store. *)
Record state : Type := MkState { curl : easy; bi_ : store; world : W }.

Definition perform (h : easy) (s : state) : option bytes * state :=
  let r := curl_easy_perform h (disk (bi_ s)) (world s) in
  (r.1, MkState easy_default (bi_ s) r.2).

Definition fetch_url (url : bytes) (s : state) : option bytes * state := perform (set_url url (curl s)) s.

Definition fetch_url_post (url postbody : bytes) (s : state) : option bytes * state :=
  perform (set_postfields postbody (set_url url (curl s))) s.

Definition fetch_blob (host blob_ref : bytes) (s : state) : outcome state :=
  let '(blob_ref_content, s) := fetch_url (build_blob_url host blob_ref) s in
  match blob_ref_content with
  | Some content =>
      r ← add_blob ci_ (Some blob_ref) content (bi_ s);
      Ret (MkState (curl s) r.2 (world s))
  | None => Ret s
  end.

Definition send_blob (host blob_ref : bytes) (s : state) : outcome (option bytes * state) :=
  blob ← get blob_ref (bi_ s);
  match blob with
  | None => Ret (None, s)
  | Some p =>
      b ← or_undefined (heap (bi_ s) !! p);
      Ret (perform (set_httppost (build_upload blob_ref b) (set_url (host ++ lit "/upload") (curl s))) s)
  end.

(** The references of a page that the index lacks are fetched. *)
Fixpoint fetch_missing (host : bytes) (refs : list bytes) (s : state) : outcome state :=
  match refs with
  | [] => Ret s
  | blob_ref :: refs' =>
      blob ← get blob_ref (bi_ s);
      s ← match blob with None => fetch_blob host blob_ref s | Some _ => Ret s end;
      fetch_missing host refs' s
  end.

Fixpoint get_loop (fuel : nat) (host last : bytes) (s : state) : outcome (option state) :=
  match fuel with
  | O => Ret None
  | S f =>
      let '(content, s) := fetch_url (build_enumeration_url host last) s in
      match content with
      | None => Ret (Some s)
      | Some content =>
          sync_enumeration ← parse_sync_enumeration content;
          match sync_enumeration with
          | None => Ret (Some s)
          | Some e =>
              s ← fetch_missing host (blob_refs_ e) s;
              match enum_last e with
              | Some last => get_loop f host last s
              | None => Ret (Some s)
              end
          end
      end
  end.

(** [std::set<std::string>] of the references of a page. *)
Definition check_set (blobs : list (BlobKey * nat)) : list (bytes * unit) :=
  fold_left (fun s e => map_insert bytes_ltb s (blobref e.1) tt) blobs [].

Definition erase_refs (refs : list bytes) (set : list (bytes * unit)) : list (bytes * unit) :=
  fold_left (fun s r => map_erase bytes_ltb s r) refs set.

Fixpoint send_all (host : bytes) (refs : list bytes) (s : state) : outcome state :=
  match refs with
  | [] => Ret s
  | r :: refs' => x ← send_blob host r s; send_all host refs' x.2
  end.

(** One page of the blobs to send; whether the loop goes on. *)
Definition send_page (host : bytes) (blobs : list (BlobKey * nat)) (s : state) : outcome (bool * state) :=
  match blobs with
  | [] => Ret (true, s)
  | _ =>
      let check_blob_refs := check_set blobs in
      let stat_request_body := stat_request blobs in
      let '(content, s) := fetch_url_post (build_stat_url host) stat_request_body s in
      match content with
      | None => Ret (false, s)
      | Some content =>
          sync_enumeration ← parse_sync_enumeration content;
          match sync_enumeration with
          | None => Ret (false, s)
          | Some e =>
              s ← send_all host (erase_refs (blob_refs_ e) check_blob_refs).*1 s;
              Ret (true, s)
          end
      end
  end.

Fixpoint send_loop (fuel : nat) (host : bytes) (after : option bytes) (s : state) : outcome (option state) :=
  match fuel with
  | O => Ret None
  | S f =>
      blobs ← paginate [] after 501 (bi_ s);
      let full := Z.of_nat (length blobs) =? 501 in
      let after := if full then
                     match last blobs with Some (k, _) => Some (blobref k) | None => after end
                   else after in
      r ← send_page host blobs s;
      if full && r.1 then send_loop f host after r.2 else Ret (Some r.2)
  end.

(** [sync_host]; the handle is created and cleaned up by it. *)
Definition sync_host (fuel : nat) (sync_config : SyncConfig) (s : state) : outcome (option state) :=
  let s := MkState easy_sync (bi_ s) (world s) in
  s ← (if sync_get sync_config then get_loop fuel (host_ sync_config) [] s else Ret (Some s));
  match s with
  | None => Ret None
  | Some s => if sync_send sync_config then send_loop fuel (host_ sync_config) None s else Ret (Some s)
  end.

Fixpoint sync_hosts (fuel : nat) (servers : list SyncConfig) (s : state) : outcome (option state) :=
  match servers with
  | [] => Ret (Some s)
  | c :: servers' =>
      r ← sync_host fuel c s;
      match r with Some s => sync_hosts fuel servers' s | None => Ret None end
  end.

(** [run]: one element per turn of the loop, the value of [stopRequested_]
    read at its head; the turns that end a delay synchronise. *)
Fixpoint run (fuel : nat) (stopRequested : list bool) (tick_ : Z) (s : state) : outcome (option (Z * state)) :=
  match stopRequested with
  | [] => Ret (Some (tick_, s))
  | true :: _ => Ret (Some (tick_, s))
  | false :: rest =>
      tick_ ← int_result (tick_ + 1);
      if sync_delay ci_ <=? tick_ then
        r ← sync_hosts fuel (sync_servers ci_) s;
        match r with Some s => run fuel rest 0 s | None => Ret None end
      else run fuel rest tick_ s
  end.
End sync.
