(* ===== verification/SyncStore.v ===== *)
(** * What synchronisation does to the store

    Theorems about [Sync], for every remote: the store stays a store of
    contents, each new one named by a reference; the options of the handle
    survive one request only; and the body of a [/stat] request asks for the
    references of a page, as the request handler reads it. *)

From S2P Require Import Prelude CppString StdMap Config Hash BlobKey Blob BlobIndex JsonValue.
From S2P Require Import Classic JsonRoundTrip Qi QueryString Sync.

Local Open Scope Z_scope.

(** ** Outcomes of the sync thread *)

(** What may go wrong, beside the exceptions that nobody catches. *)
Record failures : Type := MkFailures { may_throw : Prop; may_abort : Prop; may_be_undefined : Prop }.

(** The call ends as [P] says, or fails as it may. *)
Definition sync_ok {A} (errs : failures) (P : A -> Prop) (m : outcome A) : Prop :=
  match m with
  | Ret x => P x
  | Throws e => may_throw errs \/ e = runtime_error \/ e = filesystem_error
  | Aborts => may_abort errs
  | Undefined => may_be_undefined errs
  end.

Lemma sync_ok_bind {A B} errs (P : A -> Prop) (Q : B -> Prop) m f :
  sync_ok errs P m -> (forall x, P x -> sync_ok errs Q (f x)) -> sync_ok errs Q (m ≫= f).
Proof. destruct m; simpl; auto. Qed.

Lemma sync_ok_mono {A} errs (P Q : A -> Prop) m :
  sync_ok errs P m -> (forall x, P x -> Q x) -> sync_ok errs Q m.
Proof. destruct m; simpl; auto. Qed.

Definition anything {A} (_ : A) : Prop := True.

Lemma sync_ok_get_str errs v : sync_ok errs anything (get_str v).
Proof. destruct v; cbv; auto. Qed.
Lemma sync_ok_get_obj errs v : sync_ok errs anything (get_obj v).
Proof. destruct v; cbv; auto. Qed.
Lemma sync_ok_get_array errs v : sync_ok errs anything (get_array v).
Proof. destruct v; cbv; auto. Qed.

#[export] Hint Resolve sync_ok_get_str sync_ok_get_obj sync_ok_get_array : blob.

Lemma sync_ok_blob_obj errs obj e : sync_ok errs anything (parse_blob_obj obj e).
Proof.
  revert e. induction obj as [|[n v] obj IH]; intros e; [done|]. cbn [parse_blob_obj].
  apply (sync_ok_bind _ anything); [|auto]. case_bool_decide; [|done].
  by apply (sync_ok_bind _ anything); [auto with blob|].
Qed.

Lemma sync_ok_blobs_array errs vs e : sync_ok errs anything (parse_blobs_array vs e).
Proof.
  revert e. induction vs as [|v vs IH]; intros e; [done|]. cbn [parse_blobs_array].
  apply (sync_ok_bind _ anything); [auto with blob|]. intros obj _.
  apply (sync_ok_bind _ anything); [apply sync_ok_blob_obj|auto].
Qed.

Lemma sync_ok_members errs obj e : sync_ok errs anything (parse_members obj e).
Proof.
  revert e. induction obj as [|[n v] obj IH]; intros e; [done|]. cbn [parse_members].
  apply (sync_ok_bind _ anything).
  - case_bool_decide; [|done]. by apply (sync_ok_bind _ anything); [auto with blob|].
  - intros e1 _. apply (sync_ok_bind _ anything); [|auto]. destruct (_ || _); [|done].
    apply (sync_ok_bind _ anything); [auto with blob|]. intros. apply sync_ok_blobs_array.
Qed.

Lemma sync_ok_enumeration {reader : JsonReader} errs content :
  may_be_undefined errs \/ (4 * length content + 3 <= json_stack)%nat -> sync_ok errs anything (parse_sync_enumeration content).
Proof.
  intros H. unfold parse_sync_enumeration. pose proof (json_read_total content) as Ht.
  destruct (json_read content) as [[v|]| | |]; try done; [|destruct H; [done|simpl; lia]].
  rewrite outcome_bind_ret. case_bool_decide; [|done].
  apply (sync_ok_bind _ anything); [auto with blob|]. intros obj _.
  by apply (sync_ok_bind _ anything); [apply sync_ok_members|].
Qed.

(** ** Invariants of the sync thread *)

(** A handle with nothing to post. *)
Definition plain (h : easy) : Prop := opt_postfields h = None /\ opt_httppost h = None.

(** What a handle keeps when a request is set up on it. *)
Definition asked (h0 h : easy) : Prop :=
  opt_timeout h = opt_timeout h0 /\ opt_useragent h = opt_useragent h0.

Section invariant.
Context {digest : Digest} {platform : Platform} {reader : JsonReader}.
Context {W : Type} (curl_easy_perform : easy -> gmap bytes bytes -> W -> option bytes * W).
Context (ci_ : Config) (host : bytes) (errs : failures) (J : state (W := W) -> Prop).

(** A body the remote gave for a reference. *)
Definition served (ref content : bytes) : Prop :=
  exists h d w w', opt_url h = Some (c_str (build_blob_url host ref)) /\ plain h /\
    curl_easy_perform h d w = (Some content, w').

(** A body the remote gave for a request. *)
Definition answered (content : bytes) : Prop := exists h d w w', curl_easy_perform h d w = (Some content, w').

Context (J_plain : forall s, J s -> plain (curl s)).
Context (J_perform : forall h s, J s -> asked (curl s) h -> J (perform curl_easy_perform h s).2).
Context (J_add : forall ref content s, J s -> served ref content ->
  sync_ok errs (fun r => J (MkState (curl s) r.2 (world s))) (add_blob ci_ (Some ref) content (bi_ s))).
Context (J_deref : forall s p ref, J s -> get ref (bi_ s) = Ret (Some p) -> may_be_undefined errs \/ is_Some (heap (bi_ s) !! p)).
Context (J_json : forall c, answered c -> may_be_undefined errs \/ (4 * length c + 3 <= json_stack)%nat).

Lemma fetch_blob_inv ref s : J s -> sync_ok errs J (fetch_blob curl_easy_perform ci_ host ref s).
Proof.
  intros Hs. unfold fetch_blob, fetch_url.
  pose proof (J_perform (set_url (build_blob_url host ref) (curl s)) s Hs ltac:(done)) as Hp.
  unfold perform in *.
  destruct (curl_easy_perform (set_url _ _) _ _) as [[content|] w'] eqn:E; cbn [fst snd] in *; [|done].
  assert (plain (set_url (build_blob_url host ref) (curl s))) as Hplain by by destruct (J_plain s Hs).
  eapply sync_ok_bind; [apply (J_add ref content _ Hp)|by intros x Hx].
  exists (set_url (build_blob_url host ref) (curl s)), (disk (bi_ s)), (world s), w'. done.
Qed.

Lemma get_ok ref (s : state (W := W)) : sync_ok errs (fun o => o = None \/ exists p, o = Some p /\ get ref (bi_ s) = Ret (Some p)) (get ref (bi_ s)).
Proof.
  unfold get. destruct (create_blob_key_some ref) as [k ->]. rewrite outcome_bind_ret. simpl.
  destruct (map_find _ _ _); eauto.
Qed.

Lemma send_blob_inv ref s : J s -> sync_ok errs (fun r => J r.2) (send_blob curl_easy_perform host ref s).
Proof.
  intros Hs. unfold send_blob. eapply sync_ok_bind; [apply get_ok|].
  intros o [->|(p & -> & Hg)]; [done|].
  destruct (J_deref s p ref Hs Hg) as [He|[b Hb]].
  - destruct (heap (bi_ s) !! p); [|done]. by apply J_perform.
  - rewrite Hb. by apply J_perform.
Qed.

Lemma fetch_missing_inv refs s : J s -> sync_ok errs J (fetch_missing curl_easy_perform ci_ host refs s).
Proof.
  revert s. induction refs as [|r refs IH]; intros s Hs; [done|]. cbn [fetch_missing].
  eapply sync_ok_bind; [apply get_ok|]. intros o _.
  apply (sync_ok_bind _ J); [|auto]. destruct o; [done|by apply fetch_blob_inv].
Qed.

Lemma send_all_inv refs s : J s -> sync_ok errs J (send_all curl_easy_perform host refs s).
Proof.
  revert s. induction refs as [|r refs IH]; intros s Hs; [done|]. cbn [send_all].
  eapply sync_ok_bind; [by apply send_blob_inv|]. auto.
Qed.

Definition finished (o : option (state (W := W))) : Prop := match o with Some s => J s | None => True end.

Lemma get_loop_inv fuel last s : J s -> sync_ok errs finished (get_loop curl_easy_perform ci_ fuel host last s).
Proof.
  revert last s. induction fuel as [|fuel IH]; intros last s Hs; [done|]. cbn [get_loop].
  unfold fetch_url.
  pose proof (J_perform (set_url (build_enumeration_url host last) (curl s)) s Hs ltac:(done)) as Hp.
  unfold perform in *.
  destruct (curl_easy_perform (set_url _ _) _ _) as [[content|] w'] eqn:E; cbn [fst snd] in *; [|done].
  apply (sync_ok_bind _ anything); [eapply sync_ok_enumeration, J_json; by eexists _, _, _, _|]. intros [e|] _; [|done].
  eapply sync_ok_bind; [by apply fetch_missing_inv|]. intros s' Hs'.
  destruct (enum_last e); [by apply IH|done].
Qed.

Lemma send_page_inv blobs s : J s ->
  sync_ok errs (fun r => J r.2) (send_page curl_easy_perform host blobs s).
Proof.
  intros Hs. unfold send_page. destruct blobs as [|b blobs]; [done|]. unfold fetch_url_post.
  pose proof (J_perform (set_postfields (stat_request (b :: blobs)) (set_url (build_stat_url host) (curl s)))
    s Hs ltac:(done)) as Hp.
  unfold perform in *.
  destruct (curl_easy_perform (set_postfields _ _) _ _) as [[content|] w'] eqn:E; cbn [fst snd] in *; [|done].
  apply (sync_ok_bind _ anything); [eapply sync_ok_enumeration, J_json; by eexists _, _, _, _|]. intros [e|] _; [|done].
  by eapply sync_ok_bind; [by apply send_all_inv|].
Qed.

Lemma send_loop_inv fuel after s : J s -> sync_ok errs finished (send_loop curl_easy_perform fuel host after s).
Proof.
  revert after s. induction fuel as [|fuel IH]; intros after s Hs; [done|]. cbn [send_loop].
  apply (sync_ok_bind _ anything).
  - unfold paginate. destruct after as [l|]; [|done]. by destruct (create_blob_key_some l) as [k ->].
  - intros blobs _. eapply sync_ok_bind; [by apply send_page_inv|]. intros [more s'] Hs'. cbn [fst snd] in *.
    destruct (_ && more); [by apply IH|done].
Qed.

Lemma sync_host_inv fuel conf s : host_ conf = host ->
  J (MkState easy_sync (bi_ s) (world s)) -> sync_ok errs finished (sync_host curl_easy_perform ci_ fuel conf s).
Proof.
  intros Hhost Hs. unfold sync_host. rewrite Hhost. apply (sync_ok_bind _ finished).
  - destruct (sync_get conf); [by apply get_loop_inv|done].
  - intros [s'|] Hs'; [|done]. destruct (sync_send conf); [by apply send_loop_inv|done].
Qed.
End invariant.

(** ** The body of a [/stat] request *)

Fixpoint stat_pairs (n : Z) (blobs : list (BlobKey * nat)) : list (bytes * bytes) :=
  match blobs with
  | [] => []
  | (k, _) :: blobs' => (lit "blob" ++ show_Z n, blobref k) :: stat_pairs (n + 1) blobs'
  end.

Lemma blobref_cons k : exists c s, blobref k = c :: s.
Proof. unfold blobref. destruct (hash_type k); by eexists _, _. Qed.

Lemma stat_parameters_print n blobs : stat_parameters n blobs = print_rest (stat_pairs n blobs).
Proof.
  revert n. induction blobs as [|[k p] blobs IH]; intros n; [done|].
  cbn [stat_parameters stat_pairs print_rest]. rewrite IH. unfold print_pair. cbn [fst snd].
  destruct (blobref_cons k) as (c & s & ->). rewrite <-!app_assoc. done.
Qed.

Lemma stat_pairs_keys n blobs e : e ∈ stat_pairs n blobs -> exists m, n <= m /\ e.1 = lit "blob" ++ show_Z m.
Proof.
  revert n. induction blobs as [|[k p] blobs IH]; intros n; cbn [stat_pairs]; [by intros ?%elem_of_nil|].
  intros [->|H]%elem_of_cons; [by exists n|]. destruct (IH _ H) as (m & Hm & He). exists m. split; [lia|done].
Qed.

Lemma show_Z_inj n m : 0 <= n -> 0 <= m -> show_Z n = show_Z m -> n = m.
Proof.
  intros Hn Hm. unfold show_Z. rewrite (proj2 (Z.ltb_ge _ _) Hn), (proj2 (Z.ltb_ge _ _) Hm). intros H.
  destruct (show_nonneg_spec n Hn) as (_ & <- & _). destruct (show_nonneg_spec m Hm) as (_ & <- & _).
  by rewrite H.
Qed.

Lemma stat_pairs_nodup n blobs : 0 <= n -> NoDup (stat_pairs n blobs).*1.
Proof.
  revert n. induction blobs as [|[k p] blobs IH]; intros n Hn; cbn [stat_pairs fmap list_fmap]; [constructor|].
  apply NoDup_cons. split; [|apply IH; lia]. intros (e & He & Hin)%list_elem_of_fmap.
  destruct (stat_pairs_keys _ _ _ Hin) as (m & Hm & Hk). rewrite Hk in He. cbn [fst] in He.
  apply app_inv_head, show_Z_inj in He; lia.
Qed.

Lemma stat_pairs_ok n blobs : 0 <= n ->
  Forall (fun e => forallb query_value_char (blobref e.1) = true) blobs -> Forall pair_ok (stat_pairs n blobs).
Proof.
  intros Hn H. revert n Hn. induction H as [|[k p] blobs Hk _ IH]; intros n Hn; cbn [stat_pairs]; [done|].
  apply Forall_cons. split; [|apply IH; lia]. split; [|done]. cbn [fst]. split; [done|].
  change (forallb key_char (lit "lob" ++ show_Z n) = true). rewrite forallb_app. apply andb_true_iff. split; [done|].
  unfold show_Z. rewrite (proj2 (Z.ltb_ge _ _) Hn). destruct (show_nonneg_spec n Hn) as (Hd & _ & _).
  eapply forallb_impl; [|exact Hd]. clear. intros c. apply implb_true_iff. by_all_chars c.
Qed.

Lemma stat_pairs_values n blobs : (stat_pairs n blobs).*2 = (fun e => blobref e.1) <$> blobs.
Proof.
  revert n. induction blobs as [|[k p] blobs IH]; intros n; [done|]. cbn [stat_pairs fmap list_fmap]. by rewrite IH.
Qed.

Lemma filter_blob_pairs n blobs :
  filter (fun e => starts_with e.1 (lit "blob") = true) (stat_pairs n blobs) = stat_pairs n blobs.
Proof.
  revert n. induction blobs as [|[k p] blobs IH]; intros n; [done|]. cbn [stat_pairs].
  rewrite filter_cons_True by apply starts_with_app. by rewrite IH.
Qed.

(** A page asked for is the page read. The body that [send_loop] posts to
    [/stat] for a page of the index, whose references are made of the
    characters of the query grammar, is decoded by the request handler as
    exactly the references of the page, in the order of their keys [blob1],
    [blob10], ... *)
Theorem stat_request_read {qi : Qi} blobs
    (Hkeys : Forall (fun e => forallb query_value_char (blobref e.1) = true) blobs)
    (Hlen : Z.of_nat (length (stat_request blobs)) < 2 ^ 32) :
  exists refs, decode_query_string_blobs [] (stat_request blobs) = Ret refs /\
    refs ≡ₚ (fun e => blobref e.1) <$> blobs.
Proof.
  set (ps := stat_pairs 1 blobs). set (p := (lit "camliversion", lit "1")).
  assert (Forall pair_ok (p :: ps)) as Hok by (constructor; [done|by apply stat_pairs_ok]).
  assert (stat_request blobs = print_query p ps) as E.
  { unfold stat_request, print_query. by rewrite stat_parameters_print. }
  rewrite E in *. unfold decode_query_string_blobs.
  rewrite after_question_mark_none, outcome_bind_ret by (try done; by apply print_pairs_no_question).
  apply Forall_cons in Hok as [Hp Hps]. rewrite (parse_query p ps Hp Hps). eexists. split; [done|].
  assert (fold_left insert_pair (p :: ps) [] ≡ₚ (p :: ps) ++ []) as Hperm.
  { apply (map_insert_all bytes_ltb). rewrite app_nil_r. apply NoDup_cons. split.
    - intros (e & He & (m & _ & Hm)%stat_pairs_keys)%list_elem_of_fmap. by rewrite Hm in He.
    - by apply stat_pairs_nodup. }
  rewrite Hperm, app_nil_r. unfold string_map. rewrite filter_cons_False by done. subst ps.
  by rewrite filter_blob_pairs, stat_pairs_values.
Qed.

(** ** Properties *)

Section properties.
Context {digest : Digest} {platform : Platform} {reader : JsonReader}.
Context {W : Type} (curl_easy_perform : easy -> gmap bytes bytes -> W -> option bytes * W).
Context (ci_ : Config).

Lemma add_blob_refines errs files ref content st cs :
  refines ci_ files st cs -> open_for_write_ok (content_path ci_ content) = true -> may_abort errs \/ content ≠ [] ->
  sync_ok errs (fun r => refines ci_ files r.2 (cs ++ if named_by ref content then [content] else []))
    (add_blob ci_ (Some ref) content st).
Proof.
  intros Hr Ho Hc. destruct (decide (content = [])) as [->|Hc']; [by destruct Hc|]. clear Hc. rename Hc' into Hc.
  destruct (create_directories_ok (blob_root ci_ ++ take 3 (Sha256 content (length content)) ++ lit "/")) eqn:Hd.
  - rewrite (add_blob_spec ci_ (Some ref) content st Hc Hd). simpl accepts.
    destruct (named_by ref content); simpl; [by apply add_result_refines|].
    rewrite app_nil_r. by apply refuse_result_refines.
  - unfold add_blob, add_blob_with. destruct content as [|c content]; [done|].
    rewrite create_path_spec. rewrite Hd. simpl. auto.
Qed.

(** C26. A remote cannot corrupt the store. Whatever the network answers, a
    synchronisation that ends leaves a store of the old contents and of new ones,
    each served for a reference that is its own. It fails by an exception of the
    JSON accessors or of the file system, which nothing catches; by the assertion of
    [add_blob], only when the remote has served an empty body for a reference; and
    by the end of the stack, only when an answer of the remote is longer than the
    stack is sure to read as JSON. The files can be written. *)
Theorem sync_keeps_store files fuel conf s cs
    (Hr : refines ci_ files (bi_ s) cs)
    (Hopen : forall c, open_for_write_ok (content_path ci_ c) = true) :
  match sync_host curl_easy_perform ci_ fuel conf s with
  | Ret (Some s') => exists new, refines ci_ files (bi_ s') (cs ++ new) /\
      Forall (fun c => exists ref, served curl_easy_perform (host_ conf) ref c /\ named_by ref c = true) new
  | Ret None => True
  | Throws e => e = runtime_error \/ e = filesystem_error
  | Aborts => exists ref, served curl_easy_perform (host_ conf) ref []
  | Undefined => exists content, answered curl_easy_perform content /\ (json_stack < 4 * length content + 3)%nat
  end.
Proof.
  set (fresh := fun c => exists ref, served curl_easy_perform (host_ conf) ref c /\ named_by ref c = true).
  set (errs := MkFailures False (exists ref, served curl_easy_perform (host_ conf) ref [])
    (exists content, answered curl_easy_perform content /\ (json_stack < 4 * length content + 3)%nat)).
  pose proof (sync_host_inv curl_easy_perform ci_ (host_ conf) errs (fun s => plain (curl s) /\
    exists new, refines ci_ files (bi_ s) (cs ++ new) /\ Forall fresh new)) as H.
  specialize (H ltac:(by intros ? []) ltac:(by intros h s' [_ ?])).
  ospecialize (H _ _ _ fuel conf s eq_refl _).
  - intros ref content s' [Hp (new & Hnew & Hf)] Hsv.
    assert (may_abort errs \/ content ≠ []) as Hne by (destruct content; [left; by exists ref|by right]).
    eapply sync_ok_mono; [by apply (add_blob_refines errs files ref content _ _ Hnew (Hopen content))|].
    intros r Hr'. split; [done|]. cbn [bi_].
    exists (new ++ if named_by ref content then [content] else []). rewrite app_assoc. split; [done|].
    apply Forall_app. split; [done|]. destruct (named_by ref content) eqn:E; [|done].
    apply Forall_singleton. by exists ref.
  - intros s' p ref [_ (new & Hnew & _)] Hg. right. unfold get in Hg.
    destruct (create_blob_key_some ref) as [k Hk]. rewrite Hk, outcome_bind_ret in Hg. injection Hg as Hg.
    eapply store_ok_find; [by eapply refines_store_ok|done].
  - intros c Hc. destruct (decide (4 * length c + 3 <= json_stack)%nat); [by right|left]. exists c. split; [done|lia].
  - split; [done|]. exists []. by rewrite app_nil_r.
  - destruct (sync_host _ _ _ _ s) as [[s'|]|e| |]; [|done|..]; simpl in H; [|tauto..].
    by destruct H as [_ ?].
Qed.

(** An empty body stops the server: when the index lacks a reference the
    remote lists, and the remote serves it with an empty body, the assertion
    of [add_blob] aborts the process. *)
Theorem empty_body_aborts host ref refs s w'
    (Hget : get ref (bi_ s) = Ret None)
    (Hserved : curl_easy_perform (set_url (build_blob_url host ref) (curl s)) (disk (bi_ s)) (world s) = (Some [], w')) :
  fetch_missing curl_easy_perform ci_ host (ref :: refs) s = Aborts.
Proof.
  cbn [fetch_missing]. rewrite Hget, outcome_bind_ret. unfold fetch_blob, fetch_url, perform.
  by rewrite Hserved.
Qed.

(** The network that also takes note of the handles it is given. *)
Definition logged (h : easy) (d : gmap bytes bytes) (w : W * list easy) : option bytes * (W * list easy) :=
  let r := curl_easy_perform h d w.1 in (r.1, (r.2, w.2 ++ [h])).

(** The options of the handle, its timeout among them, are gone after the
    first request of a synchronisation, because [curl_easy_reset] follows
    each one: the others wait for the remote for ever, under no user agent. *)
Theorem timeout_first_only fuel conf st w s'
    (Hend : sync_host logged ci_ fuel conf (MkState easy_sync st (w, [])) = Ret (Some s')) :
  match (world s').2 with
  | [] => True
  | h :: hs => opt_timeout h = 5 /\ opt_useragent h = Some (lit "blobserver/1.0.0") /\
      Forall (fun h => opt_timeout h = 0 /\ opt_useragent h = None) hs
  end.
Proof.
  set (J := fun s : state (W := W * list easy) =>
    (world s).2 = [] /\ curl s = easy_sync \/
    curl s = easy_default /\ exists h hs, (world s).2 = h :: hs /\ opt_timeout h = 5 /\
      opt_useragent h = Some (lit "blobserver/1.0.0") /\
      Forall (fun h => opt_timeout h = 0 /\ opt_useragent h = None) hs).
  assert (sync_ok (MkFailures True True True) (finished J) (sync_host logged ci_ fuel conf (MkState easy_sync st (w, [])))) as H.
  { apply (sync_host_inv logged ci_ (host_ conf) (MkFailures True True True) J); try done; try (by left).
    - by intros s [[_ ->]|[-> _]].
    - intros h s Hs [Ht Hu]. unfold perform, logged. cbn [snd]. right. split; [done|]. cbn [world snd].
      destruct Hs as [[Hl Hc]|[Hc (h0 & hs & Hl & Hrest)]]; rewrite Hl; rewrite Hc in Ht, Hu.
      + by exists h, [].
      + exists h0, (hs ++ [h]). split; [done|]. destruct Hrest as (H1 & H2 & H3). split; [done|]. split; [done|].
        apply Forall_app. split; [done|]. by apply Forall_singleton.
    - intros ref content s Hs _. destruct (add_blob _ _ _ _); simpl; auto. }
  rewrite Hend in H. destruct H as [[-> _]|[_ (h & hs & -> & H)]]; [done|tauto].
Qed.
End properties.

(** ** Examples *)

Section witnesses.
Let D : Digest := toy_digest.
Let P : Platform := working_platform.
Let JR : JsonReader := json_spirit_reader peg_classic 2000.
Let Q : Qi := peg_qi.
Local Existing Instance D.
Local Existing Instance P.
Local Existing Instance JR.
Local Existing Instance Q.

Definition hi_key : BlobKey := blob_key_for (lit "hi") 2 sha1.
Definition net_host : bytes := lit "http://b".
Definition net_listing : bytes := compact (Obj [(lit "blobs", Arr [Obj [(lit "blobRef", Str (blobref hi_key))]])]).

(** A network with one blob on it. *)
Definition small_net (h : easy) (d : gmap bytes bytes) (w : unit) : option bytes * unit :=
  (if bool_decide (opt_url h = Some (net_host ++ lit "/enumerate-blobs")) then Some net_listing
   else if bool_decide (opt_url h = Some (net_host ++ lit "/" ++ blobref hi_key)) then Some (lit "hi")
   else None, w).

Definition net_sync : SyncConfig := SyncConfig_mode net_host mode_get.
Definition net_state : state (W := unit) := MkState easy_default (BlobIndex_new ∅) tt.

Definition ends_well (m : outcome (option (state (W := unit)))) : bool := match m with Ret (Some _) => true | _ => false end.

Lemma sync_keeps_store_witness :
  exists s' new, sync_host small_net Config_new 3 net_sync net_state = Ret (Some s') /\
    refines Config_new ∅ (bi_ s') ([] ++ new) /\
    Forall (fun c => exists ref, served small_net net_host ref c /\ named_by ref c = true) new.
Proof.
  pose proof (sync_keeps_store small_net Config_new ∅ 3 net_sync net_state []) as H.
  assert (ends_well (sync_host small_net Config_new 3 net_sync net_state) = true) as Hw by (vm_compute; reflexivity).
  destruct (sync_host small_net Config_new 3 net_sync net_state) as [[s'|]|e| |] eqn:E.
  - destruct H as (new & H1 & H2).
    + apply refines_new.
    + reflexivity.
    + exists s', new. split; [reflexivity|]. split; [exact H1|exact H2].
  - discriminate Hw.
  - discriminate Hw.
  - discriminate Hw.
  - discriminate Hw.
Defined.

Definition silent_net (h : easy) (d : gmap bytes bytes) (w : unit) : option bytes * unit := (Some [], w).

Lemma empty_body_aborts_witness :
  fetch_missing silent_net Config_new net_host [lit "sha1-00"] net_state = Aborts.
Proof. apply (empty_body_aborts silent_net Config_new net_host (lit "sha1-00") [] net_state tt); reflexivity. Defined.

Definition logged_end : state (W := unit * list easy) :=
  match sync_host (logged small_net) Config_new 3 net_sync (MkState easy_sync (BlobIndex_new ∅) (tt, [])) with
  | Ret (Some s') => s'
  | _ => MkState easy_sync (BlobIndex_new ∅) (tt, [])
  end.

Lemma timeout_first_only_witness :
  exists h1 h2, (world logged_end).2 = [h1; h2] /\ opt_timeout h1 = 5 /\ opt_timeout h2 = 0.
Proof.
  pose proof (timeout_first_only small_net Config_new 3 net_sync (BlobIndex_new ∅) tt logged_end eq_refl) as H.
  remember (world logged_end).2 as log eqn:E. vm_compute in E. rewrite E in H |- *.
  destruct H as (H1 & _ & H2). eexists _, _. split; [reflexivity|]. split; [exact H1|].
  by apply Forall_cons in H2 as [[H2 _] _].
Defined.

Lemma stat_request_read_witness :
  exists refs, decode_query_string_blobs [] (stat_request [(hi_key, 0%nat)]) = Ret refs /\
    refs ≡ₚ [blobref hi_key].
Proof.
  apply (stat_request_read [(hi_key, 0%nat)]).
  - apply Forall_singleton. vm_compute. reflexivity.
  - vm_compute. reflexivity.
Defined.
End witnesses.
