(* ===== verification/Replication.v ===== *)
(** * Replication

    The two halves of the program together: the sync thread of one server
    ([Sync]) gets the blobs of another, whose request handler
    ([RequestHandler]) answers it. The network between them is the parameter
    [curl_easy_perform] of [Sync], of which [peer] states what is relied on:
    a request for an URL of the other server is answered with the body of the
    reply of its handler. *)

From S2P Require Import Prelude CppString StdMap Http Reply Config Hash BlobKey Blob BlobIndex Calls.
From S2P Require Import Qi QueryString JsonValue JsonWriter Classic JsonRoundTrip RequestHandler HttpStore.
From S2P Require Import Sync SyncStore Enumeration.

Local Open Scope Z_scope.

(** ** What the sync thread reads in a page *)

Section pages.
Context {reader : JsonReader}.

Lemma parse_blobs_array_entries st es e :
  parse_blobs_array (entry_value st <$> es) e =
    Ret (MkEnumeration (set_last_ e) (last_ e) (blob_refs_ e ++ ((fun x => blobref x.1) <$> es))).
Proof.
  revert e. induction es as [|x es IH]; intros e; [by destruct e as [a b c]; simpl; rewrite app_nil_r|].
  cbn [fmap list_fmap parse_blobs_array].
  assert (exists o, get_obj (entry_value st x) = Ret o /\ parse_blob_obj o e = Ret (add_blob_ref (blobref x.1) e))
    as (o & -> & Ho) by (by eexists).
  rewrite outcome_bind_ret, Ho, outcome_bind_ret, IH. unfold add_blob_ref. cbn. by rewrite <-app_assoc.
Qed.

(** The enumeration a page is read as. *)
Lemma parse_page st es blobs w :
  Forall (small st) es -> (15 <= json_stack)%nat ->
  write (enumerate_result (entry_value st <$> es) blobs) = Ret w ->
  exists e, parse_sync_enumeration (w ++ crlf) = Ret (Some e) /\
    blob_refs_ e = (fun x => blobref x.1) <$> es /\
    enum_last e = if 25 <? Z.of_nat (length blobs) then (fun x => blobref x.1) <$> last blobs else None.
Proof.
  intros Hes Hstack Hw. destruct (page_exact st es blobs Hes) as (He & Hn & Hh).
  unfold parse_sync_enumeration. rewrite (json_read_write _ _ crlf Hw He); [|lia|done].
  rewrite outcome_bind_ret, Hn. unfold enumerate_result.
  rewrite bool_decide_eq_true_2 by done.
  set (more := if 25 <? _ then _ else _).
  assert (parse_members ([(lit "blobs", Arr (entry_value st <$> es))] ++ more ++
      [(lit "canLongPoll", Str (lit "false"))]) SyncEnumeration_new =
    parse_members (more ++ [(lit "canLongPoll", Str (lit "false"))])
      (MkEnumeration false [] ((fun x => blobref x.1) <$> es))) as E.
  { pose proof (parse_blobs_array_entries st es SyncEnumeration_new) as Hb. cbn in Hb.
    cbn [app parse_members]. change (bool_decide (lit "blobs" = lit "continueAfter")) with false.
    cbv iota. rewrite outcome_bind_ret. change (bool_decide (lit "blobs" = lit "blobs")) with true.
    cbn [orb]. cbv iota.
    change (get_array (Arr (entry_value st <$> es))) with (Ret (entry_value st <$> es)).
    by rewrite outcome_bind_ret, Hb, outcome_bind_ret. }
  change (get_obj (Obj ?o)) with (Ret o). rewrite outcome_bind_ret, E. subst more.
  destruct (25 <? Z.of_nat (length blobs)); [|eexists; split; [reflexivity|by split]].
  destruct (last blobs) as [[k p]|]; (eexists; split; [reflexivity|by split]).
Qed.
End pages.

(** ** Replication *)

Section replication.
Context {digest : Digest} {rplatform : Platform} {platform : Platform}.
Context {qi : Qi} {static : StaticFiles} {zopfli : Zopfli} {reader : JsonReader}.

(** The server that is asked, with its contents; the one that asks. *)
Context (rc_ : Config) (rst : store) (rcs : list bytes).
Context (ci_ : Config) (files : gmap bytes bytes) (cs : list bytes).
Context {W : Type} (curl_easy_perform : easy -> gmap bytes bytes -> W -> option bytes * W).
Context (host : bytes) (request_of : bytes -> request).

(** A request that libcurl makes for a path, and the answer to it: the body of
    the reply of the other server's handler. *)
Record peer : Prop := {
  peer_method path : req_method (request_of path) = lit "GET";
  peer_uri path : req_uri (request_of path) = path;
  peer_encoding path : get_header_ci (req_headers (request_of path)) (lit "Accept-Encoding") = [];
  peer_answers h d w path rep :
    opt_url h = Some (host ++ path) -> plain h ->
    handle_request (platform := rplatform) rc_ (request_of path) first_reply rst = Ret (rep, rst) ->
    curl_easy_perform h d w = (Some (reply.content rep), w)
}.

Context (Hpeer : peer).
Context (Hhost : nul ∉ host) (Hslash : ends_with host (lit "/") = false).
Context (Hremote : refines rc_ ∅ rst rcs) (Hcf : collision_free (cs ++ rcs)).
Context (Hne : Forall (fun c => c ≠ []) rcs) (Hw : Forall (writable ci_) rcs).
Context (Hstack : (15 <= json_stack)%nat).

(** The thread between two requests: the store holds the old contents and some
    of the other's. *)
Definition syncing (s : state (W := W)) (new : list bytes) : Prop :=
  plain (curl s) /\ new ⊆ rcs /\ refines ci_ files (bi_ s) (cs ++ new).

Lemma collision_free_sub xs ys : xs ⊆ ys -> collision_free ys -> collision_free xs.
Proof. intros Hs H c1 c2 t H1 H2. apply H; by apply Hs. Qed.

Definition stored (ref : bytes) (xs : list bytes) : Prop := exists c, c ∈ xs /\ named_by ref c = true.

Lemma stored_mono ref xs ys : xs ⊆ ys -> stored ref xs -> stored ref ys.
Proof. intros H (c & Hc & Hn). exists c. split; [by apply H|done]. Qed.

Lemma abs_find_stored ref xs : stored ref xs <-> is_Some (abs_find ref xs).
Proof.
  unfold stored, abs_find. split.
  - intros (c & Hc & Hn). destruct (List.find (named_by ref) xs) as [c'|] eqn:E; [by eexists|].
    apply list_elem_of_In in Hc. pose proof (find_none _ _ E _ Hc). congruence.
  - intros [c Hc]. apply find_some in Hc as [Hc Hn]. exists c. split; [by apply list_elem_of_In|done].
Qed.

(** One reference of the other server. *)
Lemma fetch_one ref s new : syncing s new ->
  (exists k c, k ∈ content_keys c /\ c ∈ rcs /\ ref = blobref k) ->
  exists s' new', (blob ← get ref (bi_ s);
      match blob with None => fetch_blob curl_easy_perform ci_ host ref s | Some _ => Ret s end) = Ret s' /\
    syncing s' new' /\ new ⊆ new' /\ stored ref (cs ++ new') /\ world s' = world s.
Proof.
  intros (Hplain & Hsub & Hr) (k & c & Hk & Hc & ->).
  assert (collision_free (cs ++ new)) as Hcf' by (eapply collision_free_sub; [|exact Hcf]; intros x [?|?]%elem_of_app; apply elem_of_app; [by left|right; by apply Hsub]).
  pose proof (get_refines ci_ files (blobref k) (bi_ s) (cs ++ new) Hcf' Hr
    (content_key_blobref_length k c Hk)) as Hg.
  destruct (abs_find (blobref k) (cs ++ new)) as [c'|] eqn:E.
  - destruct Hg as (p & b & -> & _). rewrite outcome_bind_ret. exists s, new.
    split; [done|]. split; [done|]. split; [done|]. split; [|done]. by apply abs_find_stored; rewrite E.
  - rewrite Hg, outcome_bind_ret. unfold fetch_blob, fetch_url, perform.
    assert (named_by (blobref k) c = true) as Hn by (apply named_by_iff; eauto).
    assert (abs_find (blobref k) rcs = Some c) as Hfind.
    { apply find_named_by; [done|done|]. intros c' Hc' (k' & Hk' & Hkk')%named_by_iff.
      assert (k' = k) as ->.
      { pose proof (create_content_key k c Hk) as H1. rewrite <-Hkk', (create_content_key k' c' Hk') in H1.
        by injection H1. }
      eapply (collision_free_key (cs ++ rcs)); [done|apply elem_of_app; by right..|done|done]. }
    pose proof (content_ref_uri k c Hk) as Huri.
    assert (build_blob_url host (blobref k) = host ++ "/"%char :: blobref k) as Hurl.
    { unfold build_blob_url. by rewrite Hslash. }
    rewrite (peer_answers Hpeer _ _ (world s) ("/"%char :: blobref k)
      (reply.Reply reply.ok (octets (show_Z (Z.of_nat (length c)))) c)).
    + cbn [fst snd reply.content].
      assert (c ≠ []) as Hcne by (by apply (proj1 (Forall_forall _ _) Hne)).
      destruct (proj1 (Forall_forall _ _) Hw c Hc) as [Hd Ho].
      cbn [bi_]. rewrite (add_blob_spec ci_ (Some (blobref k)) c _ Hcne Hd). simpl accepts. rewrite Hn, outcome_bind_ret.
      cbn [snd curl world]. eexists _, (new ++ [c]). split; [done|]. split; [|split; [|split]].
      * split; [done|]. split; [by intros x [?| ->%list_elem_of_singleton]%elem_of_app; [apply Hsub|]|].
        cbn [bi_]. rewrite app_assoc. by apply add_result_refines.
      * clear. set_solver.
      * exists c. split; [clear; set_solver|done].
      * done.
    + unfold set_url. cbn [opt_url]. rewrite Hurl, c_str_no_nul; [done|].
      rewrite not_elem_of_app, not_elem_of_cons. split; [done|]. split; [done|].
      eapply ref_char_not; [by eapply content_ref_chars|done|done].
    + by destruct Hplain.
    + rewrite (download_spec (platform := rplatform) rc_ _ _ rst rcs (blobref k) Hremote).
      * by rewrite Hfind, (peer_encoding Hpeer).
      * eapply collision_free_sub; [|exact Hcf]. intros x Hx. apply elem_of_app. by right.
      * done.
      * done.
      * apply (peer_uri Hpeer).
      * apply (peer_method Hpeer).
Qed.

Lemma fetch_page refs s new : syncing s new ->
  Forall (fun ref => exists k c, k ∈ content_keys c /\ c ∈ rcs /\ ref = blobref k) refs ->
  exists s' new', fetch_missing curl_easy_perform ci_ host refs s = Ret s' /\
    syncing s' new' /\ new ⊆ new' /\ Forall (fun ref => stored ref (cs ++ new')) refs /\ world s' = world s.
Proof.
  intros Hs Hrefs. revert s new Hs. induction Hrefs as [|ref refs Href _ IH]; intros s new Hs.
  - by exists s, new.
  - destruct (fetch_one ref s new Hs Href) as (s1 & new1 & H1 & Hs1 & Hsub1 & Hst1 & Hw1).
    destruct (IH s1 new1 Hs1) as (s2 & new2 & H2 & Hs2 & Hsub2 & Hst2 & Hw2).
    exists s2, new2. split_and!; [|done|by transitivity new1| |congruence].
    + cbn [fetch_missing]. rewrite <-H2. destruct (get ref (bi_ s)); try done.
      rewrite outcome_bind_ret in *. by rewrite H1.
    + apply Forall_cons. split; [|done]. eapply stored_mono; [|done]. intros x [?|?]%elem_of_app; apply elem_of_app; [by left|right; by apply Hsub2].
Qed.

(** The references of the other's index. *)
Lemma remote_refs es m : blobs_ rst = m ++ es ->
  Forall (fun ref => exists k c, k ∈ content_keys c /\ c ∈ rcs /\ ref = blobref k)
    ((fun x => blobref x.1) <$> es).
Proof.
  intros Hm. apply Forall_forall. intros ref ([k p] & -> & Hin)%list_elem_of_fmap.
  assert ((k, p) ∈ blobs_ rst) as Hkp by (rewrite Hm; apply elem_of_app; by right).
  apply (map_find_In BlobKey_ltb) in Hkp; [|apply Hremote].
  destruct (ref_entry _ _ _ _ Hremote k p Hkp) as (b & c & _ & Hc & Hk & _). by exists k, c.
Qed.

Lemma enumeration_url last : build_enumeration_url host last = host ++ enum_path last.
Proof. unfold build_enumeration_url, enum_path. by destruct last. Qed.

Lemma get_pages fuel last after es m s new :
  blobs_ rst = m ++ es -> entries_from after rst = Ret es -> page_at last after -> (length es < fuel)%nat ->
  syncing s new ->
  exists s' new', get_loop curl_easy_perform ci_ fuel host last s = Ret (Some s') /\ syncing s' new' /\
    new ⊆ new' /\ Forall (fun e => stored (blobref e.1) (cs ++ new')) es.
Proof.
  revert last after es m s new. induction fuel as [|fuel IH]; intros last after es m s new Hm He Hpage Hfuel Hs; [lia|].
  destruct (enumerate_answer (platform := rplatform) rc_ (request_of (enum_path last)) first_reply rst rcs last after es
    Hremote Hpage He (ex_intro _ m Hm) (peer_method Hpeer _) (peer_uri Hpeer _)) as (w & Hwr & Hans).
  assert (Forall (small rst) es) as Hsm.
  { pose proof (refines_small _ _ _ _ Hremote) as Hall. rewrite Hm in Hall. by apply Forall_app in Hall as [_ ?]. }
  destruct (parse_page rst (take 25 es) (take 26 es) w (Forall_take _ _ _ Hsm) Hstack Hwr) as (e & Hpe & Hrefs & Hlast).
  cbn [get_loop]. unfold fetch_url, perform.
  rewrite (peer_answers Hpeer _ _ (world s) (enum_path last) (json_reply w first_reply)); [| | |done].
  2: { unfold set_url. cbn [opt_url]. rewrite enumeration_url, c_str_no_nul; [done|].
       rewrite not_elem_of_app. split; [done|]. by destruct (enum_path_plain last after Hpage) as (_ & _ & ? & _). }
  2: by destruct Hs as [[? ?] _].
  change (reply.content (json_reply w first_reply)) with (w ++ crlf). cbn [fst snd]. rewrite Hpe, outcome_bind_ret, Hrefs.
  assert (blobs_ rst = (m ++ take 25 es) ++ drop 25 es) as Hm'.
  { rewrite <-app_assoc, take_drop. done. }
  set (s1 := MkState easy_default (bi_ s) (world s)).
  assert (syncing s1 new) as Hs1 by by destruct Hs as (_ & ? & ?).
  assert (Forall (fun ref => exists k c, k ∈ content_keys c /\ c ∈ rcs /\ ref = blobref k)
    ((fun x => blobref x.1) <$> take 25 es)) as Hall.
  { rewrite <-(take_drop 25 es) in Hm. pose proof (remote_refs _ _ Hm) as H. rewrite fmap_app in H.
    by apply Forall_app in H as [? _]. }
  destruct (fetch_page _ s1 new Hs1 Hall) as (s2 & new2 & -> & Hs2 & Hsub2 & Hst2 & _).
  rewrite outcome_bind_ret, Hlast. apply (Forall_fmap (fun x => blobref x.1) (fun ref => stored ref (cs ++ new2))) in Hst2.
  destruct (drop 25 es) as [|[k p] rest] eqn:Hd.
  - assert (length es <= 25)%nat as Hle.
    { apply (f_equal length) in Hd. rewrite length_drop in Hd. simpl in Hd. lia. }
    rewrite (proj2 (Z.ltb_ge _ _)) by (rewrite length_take; lia).
    exists s2, new2. split_and!; [done..|]. rewrite take_ge in Hst2 by lia. exact Hst2.
  - destruct (last_take_26 es (k, p) rest Hd) as [Hlen Hl].
    rewrite (proj2 (Z.ltb_lt _ _) Hlen), Hl. cbn [fmap option_fmap option_map fst].
    assert (entries_from (Some (blobref k)) rst = Ret ((k, p) :: rest)) as He'.
    { unfold entries_from. pose proof (refines_keys _ _ _ Hremote) as Hk. rewrite Hm' in Hk.
      apply Forall_app in Hk as [_ Hk]. apply Forall_cons in Hk as [Hk _]. simpl in Hk.
      rewrite Hk, outcome_bind_ret, Hm'. f_equal. apply (map_lower_bound_key BlobKey_ltb).
      rewrite <-Hm'. apply Hremote. }
    assert (page_at (blobref k) (Some (blobref k))) as Hpage'.
    { right. pose proof (remote_refs _ _ Hm') as H. apply Forall_cons in H as [(k' & c & Hk & _ & Hr) _].
      cbn [fst] in Hr. exists k', c. by rewrite Hr. }
    assert (length ((k, p) :: rest) < fuel)%nat as Hf.
    { apply (f_equal length) in Hd. rewrite length_drop in Hd. simpl in *. lia. }
    destruct (IH _ _ _ _ s2 new2 Hm' He' Hpage' Hf Hs2) as (s3 & new3 & -> & Hs3 & Hsub3 & Hst3).
    exists s3, new3. split_and!; [done|done|by transitivity new2|].
    rewrite <-(take_drop 25 es), Hd. apply Forall_app. split; [|done].
    eapply Forall_impl; [exact Hst2|]. intros x Hx. eapply stored_mono; [|done].
    intros y [?|?]%elem_of_app; apply elem_of_app; [by left|right; by apply Hsub3].
Qed.
End replication.

(** C1. Replication. A server configured to get from another one, whose index
    holds the contents [rcs], ends its synchronisation with a store of its own
    contents and of some of the other's, in which every reference of every
    content of the other reads that content: whatever the number of pages, and
    whatever of them it had. The other's contents are not empty, none of the
    contents share a digest, the files can be written, the configured host does
    not end in a slash, and the network answers each request with the body of the
    reply of the other's handler. *)
Theorem replication {digest : Digest} {rplatform platform : Platform} {qi : Qi} {static : StaticFiles}
    {zopfli : Zopfli} {reader : JsonReader}
    (rc_ : Config) (rst : store) (rcs : list bytes) (ci_ : Config) (cs : list bytes) {W : Type}
    (curl_easy_perform : easy -> gmap bytes bytes -> W -> option bytes * W) request_of fuel conf (s : state (W := W))
    (Hpeer : peer (rplatform := rplatform) rc_ rst curl_easy_perform (host_ conf) request_of)
    (Hhost : nul ∉ host_ conf) (Hslash : ends_with (host_ conf) (lit "/") = false)
    (Hmode : sync_get conf = true /\ sync_send conf = false)
    (Hremote : refines rc_ ∅ rst rcs) (Hlocal : refines ci_ ∅ (bi_ s) cs)
    (Hcf : collision_free (cs ++ rcs)) (Hne : Forall (fun c => c ≠ []) rcs)
    (Hw : Forall (writable ci_) rcs) (Hstack : (15 <= json_stack)%nat)
    (Hfuel : (length (blobs_ rst) < fuel)%nat) :
  exists s' new, sync_host curl_easy_perform ci_ fuel conf s = Ret (Some s') /\
    new ⊆ rcs /\ refines ci_ ∅ (bi_ s') (cs ++ new) /\
    forall c k, c ∈ rcs -> k ∈ content_keys c -> read_ref (blobref k) (bi_ s') = Ret (Some c).
Proof.
  destruct (get_pages (platform := platform) (rplatform := rplatform) rc_ rst rcs ci_ ∅ cs curl_easy_perform
    (host_ conf) request_of Hpeer Hhost Hslash Hremote Hcf Hne Hw Hstack fuel [] None (blobs_ rst) []
    (MkState easy_sync (bi_ s) (world s)) []) as (s' & new & Hrun & (_ & Hsub & Hr) & _ & Hall).
  - done.
  - done.
  - by left.
  - done.
  - split; [done|]. split; [by intros x ?%elem_of_nil|]. by rewrite app_nil_r.
  - exists s', new. split; [|split; [done|split; [done|]]].
    + unfold sync_host. destruct Hmode as [-> ->]. by rewrite Hrun.
    + intros c k Hc Hk.
      assert (collision_free (cs ++ new)) as Hcf'.
      { eapply collision_free_sub; [|exact Hcf].
        intros x [?|?]%elem_of_app; apply elem_of_app; [by left|right; by apply Hsub]. }
      rewrite (read_ref_refines ci_ ∅ (blobref k) _ (cs ++ new)); [|done..|by eapply content_key_blobref_length].
      destruct (map_find BlobKey_ltb (blobs_ rst) k) as [p|] eqn:E.
      * apply (map_find_elem_eq BlobKey_ltb) in E. apply (proj1 (Forall_forall _ _) Hall) in E.
        apply abs_find_stored in E as [c' Hc']. cbn [fst] in Hc'. rewrite Hc'. do 2 f_equal.
        apply find_some in Hc' as [Hc'%list_elem_of_In (k' & Hk' & Hkk')%named_by_iff].
        assert (k' = k) as ->.
        { pose proof (create_content_key k c Hk) as H1.
          rewrite <-Hkk', (create_content_key k' c' Hk') in H1. by injection H1. }
        eapply (collision_free_key (cs ++ rcs)); [done| | |done|done].
        -- apply elem_of_app in Hc' as [?|?]; apply elem_of_app; [by left|right; by apply Hsub].
        -- apply elem_of_app. by right.
      * by destruct (ref_unknown _ _ _ _ Hremote k E c Hc).
Qed.

(** ** An example *)

Section witnesses.
Let D : Digest := toy_digest.
Let P : Platform := working_platform.
Let Q : Qi := peg_qi.
Let F : StaticFiles := {| open_for_read _ := None |}.
Let ZF : Zopfli := {| ZopfliCompress _ c := Ret c |}.
Let JR : JsonReader := json_spirit_reader peg_classic 40.
Local Existing Instance D.
Local Existing Instance P.
Local Existing Instance Q.
Local Existing Instance F.
Local Existing Instance ZF.
Local Existing Instance JR.

Definition sample_host : bytes := lit "http://other:3179".
Definition sample_request (path : bytes) : request := Request (lit "GET") path 1 1 [] [] [].

(** A network with one server on it. *)
Definition sample_curl (h : easy) (d : gmap bytes bytes) (w : unit) : option bytes * unit :=
  match opt_url h with
  | Some url =>
      if starts_with url sample_host then
        match handle_request Config_new (sample_request (drop (length sample_host) url)) first_reply hello_store with
        | Ret (rep, _) => (Some (reply.content rep), w)
        | _ => (None, w)
        end
      else (None, w)
  | None => (None, w)
  end.

Lemma sample_peer :
  peer (rplatform := P) Config_new hello_store sample_curl sample_host sample_request.
Proof.
  split; [done|done|done|]. intros h d w path rep Hu _ Hans. unfold sample_curl.
  rewrite Hu, starts_with_app, drop_app_length, Hans. done.
Qed.

Definition sample_sync : SyncConfig := SyncConfig_mode sample_host mode_get.
Definition sample_state : state (W := unit) := MkState easy_default (BlobIndex_new ∅) tt.

Lemma replication_witness :
  exists s' new, sync_host sample_curl Config_new 3 sample_sync sample_state = Ret (Some s') /\
    refines Config_new ∅ (bi_ s') ([] ++ new) /\
    read_ref hello_ref (bi_ s') = Ret (Some (lit "hello")).
Proof.
  destruct (replication (rplatform := P) (platform := P) Config_new hello_store [lit "hello"] Config_new []
    sample_curl sample_request 3 sample_sync sample_state) as (s' & new & H1 & _ & H2 & H3).
  - exact sample_peer.
  - apply (bool_decide_eq_true_1 _). vm_compute. reflexivity.
  - vm_compute. reflexivity.
  - split; vm_compute; reflexivity.
  - exact hello_refines.
  - apply refines_new.
  - apply collision_free_one.
  - apply Forall_singleton. discriminate.
  - apply Forall_singleton. split; vm_compute; reflexivity.
  - vm_compute. lia.
  - vm_compute. lia.
  - exists s', new. split; [exact H1|]. split; [exact H2|].
    apply (H3 (lit "hello")); [by apply list_elem_of_singleton|left].
Defined.
End witnesses.
