(* ===== verification/CFloat.v ===== *)
(** * Floating point

    The [double] and [float] of C++ as IEEE 754 has them, with round to nearest:
    the binary64 and binary32 formats of [SpecFloat].

    Proved here: rounding is monotone, so that sums, differences and products of
    non-negative numbers keep bounds. *)

From S2P Require Import Prelude.
From Stdlib Require Import SpecFloat.

Local Open Scope Z_scope.

(** ** Operations *)

Definition double_add : spec_float -> spec_float -> spec_float := SFadd 53 1024.
Definition double_sub : spec_float -> spec_float -> spec_float := SFsub 53 1024.
Definition double_mul : spec_float -> spec_float -> spec_float := SFmul 53 1024.
Definition float_sub : spec_float -> spec_float -> spec_float := SFsub 24 128.

(** Conversions between the formats, and from integers. *)
Definition convert (prec emax : Z) (x : spec_float) : spec_float :=
  match x with S754_finite s m e => binary_round prec emax s m e | _ => x end.
Definition to_float : spec_float -> spec_float := convert 24 128.
Definition to_double : spec_float -> spec_float := convert 53 1024.
Definition double_of_Z (z : Z) : spec_float := binary_normalize 53 1024 z 0 false.

(** [(size_t)x]: a value that does not fit is undefined. *)
Definition size_of_double (x : spec_float) : outcome Z :=
  match x with
  | S754_zero _ => Ret 0
  | S754_finite s m e =>
      let v := Z.shiftl (Zpos m) e in
      if s then (if v =? 0 then Ret 0 else Undefined) else if v <? 2 ^ 64 then Ret v else Undefined
  | _ => Undefined
  end.

(** ** Rounding an integer at a power of two *)

(** [m / 2 ^ k], to the nearest, ties to even. *)
Definition rne (m k : Z) : Z :=
  let q := m / 2 ^ k in
  match 2 * (m mod 2 ^ k) ?= 2 ^ k with
  | Lt => q
  | Eq => if Z.even q then q else q + 1
  | Gt => q + 1
  end.

Lemma rne_cases m k : 0 <= k -> m / 2 ^ k <= rne m k <= m / 2 ^ k + 1.
Proof. intros Hk. unfold rne. destruct (_ ?= _); [destruct (Z.even _)|..]; lia. Qed.

Lemma rne_mono m n k : 0 <= k -> m <= n -> rne m k <= rne n k.
Proof.
  intros Hk Hmn. pose proof (Z.div_le_mono m n (2 ^ k) ltac:(lia) Hmn) as Hq.
  destruct (Z.eq_dec (m / 2 ^ k) (n / 2 ^ k)) as [E|Hne].
  - unfold rne. rewrite E. assert (m mod 2 ^ k <= n mod 2 ^ k) as Hr.
    { rewrite !Z.mod_eq by lia. rewrite E. lia. }
    destruct (Z.compare_spec (2 * (m mod 2 ^ k)) (2 ^ k)), (Z.compare_spec (2 * (n mod 2 ^ k)) (2 ^ k)); try destruct (Z.even _); lia.
  - pose proof (rne_cases m k Hk). pose proof (rne_cases n k Hk). lia.
Qed.

(** A multiple of [2 ^ k] is not crossed. *)
Lemma rne_multiple a k : 0 <= k -> rne (a * 2 ^ k) k = a.
Proof. intros Hk. unfold rne. rewrite Z.mod_mul, Z.div_mul by lia. by destruct (Z.compare_spec (2 * 0) (2 ^ k)); try lia. Qed.

Lemma rne_le m a k : 0 <= k -> m <= a * 2 ^ k -> rne m k <= a.
Proof. intros Hk H. rewrite <-(rne_multiple a k Hk). by apply rne_mono. Qed.

Lemma rne_ge m a k : 0 <= k -> a * 2 ^ k <= m -> a <= rne m k.
Proof. intros Hk H. rewrite <-(rne_multiple a k Hk). by apply rne_mono. Qed.

Lemma rne_scale m k j : 0 <= k -> 0 <= j -> rne (m * 2 ^ j) (k + j) = rne m k.
Proof.
  intros Hk Hj. unfold rne. rewrite Z.pow_add_r by lia. rewrite Z.div_mul_cancel_r, Z.mul_mod_distr_r by lia.
  rewrite Z.mul_assoc, <-Zmult_compare_compat_r by lia. done.
Qed.

(** ** What the shifts of [SpecFloat] compute *)

(** The mantissa and the two bits after [k] shifts of [m]. *)
Definition shifted (m k : Z) (r : shr_record) : Prop :=
  shr_m r = m / 2 ^ k /\ 2 ^ k * (m / 2 ^ k) + m mod 2 ^ k = m /\
  match shr_r r, shr_s r with
  | false, false => m mod 2 ^ k = 0
  | false, true => 0 < 2 * (m mod 2 ^ k) < 2 ^ k
  | true, false => 2 * (m mod 2 ^ k) = 2 ^ k
  | true, true => 2 ^ k < 2 * (m mod 2 ^ k)
  end.

Lemma shifted_0 m : shifted m 0 (Build_shr_record m false false).
Proof. split; [by rewrite Z.div_1_r|]. split; [|by rewrite Z.mod_1_r]. pose proof (Z.div_mod m (2 ^ 0)). lia. Qed.

Lemma shr_1_parity q r s : 0 <= q -> let '(Build_shr_record q' r' s') := shr_1 (Build_shr_record q r s) in
  q' = q / 2 /\ r' = Z.odd q /\ s' = r || s.
Proof.
  intros Hq. destruct q as [|[p|p|]|]; try lia; cbn [shr_1]; split_and!; try done.
  - change (Zpos p~1) with (2 * Zpos p + 1). rewrite Z.mul_comm, Z.div_add_l by lia. change (1 / 2) with 0. lia.
  - change (Zpos p~0) with (2 * Zpos p). by rewrite Z.mul_comm, Z.div_mul by lia.
Qed.

Lemma shifted_S m k r : 0 <= m -> 0 <= k -> shifted m k r -> shifted m (k + 1) (shr_1 r).
Proof.
  intros Hm Hk (Hq & Hd & Hb). destruct r as [q r s]. cbn [shr_m shr_r shr_s] in *.
  assert (0 <= q) as Hq0 by (rewrite Hq; apply Z.div_pos; lia). pose proof (Z.mod_pos_bound m (2 ^ k) ltac:(lia)) as Hr.
  pose proof (shr_1_parity q r s Hq0) as Hp. destruct (shr_1 _) as [q' r' s']. destruct Hp as (-> & -> & ->).
  set (x := m mod 2 ^ k) in *. assert (m / 2 ^ (k + 1) = q / 2 /\ m mod 2 ^ (k + 1) = (q mod 2) * 2 ^ k + x) as [E1 E2].
  { assert (m = (2 ^ (k + 1)) * (q / 2) + ((q mod 2) * 2 ^ k + x)) as E.
    { rewrite <-Hq in Hd. rewrite Z.pow_add_r by lia. pose proof (Z.div_mod q 2 ltac:(lia)). nia. }
    assert (0 <= (q mod 2) * 2 ^ k + x < 2 ^ (k + 1)) as Hx.
    { rewrite Z.pow_add_r by lia. pose proof (Z.mod_pos_bound q 2 ltac:(lia)). nia. }
    split; [symmetry; by apply (Z.div_unique_pos m (2 ^ (k + 1)) (q / 2) _ Hx)|symmetry; by apply (Z.mod_unique_pos m (2 ^ (k + 1)) (q / 2) _ Hx)]. }
  unfold shifted. cbn [shr_m shr_r shr_s]. split; [by rewrite E1|]. split; [symmetry; apply Z.div_mod; lia|].
  rewrite E2, Z.pow_add_r by lia. rewrite Zmod_odd. destruct (Z.odd q), r, s; cbn [orb] in *; lia.
Qed.

Lemma iter_pos_nat {A} (f : A -> A) p x : iter_pos f p x = Nat.iter (Pos.to_nat p) f x.
Proof.
  revert x. induction p as [p IH|p IH|]; intros x; cbn [iter_pos].
  - rewrite !IH, Pos2Nat.inj_xI. rewrite <-Nat.iter_add, <-Nat.iter_succ_r. f_equal. lia.
  - rewrite !IH, Pos2Nat.inj_xO. rewrite <-Nat.iter_add. f_equal. lia.
  - done.
Qed.

Lemma shifted_iter m p : 0 <= m -> shifted m (Zpos p) (iter_pos shr_1 p (Build_shr_record m false false)).
Proof.
  intros Hm. rewrite iter_pos_nat. replace (Zpos p) with (Z.of_nat (Pos.to_nat p)) by lia. generalize (Pos.to_nat p) as n. clear p.
  induction n as [|n IH]; [apply shifted_0|]. rewrite Nat.iter_succ, Nat2Z.inj_succ, <-Z.add_1_r. apply shifted_S; [lia..|done].
Qed.

Lemma shifted_rne m k r : 0 <= k -> shifted m k r -> round_nearest_even (shr_m r) (loc_of_shr_record r) = rne m k.
Proof.
  intros Hk (Hq & _ & Hb). unfold rne. destruct r as [q r s]. cbn [shr_m shr_r shr_s loc_of_shr_record] in *. subst q.
  destruct r, s; cbn [round_nearest_even]; destruct (Z.compare_spec (2 * (m mod 2 ^ k)) (2 ^ k)); try lia; done.
Qed.

(** ** Values

    The value of a number is an integer, in units of [2 ^ unit]. *)

Definition unit : Z := -2200.

Definition scaled (m e : Z) : Z := m * 2 ^ (e - unit).

Definition value (x : spec_float) : Z :=
  match x with S754_finite s m e => scaled (cond_Zopp s (Zpos m)) e | _ => 0 end.

Lemma scaled_opp m e : scaled (- m) e = - scaled m e.
Proof. unfold scaled. lia. Qed.

Lemma digits_pos m : 2 ^ (Zpos (digits2_pos m) - 1) <= Zpos m < 2 ^ Zpos (digits2_pos m).
Proof.
  induction m as [m IH|m IH|]; cbn [digits2_pos]; [| |done]; rewrite Pos2Z.inj_succ, Z.pow_succ_r by lia;
    replace (Z.succ (Zpos (digits2_pos m)) - 1) with (Z.succ (Zpos (digits2_pos m) - 1)) by lia; rewrite Z.pow_succ_r by lia; lia.
Qed.

Lemma log2_digits m : Z.log2 (Zpos m) = Zpos (digits2_pos m) - 1.
Proof. apply Z.log2_unique; [lia|]. rewrite Z.sub_1_r, Z.succ_pred, <-Z.sub_1_r. apply digits_pos. Qed.

Lemma scaled_pos m e : unit <= e -> 0 < m -> 0 < scaled m e.
Proof. intros He Hm. unfold scaled. apply Z.mul_pos_pos; lia. Qed.

Lemma log2_scaled m e : unit <= e -> Z.log2 (scaled (Zpos m) e) = Zpos (digits2_pos m) - 1 + (e - unit).
Proof. intros He. unfold scaled. rewrite Z.log2_mul_pow2 by lia. rewrite log2_digits. lia. Qed.

Section format.
Context (prec emax : Z) (Hprec : 2 <= prec) (Hemax : prec < emax) (Hunit : unit <= 2 * (3 - emax - prec)).

Local Abbreviation fexp := (fexp prec emax).
Local Abbreviation emin := (emin prec emax).

(** The exponent of the last bit for a value, and the value rounded to it. *)
Definition last_bit (n : Z) : Z := fexp (Z.log2 n + 1 + unit) - unit.
Definition rounded (n : Z) : Z := if n =? 0 then 0 else rne n (last_bit n) * 2 ^ last_bit n.

Lemma last_bit_nonneg n : 0 <= last_bit n.
Proof. unfold last_bit, SpecFloat.fexp, SpecFloat.emin, unit in *. lia. Qed.

Lemma last_bit_mono n m : n <= m -> last_bit n <= last_bit m.
Proof. intros H. pose proof (Z.log2_le_mono n m H). unfold last_bit, SpecFloat.fexp. lia. Qed.

(** A power of two at least as large as the last bit is not crossed. *)
Lemma rounded_le_pow n k : 0 < n -> last_bit n <= k -> n <= 2 ^ k -> rounded n <= 2 ^ k.
Proof.
  intros Hn Hk Hle. pose proof (last_bit_nonneg n). unfold rounded. rewrite (proj2 (Z.eqb_neq _ _)) by lia.
  replace k with (k - last_bit n + last_bit n) in * by lia. rewrite Z.pow_add_r in * by lia.
  apply Z.mul_le_mono_nonneg_r; [lia|]. apply rne_le; lia.
Qed.

Lemma rounded_ge_pow n k : 0 < n -> last_bit n <= k -> 2 ^ k <= n -> 2 ^ k <= rounded n.
Proof.
  intros Hn Hk Hle. pose proof (last_bit_nonneg n). unfold rounded. rewrite (proj2 (Z.eqb_neq _ _)) by lia.
  replace k with (k - last_bit n + last_bit n) in * by lia. rewrite Z.pow_add_r in * by lia.
  apply Z.mul_le_mono_nonneg_r; [lia|]. apply rne_ge; lia.
Qed.

Lemma rounded_nonneg n : 0 <= n -> 0 <= rounded n.
Proof.
  intros Hn. unfold rounded. destruct (n =? 0); [lia|]. pose proof (last_bit_nonneg n).
  apply Z.mul_nonneg_nonneg; [|lia]. apply rne_ge; lia.
Qed.

(** Rounding is monotone. *)
Lemma rounded_mono n m : 0 <= n <= m -> rounded n <= rounded m.
Proof.
  intros H. destruct (Z.eq_dec n 0) as [->|Hn]; [apply (rounded_nonneg m); lia|].
  destruct (Z.eq_dec (last_bit n) (last_bit m)) as [E|Hne].
  - unfold rounded. rewrite !(proj2 (Z.eqb_neq _ _)) by lia. rewrite E. pose proof (last_bit_nonneg m).
    apply Z.mul_le_mono_nonneg_r; [lia|]. apply rne_mono; lia.
  - pose proof (last_bit_mono n m ltac:(lia)) as Hb. pose proof (Z.log2_le_mono n m ltac:(lia)) as Hl.
    assert (Z.log2 n < Z.log2 m) as Hlt by (assert (Z.log2 n <> Z.log2 m); [intros E; apply Hne; unfold last_bit; by rewrite E|lia]).
    pose proof (Z.log2_spec n ltac:(lia)) as [_ Hn2]. pose proof (Z.log2_spec m ltac:(lia)) as [Hm2 _].
    assert (2 ^ Z.succ (Z.log2 n) <= 2 ^ Z.log2 m) by (apply Z.pow_le_mono_r; lia).
    assert (last_bit n <= Z.log2 m /\ last_bit m <= Z.log2 m) as [B1 B2].
    { unfold last_bit, SpecFloat.fexp, SpecFloat.emin, unit in *. lia. }
    transitivity (2 ^ Z.log2 m); [apply rounded_le_pow; lia|apply rounded_ge_pow; lia].
Qed.

(** ** The results of [SpecFloat] *)

(** A number in the form of the format. *)
Definition number (x : spec_float) : Prop :=
  match x with
  | S754_zero _ => True
  | S754_finite _ m e => bounded prec emax m e = true
  | _ => False
  end.

Lemma digits_log2 n : 0 < n -> Zdigits2 n = Z.log2 n + 1.
Proof. intros Hn. destruct n as [|p|p]; try lia. rewrite log2_digits. cbn. lia. Qed.

Lemma shr_fexp_spec n e : 0 <= n -> let k := Z.max 0 (fexp (Zdigits2 n + e) - e) in
  exists r, shr_fexp prec emax n e loc_Exact = (r, e + k) /\ shifted n k r.
Proof.
  intros Hn k. unfold shr_fexp, shr. cbn [shr_record_of_loc]. unfold k. destruct (fexp (Zdigits2 n + e) - e) as [|p|p] eqn:E.
  - eexists. split; [by rewrite Z.add_0_r|apply shifted_0].
  - eexists. split; [done|]. by apply shifted_iter.
  - eexists. split; [by rewrite Z.add_0_r|apply shifted_0].
Qed.

Lemma last_bit_scaled m e : unit <= e -> last_bit (scaled (Zpos m) e) = fexp (Zpos (digits2_pos m) + e) - unit.
Proof. intros He. unfold last_bit. rewrite log2_scaled by done. do 2 f_equal. lia. Qed.

Lemma emin_unit : unit <= 2 * emin /\ emin < 0.
Proof. unfold SpecFloat.emin. lia. Qed.

Lemma fexp_ge d : emin <= fexp d /\ d - prec <= fexp d.
Proof. unfold SpecFloat.fexp. lia. Qed.

(** The mantissa after rounding, with at most one bit too many. *)
Lemma rne_mantissa m e : unit <= e -> e <= fexp (Zpos (digits2_pos m) + e) ->
  let ef := fexp (Zpos (digits2_pos m) + e) in
  rne (Zpos m) (ef - e) = rne (scaled (Zpos m) e) (ef - unit) /\ 0 <= rne (Zpos m) (ef - e) <= 2 ^ prec.
Proof.
  intros He Hef ef. split.
  - rewrite <-(rne_scale _ (ef - e) (e - unit)) by lia. unfold scaled. f_equal. lia.
  - split; [apply rne_ge; lia|]. apply rne_le; [lia|]. rewrite <-Z.pow_add_r by lia. pose proof (digits_pos m).
    assert (2 ^ Zpos (digits2_pos m) <= 2 ^ (prec + (ef - e))); [|lia]. apply Z.pow_le_mono_r; [lia|].
    pose proof (fexp_ge (Zpos (digits2_pos m) + e)). lia.
Qed.

(** The mantissa made canonical: a power of two loses a zero. *)
Lemma normalized n d : 0 < n <= 2 ^ prec -> fexp d = d - prec \/ fexp d = emin -> (fexp d = d - prec -> 2 ^ (prec - 1) <= n) -> unit <= fexp d ->
  exists p e', (let '(r, e') := shr_fexp prec emax n (fexp d) loc_Exact in (shr_m r, e')) = (Zpos p, e') /\
    scaled (Zpos p) e' = n * 2 ^ (fexp d - unit) /\ canonical_mantissa prec emax p e' = true.
Proof.
  intros Hn Hd Hlow Hu. destruct (shr_fexp_spec n (fexp d) ltac:(lia)) as (r & -> & (Hq & _)). rewrite digits_log2 in * by lia. rewrite Hq. clear Hq.
  pose proof emin_unit as [_ He0].
  assert (Z.log2 n < prec \/ n = 2 ^ prec) as [Hlt|Heq].
  { destruct (Z.eq_dec n (2 ^ prec)); [by right|left]. apply Z.log2_lt_pow2; lia. }
  - assert (Z.max 0 (fexp (Z.log2 n + 1 + fexp d) - fexp d) = 0) as -> by (pose proof (fexp_ge d); unfold SpecFloat.fexp in *; lia).
    rewrite Z.pow_0_r, Z.div_1_r, Z.add_0_r. destruct n as [|p|p]; try lia. exists p, (fexp d). split; [done|]. split; [done|].
    unfold canonical_mantissa. apply Z.eqb_eq. rewrite log2_digits in Hlt.
    destruct Hd as [Hd|Hd]; [|rewrite Hd; unfold SpecFloat.fexp; lia].
    assert (prec - 1 <= Zpos (digits2_pos p) - 1).
    { rewrite <-log2_digits. apply Z.log2_le_pow2; [lia|]. by apply Hlow. }
    pose proof (fexp_ge d). rewrite Hd in *. unfold SpecFloat.fexp in *. lia.
  - subst n. rewrite Z.log2_pow2 by lia.
    assert (Z.max 0 (fexp (prec + 1 + fexp d) - fexp d) = 1) as -> by (pose proof (fexp_ge d); unfold SpecFloat.fexp in *; lia).
    assert (2 ^ prec / 2 ^ 1 = 2 ^ (prec - 1)) as -> by (symmetry; apply Z.div_unique_exact; [lia|]; rewrite <-Z.pow_add_r by lia; f_equal; lia).
    destruct (2 ^ (prec - 1)) as [|p|p] eqn:E; try lia. exists p, (fexp d + 1). split; [done|]. split.
    + unfold scaled. rewrite <-E. rewrite <-!Z.pow_add_r by lia. f_equal. lia.
    + unfold canonical_mantissa. apply Z.eqb_eq. assert (Zpos (digits2_pos p) = prec) as ->.
      { pose proof (log2_digits p) as Hl. rewrite <-E, Z.log2_pow2 in Hl by lia. lia. }
      pose proof (fexp_ge d). unfold SpecFloat.fexp in *. lia.
Qed.

(** Too large to be finite. *)
Definition overflows (n : Z) : bool := 2 ^ (emax - unit) <=? rounded n.

(** A canonical number fits if its value is less than the power of two after the largest. *)
Lemma canonical_fits p e : fexp (Zpos (digits2_pos p) + e) = e -> (e <=? emax - prec) = negb (2 ^ (emax - unit) <=? scaled (Zpos p) e).
Proof.
  intros Hc. pose proof (fexp_ge (Zpos (digits2_pos p) + e)) as [G1 G2]. pose proof emin_unit as [Hu He0]. pose proof (digits_pos p) as Hp.
  unfold scaled. destruct (Z.leb_spec e (emax - prec)) as [Hle|Hgt]; destruct (Z.leb_spec (2 ^ (emax - unit)) (Zpos p * 2 ^ (e - unit))) as [Hl2|Hl2];
    cbn [negb]; try done; exfalso.
  - assert (Zpos p * 2 ^ (e - unit) < 2 ^ (prec + (e - unit))).
    { rewrite Z.pow_add_r by lia. apply Z.mul_lt_mono_pos_r; [lia|].
      assert (2 ^ Zpos (digits2_pos p) <= 2 ^ prec) by (apply Z.pow_le_mono_r; lia). lia. }
    assert (2 ^ (prec + (e - unit)) <= 2 ^ (emax - unit)) by (apply Z.pow_le_mono_r; lia). lia.
  - assert (2 ^ (prec - 1 + (e - unit)) <= Zpos p * 2 ^ (e - unit)).
    { rewrite Z.pow_add_r by lia. apply Z.mul_le_mono_pos_r; [lia|].
      assert (2 ^ (prec - 1) <= 2 ^ (Zpos (digits2_pos p) - 1)); [|lia]. apply Z.pow_le_mono_r; [lia|].
      unfold SpecFloat.fexp, SpecFloat.emin in *. lia. }
    assert (2 ^ (emax - unit) <= 2 ^ (prec - 1 + (e - unit))) by (apply Z.pow_le_mono_r; lia). lia.
Qed.

Lemma round_aux_value s m e : unit <= e -> e <= fexp (Zpos (digits2_pos m) + e) ->
  let n := scaled (Zpos m) e in
  let x := binary_round_aux prec emax s (Zpos m) e loc_Exact in
  if overflows n then x = S754_infinity s else number x /\ value x = cond_Zopp s (rounded n).
Proof.
  intros He Hef n x. set (d := Zpos (digits2_pos m) + e) in *. pose proof emin_unit as [Hu He0]. pose proof (fexp_ge d) as [Hf1 Hf2].
  destruct (rne_mantissa m e He Hef) as [Hr Hn]. fold d in Hr, Hn.
  assert (rounded n = rne (Zpos m) (fexp d - e) * 2 ^ (fexp d - unit)) as HR.
  { unfold rounded. rewrite (proj2 (Z.eqb_neq _ _)) by (pose proof (scaled_pos (Zpos m) e He ltac:(lia)); unfold n; lia).
    unfold n. rewrite last_bit_scaled by done. fold d. by rewrite Hr. }
  unfold overflows. rewrite HR. clear HR Hr. subst x. unfold binary_round_aux.
  destruct (shr_fexp_spec (Zpos m) e ltac:(lia)) as (r & -> & Hsh). cbn [Zdigits2] in *. fold d in Hsh |- *.
  replace (Z.max 0 (fexp d - e)) with (fexp d - e) in * by lia. rewrite (shifted_rne (Zpos m) (fexp d - e)) by (lia || done).
  replace (e + (fexp d - e)) with (fexp d) by lia. set (q := rne (Zpos m) (fexp d - e)) in *. clear Hsh.
  destruct (Z.eq_dec q 0) as [Hq|Hq].
  { rewrite Hq, Z.mul_0_l. rewrite (proj2 (Z.leb_gt _ _)) by lia. destruct (shr_fexp_spec 0 (fexp d) ltac:(lia)) as (r' & -> & (Hr' & _)).
    rewrite Hr', Z.div_0_l by lia. by destruct s. }
  destruct (normalized q d) as (p & e' & E & Hv & Hc); [lia| | |lia|].
  - unfold SpecFloat.fexp in *. lia.
  - intros Hd. subst q. apply rne_ge; [lia|]. rewrite <-Z.pow_add_r by lia. pose proof (digits_pos m).
    assert (2 ^ (prec - 1 + (fexp d - e)) <= 2 ^ (Zpos (digits2_pos m) - 1)); [|lia]. apply Z.pow_le_mono_r; lia.
  - destruct (shr_fexp prec emax q (fexp d) loc_Exact) as [r' e2]. injection E as Hr' ->. rewrite Hr', <-Hv.
    unfold canonical_mantissa in Hc. apply Z.eqb_eq in Hc.
    pose proof (canonical_fits p e' Hc) as Hcmp. rewrite Hcmp.
    destruct (2 ^ (emax - unit) <=? scaled (Zpos p) e'); cbn [negb] in *; [done|]. split; [|destruct s; [apply (scaled_opp (Zpos p) e')|done]].
    cbn [number]. unfold bounded, canonical_mantissa. by rewrite Hc, Z.eqb_refl, Hcmp.
Qed.

Lemma bounded_spec m e : bounded prec emax m e = true -> fexp (Zpos (digits2_pos m) + e) = e /\ e <= emax - prec /\ unit <= e.
Proof.
  intros [Hc He]%andb_true_iff. unfold canonical_mantissa in Hc. apply Z.eqb_eq in Hc. apply Z.leb_le in He.
  pose proof emin_unit. pose proof (fexp_ge (Zpos (digits2_pos m) + e)). lia.
Qed.

(** Rounding and overflow of a value of either sign. *)
Definition round_value (n : Z) : Z := Z.sgn n * rounded (Z.abs n).

(** The result of an operation whose exact value is [n]. *)
Definition rounds_to (n : Z) (x : spec_float) : Prop :=
  if overflows (Z.abs n) then x = S754_infinity (n <? 0) else number x /\ value x = round_value n.

Lemma scaled_sgn s m e : unit <= e -> Z.sgn (scaled (cond_Zopp s (Zpos m)) e) = cond_Zopp s 1 /\ Z.abs (scaled (cond_Zopp s (Zpos m)) e) = scaled (Zpos m) e.
Proof. intros He. pose proof (scaled_pos (Zpos m) e He ltac:(lia)). destruct s; cbn [cond_Zopp]; rewrite ?scaled_opp; lia. Qed.

Lemma number_value x : number x -> Z.abs (value x) < 2 ^ (emax - unit) /\ round_value (value x) = value x.
Proof.
  pose proof emin_unit as [Hu0 He0]. destruct x as [s|s| |s m e]; intros Hx; try done.
  { cbn [value]. split; [apply Z.pow_pos_nonneg; lia|done]. }
  apply bounded_spec in Hx as (Hc & He & Hu). pose proof (canonical_fits m e Hc) as Hf. rewrite (proj2 (Z.leb_le _ _)) in Hf by done.
  pose proof (scaled_pos (Zpos m) e Hu ltac:(lia)) as Hp. destruct (scaled_sgn s m e Hu) as [Hs Ha]. cbn [value]. unfold round_value. rewrite Hs, Ha. split.
  - by destruct (Z.leb_spec (2 ^ (emax - unit)) (scaled (Zpos m) e)).
  - assert (rounded (scaled (Zpos m) e) = scaled (Zpos m) e) as ->; [|destruct s; cbn [cond_Zopp]; rewrite ?scaled_opp; lia].
    unfold rounded. rewrite (proj2 (Z.eqb_neq _ _)) by lia. rewrite last_bit_scaled, Hc by done. unfold scaled. by rewrite rne_multiple by lia.
Qed.

Lemma number_rounds_to x : number x -> rounds_to (value x) x.
Proof.
  intros Hx. destruct (number_value x Hx) as [Hv Hr]. unfold rounds_to. destruct (overflows (Z.abs (value x))) eqn:Ho; [|done]. exfalso.
  unfold overflows in Ho. apply Z.leb_le in Ho. unfold round_value in Hr.
  destruct (Z.eq_dec (value x) 0) as [E|Hne]; [|lia]. rewrite E in *. change (rounded (Z.abs 0)) with 0 in Ho. lia.
Qed.

Lemma shl_align_value m e e' : e' <= e -> Zpos (fst (shl_align m e e')) = Zpos m * 2 ^ (e - e') /\ snd (shl_align m e e') = e'.
Proof.
  intros He. unfold shl_align. destruct (e' - e) as [|d|d] eqn:E; [|lia|]; cbn [fst snd].
  - replace (e - e') with 0 by lia. lia.
  - split; [|done]. replace (e - e') with (Zpos d) by lia. clear E.
    induction d as [|d IH] using Pos.peano_ind; [cbn; lia|]. rewrite Pos.iter_succ, Pos2Z.inj_succ, Z.pow_succ_r by lia. lia.
Qed.

Lemma round_sign s m e x : unit <= e ->
  (if overflows (scaled (Zpos m) e) then x = S754_infinity s else number x /\ value x = cond_Zopp s (rounded (scaled (Zpos m) e))) ->
  rounds_to (scaled (cond_Zopp s (Zpos m)) e) x.
Proof.
  intros He. destruct (scaled_sgn s m e He) as [Hs Ha]. pose proof (scaled_pos (Zpos m) e He ltac:(lia)) as Hp. unfold rounds_to, round_value. rewrite Hs, Ha.
  assert ((scaled (cond_Zopp s (Zpos m)) e <? 0) = s) as -> by (destruct s; cbn [cond_Zopp] in *; lia).
  destruct (overflows _); [done|]. intros [? ->]. split; [done|]. destruct s; cbn [cond_Zopp]; lia.
Qed.

Lemma binary_round_aux_value s m e : unit <= e -> e <= fexp (Zpos (digits2_pos m) + e) ->
  rounds_to (scaled (cond_Zopp s (Zpos m)) e) (binary_round_aux prec emax s (Zpos m) e loc_Exact).
Proof. intros He Hf. apply round_sign; [done|]. by apply round_aux_value. Qed.

Lemma binary_round_value s m e : unit <= e -> rounds_to (scaled (cond_Zopp s (Zpos m)) e) (binary_round prec emax s m e).
Proof.
  intros He. unfold binary_round. pose proof emin_unit. set (f := fexp (Zpos (digits2_pos m) + e)). pose proof (fexp_ge (Zpos (digits2_pos m) + e)).
  destruct (Z.le_gt_cases e f) as [Hle|Hgt].
  - assert (shl_align m e f = (m, e)) as -> by (unfold shl_align; destruct (f - e) as [|p|p] eqn:E; [done..|lia]).
    by apply binary_round_aux_value.
  - pose proof (shl_align_value m e f ltac:(lia)) as [Hm Hf']. destruct (shl_align m e f) as [m' e']. cbn [fst snd] in *. subst e'.
    assert (scaled (cond_Zopp s (Zpos m)) e = scaled (cond_Zopp s (Zpos m')) f) as ->.
    { unfold scaled. rewrite Hm. replace (cond_Zopp s (Zpos m * 2 ^ (e - f))) with (cond_Zopp s (Zpos m) * 2 ^ (e - f)) by (destruct s; cbn [cond_Zopp]; lia).
      rewrite <-Z.mul_assoc, <-Z.pow_add_r by lia. do 2 f_equal. lia. }
    assert (Zpos (digits2_pos m') + f = Zpos (digits2_pos m) + e) as Hd.
    { assert (Z.log2 (Zpos m') = Z.log2 (Zpos m) + (e - f)) as Hl by (rewrite Hm, Z.log2_mul_pow2; lia). rewrite !log2_digits in Hl. lia. }
    apply binary_round_aux_value; [lia|]. rewrite Hd. fold f. lia.
Qed.

Lemma binary_normalize_value z e s : unit <= e -> rounds_to (scaled z e) (binary_normalize prec emax z e s).
Proof.
  intros He. destruct z as [|m|m]; cbn [binary_normalize].
  - by apply (number_rounds_to (S754_zero s)).
  - by apply (binary_round_value false).
  - by apply (binary_round_value true).
Qed.

Lemma align_value s m e f : unit <= f <= e -> scaled (cond_Zopp s (Zpos (fst (shl_align m e f)))) f = scaled (cond_Zopp s (Zpos m)) e.
Proof.
  intros He. destruct (shl_align_value m e f ltac:(lia)) as [-> _]. replace (cond_Zopp s (Zpos m * 2 ^ (e - f))) with (cond_Zopp s (Zpos m) * 2 ^ (e - f)) by (destruct s; cbn [cond_Zopp]; lia).
  unfold scaled. rewrite <-Z.mul_assoc, <-Z.pow_add_r by lia. do 2 f_equal. lia.
Qed.

(** ** Sums, differences, products, comparisons *)

Lemma scaled_add a b e : scaled (a + b) e = scaled a e + scaled b e.
Proof. unfold scaled. lia. Qed.

Lemma add_value x y : number x -> number y -> rounds_to (value x + value y) (SFadd prec emax x y).
Proof.
  intros Hx Hy. destruct x as [s|s| |s m e], y as [s'|s'| |s' m' e']; try done.
  - destruct s, s'; by apply (number_rounds_to (S754_zero _)).
  - cbn [SFadd]. change (value (S754_zero s)) with 0. rewrite Z.add_0_l. by apply number_rounds_to.
  - cbn [SFadd]. change (value (S754_zero s')) with 0. rewrite Z.add_0_r. by apply number_rounds_to.
  - apply bounded_spec in Hx as (_ & _ & Hx), Hy as (_ & _ & Hy). cbn [value SFadd].
    rewrite <-(align_value s m e (Z.min e e')), <-(align_value s' m' e' (Z.min e e')), <-scaled_add by lia. apply binary_normalize_value. lia.
Qed.

Lemma sub_value x y : number x -> number y -> rounds_to (value x - value y) (SFsub prec emax x y).
Proof.
  intros Hx Hy. destruct x as [s|s| |s m e], y as [s'|s'| |s' m' e']; try done.
  - destruct s, s'; by apply (number_rounds_to (S754_zero _)).
  - cbn [SFsub]. change (value (S754_zero s)) with 0. rewrite Z.sub_0_l.
    assert (- value (S754_finite s' m' e') = value (S754_finite (negb s') m' e')) as ->
      by (cbn [value]; rewrite <-scaled_opp; by destruct s').
    by apply number_rounds_to.
  - cbn [SFsub]. change (value (S754_zero s')) with 0. rewrite Z.sub_0_r. by apply number_rounds_to.
  - apply bounded_spec in Hx as (_ & _ & Hx), Hy as (_ & _ & Hy). cbn [value SFsub].
    rewrite <-(align_value s m e (Z.min e e')), <-(align_value s' m' e' (Z.min e e')) by lia.
    rewrite <-Z.add_opp_r, <-scaled_opp, <-scaled_add. apply binary_normalize_value. lia.
Qed.

(** The exact product has twice the digits: its last one is that of the smallest. *)
Lemma mul_value x y : number x -> number y -> rounds_to (value x * value y / 2 ^ (- unit)) (SFmul prec emax x y).
Proof.
  intros Hx Hy. destruct x as [s|s| |s m e], y as [s'|s'| |s' m' e']; try done.
  - by apply (number_rounds_to (S754_zero _)).
  - change (value (S754_zero s)) with 0. rewrite Z.mul_0_l, Z.div_0_l by lia. by apply (number_rounds_to (S754_zero _)).
  - change (value (S754_zero s')) with 0. rewrite Z.mul_0_r, Z.div_0_l by lia. by apply (number_rounds_to (S754_zero _)).
  - apply bounded_spec in Hx as (Hc & He & Hx), Hy as (Hc' & He' & Hy). cbn [value SFmul]. pose proof emin_unit as [Hu He0].
    assert (unit <= e + e') as Hee by (pose proof (fexp_ge (Zpos (digits2_pos m) + e)); pose proof (fexp_ge (Zpos (digits2_pos m') + e')); lia).
    assert (scaled (cond_Zopp s (Zpos m)) e * scaled (cond_Zopp s' (Zpos m')) e' / 2 ^ (- unit) = scaled (cond_Zopp (xorb s s') (Zpos (m * m'))) (e + e')) as ->.
    { symmetry. apply Z.div_unique_exact; [lia|]. replace (cond_Zopp (xorb s s') (Zpos (m * m'))) with (cond_Zopp s (Zpos m) * cond_Zopp s' (Zpos m')) by (destruct s, s'; cbn [cond_Zopp xorb]; lia).
      unfold scaled. transitivity (cond_Zopp s (Zpos m) * cond_Zopp s' (Zpos m') * (2 ^ (e - unit) * 2 ^ (e' - unit))); [ring|].
      rewrite <-Z.pow_add_r by lia. transitivity (cond_Zopp s (Zpos m) * cond_Zopp s' (Zpos m') * (2 ^ (- unit) * 2 ^ (e + e' - unit))); [|ring].
      rewrite <-Z.pow_add_r by lia. do 2 f_equal. lia. }
    apply binary_round_aux_value; [done|].
    assert (Zpos (digits2_pos m) + Zpos (digits2_pos m') - 1 <= Zpos (digits2_pos (m * m'))) as Hd.
    { pose proof (Z.log2_mul_below (Zpos m) (Zpos m') ltac:(lia) ltac:(lia)) as Hl. rewrite <-Pos2Z.inj_mul, !log2_digits in Hl. lia. }
    unfold SpecFloat.fexp, SpecFloat.emin in *. lia.
Qed.

(** A larger exponent is a larger number. *)
Lemma exponent_lt m e m' e' : bounded prec emax m e = true -> bounded prec emax m' e' = true -> e < e' -> scaled (Zpos m) e < scaled (Zpos m') e'.
Proof.
  intros Hx Hy Hlt. apply bounded_spec in Hx as (Hc & He & Hx), Hy as (Hc' & He' & Hy). pose proof (digits_pos m). pose proof (digits_pos m').
  assert (Zpos (digits2_pos m') = prec /\ Zpos (digits2_pos m) <= prec) as [Hp Hp'] by (unfold SpecFloat.fexp in *; lia).
  assert (2 ^ Zpos (digits2_pos m) <= 2 ^ prec) by (apply Z.pow_le_mono_r; lia). rewrite Hp in *. unfold scaled.
  assert (Zpos m * 2 ^ (e - unit) < 2 ^ (prec + (e - unit))) by (rewrite Z.pow_add_r by lia; apply Z.mul_lt_mono_pos_r; lia).
  assert (2 ^ (prec - 1 + (e' - unit)) <= Zpos m' * 2 ^ (e' - unit)) by (rewrite Z.pow_add_r by lia; apply Z.mul_le_mono_pos_r; lia).
  assert (2 ^ (prec + (e - unit)) <= 2 ^ (prec - 1 + (e' - unit))) by (apply Z.pow_le_mono_r; lia). lia.
Qed.

Lemma compare_mantissa m m' k : 0 <= k -> (Zpos m * 2 ^ k ?= Zpos m' * 2 ^ k) = Pos.compare_cont Eq m m'.
Proof. intros Hk. rewrite <-Zmult_compare_compat_r by lia. done. Qed.

Lemma compare_value x y : number x -> number y -> SFcompare x y = Some (value x ?= value y).
Proof.
  intros Hx Hy. destruct x as [s|s| |s m e], y as [s'|s'| |s' m' e']; try done.
  - cbn [SFcompare]. apply bounded_spec in Hy as (_ & _ & Hy). pose proof (scaled_pos (Zpos m') e' Hy ltac:(lia)). change (value (S754_zero s)) with 0. cbn [value].
    f_equal. symmetry. destruct s'; cbn [cond_Zopp]; rewrite ?scaled_opp; [apply Z.compare_gt_iff|apply Z.compare_lt_iff]; lia.
  - cbn [SFcompare]. apply bounded_spec in Hx as (_ & _ & Hx). pose proof (scaled_pos (Zpos m) e Hx ltac:(lia)). change (value (S754_zero s')) with 0. cbn [value].
    f_equal. symmetry. destruct s; cbn [cond_Zopp]; rewrite ?scaled_opp; [apply Z.compare_lt_iff|apply Z.compare_gt_iff]; lia.
  - cbn [SFcompare value]. cbn [number] in Hx, Hy. pose proof (bounded_spec _ _ Hx) as (_ & _ & Hux). pose proof (bounded_spec _ _ Hy) as (_ & _ & Huy).
    pose proof (scaled_pos (Zpos m) e Hux ltac:(lia)). pose proof (scaled_pos (Zpos m') e' Huy ltac:(lia)).
    assert ((scaled (Zpos m) e ?= scaled (Zpos m') e') = match e ?= e' with Lt => Lt | Gt => Gt | Eq => Pos.compare_cont Eq m m' end) as Hcmp.
    { destruct (Z.compare_spec e e') as [->|Hlt|Hlt].
      - unfold scaled. apply compare_mantissa. lia.
      - apply Z.compare_lt_iff. by apply exponent_lt.
      - apply Z.compare_gt_iff. by apply exponent_lt. }
    f_equal. symmetry. destruct s, s'; cbn [cond_Zopp]; rewrite ?scaled_opp.
    + rewrite Z.compare_opp, <-Zcompare_antisym, Hcmp. by destruct (e ?= e').
    + apply Z.compare_lt_iff. lia.
    + apply Z.compare_gt_iff. lia.
    + done.
Qed.

(** ** Bounds *)

(** The integer [z] in units. *)
Definition units (z : Z) : Z := z * 2 ^ (- unit).

Definition upto (n : Z) (x : spec_float) : Prop := number x /\ 0 <= value x <= n.

Lemma rounded_units z : 0 <= z <= 2 ^ prec -> rounded (units z) = units z.
Proof.
  intros Hz. unfold rounded. destruct (Z.eqb_spec (units z) 0) as [E|Hne]; [lia|]. unfold units in *.
  assert (0 < z) by lia. assert (Z.log2 (z * 2 ^ (- unit)) = Z.log2 z - unit) as Hl by (rewrite Z.log2_mul_pow2; unfold unit; lia).
  assert (Z.log2 z < prec \/ z = 2 ^ prec) as [Hlt| ->].
  { destruct (Z.eq_dec z (2 ^ prec)); [by right|left]. apply Z.log2_lt_pow2; lia. }
  - assert (last_bit (z * 2 ^ (- unit)) <= - unit) as Hb.
    { unfold last_bit. rewrite Hl. unfold SpecFloat.fexp, SpecFloat.emin. lia. }
    set (b := last_bit _) in *. pose proof (last_bit_nonneg (z * 2 ^ (- unit))) as Hb0. fold b in Hb0.
    replace (- unit) with (- unit - b + b) by lia. rewrite Z.pow_add_r, Z.mul_assoc by lia. rewrite rne_multiple by lia. lia.
  - pose proof (last_bit_nonneg (2 ^ prec * 2 ^ (- unit))) as Hb0. assert (last_bit (2 ^ prec * 2 ^ (- unit)) <= prec - unit) as Hb.
    { unfold last_bit. rewrite Hl, Z.log2_pow2 by lia. unfold SpecFloat.fexp, SpecFloat.emin. lia. }
    set (b := last_bit _) in *. rewrite <-Z.pow_add_r by (unfold unit; lia). replace (prec + - unit) with (prec - unit - b + b) by lia.
    rewrite Z.pow_add_r by lia. rewrite rne_multiple by lia. lia.
Qed.

Lemma upto_mono n m x : n <= m -> upto n x -> upto m x.
Proof. intros Hn [Hx Hv]. split; [done|lia]. Qed.

(** The bound of an exact value bounds the result. *)
Lemma rounds_to_upto v n x : rounds_to v x -> 0 <= v <= n -> rounded n < 2 ^ (emax - unit) -> upto (rounded n) x.
Proof.
  intros Hx Hv Hn. pose proof (rounded_mono v n Hv) as Hle. pose proof (rounded_nonneg v ltac:(lia)). unfold rounds_to in Hx. rewrite Z.abs_eq in Hx by lia.
  unfold overflows in Hx. rewrite (proj2 (Z.leb_gt _ _)) in Hx by lia. destruct Hx as [Hx Hval]. split; [done|].
  rewrite Hval. unfold round_value. rewrite Z.abs_eq by lia. destruct (Z.eq_dec v 0) as [->|]; [cbn; lia|]. rewrite Z.sgn_pos by lia. lia.
Qed.

Lemma units_range z : 0 <= z <= 2 ^ prec -> 0 <= units z < 2 ^ (emax - unit).
Proof.
  intros Hz. unfold units. split; [lia|]. replace (emax - unit) with (emax + - unit) by lia. rewrite Z.pow_add_r by (unfold unit in *; lia).
  apply Z.mul_lt_mono_pos_r; [apply Z.pow_pos_nonneg; unfold unit; lia|]. assert (2 ^ prec < 2 ^ emax) by (apply Z.pow_lt_mono_r; lia). lia.
Qed.

Lemma rounds_to_units v z x : rounds_to v x -> 0 <= v <= units z -> 0 <= z <= 2 ^ prec -> upto (units z) x.
Proof.
  intros Hx Hv Hz. rewrite <-rounded_units by done. apply (rounds_to_upto v); [done..|]. rewrite rounded_units by done. by apply units_range.
Qed.

Lemma add_upto a b x y : upto (units a) x -> upto (units b) y -> a + b <= 2 ^ prec -> upto (units (a + b)) (SFadd prec emax x y).
Proof.
  intros [Hx Hvx] [Hy Hvy] Hab. pose proof (add_value x y Hx Hy) as Hr. assert (units (a + b) = units a + units b) as E by (unfold units; lia).
  assert (0 <= a + b) by (assert (0 <= units (a + b)) as Hs by lia; unfold units in Hs; assert (0 < 2 ^ (- unit)) by (by apply Z.pow_pos_nonneg); nia).
  apply (rounds_to_units _ _ _ Hr); lia.
Qed.

Lemma zero_upto n : 0 <= n -> upto n (S754_zero false).
Proof. intros Hn. split; [done|]. cbn. lia. Qed.
End format.

(** ** The two formats *)

Definition double (x : spec_float) : Prop := number 53 1024 x.
Definition single (x : spec_float) : Prop := number 24 128 x.

(** Bounds on what the operations return hold by these, and by computation. *)
Definition double_upto (n : Z) (x : spec_float) : Prop := upto 53 1024 n x.
Definition single_upto (n : Z) (x : spec_float) : Prop := upto 24 128 n x.

Definition double_rounds (n : Z) (x : spec_float) : Prop := rounds_to 53 1024 n x.
Definition single_rounds (n : Z) (x : spec_float) : Prop := rounds_to 24 128 n x.

(** The lemmas above for the format of [double]. *)
Lemma double_rounded_mono n m : 0 <= n <= m -> rounded 53 1024 n <= rounded 53 1024 m.
Proof. intros H. by apply rounded_mono. Qed.

Lemma double_rounded_nonneg n : 0 <= n -> 0 <= rounded 53 1024 n.
Proof. intros H. by apply rounded_nonneg. Qed.

Lemma double_units_range z : 0 <= z <= 2 ^ 53 -> 0 <= units z < 2 ^ (1024 - unit).
Proof. intros H. by apply (units_range 53 1024). Qed.

Lemma double_rounded_units z : 0 <= z <= 2 ^ 53 -> rounded 53 1024 (units z) = units z.
Proof. intros H. by apply rounded_units. Qed.

Lemma double_rounds_to_units v z x : double_rounds v x -> 0 <= v <= units z -> 0 <= z <= 2 ^ 53 -> double_upto (units z) x.
Proof. intros H1 H2 H3. by apply (rounds_to_units 53 1024 ltac:(done) ltac:(done) ltac:(done) v z). Qed.

Lemma double_rounds_pos v x : double_rounds v x -> 0 <= v -> rounded 53 1024 v < 2 ^ (1024 - unit) -> double x /\ value x = rounded 53 1024 v.
Proof.
  intros Hr Hv Hlt. unfold double_rounds, rounds_to, overflows in Hr. rewrite Z.abs_eq in Hr by done. rewrite (proj2 (Z.leb_gt _ _)) in Hr by done.
  destruct Hr as [Hx ->]. split; [done|]. unfold round_value. rewrite Z.abs_eq by done. destruct (Z.eq_dec v 0) as [->|]; [done|]. rewrite Z.sgn_pos by lia. lia.
Qed.

Lemma double_sub_value x y : double x -> double y -> double_rounds (value x - value y) (double_sub x y).
Proof. intros. by apply sub_value. Qed.

Lemma one_positive : 0 < 2 ^ (- unit).
Proof. by apply Z.pow_pos_nonneg. Qed.

Lemma convert_value p q p' q' x : 2 <= p -> p < q -> unit <= 2 * (3 - q - p) -> 2 <= p' -> p' < q' -> unit <= 2 * (3 - q' - p') ->
  number p q x -> rounds_to p' q' (value x) (convert p' q' x).
Proof.
  intros Hp Hq Hu Hp' Hq' Hu' Hx. destruct x as [s|s| |s m e]; try done; cbn [convert].
  - by apply (number_rounds_to p' q' Hp' Hq' Hu' (S754_zero s)).
  - apply (bounded_spec p q Hp Hq Hu) in Hx as (_ & _ & Hx). by apply binary_round_value.
Qed.

Lemma to_float_value x : double x -> single_rounds (value x) (to_float x).
Proof. intros Hx. by apply (convert_value 53 1024). Qed.

(** A [float] is a [double]. *)
Lemma single_rounded x : single x -> round_value 53 1024 (value x) = value x /\ Z.abs (value x) < 2 ^ (1024 - unit).
Proof.
  intros Hx. pose proof (number_value 24 128 ltac:(done) ltac:(done) ltac:(done) x Hx) as [Hlt _].
  split; [|by apply (Z.lt_trans _ _ _ Hlt)]. destruct x as [s|s| |s m e]; try done.
  apply (bounded_spec 24 128) in Hx as (Hc & He & Hu); [|done..]. cbn [value]. unfold round_value. destruct (scaled_sgn s m e Hu) as [-> ->].
  assert (rounded 53 1024 (scaled (Zpos m) e) = scaled (Zpos m) e) as ->; [|destruct s; cbn [cond_Zopp]; rewrite ?scaled_opp; lia].
  unfold rounded. rewrite (proj2 (Z.eqb_neq _ _)) by (pose proof (scaled_pos (Zpos m) e); lia). rewrite last_bit_scaled by done.
  unfold fexp, emin in *. set (k := (Zpos (digits2_pos m) + e - 53) `max` (3 - 1024 - 53)). assert (k <= e) by lia. assert (unit <= k) by (unfold unit; lia). unfold scaled.
  replace (e - unit) with (e - k + (k - unit)) by lia. rewrite Z.pow_add_r, Z.mul_assoc by lia. by rewrite rne_multiple by lia.
Qed.

Lemma to_double_value x : single x -> double (to_double x) /\ value (to_double x) = value x.
Proof.
  intros Hx. pose proof (convert_value 24 128 53 1024 x ltac:(done) ltac:(done) ltac:(done) ltac:(done) ltac:(done) ltac:(done) Hx) as Hr.
  destruct (single_rounded x Hx) as [Hv Ho]. change (convert 53 1024 x) with (to_double x) in Hr. unfold rounds_to in Hr.
  destruct (overflows 53 1024 (Z.abs (value x))) eqn:E; [|destruct Hr as [Hd ->]; done]. exfalso. unfold overflows in E. apply Z.leb_le in E.
  unfold round_value in Hv. destruct (Z.eq_dec (value x) 0) as [E0|Hne]; [rewrite E0 in E; done|lia].
Qed.

Lemma to_float_upto n m x : double_upto n x -> (rounded 24 128 n <=? m) = true -> m < 2 ^ (128 - unit) -> single_upto m (to_float x).
Proof.
  intros [Hx Hv] Hn%Z.leb_le Hm. apply (upto_mono 24 128 _ m _ Hn). apply (rounds_to_upto 24 128 ltac:(done) ltac:(done) ltac:(done) (value x)); [|done|lia].
  by apply to_float_value.
Qed.

Lemma to_double_upto n x : single_upto n x -> double_upto n (to_double x).
Proof. intros [Hx Hv]. destruct (to_double_value x Hx) as [Hd E]. split; [done|]. by rewrite E. Qed.

Lemma double_add_upto a b x y : double_upto (units a) x -> double_upto (units b) y -> a + b <= 2 ^ 53 -> double_upto (units (a + b)) (double_add x y).
Proof. intros. by apply add_upto. Qed.

Lemma double_compare x y : double x -> double y -> SFcompare x y = Some (value x ?= value y).
Proof. intros. by apply (compare_value 53 1024). Qed.

Lemma double_ltb x y : double x -> double y -> SFltb x y = (value x <? value y).
Proof. intros. unfold SFltb. rewrite double_compare by done. unfold Z.ltb. by destruct (_ ?= _). Qed.

Lemma double_leb x y : double x -> double y -> SFleb x y = (value x <=? value y).
Proof. intros. unfold SFleb. rewrite double_compare by done. unfold Z.leb. by destruct (_ ?= _). Qed.

Lemma double_eqb x y : double x -> double y -> SFeqb x y = (value x =? value y).
Proof. intros. unfold SFeqb. rewrite double_compare by done. rewrite Z.eqb_compare. by destruct (_ ?= _). Qed.

Lemma double_of_Z_rounds z : double_rounds (units z) (double_of_Z z).
Proof. unfold double_of_Z. replace (units z) with (scaled z 0) by done. by apply binary_normalize_value. Qed.

(** Small integers are exact. *)
Lemma double_of_Z_value z : 0 <= z <= 2 ^ 53 -> double (double_of_Z z) /\ value (double_of_Z z) = units z.
Proof.
  intros Hz. pose proof (double_units_range z Hz) as Hu. rewrite <-(rounded_units 53 1024 ltac:(done) ltac:(done) ltac:(done) z Hz).
  apply double_rounds_pos; [apply double_of_Z_rounds|lia|]. rewrite (rounded_units 53 1024) by done. lia.
Qed.

Lemma double_of_Z_upto z n : 0 <= z <= n -> n <= 2 ^ 53 -> double_upto (units n) (double_of_Z z).
Proof. intros Hz Hn. destruct (double_of_Z_value z ltac:(lia)) as [Hd Hv]. split; [done|]. rewrite Hv. unfold units. assert (0 < 2 ^ (- unit)) by (by apply Z.pow_pos_nonneg). nia. Qed.

(** The integer part. *)
Lemma size_of_double_value n x : double_upto (units n) x -> n < 2 ^ 64 ->
  size_of_double x = Ret (value x / 2 ^ (- unit)) /\ 0 <= value x / 2 ^ (- unit) <= n.
Proof.
  intros [Hx Hv] Hn. pose proof one_positive as Hone.
  assert (0 <= value x / 2 ^ (- unit) <= n) as Hz by (split; [apply Z.div_pos; lia|]; apply Z.div_le_upper_bound; unfold units in Hv; lia).
  split; [|done]. destruct x as [s|s| |s m e]; try done.
  apply (bounded_spec 53 1024) in Hx as (_ & _ & Hu); [|done..]. destruct s; cbn [value cond_Zopp] in *.
  { pose proof (scaled_pos (Zpos m) e Hu ltac:(lia)). change (Zneg m) with (- Zpos m) in Hv. rewrite scaled_opp in Hv. lia. }
  cbn [size_of_double]. assert (Z.shiftl (Zpos m) e = scaled (Zpos m) e / 2 ^ (- unit)) as ->.
  { unfold scaled. destruct (Z.le_gt_cases 0 e) as [He|He].
    - rewrite Z.shiftl_mul_pow2 by done. replace (e - unit) with (e + - unit) by lia. rewrite Z.pow_add_r, Z.mul_assoc, Z.div_mul by (unfold unit; lia). done.
    - rewrite Z.shiftl_div_pow2 by lia. replace (- unit) with (- e + (e - unit)) by lia. rewrite Z.pow_add_r by lia.
      rewrite Z.div_mul_cancel_r; [done|lia|]. assert (0 < 2 ^ (e - unit)) by (apply Z.pow_pos_nonneg; lia). lia. }
  by rewrite (proj2 (Z.ltb_lt _ _)) by lia.
Qed.

Lemma single_sub_value x y : single x -> single y -> single_rounds (value x - value y) (float_sub x y).
Proof. intros. by apply sub_value. Qed.

(** ** Errors *)

Lemma rounded_error prec emax n : 2 <= prec -> prec < emax -> unit <= 2 * (3 - emax - prec) -> 0 <= n ->
  Z.abs (rounded prec emax n - n) <= 2 ^ last_bit prec emax n.
Proof.
  intros Hp He Hu Hn. pose proof (last_bit_nonneg prec emax Hu n) as Hb. unfold rounded. destruct (Z.eqb_spec n 0) as [->|]; [lia|].
  pose proof (rne_cases n (last_bit prec emax n) Hb). set (p := 2 ^ last_bit prec emax n) in *. assert (0 < p) by (apply Z.pow_pos_nonneg; lia).
  pose proof (Z.div_mod n p ltac:(lia)). pose proof (Z.mod_pos_bound n p ltac:(lia)). nia.
Qed.

(** A product of non-negative numbers. *)
Lemma double_mul_value n x y : double x -> double y -> 0 <= value x -> 0 <= value y -> value x * value y / 2 ^ (- unit) <= units n -> n <= 2 ^ 53 ->
  double_upto (units n) (double_mul x y) /\ value (double_mul x y) = rounded 53 1024 (value x * value y / 2 ^ (- unit)).
Proof.
  intros Hx Hy Hvx Hvy Hle Hn. pose proof (mul_value 53 1024 ltac:(done) ltac:(done) ltac:(done) x y Hx Hy) as Hr. fold (double_rounds (value x * value y / 2 ^ (- unit)) (double_mul x y)) in Hr.
  assert (0 <= value x * value y / 2 ^ (- unit)) as H0 by (apply Z.div_pos; [lia|apply one_positive]).
  set (p := value x * value y / 2 ^ (- unit)) in *. assert (0 <= n) as Hn0 by (pose proof one_positive; unfold units in Hle; nia).
  split; [apply (double_rounds_to_units p n); (done || lia)|]. apply (double_rounds_pos p _ Hr H0).
  pose proof (double_units_range n ltac:(lia)). pose proof (double_rounded_mono p (units n) ltac:(lia)) as Hm. rewrite (double_rounded_units n) in Hm by lia. lia.
Qed.
