(* ===== verification/ZopfliUtil.v ===== *)
(** * Zopfli: symbols

    [util.cc]: the symbol, the number of extra bits and their value for each
    match length and distance, for GCC and for other compilers. The last
    section is the table of RFC 1951, against which they are checked. *)

From S2P Require Import Prelude.

Local Open Scope Z_scope.

(** Indexing of an array of constants. *)
Definition table_at (table : list Z) (i : Z) : Z := default 0 (if i <? 0 then None else table !! Z.to_nat i).

(** A read outside the table is undefined. *)
Definition index (table : list Z) (i : Z) : outcome Z :=
  or_undefined (if i <? 0 then None else table !! Z.to_nat i).

(** [table[i] = v]: a write outside the table is undefined. *)
Definition assign (table : list Z) (i v : Z) : outcome (list Z) :=
  if (0 <=? i) && (i <? Z.of_nat (length table)) then Ret (<[Z.to_nat i := v]> table) else Undefined.

Lemma index_ok table i : 0 <= i < Z.of_nat (length table) -> index table i = Ret (table_at table i).
Proof.
  intros Hi. unfold index, table_at. rewrite (proj2 (Z.ltb_ge _ _)) by lia.
  by destruct (lookup_lt_is_Some_2 table (Z.to_nat i) ltac:(lia)) as [x ->].
Qed.

Lemma assign_ok table i v : 0 <= i < Z.of_nat (length table) -> assign table i v = Ret (<[Z.to_nat i := v]> table).
Proof. intros H. unfold assign. by rewrite (proj2 (Z.leb_le _ _)), (proj2 (Z.ltb_lt _ _)) by lia. Qed.

Lemma table_at_nat table i : table_at table (Z.of_nat i) = default 0 (table !! i).
Proof. unfold table_at. by rewrite (proj2 (Z.ltb_ge _ _)), Nat2Z.id by lia. Qed.

Lemma table_at_insert table i v j : 0 <= i < Z.of_nat (length table) -> 0 <= j ->
  table_at (<[Z.to_nat i := v]> table) j = if j =? i then v else table_at table j.
Proof.
  intros Hi Hj. unfold table_at. rewrite (proj2 (Z.ltb_ge _ _)) by lia.
  destruct (Z.eqb_spec j i) as [->|Hne].
  - by rewrite list_lookup_insert_eq by lia.
  - by rewrite list_lookup_insert_ne by lia.
Qed.

Lemma table_at_replicate n i : table_at (replicate n 0) i = 0.
Proof.
  unfold table_at. case_match; [done|]. destruct (replicate n 0 !! _) as [x|] eqn:E; [|done].
  by apply lookup_replicate in E as [-> _].
Qed.

(** [assert(b)] *)
Definition assertion (b : bool) : outcome unit := if b then Ret tt else Aborts.

Lemma assertion_holds {A} b (k : unit -> outcome A) : b = true -> (assertion b ≫= k) = k tt.
Proof. by intros ->. Qed.

Lemma assertion_inv {A} b (k : unit -> outcome A) y : (assertion b ≫= k) = Ret y -> b = true /\ k tt = Ret y.
Proof. by destruct b. Qed.

(** [__builtin_clz], for a positive [unsigned]. *)
Definition builtin_clz (x : Z) : Z := 31 - Z.log2 x.

(** ** Distances, with GCC *)

Definition ZopfliGetDistExtraBits (dist : Z) : Z :=
  if dist <? 5 then 0 else Z.lxor 31 (builtin_clz (dist - 1)) - 1.

Definition ZopfliGetDistExtraBitsValue (dist : Z) : Z :=
  if dist <? 5 then 0
  else
    let l := Z.lxor 31 (builtin_clz (dist - 1)) in
    Z.land (dist - (1 + Z.shiftl 1 l)) (Z.shiftl 1 (l - 1) - 1).

Definition ZopfliGetDistSymbol (dist : Z) : Z :=
  if dist <? 5 then dist - 1
  else
    let l := Z.lxor 31 (builtin_clz (dist - 1)) in
    let r := Z.land (Z.shiftr (dist - 1) (l - 1)) 1 in
    l * 2 + r.

(** ** Distances, with another compiler *)

Module portable.
Definition ZopfliGetDistExtraBits (dist : Z) : Z :=
  if dist <? 5 then 0
  else if dist <? 9 then 1
  else if dist <? 17 then 2
  else if dist <? 33 then 3
  else if dist <? 65 then 4
  else if dist <? 129 then 5
  else if dist <? 257 then 6
  else if dist <? 513 then 7
  else if dist <? 1025 then 8
  else if dist <? 2049 then 9
  else if dist <? 4097 then 10
  else if dist <? 8193 then 11
  else if dist <? 16385 then 12
  else 13.

Definition ZopfliGetDistExtraBitsValue (dist : Z) : Z :=
  if dist <? 5 then 0
  else if dist <? 9 then Z.land (dist - 5) 1
  else if dist <? 17 then Z.land (dist - 9) 3
  else if dist <? 33 then Z.land (dist - 17) 7
  else if dist <? 65 then Z.land (dist - 33) 15
  else if dist <? 129 then Z.land (dist - 65) 31
  else if dist <? 257 then Z.land (dist - 129) 63
  else if dist <? 513 then Z.land (dist - 257) 127
  else if dist <? 1025 then Z.land (dist - 513) 255
  else if dist <? 2049 then Z.land (dist - 1025) 511
  else if dist <? 4097 then Z.land (dist - 2049) 1023
  else if dist <? 8193 then Z.land (dist - 4097) 2047
  else if dist <? 16385 then Z.land (dist - 8193) 4095
  else Z.land (dist - 16385) 8191.

Definition ZopfliGetDistSymbol (dist : Z) : Z :=
  if dist <? 193 then
    if dist <? 13 then
      if dist <? 5 then dist - 1
      else if dist <? 7 then 4
      else if dist <? 9 then 5
      else 6
    else
      if dist <? 17 then 7
      else if dist <? 25 then 8
      else if dist <? 33 then 9
      else if dist <? 49 then 10
      else if dist <? 65 then 11
      else if dist <? 97 then 12
      else if dist <? 129 then 13
      else 14
  else
    if dist <? 2049 then
      if dist <? 257 then 15
      else if dist <? 385 then 16
      else if dist <? 513 then 17
      else if dist <? 769 then 18
      else if dist <? 1025 then 19
      else if dist <? 1537 then 20
      else 21
    else
      if dist <? 3073 then 22
      else if dist <? 4097 then 23
      else if dist <? 6145 then 24
      else if dist <? 8193 then 25
      else if dist <? 12289 then 26
      else if dist <? 16385 then 27
      else if dist <? 24577 then 28
      else 29.
End portable.

(** ** Lengths *)

Definition ZopfliGetLengthExtraBits (l : Z) : outcome Z :=
  index [
   0; 0; 0; 0; 0; 0; 0; 0; 0; 0; 0; 1; 1; 1; 1; 1; 1; 1; 1; 2; 2; 2; 2; 2; 2; 2; 2; 2; 2; 2;
    2; 2; 2; 2; 2; 3; 3; 3; 3; 3; 3; 3; 3; 3; 3; 3; 3; 3; 3; 3; 3; 3; 3; 3; 3; 3; 3; 3; 3;
    3; 3; 3; 3; 3; 3; 3; 3; 4; 4; 4; 4; 4; 4; 4; 4; 4; 4; 4; 4; 4; 4; 4; 4; 4; 4; 4; 4; 4;
    4; 4; 4; 4; 4; 4; 4; 4; 4; 4; 4; 4; 4; 4; 4; 4; 4; 4; 4; 4; 4; 4; 4; 4; 4; 4; 4; 4; 4;
    4; 4; 4; 4; 4; 4; 4; 4; 4; 4; 4; 4; 4; 4; 5; 5; 5; 5; 5; 5; 5; 5; 5; 5; 5; 5; 5; 5; 5;
    5; 5; 5; 5; 5; 5; 5; 5; 5; 5; 5; 5; 5; 5; 5; 5; 5; 5; 5; 5; 5; 5; 5; 5; 5; 5; 5; 5; 5;
    5; 5; 5; 5; 5; 5; 5; 5; 5; 5; 5; 5; 5; 5; 5; 5; 5; 5; 5; 5; 5; 5; 5; 5; 5; 5; 5; 5; 5;
    5; 5; 5; 5; 5; 5; 5; 5; 5; 5; 5; 5; 5; 5; 5; 5; 5; 5; 5; 5; 5; 5; 5; 5; 5; 5; 5; 5; 5;
    5; 5; 5; 5; 5; 5; 5; 5; 5; 5; 5; 5; 5; 5; 5; 5; 5; 5; 5; 5; 5; 5; 5; 5; 5; 0
  ] l.

Definition ZopfliGetLengthExtraBitsValue (l : Z) : outcome Z :=
  index [
   0; 0; 0; 0; 0; 0; 0; 0; 0; 0; 0; 0; 1; 0; 1; 0; 1; 0; 1; 0; 1; 2; 3; 0; 1; 2; 3; 0; 1; 2;
    3; 0; 1; 2; 3; 0; 1; 2; 3; 4; 5; 6; 7; 0; 1; 2; 3; 4; 5; 6; 7; 0; 1; 2; 3; 4; 5; 6; 7;
    0; 1; 2; 3; 4; 5; 6; 7; 0; 1; 2; 3; 4; 5; 6; 7; 8; 9; 10; 11; 12; 13; 14; 15; 0; 1; 2;
    3; 4; 5; 6; 7; 8; 9; 10; 11; 12; 13; 14; 15; 0; 1; 2; 3; 4; 5; 6; 7; 8; 9; 10; 11; 12;
    13; 14; 15; 0; 1; 2; 3; 4; 5; 6; 7; 8; 9; 10; 11; 12; 13; 14; 15; 0; 1; 2; 3; 4; 5; 6;
    7; 8; 9; 10; 11; 12; 13; 14; 15; 16; 17; 18; 19; 20; 21; 22; 23; 24; 25; 26; 27; 28; 29;
    30; 31; 0; 1; 2; 3; 4; 5; 6; 7; 8; 9; 10; 11; 12; 13; 14; 15; 16; 17; 18; 19; 20; 21;
    22; 23; 24; 25; 26; 27; 28; 29; 30; 31; 0; 1; 2; 3; 4; 5; 6; 7; 8; 9; 10; 11; 12; 13;
    14; 15; 16; 17; 18; 19; 20; 21; 22; 23; 24; 25; 26; 27; 28; 29; 30; 31; 0; 1; 2; 3; 4;
    5; 6; 7; 8; 9; 10; 11; 12; 13; 14; 15; 16; 17; 18; 19; 20; 21; 22; 23; 24; 25; 26; 27;
    28; 29; 30; 0
  ] l.

Definition ZopfliGetLengthSymbol (l : Z) : outcome Z :=
  index [
   0; 0; 0; 257; 258; 259; 260; 261; 262; 263; 264; 265; 265; 266; 266; 267; 267; 268; 268;
    269; 269; 269; 269; 270; 270; 270; 270; 271; 271; 271; 271; 272; 272; 272; 272; 273;
    273; 273; 273; 273; 273; 273; 273; 274; 274; 274; 274; 274; 274; 274; 274; 275; 275;
    275; 275; 275; 275; 275; 275; 276; 276; 276; 276; 276; 276; 276; 276; 277; 277; 277;
    277; 277; 277; 277; 277; 277; 277; 277; 277; 277; 277; 277; 277; 278; 278; 278; 278;
    278; 278; 278; 278; 278; 278; 278; 278; 278; 278; 278; 278; 279; 279; 279; 279; 279;
    279; 279; 279; 279; 279; 279; 279; 279; 279; 279; 279; 280; 280; 280; 280; 280; 280;
    280; 280; 280; 280; 280; 280; 280; 280; 280; 280; 281; 281; 281; 281; 281; 281; 281;
    281; 281; 281; 281; 281; 281; 281; 281; 281; 281; 281; 281; 281; 281; 281; 281; 281;
    281; 281; 281; 281; 281; 281; 281; 281; 282; 282; 282; 282; 282; 282; 282; 282; 282;
    282; 282; 282; 282; 282; 282; 282; 282; 282; 282; 282; 282; 282; 282; 282; 282; 282;
    282; 282; 282; 282; 282; 282; 283; 283; 283; 283; 283; 283; 283; 283; 283; 283; 283;
    283; 283; 283; 283; 283; 283; 283; 283; 283; 283; 283; 283; 283; 283; 283; 283; 283;
    283; 283; 283; 283; 284; 284; 284; 284; 284; 284; 284; 284; 284; 284; 284; 284; 284;
    284; 284; 284; 284; 284; 284; 284; 284; 284; 284; 284; 284; 284; 284; 284; 284; 284;
    284; 285
  ] l.

(** ** The tables of RFC 1951, section 3.2.5 *)

(** First length and extra bits of the symbols from 257 on. *)
Definition length_base : list Z :=
  [3; 4; 5; 6; 7; 8; 9; 10; 11; 13; 15; 17; 19; 23; 27; 31; 35; 43; 51; 59; 67; 83; 99; 115; 131; 163; 195; 227; 258].
Definition length_extra : list Z :=
  [0; 0; 0; 0; 0; 0; 0; 0; 1; 1; 1; 1; 2; 2; 2; 2; 3; 3; 3; 3; 4; 4; 4; 4; 5; 5; 5; 5; 0].

Definition dist_base : list Z :=
  [1; 2; 3; 4; 5; 7; 9; 13; 17; 25; 33; 49; 65; 97; 129; 193; 257; 385; 513; 769; 1025; 1537; 2049; 3073; 4097;
   6145; 8193; 12289; 16385; 24577].
Definition dist_extra : list Z :=
  [0; 0; 0; 0; 1; 1; 2; 2; 3; 3; 4; 4; 5; 5; 6; 6; 7; 7; 8; 8; 9; 9; 10; 10; 11; 11; 12; 12; 13; 13].

(** ** Properties *)

(** A property of the [2 ^ k] integers from [a] on, by computation. *)
Fixpoint forall_range (P : Z -> bool) (k : nat) (a : Z) : bool :=
  match k with
  | O => P a
  | S k' => forall_range P k' a && forall_range P k' (a + 2 ^ Z.of_nat k')
  end.

Lemma forall_range_spec P k a : forall_range P k a = true -> forall z, a <= z < a + 2 ^ Z.of_nat k -> P z = true.
Proof.
  revert a. induction k as [|k IH]; intros a; cbn [forall_range].
  - intros H z Hz. simpl in Hz. by replace z with a by lia.
  - intros [H1 H2]%andb_true_iff z Hz. rewrite Nat2Z.inj_succ, Z.pow_succ_r in Hz by lia.
    destruct (Z.lt_ge_cases z (a + 2 ^ Z.of_nat k)); [apply (IH a H1)|apply (IH _ H2)]; lia.
Qed.

Definition dist_agree (d : Z) : bool :=
  (ZopfliGetDistSymbol d =? portable.ZopfliGetDistSymbol d) &&
  (ZopfliGetDistExtraBits d =? portable.ZopfliGetDistExtraBits d) &&
  (ZopfliGetDistExtraBitsValue d =? portable.ZopfliGetDistExtraBitsValue d).

(** The two versions of the distance functions, with the count of leading
    zeros and with the comparisons, agree on every distance of the window. *)
Theorem dist_variants_agree d (Hd : 1 <= d <= 32768) :
  ZopfliGetDistSymbol d = portable.ZopfliGetDistSymbol d /\
  ZopfliGetDistExtraBits d = portable.ZopfliGetDistExtraBits d /\
  ZopfliGetDistExtraBitsValue d = portable.ZopfliGetDistExtraBitsValue d.
Proof.
  assert (dist_agree d = true) as H.
  { apply (forall_range_spec dist_agree 15 1); [vm_compute; reflexivity|simpl; lia]. }
  unfold dist_agree in H. rewrite !andb_true_iff, !Z.eqb_eq in H. tauto.
Qed.

Lemma dist_variants_agree_witness :
  ZopfliGetDistSymbol 1000 = 19 /\ portable.ZopfliGetDistSymbol 1000 = 19.
Proof.
  destruct (dist_variants_agree 1000) as [H _]; [lia|]. split; [reflexivity|]. rewrite <-H. reflexivity.
Defined.

(** What a decoder needs of a symbol with its extra bits: they give the value
    back, and the extra bits hold their value. *)
Definition symbol_ok (base extra : list Z) (first sym bits value v : Z) : bool :=
  (first <=? sym) && (sym <? first + Z.of_nat (length base)) &&
  (table_at extra (sym - first) =? bits) && (table_at base (sym - first) + value =? v) &&
  (0 <=? bits) && (bits <=? 13) && (0 <=? value) && (value <? 2 ^ bits).

Definition length_ok (l : Z) : bool :=
  match ZopfliGetLengthSymbol l, ZopfliGetLengthExtraBits l, ZopfliGetLengthExtraBitsValue l with
  | Ret sym, Ret bits, Ret value => symbol_ok length_base length_extra 257 sym bits value l
  | _, _, _ => false
  end.

Lemma length_symbol_ok l : 3 <= l <= 258 -> exists sym bits value,
  ZopfliGetLengthSymbol l = Ret sym /\ ZopfliGetLengthExtraBits l = Ret bits /\
  ZopfliGetLengthExtraBitsValue l = Ret value /\ symbol_ok length_base length_extra 257 sym bits value l = true.
Proof.
  intros Hl. assert (length_ok l = true) as H.
  { apply (forall_range_spec length_ok 8 3); [vm_compute; reflexivity|simpl; lia]. }
  unfold length_ok in H. destruct (ZopfliGetLengthSymbol l) as [sym| | |]; try done.
  destruct (ZopfliGetLengthExtraBits l) as [bits| | |]; try done.
  destruct (ZopfliGetLengthExtraBitsValue l) as [value| | |]; try done. by exists sym, bits, value.
Qed.

Lemma dist_symbol_ok d : 1 <= d <= 32768 ->
  symbol_ok dist_base dist_extra 0 (ZopfliGetDistSymbol d) (ZopfliGetDistExtraBits d)
    (ZopfliGetDistExtraBitsValue d) d = true.
Proof.
  intros Hd. apply (forall_range_spec (fun d => symbol_ok dist_base dist_extra 0 (ZopfliGetDistSymbol d)
    (ZopfliGetDistExtraBits d) (ZopfliGetDistExtraBitsValue d) d) 15 1); [vm_compute; reflexivity|simpl; lia].
Qed.

Lemma symbol_ok_inv base extra first sym bits value v :
  symbol_ok base extra first sym bits value v = true ->
  first <= sym < first + Z.of_nat (length base) /\ table_at extra (sym - first) = bits /\
  table_at base (sym - first) + value = v /\ 0 <= bits <= 13 /\ 0 <= value < 2 ^ bits.
Proof. unfold symbol_ok. rewrite !andb_true_iff, !Z.eqb_eq, !Z.leb_le, !Z.ltb_lt. tauto. Qed.
