(* ===== verification/ZopfliBits.v ===== *)
(** * Zopfli: the bit stream

    [AddBit], [AddBits] and [AddHuffmanBits] of [deflate.cc], on the output
    array and the bit pointer. Bytes are integers from 0 to 255. What an
    output holds is a list of bits, the least significant bit of a byte first
    (RFC 1951, section 3.1.1). *)

From S2P Require Import Prelude ZopfliUtil.

Local Open Scope Z_scope.

(** [bp], [out] and [outsize]. *)
Record bitout : Type := MkOut { bp : Z; out : list Z }.

(** [ZOPFLI_APPEND_DATA] on the output: the value becomes an [unsigned char]. *)
Definition append_data (value : Z) (o : bitout) : bitout := MkOut (bp o) (out o ++ [u8 value]).

Definition AddBit (bit : Z) (o : bitout) : outcome bitout :=
  let o := if Z.land (bp o) 7 =? 0 then append_data 0 o else o in
  out' ← or_undefined (update_back (fun b => u8 (Z.lor b (Z.shiftl bit (Z.land (bp o) 7)))) (out o));
  Ret (MkOut (u8 (bp o + 1)) out').

(** [for (i = 0; i < length; i++)] *)
Definition AddBits (symbol length : Z) (o : bitout) : outcome bitout :=
  for_each (seqZ 0 length) (fun i o => AddBit (Z.land (Z.shiftr symbol i) 1) o) o.

Definition AddHuffmanBits (symbol length : Z) (o : bitout) : outcome bitout :=
  for_each (seqZ 0 length) (fun i o => AddBit (Z.land (Z.shiftr symbol (length - i - 1)) 1) o) o.

(** ** What an output holds *)

Definition byte_bits (b : Z) : list bool := Z.testbit b <$> [0; 1; 2; 3; 4; 5; 6; 7].
Definition bytes_bits (bs : list Z) : list bool := concat (byte_bits <$> bs).

Definition is_byte (b : Z) : Prop := 0 <= b < 256.

(** The output is [bits], filled up with zeros to whole bytes. *)
Record holds (o : bitout) (bits : list bool) : Prop := {
  h_bytes : Forall is_byte (out o);
  h_bits : exists pad, (pad < 8)%nat /\ bytes_bits (out o) = bits ++ replicate pad false;
  h_bp : bp o mod 8 = Z.of_nat (length bits) mod 8;
}.

(** An operation that writes these bits. *)
Definition emits (f : bitout -> outcome bitout) (bits : list bool) : Prop :=
  forall o pre, holds o pre -> exists o', f o = Ret o' /\ holds o' (pre ++ bits).

Lemma length_bytes_bits bs : length (bytes_bits bs) = (8 * length bs)%nat.
Proof.
  unfold bytes_bits. induction bs as [|b bs IH]; [done|].
  rewrite fmap_cons. cbn [concat]. rewrite length_app, IH. simpl. lia.
Qed.

Lemma bytes_bits_app a b : bytes_bits (a ++ b) = bytes_bits a ++ bytes_bits b.
Proof. unfold bytes_bits. by rewrite fmap_app, concat_app. Qed.

Lemma bytes_bits_one b : bytes_bits [b] = byte_bits b.
Proof. apply app_nil_r. Qed.

Lemma holds_nil : holds (MkOut 0 []) [].
Proof. constructor; [constructor|by exists 0%nat; split; [lia|]|done]. Qed.

Lemma u8_is_byte z : is_byte (u8 z).
Proof. unfold is_byte, u8. pose proof (Z.mod_pos_bound z (2 ^ 8)). lia. Qed.

Lemma land_7 z : Z.land z 7 = z mod 8.
Proof. change 7 with (Z.ones 3). by rewrite Z.land_ones. Qed.

Lemma u8_succ_mod z : u8 (z + 1) mod 8 = (z + 1) mod 8.
Proof.
  unfold u8. rewrite (Z.div_mod (z + 1) (2 ^ 8)) at 2 by lia.
  replace (2 ^ 8 * ((z + 1) / 2 ^ 8) + (z + 1) mod 2 ^ 8) with ((z + 1) mod 2 ^ 8 + (32 * ((z + 1) / 2 ^ 8)) * 8) by lia.
  by rewrite Z.mod_add.
Qed.

(** Setting the next bit of a byte whose higher bits are zero. *)
Definition set_bit_ok (k : nat) (b : Z) : bool :=
  forallb (fun bit =>
    implb (bool_decide (drop k (byte_bits b) = replicate (8 - k) false))
      (bool_decide (byte_bits (u8 (Z.lor b (Z.shiftl (Z.b2z bit) (Z.of_nat k)))) =
                    take k (byte_bits b) ++ bit :: replicate (7 - k) false))) [false; true].

Lemma set_bit k b bit : (k < 8)%nat -> is_byte b -> drop k (byte_bits b) = replicate (8 - k) false ->
  byte_bits (u8 (Z.lor b (Z.shiftl (Z.b2z bit) (Z.of_nat k)))) =
    take k (byte_bits b) ++ bit :: replicate (7 - k) false.
Proof.
  intros Hk Hb Hd. assert (set_bit_ok k b = true) as H.
  { do 8 (destruct k as [|k];
      [apply (forall_range_spec (set_bit_ok _) 8 0); [vm_compute; reflexivity|unfold is_byte in Hb; simpl; lia]|]).
    lia. }
  unfold set_bit_ok in H. rewrite forallb_forall in H. specialize (H bit ltac:(destruct bit; simpl; tauto)).
  rewrite bool_decide_true in H by done. by apply bool_decide_eq_true in H.
Qed.

(** The output with room for a bit: at least one bit of padding. *)
Lemma holds_room o pre : holds o pre ->
  let o1 := if Z.land (bp o) 7 =? 0 then append_data 0 o else o in
  bp o1 = bp o /\ Forall is_byte (out o1) /\
  exists pad, (0 < pad <= 8)%nat /\ bytes_bits (out o1) = pre ++ replicate pad false.
Proof.
  intros [Hby (pad & Hpad & Hbits) Hbp] o1. unfold o1. rewrite land_7, Hbp.
  assert (8 * length (out o) = length pre + pad)%nat as Hlen.
  { by rewrite <-length_bytes_bits, Hbits, length_app, length_replicate. }
  destruct (Z.eqb_spec (Z.of_nat (length pre) mod 8) 0) as [E|E].
  - apply Z.mod_divide in E as [q Hq]; [|lia]. assert (pad = 0)%nat as -> by lia. simpl in Hbits. rewrite app_nil_r in Hbits.
    split; [done|]. simpl. split; [apply Forall_app; split; [done|by repeat constructor]|].
    exists 8%nat. split; [lia|]. by rewrite bytes_bits_app, Hbits.
  - split; [done|]. split; [done|]. exists pad. split; [|done].
    destruct pad; [|lia]. exfalso. apply E. replace (Z.of_nat (length pre)) with (Z.of_nat (length (out o)) * 8) by lia.
    by apply Z.mod_mul.
Qed.

Lemma AddBit_emits bit : emits (AddBit (Z.b2z bit)) [bit].
Proof.
  intros o pre Ho. pose proof (holds_room o pre Ho) as Hroom. cbv zeta in Hroom.
  unfold AddBit. set (o1 := if Z.land (bp o) 7 =? 0 then append_data 0 o else o) in *.
  destruct Hroom as (Hbp & Hby & pad & Hpad & Hbits).
  assert (8 * length (out o1) = length pre + pad)%nat as Hlen.
  { by rewrite <-length_bytes_bits, Hbits, length_app, length_replicate. }
  destruct (exists_last (l := out o1)) as (init & b & Hout); [by intros E; rewrite E in Hlen; cbn [length] in Hlen; lia|].
  rewrite Hout, update_back_app. cbn [or_undefined]. rewrite outcome_bind_ret. eexists. split; [done|].
  rewrite Hout in Hby, Hbits, Hlen. apply Forall_app in Hby as [Hinit Hb%Forall_inv].
  rewrite length_app in Hlen. cbn [length] in Hlen.
  rewrite bytes_bits_app, bytes_bits_one in Hbits.
  remember (8 - pad)%nat as k eqn:Hkd.
  assert (Z.land (bp o1) 7 = Z.of_nat k) as Hk.
  { rewrite land_7, Hbp, (h_bp _ _ Ho).
    replace (Z.of_nat (length pre)) with (Z.of_nat k + Z.of_nat (length init) * 8) by lia.
    rewrite Z.mod_add by lia. apply Z.mod_small. lia. }
  assert (pre = bytes_bits init ++ take k (byte_bits b) /\ drop k (byte_bits b) = replicate (8 - k) false) as [Hpre Hd].
  { replace (8 - k)%nat with pad by lia.
    rewrite <-(take_drop k (byte_bits b)), app_assoc in Hbits. apply app_inj_1 in Hbits as [<- <-]; [|].
    - done.
    - rewrite length_app, length_bytes_bits, length_take. simpl. lia. }
  constructor; cbn [out bp].
  - apply Forall_app. split; [done|]. apply Forall_singleton, u8_is_byte.
  - exists (7 - k)%nat. split; [lia|]. rewrite bytes_bits_app, bytes_bits_one, Hk.
    rewrite (set_bit k b bit ltac:(lia) Hb Hd).
    rewrite Hpre, <-!app_assoc. done.
  - rewrite u8_succ_mod, length_app, Hbp. simpl length.
    rewrite Nat2Z.inj_add. change (Z.of_nat 1) with 1.
    rewrite <-(Zplus_mod_idemp_l (bp o)), (h_bp _ _ Ho). by rewrite Zplus_mod_idemp_l.
Qed.

(** ** Operations in sequence *)

Lemma emits_ret : emits Ret [].
Proof. intros o pre H. exists o. by rewrite app_nil_r. Qed.

Lemma emits_bind f g a b : emits f a -> emits g b -> emits (fun o => o ← f o; g o) (a ++ b).
Proof.
  intros Hf Hg o pre Ho. destruct (Hf o pre Ho) as (o1 & -> & H1). rewrite outcome_bind_ret.
  destruct (Hg o1 _ H1) as (o2 & -> & H2). exists o2. by rewrite app_assoc.
Qed.

Lemma emits_ext f g bits : (forall o, f o = g o) -> emits g bits -> emits f bits.
Proof. intros Hfg Hg o pre Ho. rewrite Hfg. by apply Hg. Qed.

Lemma emits_for_each {A} (f : A -> bitout -> outcome bitout) (bits : A -> list bool) l :
  Forall (fun x => emits (f x) (bits x)) l -> emits (for_each l f) (concat (bits <$> l)).
Proof.
  induction 1 as [|x l Hx _ IH]; [apply emits_ret|]. cbn [for_each]. rewrite fmap_cons. cbn [concat].
  by apply emits_bind.
Qed.

Lemma bit_at z i : 0 <= i -> Z.land (Z.shiftr z i) 1 = Z.b2z (Z.testbit z i).
Proof.
  intros Hi. change 1 with (Z.ones 1). rewrite Z.land_ones by lia. change (2 ^ 1) with 2.
  by rewrite <-Z.bit0_mod, Z.shiftr_spec, Z.add_0_l by lia.
Qed.

(** The bits of a number, from the least significant, and from the most
    significant. *)
Definition lsb_bits (z n : Z) : list bool := Z.testbit z <$> seqZ 0 n.
Definition msb_bits (z n : Z) : list bool := (fun i => Z.testbit z (n - i - 1)) <$> seqZ 0 n.

Lemma AddBits_emits symbol n : emits (AddBits symbol n) (lsb_bits symbol n).
Proof.
  replace (lsb_bits symbol n) with (concat ((fun i => [Z.testbit symbol i]) <$> seqZ 0 n)).
  - apply emits_for_each, Forall_forall. intros i [Hi _]%elem_of_seqZ. rewrite bit_at by done. apply AddBit_emits.
  - unfold lsb_bits. induction (seqZ 0 n) as [|i l IH]; [done|]. by rewrite !fmap_cons, <-IH.
Qed.

Lemma AddHuffmanBits_emits symbol n : emits (AddHuffmanBits symbol n) (msb_bits symbol n).
Proof.
  replace (msb_bits symbol n) with (concat ((fun i => [Z.testbit symbol (n - i - 1)]) <$> seqZ 0 n)).
  - apply emits_for_each, Forall_forall. intros i [Hi Hi']%elem_of_seqZ. rewrite bit_at by lia. apply AddBit_emits.
  - unfold msb_bits. induction (seqZ 0 n) as [|i l IH]; [done|]. by rewrite !fmap_cons, <-IH.
Qed.
