(* ===== verification/ZopfliTree.v ===== *)
(** * Zopfli: Huffman codes from their lengths

    [ZopfliLengthsToSymbols] of [tree.cc], and the canonical code of RFC 1951,
    section 3.2.2, that it computes: a prefix code as soon as the lengths
    satisfy Kraft's inequality. *)

From S2P Require Import Prelude ZopfliUtil ZopfliBits.

Local Open Scope Z_scope.

(** ** The function *)

(** [bl_count[lengths[i]]++], with the assertion. *)
Definition count_length (maxbits len : Z) (bl_count : list Z) : outcome (list Z) :=
  if len <=? maxbits then Ret (<[Z.to_nat len := u64 (table_at bl_count len + 1)]> bl_count) else Aborts.

(** One turn of the second loop: [code] is an [unsigned]. *)
Definition next_length (bl_count : list Z) (bits : Z) (s : Z * list Z) : outcome (Z * list Z) :=
  let '(code, next_code) := s in
  let code := u32 (Z.shiftl (code + table_at bl_count (bits - 1)) 1) in
  Ret (code, <[Z.to_nat bits := code]> next_code).

(** One turn of the third loop. *)
Definition assign_code (len : Z) (s : list Z * list Z) : outcome (list Z * list Z) :=
  let '(symbols, next_code) := s in
  if len =? 0 then Ret (symbols ++ [0], next_code)
  else Ret (symbols ++ [u32 (table_at next_code len)],
            <[Z.to_nat len := u64 (table_at next_code len + 1)]> next_code).

Definition ZopfliLengthsToSymbols (lengths : list Z) (maxbits : Z) : outcome (list Z) :=
  let zeros := replicate (Z.to_nat (maxbits + 1)) 0 in
  bl_count ← for_each lengths (count_length maxbits) zeros;
  let bl_count := <[0%nat := 0]> bl_count in
  '(_, next_code) ← for_each (seqZ 1 maxbits) (next_length bl_count) (0, zeros);
  '(symbols, _) ← for_each lengths assign_code ([], next_code);
  Ret symbols.

(** The example of RFC 1951: lengths 3, 3, 3, 3, 3, 2, 4, 4. *)
Example lengths_to_symbols_rfc :
  ZopfliLengthsToSymbols [3; 3; 3; 3; 3; 2; 4; 4] 15 = Ret [2; 3; 4; 5; 6; 0; 14; 15].
Proof. vm_compute. reflexivity. Qed.

(** ** The canonical code *)

(** How many symbols have a length. *)
Fixpoint length_count (lengths : list Z) (l : Z) : Z :=
  match lengths with
  | [] => 0
  | x :: lengths' => (if x =? l then 1 else 0) + length_count lengths' l
  end.

(** The smallest code of length [n]. *)
Fixpoint first_code (lengths : list Z) (n : nat) : Z :=
  match n with
  | O => 0
  | S n' => 2 * (first_code lengths n' + (if (n' =? 0)%nat then 0 else length_count lengths (Z.of_nat n')))
  end.

Definition canonical_code (lengths : list Z) (i : nat) : Z :=
  let len := table_at lengths (Z.of_nat i) in
  first_code lengths (Z.to_nat len) + length_count (take i lengths) len.

(** Its bits: most significant first, none for a symbol without a code. *)
Definition code_bits (lengths : list Z) (i : nat) : list bool :=
  msb_bits (canonical_code lengths i) (table_at lengths (Z.of_nat i)).

(** Kraft's sum in units of [2 ^ - m], up to the length [n]. *)
Fixpoint kraft_upto (lengths : list Z) (m n : Z) : Z :=
  match lengths with
  | [] => 0
  | x :: lengths' => (if (0 <? x) && (x <=? n) then 2 ^ (m - x) else 0) + kraft_upto lengths' m n
  end.

Record lengths_ok (m : Z) (lengths : list Z) : Prop := {
  lo_bits : 0 <= m <= 31;
  lo_range : Forall (fun x => 0 <= x <= m) lengths;
  lo_kraft : kraft_upto lengths m m <= 2 ^ m;
}.

Lemma length_count_nonneg lengths l : 0 <= length_count lengths l.
Proof. induction lengths as [|x lengths IH]; [done|]. simpl. case_match; lia. Qed.

Lemma length_count_app a b l : length_count (a ++ b) l = length_count a l + length_count b l.
Proof. induction a as [|x a IH]; [done|]. simpl. lia. Qed.

Lemma kraft_upto_le lengths m n1 n2 : n1 <= n2 -> kraft_upto lengths m n1 <= kraft_upto lengths m n2.
Proof.
  intros Hn. induction lengths as [|x lengths IH]; [done|]. simpl.
  pose proof (Z.pow_nonneg 2 (m - x)).
  destruct (Z.ltb_spec 0 x), (Z.leb_spec x n1), (Z.leb_spec x n2); simpl; lia.
Qed.

Lemma kraft_upto_zero lengths m : kraft_upto lengths m 0 = 0.
Proof.
  induction lengths as [|x lengths IH]; [done|]. simpl. rewrite IH.
  destruct (Z.ltb_spec 0 x), (Z.leb_spec x 0); simpl; lia.
Qed.

Lemma kraft_upto_succ lengths m n : 0 <= n ->
  kraft_upto lengths m (n + 1) = kraft_upto lengths m n + length_count lengths (n + 1) * 2 ^ (m - (n + 1)).
Proof.
  intros Hn. induction lengths as [|x lengths IH]; [done|]. simpl. rewrite IH.
  destruct (Z.eqb_spec x (n + 1)) as [->|Hx].
  - rewrite (proj2 (Z.ltb_lt _ _)), (proj2 (Z.leb_le _ _)), (proj2 (Z.leb_gt _ _)) by lia. simpl. lia.
  - assert ((x <=? n + 1) = (x <=? n)) as -> by (destruct (Z.leb_spec x (n + 1)), (Z.leb_spec x n); lia). lia.
Qed.

(** The codes up to a length, scaled, are Kraft's partial sum. *)
Lemma first_code_kraft lengths m n : Z.of_nat n < m ->
  first_code lengths (S n) * 2 ^ (m - Z.of_nat (S n)) = kraft_upto lengths m (Z.of_nat n).
Proof.
  induction n as [|n IH]; intros Hn.
  - simpl. by rewrite kraft_upto_zero.
  - change (first_code lengths (S (S n))) with
      (2 * (first_code lengths (S n) + length_count lengths (Z.of_nat (S n)))).
    pose proof (kraft_upto_succ lengths m (Z.of_nat n) ltac:(lia)) as Hs.
    replace (Z.of_nat n + 1) with (Z.of_nat (S n)) in Hs by lia. rewrite Hs, <-IH by lia.
    replace (m - Z.of_nat (S n)) with (1 + (m - Z.of_nat (S (S n)))) by lia.
    rewrite Z.pow_add_r by lia. lia.
Qed.

(** Every code fits its length. *)
Lemma first_code_bound lengths m n : lengths_ok m lengths -> 0 < Z.of_nat n <= m ->
  0 <= first_code lengths n /\ first_code lengths n + length_count lengths (Z.of_nat n) <= 2 ^ Z.of_nat n.
Proof.
  intros [Hm _ Hk] Hn. destruct n as [|n]; [lia|].
  pose proof (first_code_kraft lengths m n ltac:(lia)) as Hf.
  pose proof (kraft_upto_succ lengths m (Z.of_nat n) ltac:(lia)) as Hs.
  replace (Z.of_nat n + 1) with (Z.of_nat (S n)) in Hs by lia.
  pose proof (kraft_upto_le lengths m (Z.of_nat (S n)) m ltac:(lia)) as Hle.
  pose proof (kraft_upto_le lengths m 0 (Z.of_nat n) ltac:(lia)) as H0. rewrite kraft_upto_zero in H0.
  assert (0 < 2 ^ (m - Z.of_nat (S n))) as Hp by (apply Z.pow_pos_nonneg; lia).
  assert (2 ^ m = 2 ^ Z.of_nat (S n) * 2 ^ (m - Z.of_nat (S n))) as Hpow
    by (rewrite <-Z.pow_add_r by lia; f_equal; lia).
  split; [|]; nia.
Qed.

Lemma length_count_take lengths i l : table_at lengths (Z.of_nat i) = l -> (i < length lengths)%nat ->
  0 <= length_count (take i lengths) l < length_count lengths l.
Proof.
  intros Hi Hlen. split; [apply length_count_nonneg|]. rewrite <-(take_drop i lengths) at 2.
  rewrite length_count_app. unfold table_at in Hi. rewrite (proj2 (Z.ltb_ge _ _)), Nat2Z.id in Hi by lia.
  destruct (lookup_lt_is_Some_2 lengths i Hlen) as [x Hx]. rewrite Hx in Hi. simpl in Hi. subst x.
  rewrite (drop_S lengths l i Hx). simpl. rewrite Z.eqb_refl.
  pose proof (length_count_nonneg (drop (S i) lengths) l). lia.
Qed.

Lemma canonical_code_bound m lengths i : lengths_ok m lengths -> (i < length lengths)%nat ->
  let len := table_at lengths (Z.of_nat i) in 0 < len ->
  len <= m /\ 0 <= canonical_code lengths i < 2 ^ len /\
  canonical_code lengths i < first_code lengths (Z.to_nat len) + length_count lengths len.
Proof.
  intros Hok Hi len Hlen.
  assert (len <= m) as Hm.
  { unfold len, table_at. rewrite (proj2 (Z.ltb_ge _ _)), Nat2Z.id by lia.
    destruct (lookup_lt_is_Some_2 lengths i Hi) as [x Hx]. rewrite Hx. simpl.
    apply (proj1 (Forall_lookup _ _) (lo_range _ _ Hok) i x Hx). }
  pose proof (length_count_take lengths i len eq_refl Hi) as Hc.
  pose proof (first_code_bound lengths m (Z.to_nat len) Hok ltac:(lia)) as [H0 Hb].
  rewrite Z2Nat.id in Hb by lia. unfold canonical_code. fold len. lia.
Qed.

(** ** A prefix code *)

Definition bits_val (l : list bool) : Z := fold_left (fun a b => 2 * a + Z.b2z b) l 0.

Lemma bits_val_snoc l b : bits_val (l ++ [b]) = 2 * bits_val l + Z.b2z b.
Proof. unfold bits_val. by rewrite fold_left_app. Qed.

Lemma bits_val_app a b :
  bits_val (a ++ b) = bits_val a * 2 ^ Z.of_nat (length b) + bits_val b /\ 0 <= bits_val b < 2 ^ Z.of_nat (length b).
Proof.
  induction b as [|x b [IH1 IH2]] using rev_ind.
  - rewrite app_nil_r. change (bits_val []) with 0. simpl. lia.
  - rewrite app_assoc, !bits_val_snoc, IH1, length_app. simpl length.
    replace (Z.of_nat (length b + 1)) with (1 + Z.of_nat (length b)) by lia. rewrite Z.pow_add_r by lia.
    change (2 ^ 1) with 2.
    destruct x; simpl Z.b2z; lia.
Qed.

Lemma length_msb_bits z n : 0 <= n -> Z.of_nat (length (msb_bits z n)) = n.
Proof. intros Hn. unfold msb_bits. rewrite length_fmap, length_seqZ. lia. Qed.

Lemma msb_bits_succ z n : 0 <= n -> msb_bits z (n + 1) = msb_bits (z / 2) n ++ [Z.testbit z 0].
Proof.
  intros Hn. unfold msb_bits. rewrite seqZ_app by lia. rewrite fmap_app. f_equal.
  - apply list_fmap_ext. intros k i Hk. apply lookup_seqZ in Hk as [-> Hk].
    rewrite <-Z.div2_div, Z.div2_spec, Z.shiftr_spec by lia. f_equal. lia.
  - rewrite seqZ_cons by lia. rewrite seqZ_nil by lia. cbn [fmap list_fmap]. do 2 f_equal. lia.
Qed.

Lemma msb_bits_val z n : 0 <= n -> bits_val (msb_bits z n) = z mod 2 ^ n.
Proof.
  intros Hn. revert z. pattern n. apply natlike_ind; [|clear n Hn; intros n Hn IH|done]; intros z.
  - by rewrite Z.mod_1_r.
  - unfold Z.succ. rewrite msb_bits_succ, bits_val_snoc, IH, Z.bit0_mod by done.
    rewrite Z.pow_add_r, Z.mul_comm by lia. change (2 ^ 1) with 2.
    rewrite (Z.mul_comm (2 ^ n)). rewrite Z.rem_mul_r by lia. lia.
Qed.

Lemma first_code_step lengths n : (0 < n)%nat ->
  first_code lengths (S n) = 2 * (first_code lengths n + length_count lengths (Z.of_nat n)).
Proof. intros Hn. destruct n; [lia|done]. Qed.

(** Longer codes start above the shorter ones. *)
Lemma first_code_above lengths n d : (0 < n)%nat -> (0 < d)%nat ->
  2 ^ Z.of_nat d * (first_code lengths n + length_count lengths (Z.of_nat n)) <= first_code lengths (n + d).
Proof.
  intros Hn Hd. destruct d as [|d]; [lia|]. clear Hd. induction d as [|d IH].
  - rewrite Nat.add_1_r, first_code_step by done. change (2 ^ Z.of_nat 1) with 2. lia.
  - replace (n + S (S d))%nat with (S (n + S d)) by lia. rewrite first_code_step by lia.
    pose proof (length_count_nonneg lengths (Z.of_nat (n + S d))).
    rewrite (Nat2Z.inj_succ (S d)), Z.pow_succ_r by lia. lia.
Qed.

Lemma length_count_take_lt lengths i j l : (i < j)%nat -> (i < length lengths)%nat ->
  table_at lengths (Z.of_nat i) = l -> length_count (take i lengths) l < length_count (take j lengths) l.
Proof.
  intros Hij Hi Hl. pose proof (length_count_take (take j lengths) i l) as H.
  rewrite take_take, Nat.min_l, length_take in H by lia. apply H; [|lia].
  unfold table_at in *. rewrite (proj2 (Z.ltb_ge _ _)), Nat2Z.id in * by lia. by rewrite lookup_take_lt.
Qed.

(** The codes form a prefix code. *)
Lemma code_bits_prefix_free m lengths i j :
  lengths_ok m lengths -> (i < length lengths)%nat -> (j < length lengths)%nat ->
  0 < table_at lengths (Z.of_nat i) -> 0 < table_at lengths (Z.of_nat j) ->
  code_bits lengths i `prefix_of` code_bits lengths j -> i = j.
Proof.
  intros Hok Hi Hj Hli Hlj [r Hr]. unfold code_bits in Hr.
  destruct (canonical_code_bound m lengths i Hok Hi Hli) as (Hmi & Hci & Hci').
  destruct (canonical_code_bound m lengths j Hok Hj Hlj) as (Hmj & Hcj & Hcj').
  set (li := table_at lengths (Z.of_nat i)) in *. set (lj := table_at lengths (Z.of_nat j)) in *.
  destruct (bits_val_app (msb_bits (canonical_code lengths i) li) r) as [Hv Hrb].
  rewrite <-Hr, !msb_bits_val, !Z.mod_small in Hv by lia.
  apply (f_equal length) in Hr. rewrite length_app in Hr.
  pose proof (length_msb_bits (canonical_code lengths i) li ltac:(lia)).
  pose proof (length_msb_bits (canonical_code lengths j) lj ltac:(lia)).
  set (d := length r) in *. destruct (decide (d = 0)%nat) as [Hd|Hd].
  - assert (lj = li) as E by lia. rewrite Hd in Hv, Hrb. simpl in Hrb.
    assert (canonical_code lengths i = canonical_code lengths j) as Hc by lia.
    unfold canonical_code in Hc. fold li in Hc. fold lj in Hc. rewrite E in Hc.
    destruct (Nat.lt_trichotomy i j) as [Hlt|[?|Hlt]]; [|done|].
    + pose proof (length_count_take_lt lengths i j li Hlt Hi eq_refl). lia.
    + pose proof (length_count_take_lt lengths j i lj Hlt Hj eq_refl). rewrite E in *. lia.
  - pose proof (first_code_above lengths (Z.to_nat li) d ltac:(lia) ltac:(lia)) as Ha.
    replace (Z.to_nat li + d)%nat with (Z.to_nat lj) in Ha by lia. rewrite Z2Nat.id in Ha by lia.
    assert (first_code lengths (Z.to_nat lj) <= canonical_code lengths j).
    { unfold canonical_code. fold lj. pose proof (length_count_nonneg (take j lengths) lj). lia. }
    assert (0 < 2 ^ Z.of_nat d) by (apply Z.pow_pos_nonneg; lia). nia.
Qed.

(** ** The function computes the canonical code *)

Definition symbol_code (lengths : list Z) (i : nat) : Z :=
  if table_at lengths (Z.of_nat i) =? 0 then 0 else canonical_code lengths i.
Definition symbol_codes (lengths : list Z) : list Z := symbol_code lengths <$> seq 0 (length lengths).

Section symbols.
Context (m : Z) (lengths : list Z).
Context (Hok : lengths_ok m lengths) (Hlen : Z.of_nat (length lengths) < 2 ^ 31).

Lemma length_count_le l : 0 <= length_count lengths l <= Z.of_nat (length lengths).
Proof.
  split; [apply length_count_nonneg|]. clear. induction lengths as [|x k IH]; [done|]. cbn [length_count length].
  case_match; lia.
Qed.

Definition counts_of (seen : list Z) (table : list Z) : Prop :=
  Z.of_nat (length table) = m + 1 /\ forall l, 0 <= l <= m -> table_at table l = length_count seen l.

Lemma count_lengths_spec :
  exists bl, for_each lengths (count_length m) (replicate (Z.to_nat (m + 1)) 0) = Ret bl /\ counts_of lengths bl.
Proof.
  pose proof (lo_bits _ _ Hok) as Hm. apply for_each_inv.
  - split; [rewrite length_replicate; lia|]. intros l _. by rewrite table_at_replicate.
  - intros seen x rest bl Hl [Hn Hbl].
    assert (0 <= x <= m) as Hx.
    { pose proof (lo_range _ _ Hok) as Hr. rewrite Hl, Forall_app, Forall_cons in Hr. tauto. }
    unfold count_length. rewrite (proj2 (Z.leb_le _ _)) by lia. eexists. split; [done|]. split.
    + by rewrite length_insert.
    + intros l Hlm. rewrite table_at_insert by lia. rewrite length_count_app. cbn [length_count].
      rewrite (Z.eqb_sym x l). rewrite !Hbl by lia. destruct (Z.eqb_spec l x) as [->|]; [|lia].
      pose proof (length_count_le x) as Hle.
      assert (length_count lengths x = length_count seen x + (1 + length_count rest x)) as E
        by (rewrite Hl, length_count_app; cbn [length_count]; by rewrite Z.eqb_refl).
      pose proof (length_count_nonneg rest x). pose proof (length_count_nonneg seen x).
      rewrite u64_small; lia.
Qed.

Definition first_codes (i : Z) (s : Z * list Z) : Prop :=
  s.1 = first_code lengths (Z.to_nat (i - 1)) /\ Z.of_nat (length s.2) = m + 1 /\
  forall l, 1 <= l < i -> table_at s.2 l = first_code lengths (Z.to_nat l).

Lemma next_lengths_spec bl : counts_of lengths bl ->
  exists s, for_each (seqZ 1 m) (next_length (<[0%nat := 0]> bl)) (0, replicate (Z.to_nat (m + 1)) 0) = Ret s /\
    first_codes (1 + m) s.
Proof.
  intros [Hn Hbl]. pose proof (lo_bits _ _ Hok) as Hm. apply for_each_seqZ; [lia|..].
  - split; [done|]. split; [cbn [snd]; rewrite length_replicate; lia|]. intros l Hl. lia.
  - intros i [code nc] Hi (Hc & Hnc & Ht). cbn [fst snd] in *. eexists. split; [done|].
    assert (u32 (Z.shiftl (code + table_at (<[0%nat := 0]> bl) (i - 1)) 1) = first_code lengths (Z.to_nat i)) as Hcode.
    { rewrite Z.shiftl_mul_pow2 by lia. change (2 ^ 1) with 2.
      pose proof (first_code_bound lengths m (Z.to_nat i) Hok ltac:(lia)) as [H0 H1].
      pose proof (length_count_nonneg lengths (Z.of_nat (Z.to_nat i))).
      assert (2 ^ Z.of_nat (Z.to_nat i) <= 2 ^ 31) by (apply Z.pow_le_mono_r; lia).
      change 0%nat with (Z.to_nat 0) at 1. rewrite table_at_insert by lia.
      destruct (Z.to_nat i) as [|k] eqn:E; [lia|]. cbn [first_code] in *. subst code.
      replace (Z.to_nat (i - 1)) with k by lia.
      destruct (Z.eqb_spec (i - 1) 0) as [Ei|Ei].
      - assert (k = 0%nat) as -> by lia. cbn in *. by rewrite u32_small by lia.
      - rewrite Hbl by lia. replace (i - 1) with (Z.of_nat k) by lia.
        rewrite (proj2 (Nat.eqb_neq k 0)) in * by lia. rewrite u32_small; lia. }
    split; [|split]; cbn [fst snd].
    + rewrite Hcode. f_equal. lia.
    + by rewrite length_insert.
    + intros l Hl. rewrite table_at_insert, Hcode by lia. destruct (Z.eqb_spec l i) as [->|]; [done|]. apply Ht. lia.
Qed.

Definition assigned (seen : list Z) (s : list Z * list Z) : Prop :=
  s.1 = symbol_code lengths <$> seq 0 (length seen) /\ Z.of_nat (length s.2) = m + 1 /\
  forall l, 1 <= l <= m -> table_at s.2 l = first_code lengths (Z.to_nat l) + length_count seen l.

Lemma assign_codes_spec nc :
  Z.of_nat (length nc) = m + 1 -> (forall l, 1 <= l <= m -> table_at nc l = first_code lengths (Z.to_nat l)) ->
  exists s, for_each lengths assign_code ([], nc) = Ret s /\ assigned lengths s.
Proof.
  intros Hn Hnc. pose proof (lo_bits _ _ Hok) as Hm. apply for_each_inv.
  - split; [done|]. split; [done|]. intros l Hl. rewrite Hnc by done. simpl. lia.
  - intros seen x rest [symbols t] Hl (Hs & Ht & Htab). cbn [fst snd] in *.
    assert (0 <= x <= m) as Hx.
    { pose proof (lo_range _ _ Hok) as Hr. rewrite Hl, Forall_app, Forall_cons in Hr. tauto. }
    assert (table_at lengths (Z.of_nat (length seen)) = x) as Hat.
    { by rewrite table_at_nat, Hl, list_lookup_middle. }
    assert (forall v, v = symbol_code lengths (length seen) ->
      symbols ++ [v] = symbol_code lengths <$> seq 0 (length (seen ++ [x]))) as Hsym.
    { intros v ->. rewrite length_app, seq_app, fmap_app, Hs. done. }
    unfold assign_code. destruct (Z.eqb_spec x 0) as [->|Hx0].
    + eexists. split; [done|]. split; [|split]; cbn [fst snd]; [|done|].
      * apply Hsym. unfold symbol_code. by rewrite Hat.
      * intros l Hlm. rewrite Htab, length_count_app by done. cbn [length_count]. destruct (Z.eqb_spec 0 l); lia.
    + eexists. split; [done|]. pose proof (canonical_code_bound m lengths (length seen) Hok) as Hb.
      cbv zeta in Hb. rewrite Hat in Hb. destruct Hb as (_ & Hb & _); [rewrite Hl, length_app; simpl; lia|lia|].
      assert (canonical_code lengths (length seen) = table_at t x) as Hc.
      { rewrite Htab by lia. unfold canonical_code. rewrite Hat. do 2 f_equal. rewrite Hl. by rewrite take_app_length. }
      rewrite Hc in Hb. assert (2 ^ x <= 2 ^ 31) by (apply Z.pow_le_mono_r; lia).
      split; [|split]; cbn [fst snd].
      * apply Hsym. unfold symbol_code. rewrite Hat, (proj2 (Z.eqb_neq _ _) Hx0), Hc. apply u32_small. lia.
      * by rewrite length_insert.
      * intros l Hlm. rewrite table_at_insert by lia. rewrite length_count_app. cbn [length_count].
        rewrite (Z.eqb_sym x l). destruct (Z.eqb_spec l x) as [->|]; [|rewrite Htab by done; lia].
        rewrite u64_small, Htab by lia. lia.
Qed.

Lemma lengths_to_symbols_spec : ZopfliLengthsToSymbols lengths m = Ret (symbol_codes lengths).
Proof.
  pose proof (lo_bits _ _ Hok) as Hm. unfold ZopfliLengthsToSymbols.
  destruct count_lengths_spec as (bl & -> & Hbl). rewrite outcome_bind_ret.
  destruct (next_lengths_spec bl Hbl) as ([code nc] & -> & _ & Hnc & Ht). rewrite outcome_bind_ret.
  destruct (assign_codes_spec nc Hnc) as ([symbols t] & -> & Hs & _); [intros l Hl; apply Ht; lia|].
  rewrite outcome_bind_ret. cbn [fst] in Hs. by rewrite Hs.
Qed.
End symbols.

(** ** Properties *)

(** C30. Huffman codes. From lengths that satisfy Kraft's inequality the function
    makes, without wrap-around or failed assertion, a code that fits each
    length, and no code is a prefix of another. *)
Theorem lengths_to_symbols_prefix_code m lengths
    (Hok : lengths_ok m lengths) (Hlen : Z.of_nat (length lengths) < 2 ^ 31) :
  exists symbols, ZopfliLengthsToSymbols lengths m = Ret symbols /\ length symbols = length lengths /\
    (forall i len, lengths !! i = Some len -> 0 < len -> exists s, symbols !! i = Some s /\ 0 <= s < 2 ^ len) /\
    (forall i j li lj si sj, lengths !! i = Some li -> lengths !! j = Some lj -> 0 < li -> 0 < lj ->
       symbols !! i = Some si -> symbols !! j = Some sj ->
       msb_bits si li `prefix_of` msb_bits sj lj -> i = j).
Proof.
  exists (symbol_codes lengths). split; [by apply lengths_to_symbols_spec|].
  assert (forall i len, lengths !! i = Some len -> 0 < len ->
    symbol_codes lengths !! i = Some (canonical_code lengths i) /\ table_at lengths (Z.of_nat i) = len) as Hs.
  { intros i len Hi Hp. assert (table_at lengths (Z.of_nat i) = len) as E by (rewrite table_at_nat; by rewrite Hi).
    split; [|done]. unfold symbol_codes. rewrite list_lookup_fmap, lookup_seq_lt by (by eapply lookup_lt_Some).
    cbn [fmap option_fmap option_map]. change (0 + i)%nat with i. unfold symbol_code. by rewrite E, (proj2 (Z.eqb_neq _ _)) by lia. }
  split; [by unfold symbol_codes; rewrite length_fmap, length_seq|]. split.
  - intros i len Hi Hp. destruct (Hs i len Hi Hp) as [E1 E2]. exists (canonical_code lengths i). split; [done|].
    pose proof (canonical_code_bound m lengths i Hok ltac:(by eapply lookup_lt_Some)) as Hb. cbv zeta in Hb.
    rewrite E2 in Hb. by apply Hb.
  - intros i j li lj si sj Hi Hj Hpi Hpj Hsi Hsj Hpre.
    destruct (Hs i li Hi Hpi) as [E1 E2], (Hs j lj Hj Hpj) as [E3 E4].
    rewrite E1 in Hsi. rewrite E3 in Hsj. injection Hsi as <-. injection Hsj as <-.
    apply (code_bits_prefix_free m lengths i j Hok); try (by eapply lookup_lt_Some); [by rewrite E2|by rewrite E4|].
    unfold code_bits. by rewrite E2, E4.
Qed.

Lemma lengths_to_symbols_prefix_code_witness :
  exists symbols, ZopfliLengthsToSymbols [2; 1; 3; 3] 15 = Ret symbols /\ length symbols = 4%nat.
Proof.
  destruct (lengths_to_symbols_prefix_code 15 [2; 1; 3; 3]) as (symbols & H1 & H2 & _).
  - constructor; [lia| |apply Z.leb_le; vm_compute; reflexivity].
    repeat (apply Forall_cons; split; [lia|]). apply Forall_nil. exact I.
  - simpl. lia.
  - exists symbols. split; [exact H1|exact H2].
Defined.
