(* ===== verification/Katajainen.v ===== *)
(** * Zopfli: length-limited code lengths

    [katajainen.cc]: the boundary package-merge of Katajainen, Moffat and
    Turpin, with its pool of chain nodes and the collection of the nodes that
    no list reaches. A pointer to a node of the pool is its position.

    [qsort] is the parameter [Qsort]: it permutes, and it sorts when the
    comparison is a total preorder on the elements. *)

From S2P Require Import Prelude ZopfliUtil ZopfliBits ZopfliTree.

Local Open Scope Z_scope.

Record Node : Type := MkNode { weight : Z; tail : option nat; count : Z; inuse : bool }.

(** [size] is the length of [nodes]. *)
Record NodePool : Type := MkPool { nodes : list Node; next : nat }.

(** A leaf uses two fields of a [Node]: the weight and the symbol. *)
Record Leaf : Type := MkLeaf { leaf_weight : Z; leaf_count : Z }.

Class Qsort : Type := {
  qsort : (Leaf -> Leaf -> Z) -> list Leaf -> list Leaf;
  qsort_perm cmp l : qsort cmp l ≡ₚ l;
  qsort_sorted cmp l :
    (forall a b, a ∈ l -> b ∈ l -> cmp a b <= 0 \/ cmp b a <= 0) ->
    (forall a b c, a ∈ l -> b ∈ l -> c ∈ l -> cmp a b <= 0 -> cmp b c <= 0 -> cmp a c <= 0) ->
    StronglySorted (fun a b => cmp a b <= 0) (qsort cmp l);
}.

Definition InitNode (w c : Z) (t : option nat) (node : nat) (pool : NodePool) : NodePool :=
  MkPool (<[node := MkNode w t c true]> (nodes pool)) (next pool).

Definition set_inuse (b : bool) (n : Node) : Node := MkNode (weight n) (tail n) (count n) b.

(** [for (node = ...; node; node = node->tail) node->inuse = 1]: a chain is not
    longer than the pool. *)
Fixpoint mark_chain (fuel : nat) (node : option nat) (ns : list Node) : outcome (list Node) :=
  match node with
  | None => Ret ns
  | Some p =>
      match fuel with
      | O => Undefined
      | S f =>
          n ← or_undefined (ns !! p);
          mark_chain f (tail n) (<[p := set_inuse true n]> ns)
      end
  end.

Definition collect (lists : list (nat * nat)) (ns : list Node) : outcome (list Node) :=
  for_each lists (fun l ns =>
    ns ← mark_chain (length ns) (Some l.1) ns; mark_chain (length ns) (Some l.2) ns)
    (set_inuse false <$> ns).

(** The loop of [GetFreeNode]; a loop that never ends and does nothing is
    undefined in C++, and so is running out of fuel here. *)
Fixpoint find_free (fuel : nat) (lists : list (nat * nat)) (pool : NodePool) : outcome (nat * NodePool) :=
  match fuel with
  | O => Undefined
  | S f =>
      pool ← (if (length (nodes pool) <=? next pool)%nat then
                ns ← collect lists (nodes pool); Ret (MkPool ns 0)
              else Ret pool);
      n ← or_undefined (nodes pool !! next pool);
      if inuse n then find_free f lists (MkPool (nodes pool) (S (next pool)))
      else Ret (next pool, MkPool (nodes pool) (S (next pool)))
  end.

(** A null [lists] marks nothing, as an empty one. *)
Definition GetFreeNode (lists : list (nat * nat)) (pool : NodePool) : outcome (nat * NodePool) :=
  find_free (2 * length (nodes pool) + 2) lists pool.

Section boundary.
Context (leaves : list Leaf).

Definition numsymbols : Z := Z.of_nat (length leaves).
Definition leaf_at (i : Z) : outcome Leaf := or_undefined (if i <? 0 then None else leaves !! Z.to_nat i).

Fixpoint BoundaryPM (index : nat) (final : bool) (s : list (nat * nat) * NodePool) :
    outcome (list (nat * nat) * NodePool) :=
  let '(lists, pool) := s in
  l ← or_undefined (lists !! index);
  last ← or_undefined (nodes pool !! l.2);
  let lastcount := count last in
  if (index =? 0)%nat && (numsymbols <=? lastcount) then Ret s
  else
    '(newchain, pool) ← GetFreeNode lists pool;
    let oldchain := l.2 in
    let lists := <[index := (oldchain, newchain)]> lists in
    match index with
    | O =>
        leaf ← leaf_at lastcount;
        Ret (lists, InitNode (leaf_weight leaf) (lastcount + 1) None newchain pool)
    | S index' =>
        p ← or_undefined (lists !! index');
        n0 ← or_undefined (nodes pool !! p.1);
        n1 ← or_undefined (nodes pool !! p.2);
        let sum := u64 (weight n0 + weight n1) in
        use_leaf ← (if lastcount <? numsymbols then
                      leaf ← leaf_at lastcount; Ret (if leaf_weight leaf <? sum then Some leaf else None)
                    else Ret None);
        match use_leaf with
        | Some leaf =>
            old ← or_undefined (nodes pool !! oldchain);
            Ret (lists, InitNode (leaf_weight leaf) (lastcount + 1) (tail old) newchain pool)
        | None =>
            let s := (lists, InitNode sum lastcount (Some p.2) newchain pool) in
            if final then Ret s
            else s ← BoundaryPM index' false s; BoundaryPM index' false s
        end
    end.

Definition InitLists (pool : NodePool) (maxbits : nat) : outcome (list (nat * nat) * NodePool) :=
  '(node0, pool) ← GetFreeNode [] pool;
  '(node1, pool) ← GetFreeNode [] pool;
  leaf0 ← leaf_at 0;
  leaf1 ← leaf_at 1;
  let pool := InitNode (leaf_weight leaf0) 1 None node0 pool in
  let pool := InitNode (leaf_weight leaf1) 2 None node1 pool in
  Ret (replicate maxbits (node0, node1), pool).

(** [bitlengths[leaves[i].count]++] *)
Definition count_leaf (i : Z) (bitlengths : list Z) : outcome (list Z) :=
  leaf ← leaf_at i;
  Ret (<[Z.to_nat (leaf_count leaf) := u32 (table_at bitlengths (leaf_count leaf) + 1)]> bitlengths).

Fixpoint ExtractBitLengths (fuel : nat) (chain : option nat) (ns : list Node) (bitlengths : list Z) :
    outcome (list Z) :=
  match chain with
  | None => Ret bitlengths
  | Some p =>
      match fuel with
      | O => Undefined
      | S f =>
          n ← or_undefined (ns !! p);
          bitlengths ← for_each (seqZ 0 (count n)) count_leaf bitlengths;
          ExtractBitLengths f (tail n) ns bitlengths
      end
  end.
End boundary.

(** The difference of two [size_t] returned as an [int]. *)
Definition LeafComparator (a b : Leaf) : Z := s32 (u64 (leaf_weight a - leaf_weight b)).

(** The leaves of the symbols that occur, from the symbol [i] on. *)
Fixpoint make_leaves (frequencies : list Z) (i : Z) : list Leaf :=
  match frequencies with
  | [] => []
  | f :: frequencies' =>
      if f =? 0 then make_leaves frequencies' (i + 1) else MkLeaf f i :: make_leaves frequencies' (i + 1)
  end.

(** The [BoundaryPM] runs: the last one is final. *)
Definition package_merge (leaves : list Leaf) (maxbits : nat) : outcome (list (nat * nat) * NodePool) :=
  let pool := MkPool (replicate (2 * maxbits * (maxbits + 1)) (MkNode 0 None 0 false)) 0 in
  s ← InitLists leaves pool maxbits;
  let numBoundaryPMRuns := 2 * numsymbols leaves - 4 in
  for_each (seqZ 0 numBoundaryPMRuns)
    (fun i s => BoundaryPM leaves (maxbits - 1) (i =? numBoundaryPMRuns - 1) s) s.

(** The result: whether there was an error, and the lengths. *)
Definition ZopfliLengthLimitedCodeLengths {sort : Qsort} (frequencies : list Z) (maxbits : nat) :
    outcome (Z * list Z) :=
  let bitlengths := replicate (length frequencies) 0 in
  let leaves := make_leaves frequencies 0 in
  if 2 ^ Z.of_nat maxbits <? numsymbols leaves then Ret (1, bitlengths)
  else
    match leaves with
    | [] => Ret (0, bitlengths)
    | [leaf] => Ret (0, <[Z.to_nat (leaf_count leaf) := 1]> bitlengths)
    | _ =>
        let leaves := qsort LeafComparator leaves in
        '(lists, pool) ← package_merge leaves maxbits;
        l ← or_undefined (lists !! (maxbits - 1)%nat);
        bitlengths ← ExtractBitLengths leaves (length (nodes pool)) (Some l.2) (nodes pool) bitlengths;
        Ret (0, bitlengths)
    end.

(** [ZopfliCalculateBitLengths] of [tree.cc]. *)
Definition ZopfliCalculateBitLengths {sort : Qsort} (count : list Z) (maxbits : nat) : outcome (list Z) :=
  '(error, bitlengths) ← ZopfliLengthLimitedCodeLengths count maxbits;
  if error =? 0 then Ret bitlengths else Aborts.

(** A sort for examples. *)
Fixpoint insert_leaf (cmp : Leaf -> Leaf -> Z) (x : Leaf) (l : list Leaf) : list Leaf :=
  match l with
  | [] => [x]
  | y :: l' => if cmp x y <=? 0 then x :: l else y :: insert_leaf cmp x l'
  end.
Fixpoint insertion_sort (cmp : Leaf -> Leaf -> Z) (l : list Leaf) : list Leaf :=
  match l with
  | [] => []
  | x :: l' => insert_leaf cmp x (insertion_sort cmp l')
  end.

Lemma insert_leaf_perm cmp x l : insert_leaf cmp x l ≡ₚ x :: l.
Proof. induction l as [|y l IH]; [done|]. simpl. case_match; [done|]. rewrite IH. apply Permutation_swap. Qed.

Lemma insertion_sort_perm cmp l : insertion_sort cmp l ≡ₚ l.
Proof. induction l as [|x l IH]; [done|]. simpl. by rewrite insert_leaf_perm, IH. Qed.

Lemma insertion_sort_sorted cmp l :
  (forall a b, a ∈ l -> b ∈ l -> cmp a b <= 0 \/ cmp b a <= 0) ->
  (forall a b c, a ∈ l -> b ∈ l -> c ∈ l -> cmp a b <= 0 -> cmp b c <= 0 -> cmp a c <= 0) ->
  StronglySorted (fun a b => cmp a b <= 0) (insertion_sort cmp l).
Proof.
  intros Htot Htr. induction l as [|x l IH]; [constructor|]. simpl.
  assert (StronglySorted (fun a b => cmp a b <= 0) (insertion_sort cmp l)) as Hs.
  { apply IH; [intros a b Ha Hb; apply Htot; by right|intros a b c Ha Hb Hc; apply Htr; by right]. }
  assert (forall y, y ∈ insertion_sort cmp l -> y ∈ l) as Hin by (intros y; by rewrite insertion_sort_perm).
  clear IH. induction Hs as [|y k Hk IH Hy]; [repeat constructor|]. simpl.
  destruct (Z.leb_spec (cmp x y) 0) as [Hxy|Hxy].
  - constructor; [by constructor|]. constructor; [done|]. rewrite Forall_forall in Hy |- *. intros z Hz.
    apply (Htr x y z); [left|right; apply Hin; left|right; apply Hin; by right|done|by apply Hy].
  - constructor; [apply IH; intros z Hz; apply Hin; by right|].
    rewrite insert_leaf_perm. constructor; [|done].
    destruct (Htot x y) as [?|?]; [left|right; apply Hin; left|lia|done].
Qed.

Definition sorting : Qsort := {|
  qsort := insertion_sort;
  qsort_perm := insertion_sort_perm;
  qsort_sorted := insertion_sort_sorted;
|}.

Example calculate_bit_lengths_example :
  ZopfliCalculateBitLengths (sort := sorting) [1; 1; 2; 0; 4; 8; 16] 15 = Ret [5; 5; 4; 0; 3; 2; 1] /\
  ZopfliCalculateBitLengths (sort := sorting) [1; 1; 2; 0; 4; 8; 16] 3 = Ret [3; 3; 3; 0; 3; 2; 2] /\
  ZopfliCalculateBitLengths (sort := sorting) [1; 1; 1; 1; 1] 2 = Aborts.
Proof. vm_compute. done. Qed.
