(* ===== verification/PackageMerge.v ===== *)
(** * Zopfli: the package-merge, proved

    First the pool: the lists of chains of [BoundaryPM] behave as immutable
    chains, a free node is always found, and collection keeps what a list
    reaches. Then the algorithm on immutable chains. *)

From S2P Require Import Prelude ZopfliUtil ZopfliBits ZopfliTree Katajainen.

Local Open Scope Z_scope.

(** ** Chains

    The weight and the count of each node of a chain. *)
Definition chain : Type := list (Z * Z).

Definition hw (c : chain) : Z := match c with [] => 0 | (w, _) :: _ => w end.
Definition hc (c : chain) : Z := match c with [] => 0 | (_, k) :: _ => k end.
Definition ctail (c : chain) : chain := match c with [] => [] | _ :: t => t end.

(** The nodes at the positions [is_], linked, hold the chain. *)
Fixpoint chain_at (ns : list Node) (p : option nat) (is_ : list nat) (c : chain) : Prop :=
  match is_, c with
  | [], [] => p = None
  | i :: is_', (w, k) :: c' =>
      p = Some i /\ exists n, ns !! i = Some n /\ weight n = w /\ count n = k /\ chain_at ns (tail n) is_' c'
  | _, _ => False
  end.

Definition in_use (ns : list Node) (i : nat) : Prop := exists n, ns !! i = Some n /\ inuse n = true.

Definition chain_ok (ns : list Node) (p : option nat) (c : chain) : Prop :=
  exists is_, chain_at ns p is_ c /\ Forall (in_use ns) is_.

Lemma chain_at_length ns p is_ c : chain_at ns p is_ c -> length is_ = length c.
Proof.
  revert p c. induction is_ as [|i is_ IH]; intros p [|[w k] c]; simpl; try done.
  intros (_ & n & _ & _ & _ & H). f_equal. by eapply IH.
Qed.

(** Two pools with the same nodes but for the marks. *)
Definition same_nodes (ns ns' : list Node) : Prop :=
  forall i, set_inuse false <$> ns !! i = set_inuse false <$> ns' !! i.

Lemma same_nodes_lookup ns ns' i n : same_nodes ns ns' -> ns !! i = Some n ->
  exists n', ns' !! i = Some n' /\ weight n' = weight n /\ tail n' = tail n /\ count n' = count n.
Proof.
  intros Hs Hi. specialize (Hs i). rewrite Hi in Hs. destruct (ns' !! i) as [n'|]; [|done].
  injection Hs as H1 H2 H3. exists n'. split_and!; congruence.
Qed.

Lemma chain_at_same ns ns' p is_ c : same_nodes ns ns' -> chain_at ns p is_ c -> chain_at ns' p is_ c.
Proof.
  intros Hs. revert p c. induction is_ as [|i is_ IH]; intros p [|[w k] c]; simpl; try done.
  intros (-> & n & Hn & <- & <- & Ht). split; [done|].
  destruct (same_nodes_lookup _ _ _ _ Hs Hn) as (n' & Hn' & Hw & Htl & Hc). exists n'.
  split_and!; try done. rewrite Htl. by apply IH.
Qed.

(** ** Marking *)

Definition mark (is_ : list nat) (ns : list Node) : list Node :=
  foldl (fun ns i => alter (set_inuse true) i ns) ns is_.

Lemma mark_same is_ ns : same_nodes ns (mark is_ ns).
Proof.
  unfold same_nodes. revert ns. induction is_ as [|i is_ IH]; intros ns j; [done|]. simpl. rewrite <-IH.
  destruct (decide (i = j)) as [->|Hne]; [|by rewrite list_lookup_alter_ne].
  rewrite list_lookup_alter_eq. by destruct (ns !! j).
Qed.

Lemma length_mark is_ ns : length (mark is_ ns) = length ns.
Proof. revert ns. induction is_ as [|i is_ IH]; intros ns; [done|]. simpl. by rewrite IH, length_alter. Qed.

Lemma mark_lookup is_ ns i :
  mark is_ ns !! i = (fun n => if bool_decide (i ∈ is_) then set_inuse true n else n) <$> ns !! i.
Proof.
  revert ns. induction is_ as [|j is_ IH]; intros ns; simpl.
  - by destruct (ns !! i).
  - rewrite IH. destruct (decide (j = i)) as [->|Hne].
    + rewrite list_lookup_alter_eq. rewrite (bool_decide_true (i ∈ i :: is_)) by left.
      destruct (ns !! i) as [n|]; [|done]. simpl. by case_bool_decide.
    + rewrite list_lookup_alter_ne by done. destruct (ns !! i) as [n|]; [|done]. simpl.
      rewrite (bool_decide_ext (i ∈ j :: is_) (i ∈ is_)); [done|]. rewrite elem_of_cons. intuition congruence.
Qed.

Lemma mark_app a b ns : mark (a ++ b) ns = mark b (mark a ns).
Proof. apply foldl_app. Qed.

Lemma mark_chain_spec ns p is_ c fuel : chain_at ns p is_ c -> (length is_ <= fuel)%nat ->
  mark_chain fuel p ns = Ret (mark is_ ns).
Proof.
  revert ns p c fuel. induction is_ as [|i is_ IH]; intros ns p [|[w k] c] fuel; simpl; try done.
  - intros -> _. by destruct fuel.
  - intros (-> & n & Hn & _ & _ & Ht) Hf. destruct fuel as [|f]; [simpl in Hf; lia|]. cbn [mark_chain].
    rewrite Hn. cbn [or_undefined]. rewrite outcome_bind_ret.
    assert (<[i := set_inuse true n]> ns = mark [i] ns) as E.
    { apply list_eq. intros j. rewrite mark_lookup. destruct (decide (i = j)) as [<-|Hne].
      - rewrite list_lookup_insert_eq by (by eapply lookup_lt_Some). rewrite Hn. simpl. by rewrite bool_decide_true by left.
      - rewrite list_lookup_insert_ne by done. rewrite bool_decide_false by (by rewrite list_elem_of_singleton; intros ->).
        by destruct (ns !! j). }
    rewrite E. change (i :: is_) with ([i] ++ is_). cbn [foldl]. rewrite <-E.
    rewrite E. change (alter (set_inuse true) i ns) with (mark [i] ns).
    apply (IH _ _ c); [|simpl in Hf; lia]. eapply chain_at_same; [apply mark_same|done].
Qed.

(** ** The lists *)

Section pool.
Context (maxbits : nat).

Definition pair_ok (ns : list Node) (l : nat * nat) (a : chain * chain) : Prop :=
  chain_ok ns (Some l.1) a.1 /\ chain_ok ns (Some l.2) a.2 /\
  (length a.1 <= maxbits)%nat /\ (length a.2 <= maxbits)%nat.

Definition lists_ok (ns : list Node) (lists : list (nat * nat)) (a : list (chain * chain)) : Prop :=
  Forall2 (pair_ok ns) lists a.

(** Structure of the lists with the positions they reach. *)
Definition reaches (ns : list Node) (lists : list (nat * nat)) (a : list (chain * chain)) (used : list (list nat * list nat)) : Prop :=
  Forall2 (fun x u => chain_at ns (Some x.1.1) u.1 x.2.1 /\ chain_at ns (Some x.1.2) u.2 x.2.2 /\
    (length u.1 <= maxbits)%nat /\ (length u.2 <= maxbits)%nat) (zip lists a) used.

Definition all_used (used : list (list nat * list nat)) : list nat := concat ((fun u => u.1 ++ u.2) <$> used).

Lemma lists_ok_reaches ns lists a : lists_ok ns lists a ->
  exists used, reaches ns lists a used /\ Forall (in_use ns) (all_used used).
Proof.
  induction 1 as [|l x lists a ((is1 & H1 & U1) & (is2 & H2 & U2) & L1 & L2) _ (used & Hr & Hu)].
  - exists []. split; constructor.
  - exists ((is1, is2) :: used). split.
    + constructor; [|done]. cbn [fst snd]; split_and!; [done|done|by rewrite (chain_at_length _ _ _ _ H1)|by rewrite (chain_at_length _ _ _ _ H2)].
    + unfold all_used. rewrite fmap_cons. cbn [concat]. by rewrite !Forall_app.
Qed.

Lemma length_all_used ns lists a used : reaches ns lists a used -> length lists = length a ->
  (length (all_used used) <= 2 * maxbits * length lists)%nat.
Proof.
  revert a used. induction lists as [|l lists IH]; intros [|x a] used Hr; try done.
  - intros _. inversion Hr. unfold all_used. simpl. lia.
  - intros [= Hlen]. inversion Hr as [|? u ? used' (_ & _ & L1 & L2) Hr']; subst.
    unfold all_used. rewrite fmap_cons. cbn [concat]. rewrite !length_app.
    specialize (IH a used' Hr' Hlen). unfold all_used in IH. cbn [length]. nia.
Qed.

Lemma collect_marks ns lists a used : reaches ns lists a used -> length lists = length a -> (maxbits <= length ns)%nat ->
  for_each lists (fun l ns => ns ← mark_chain (length ns) (Some l.1) ns; mark_chain (length ns) (Some l.2) ns) ns
  = Ret (mark (all_used used) ns).
Proof.
  intros Hr Hlen Hn. revert ns Hn a used Hr Hlen. induction lists as [|l lists IH]; intros ns Hn [|x a] used Hr Hlen; try done.
  - by inversion Hr.
  - inversion Hr as [|? u ? used' (C1 & C2 & L1 & L2) Hr']; subst. simpl in C1, C2. cbn [for_each].
    rewrite (mark_chain_spec _ _ _ _ _ C1) by lia. rewrite outcome_bind_ret.
    rewrite (mark_chain_spec _ _ _ _ _ (chain_at_same _ _ _ _ _ (mark_same u.1 ns) C2)) by (rewrite length_mark; lia).
    rewrite outcome_bind_ret, <-mark_app. pose proof (length_mark (u.1 ++ u.2) ns) as Hm.
    rewrite (IH (mark (u.1 ++ u.2) ns)) with (a := a) (used := used'); [|lia| |].
    + unfold all_used. rewrite fmap_cons. cbn [concat]. by rewrite (mark_app (u.1 ++ u.2)).
    + unfold reaches in *. eapply Forall2_impl; [exact Hr'|]. intros y v (D1 & D2 & ?).
      split_and!; try tauto; by apply (chain_at_same ns _ _ _ _ (mark_same _ ns)).
    + by injection Hlen.
Qed.

(** Among more positions than are used, one is not. *)
Lemma unused_position (used : list nat) n : (length used < n)%nat -> exists i, (i < n)%nat /\ i ∉ used.
Proof.
  intros Hlen. destruct (decide (Forall (fun i => i ∈ used) (seq 0 n))) as [H|H].
  - exfalso. rewrite Forall_forall in H. apply (NoDup_submseteq (seq 0 n) used) in H; [|apply NoDup_seq].
    apply submseteq_length in H. rewrite length_seq in H. lia.
  - apply not_Forall_Exists in H; [|apply _]. apply Exists_exists in H as (i & Hi%elem_of_seq & Hn).
    exists i. split; [lia|done].
Qed.

Lemma lists_ok_same_marks ns ns' lists a used :
  same_nodes ns ns' -> reaches ns lists a used -> length lists = length a ->
  Forall (in_use ns') (all_used used) -> lists_ok ns' lists a.
Proof.
  intros Hs Hr Hlen. revert a used Hr Hlen. induction lists as [|l lists IH]; intros [|x a] used Hr Hlen Hu; try done.
  - constructor.
  - inversion Hr as [|? u ? used' (C1 & C2 & L1 & L2) Hr']; subst. simpl in C1, C2.
    unfold all_used in Hu. rewrite fmap_cons in Hu. cbn [concat] in Hu. rewrite !Forall_app in Hu.
    destruct Hu as [[U1 U2] Hu]. constructor; [|apply (IH a used' Hr'); [by injection Hlen|done]].
    split_and!.
    + exists u.1. split; [by apply (chain_at_same ns)|done].
    + exists u.2. split; [by apply (chain_at_same ns)|done].
    + by rewrite <-(chain_at_length _ _ _ _ C1).
    + by rewrite <-(chain_at_length _ _ _ _ C2).
Qed.

Definition free_node (ns : list Node) (i : nat) : Prop := exists n, ns !! i = Some n /\ inuse n = false.

(** Collection: the same chains, and a free node. *)
Lemma collect_spec ns lists a :
  lists_ok ns lists a -> (2 * maxbits * length lists < length ns)%nat -> (maxbits <= length ns)%nat ->
  exists ns', collect lists ns = Ret ns' /\ length ns' = length ns /\ lists_ok ns' lists a /\
    exists i, free_node ns' i.
Proof.
  intros Hok Hsize Hm. pose proof (Forall2_length _ _ _ Hok) as Hlen.
  destruct (lists_ok_reaches _ _ _ Hok) as (used & Hr & Hu).
  assert (same_nodes ns (set_inuse false <$> ns)) as Hs0.
  { intros i. rewrite list_lookup_fmap. by destruct (ns !! i). }
  assert (reaches (set_inuse false <$> ns) lists a used) as Hr0.
  { eapply Forall2_impl; [exact Hr|]. intros y v (D1 & D2 & ?). split_and!; try tauto; by apply (chain_at_same ns). }
  exists (mark (all_used used) (set_inuse false <$> ns)). split.
  { unfold collect. apply (collect_marks _ _ a); [done|done|by rewrite length_fmap]. }
  split; [by rewrite length_mark, length_fmap|]. split.
  - apply (lists_ok_same_marks _ _ _ _ used) with (2 := Hr0); [apply mark_same|done|].
    apply Forall_forall. intros i Hi. rewrite Forall_forall in Hu. destruct (Hu i Hi) as (n & Hn & _).
    exists (set_inuse true (set_inuse false n)). rewrite mark_lookup, list_lookup_fmap, Hn. simpl.
    by rewrite bool_decide_true.
  - pose proof (length_all_used _ _ _ _ Hr Hlen) as Hl.
    destruct (unused_position (all_used used) (length ns)) as (i & Hi & Hn); [lia|].
    destruct (lookup_lt_is_Some_2 ns i Hi) as [n Hni]. exists i, (set_inuse false n).
    rewrite mark_lookup, list_lookup_fmap, Hni. simpl. by rewrite bool_decide_false.
Qed.

(** The scan stops at a free node. *)
Lemma find_free_scan lists ns k next fuel :
  free_node ns (next + k) -> (k < fuel)%nat ->
  exists j, find_free fuel lists (MkPool ns next) = Ret (j, MkPool ns (S j)) /\ free_node ns j.
Proof.
  revert next fuel. induction k as [|k IH]; intros next [|f] Hfree Hf; try lia;
    destruct Hfree as (n & Hn & Hu); pose proof (lookup_lt_Some _ _ _ Hn) as Hlt; cbn [find_free nodes Katajainen.next].
  - rewrite Nat.add_0_r in *. rewrite (proj2 (Nat.leb_gt _ _)) by lia. rewrite outcome_bind_ret.
    cbn [nodes Katajainen.next]. rewrite Hn. cbn [or_undefined]. rewrite outcome_bind_ret, Hu.
    exists next. split; [done|by exists n].
  - rewrite (proj2 (Nat.leb_gt _ _)) by lia. rewrite outcome_bind_ret. cbn [nodes Katajainen.next].
    destruct (lookup_lt_is_Some_2 ns next ltac:(lia)) as [m Hm]. rewrite Hm. cbn [or_undefined].
    rewrite outcome_bind_ret. destruct (inuse m) eqn:E; [|exists next; split; [done|by exists m]].
    apply IH; [|lia]. exists n. by replace (S next + k)%nat with (next + S k)%nat by lia.
Qed.

Lemma find_free_spec ns lists a next fuel :
  lists_ok ns lists a -> (2 * maxbits * length lists < length ns)%nat -> (maxbits <= length ns)%nat ->
  ((length ns - next) + length ns < fuel)%nat ->
  exists j ns', find_free fuel lists (MkPool ns next) = Ret (j, MkPool ns' (S j)) /\
    length ns' = length ns /\ lists_ok ns' lists a /\ free_node ns' j.
Proof.
  intros Hok Hsize Hm. remember (length ns - next)%nat as d eqn:Hd. revert next fuel Hd.
  induction d as [|d IH]; intros next fuel Hd Hf.
  - destruct (collect_spec ns lists a Hok Hsize Hm) as (ns' & Hc & Hl & Hok' & i & Hfree).
    assert (i < length ns')%nat as Hi by (destruct Hfree as (n & Hn & _); by eapply lookup_lt_Some).
    destruct (find_free_scan lists ns' i 0 fuel) as (j & Hj & Hjf); [done|lia|].
    exists j, ns'. split; [|done]. rewrite <-Hj. destruct fuel as [|f]; [lia|].
    cbn [find_free nodes Katajainen.next]. rewrite (proj2 (Nat.leb_le _ _)) by lia. rewrite Hc.
    rewrite outcome_bind_ret, (proj2 (Nat.leb_gt _ _)) by lia. done.
  - destruct fuel as [|f]; [lia|]. cbn [find_free nodes Katajainen.next].
    rewrite (proj2 (Nat.leb_gt _ _)) by lia. rewrite outcome_bind_ret. cbn [nodes Katajainen.next].
    destruct (lookup_lt_is_Some_2 ns next ltac:(lia)) as [n Hn]. rewrite Hn. cbn [or_undefined].
    rewrite outcome_bind_ret. destruct (inuse n) eqn:E.
    + apply IH; lia.
    + exists next, ns. split; [done|]. split; [done|]. split; [done|]. by exists n.
Qed.

Lemma GetFreeNode_spec ns next lists a :
  lists_ok ns lists a -> (2 * maxbits * length lists < length ns)%nat -> (maxbits <= length ns)%nat ->
  exists j ns', GetFreeNode lists (MkPool ns next) = Ret (j, MkPool ns' (S j)) /\
    length ns' = length ns /\ lists_ok ns' lists a /\ free_node ns' j.
Proof. intros Hok Hsize Hm. apply find_free_spec; [done|done|done|]. cbn [nodes]. lia. Qed.

(** ** Writing a free node *)

Lemma chain_ok_write ns j n p c : free_node ns j -> chain_ok ns p c -> chain_ok (<[j := n]> ns) p c.
Proof.
  intros (m & Hm & Hf) (is_ & Hc & Hu). exists is_. revert p c Hc. induction Hu as [|i is_ (x & Hx & Hxu) Hu IH];
    intros p [|[w k] c]; simpl; try done.
  assert (j ≠ i) as Hne by congruence.
  intros (-> & y & Hy & <- & <- & Ht). destruct (IH _ _ Ht) as [H1 H2]. split.
  - split; [done|]. exists y. rewrite list_lookup_insert_ne by done. by split_and!.
  - constructor; [|done]. exists x. by rewrite list_lookup_insert_ne.
Qed.

Lemma chain_ok_new ns j w k t c : (j < length ns)%nat -> free_node ns j -> chain_ok ns t c ->
  chain_ok (<[j := MkNode w t k true]> ns) (Some j) ((w, k) :: c).
Proof.
  intros Hj Hf Hc. destruct (chain_ok_write ns j (MkNode w t k true) t c Hf Hc) as (is_ & H1 & H2).
  exists (j :: is_). split.
  - split; [done|]. exists (MkNode w t k true). rewrite list_lookup_insert_eq by done. by split_and!.
  - constructor; [|done]. exists (MkNode w t k true). by rewrite list_lookup_insert_eq.
Qed.

Lemma lists_ok_write ns j n lists a : free_node ns j -> lists_ok ns lists a -> lists_ok (<[j := n]> ns) lists a.
Proof.
  intros Hf. unfold lists_ok. intros H. eapply Forall2_impl; [exact H|]. intros l x (H1 & H2 & H3).
  split_and!; try tauto; by apply chain_ok_write.
Qed.

Lemma chain_ok_node ns p w k c : chain_ok ns (Some p) ((w, k) :: c) ->
  exists n, ns !! p = Some n /\ weight n = w /\ count n = k /\ chain_ok ns (tail n) c.
Proof.
  intros ([|i is_] & Hc & Hu); [done|]. destruct Hc as ([= <-] & n & Hn & Hw & Hk & Ht).
  exists n. split_and!; try done. exists is_. split; [done|]. by inversion Hu.
Qed.
End pool.

(** ** [BoundaryPM] on immutable chains *)

Section refinement.
Context (leaves : list Leaf) (maxbits : nat).

Definition n_leaves : Z := numsymbols leaves.
Definition wt (i : Z) : Z := match leaves !! Z.to_nat i with Some l => leaf_weight l | None => 0 end.

Fixpoint bpm (index : nat) (final : bool) (a : list (chain * chain)) : list (chain * chain) :=
  match a !! index with
  | None => a
  | Some (c0, c1) =>
      match index with
      | O => if n_leaves <=? hc c1 then a else <[O := (c1, [(wt (hc c1), hc c1 + 1)])]> a
      | S i =>
          match a !! i with
          | None => a
          | Some (d0, d1) =>
              if (hc c1 <? n_leaves) && (wt (hc c1) <? hw d0 + hw d1) then
                <[S i := (c1, (wt (hc c1), hc c1 + 1) :: ctail c1)]> a
              else
                let a := <[S i := (c1, (hw d0 + hw d1, hc c1) :: d1)]> a in
                if final then a else bpm i false (bpm i false a)
          end
      end
  end.

Definition chain_shape (j : nat) (c : chain) : Prop :=
  exists w k t, c = (w, k) :: t /\ 0 < w < 2 ^ (32 + Z.of_nat j) /\ 1 <= k <= n_leaves /\ (length t <= j)%nat.

Definition levels (a : list (chain * chain)) : Prop :=
  forall j x, a !! j = Some x -> chain_shape j x.1 /\ chain_shape j x.2.

Context (Hmax : (maxbits <= 31)%nat).
Context (Hweights : Forall (fun l => 0 < leaf_weight l < 2 ^ 31) leaves).

Lemma leaf_weight_range k : 0 <= k < n_leaves ->
  exists l, leaf_at leaves k = Ret l /\ leaf_weight l = wt k /\ 0 < wt k < 2 ^ 31.
Proof.
  intros Hk. unfold leaf_at, wt, n_leaves, numsymbols in *. rewrite (proj2 (Z.ltb_ge _ _)) by lia.
  destruct (lookup_lt_is_Some_2 leaves (Z.to_nat k) ltac:(lia)) as [l Hl]. rewrite Hl. exists l.
  split; [done|]. split; [done|]. exact (proj1 (Forall_lookup _ _) Hweights _ _ Hl).
Qed.

Lemma leaf_weight_level j k : 0 <= k < n_leaves -> 0 < wt k < 2 ^ (32 + Z.of_nat j).
Proof.
  intros Hk. destruct (leaf_weight_range k Hk) as (l & _ & _ & Hw). split; [lia|].
  pose proof (Z.pow_le_mono_r 2 31 (32 + Z.of_nat j) ltac:(lia) ltac:(lia)). lia.
Qed.

Lemma levels_insert a j x : levels a -> (chain_shape j x.1 /\ chain_shape j x.2) -> levels (<[j := x]> a).
Proof.
  intros Ha Hx i y Hi. destruct (decide (i = j)) as [->|Hne].
  - rewrite list_lookup_insert_eq in Hi; [by injection Hi as <-|].
    apply lookup_lt_Some in Hi. by rewrite length_insert in Hi.
  - rewrite list_lookup_insert_ne in Hi by done. by apply Ha.
Qed.

(** The state of the lists while the algorithm runs. *)
Record run_ok (s : list (nat * nat) * NodePool) (a : list (chain * chain)) : Prop := {
  ro_lists : lists_ok maxbits (nodes s.2) s.1 a;
  ro_levels : levels a;
  ro_length : length a = maxbits;
  ro_size : length (nodes s.2) = (2 * maxbits * (maxbits + 1))%nat;
}.

Lemma run_ok_lookup s a j x : run_ok s a -> a !! j = Some x ->
  exists l, s.1 !! j = Some l /\ chain_ok (nodes s.2) (Some l.1) x.1 /\ chain_ok (nodes s.2) (Some l.2) x.2.
Proof.
  intros Hr Hx. destruct (Forall2_lookup_r _ _ _ _ _ (ro_lists _ _ Hr) Hx) as (l & Hl & H1 & H2 & _). by exists l.
Qed.

Lemma shape_node ns p j c : chain_shape j c -> chain_ok ns (Some p) c ->
  exists n, ns !! p = Some n /\ weight n = hw c /\ count n = hc c /\ chain_ok ns (tail n) (ctail c).
Proof. intros (w & k & t & -> & _) Hc. by apply chain_ok_node in Hc. Qed.

Lemma shape_length j c : chain_shape j c -> (j < maxbits)%nat -> (length c <= maxbits)%nat.
Proof. intros (w & k & t & -> & _ & _ & Ht) Hj. simpl. lia. Qed.

Lemma run_ok_alloc lists pool a : run_ok (lists, pool) a -> (0 < maxbits)%nat ->
  exists j ns, GetFreeNode lists pool = Ret (j, MkPool ns (S j)) /\ run_ok (lists, MkPool ns (S j)) a /\
    free_node ns j /\ (j < length ns)%nat.
Proof.
  intros [Hl Hv Hn Hs] Hm. destruct pool as [ns0 next]. cbn [nodes fst snd] in *.
  pose proof (Forall2_length _ _ _ Hl) as Hlen.
  destruct (GetFreeNode_spec maxbits ns0 next lists a Hl ltac:(nia) ltac:(nia)) as (j & ns & -> & Hns & Hl' & Hf).
  exists j, ns. split; [done|]. split; [by constructor; cbn [nodes fst snd]; rewrite ?Hns|]. split; [done|].
  destruct Hf as (m & Hm' & _). by eapply lookup_lt_Some.
Qed.

(** The new node is written and put at the end of its list. *)
Lemma run_ok_push lists ns next j index a l c0 c1 w k t c :
  run_ok (lists, MkPool ns next) a -> free_node ns j -> lists !! index = Some l -> a !! index = Some (c0, c1) ->
  chain_ok ns (Some l.2) c1 -> chain_ok ns t c -> chain_shape index ((w, k) :: c) ->
  run_ok (<[index := (l.2, j)]> lists, InitNode w k t j (MkPool ns next)) (<[index := (c1, (w, k) :: c)]> a).
Proof.
  intros [Hl Hv Hn Hs] Hf Hli Ha Hc1 Hc Hsh. cbn [nodes fst snd] in *.
  assert (index < maxbits)%nat as Hidx by (rewrite <-Hn; by eapply lookup_lt_Some).
  destruct (Hv _ _ Ha) as [_ Hsh1]. cbn [snd] in Hsh1.
  assert (j < length ns)%nat as Hj by (destruct Hf as (m & Hm & _); by eapply lookup_lt_Some).
  constructor; cbn [nodes fst snd InitNode].
  - apply Forall2_insert; [by apply lists_ok_write|]. split_and!; cbn [fst snd].
    + by apply chain_ok_write.
    + by apply chain_ok_new.
    + by eapply shape_length.
    + by eapply shape_length.
  - apply levels_insert; [done|]. by split.
  - by rewrite length_insert.
  - by rewrite length_insert.
Qed.

Definition refines_at (index : nat) : Prop :=
  forall final s a, run_ok s a -> (index < maxbits)%nat ->
    exists s', BoundaryPM leaves index final s = Ret s' /\ run_ok s' (bpm index final a).

(** The weight of a package, of the last two nodes of a level. *)
Lemma package_weight i d0 d1 : chain_shape i d0 -> chain_shape i d1 -> 0 < hw d0 + hw d1 < 2 ^ (32 + Z.of_nat (S i)).
Proof.
  intros (w0 & ? & ? & -> & Hw0 & _) (w1 & ? & ? & -> & Hw1 & _). cbn [hw].
  replace (32 + Z.of_nat (S i)) with (1 + (32 + Z.of_nat i)) by lia. rewrite Z.pow_add_r by lia. change (2 ^ 1) with 2. lia.
Qed.

Lemma BoundaryPM_first : refines_at 0.
Proof.
  intros final [lists pool] a Hr Hi.
  destruct (lookup_lt_is_Some_2 a 0 ltac:(rewrite (ro_length _ _ Hr); lia)) as [[c0 c1] Ha].
  destruct (run_ok_lookup _ _ _ _ Hr Ha) as (l & Hl & _ & Hc1). cbn [fst snd] in Hl, Hc1.
  destruct (ro_levels _ _ Hr _ _ Ha) as [_ Hsh]. cbn [snd] in Hsh.
  destruct (shape_node _ _ _ _ Hsh Hc1) as (last & Hlast & _ & Hk & _).
  cbn [BoundaryPM bpm]. rewrite Hl, Ha. cbn [or_undefined]. rewrite outcome_bind_ret, Hlast.
  cbn [or_undefined]. rewrite outcome_bind_ret, Hk. change (0 =? 0)%nat with true. cbn [andb].
  fold n_leaves. destruct (Z.leb_spec n_leaves (hc c1)) as [?|Hlt]; [by exists (lists, pool)|].
  destruct (run_ok_alloc lists pool a Hr ltac:(lia)) as (j & ns & -> & Hr1 & Hf & Hj). rewrite outcome_bind_ret.
  assert (1 <= hc c1 <= n_leaves) as Hkr by (destruct Hsh as (w & k & t & -> & _ & ? & _); done).
  destruct (leaf_weight_range (hc c1) ltac:(lia)) as (leaf & -> & Hw & Hwr). rewrite outcome_bind_ret, Hw.
  eexists. split; [done|]. destruct (run_ok_lookup _ _ _ _ Hr1 Ha) as (l' & Hl' & _ & Hc1').
  cbn [fst snd nodes] in Hl', Hc1'. assert (l' = l) as -> by congruence.
  apply (run_ok_push _ _ _ _ _ _ _ c0); try done.
  + by exists [].
  + exists (wt (hc c1)), (hc c1 + 1), []. split; [done|]. split; [apply leaf_weight_level; lia|].
    split; [lia|simpl; lia].
Qed.

Lemma BoundaryPM_next i : refines_at i -> refines_at (S i).
Proof.
  intros IH final [lists pool] a Hr Hi.
  destruct (lookup_lt_is_Some_2 a (S i) ltac:(rewrite (ro_length _ _ Hr); lia)) as [[c0 c1] Ha].
  destruct (lookup_lt_is_Some_2 a i ltac:(rewrite (ro_length _ _ Hr); lia)) as [[d0 d1] Hd].
  destruct (run_ok_lookup _ _ _ _ Hr Ha) as (l & Hl & _ & Hc1). cbn [fst snd] in Hl, Hc1.
  destruct (ro_levels _ _ Hr _ _ Ha) as [_ Hsh]. cbn [snd] in Hsh.
  destruct (ro_levels _ _ Hr _ _ Hd) as [Hd0 Hd1]. cbn [fst snd] in Hd0, Hd1.
  destruct (shape_node _ _ _ _ Hsh Hc1) as (last & Hlast & _ & Hk & _).
  assert (1 <= hc c1 <= n_leaves) as Hkr by (destruct Hsh as (w & k & t & -> & _ & ? & _); done).
  cbn [BoundaryPM bpm]. rewrite Hl, Ha, Hd. cbn [or_undefined]. rewrite outcome_bind_ret, Hlast.
  cbn [or_undefined]. rewrite outcome_bind_ret, Hk. change (S i =? 0)%nat with false. cbn [andb].
  destruct (run_ok_alloc lists pool a Hr ltac:(lia)) as (j & ns & -> & Hr1 & Hf & Hj). rewrite outcome_bind_ret.
  destruct (run_ok_lookup _ _ _ _ Hr1 Ha) as (l' & Hl' & _ & Hc1').
  destruct (run_ok_lookup _ _ _ _ Hr1 Hd) as (p & Hp & Hp0 & Hp1).
  cbn [fst snd nodes] in Hl', Hc1', Hp, Hp0, Hp1. assert (l' = l) as -> by congruence.
  rewrite list_lookup_insert_ne, Hp by lia. cbn [or_undefined]. rewrite outcome_bind_ret.
  cbn [nodes].
  destruct (shape_node _ _ _ _ Hd0 Hp0) as (n0 & -> & Hw0 & _). cbn [or_undefined]. rewrite outcome_bind_ret.
  destruct (shape_node _ _ _ _ Hd1 Hp1) as (n1 & -> & Hw1 & _). cbn [or_undefined]. rewrite outcome_bind_ret.
  pose proof (package_weight i d0 d1 Hd0 Hd1) as Hsum.
  rewrite Hw0, Hw1, u64_small by
    (pose proof (Z.pow_le_mono_r 2 (32 + Z.of_nat (S i)) 64 ltac:(lia) ltac:(lia)); lia).
  assert (run_ok (<[S i := (l.2, j)]> lists, InitNode (hw d0 + hw d1) (hc c1) (Some p.2) j (MkPool ns (S j)))
    (<[S i := (c1, (hw d0 + hw d1, hc c1) :: d1)]> a)) as Hr2.
  { apply (run_ok_push _ _ _ _ _ _ _ c0); try done. exists (hw d0 + hw d1), (hc c1), d1. split; [done|].
    split; [done|]. split; [done|]. destruct Hd1 as (w & k & t & -> & _ & _ & Hlen). simpl. lia. }
  set (s2 := (<[S i := (l.2, j)]> lists, InitNode (hw d0 + hw d1) (hc c1) (Some p.2) j (MkPool ns (S j)))) in *.
  set (a2 := <[S i := (c1, (hw d0 + hw d1, hc c1) :: d1)]> a) in *.
  assert (exists s', (if final then Ret s2 else s ← BoundaryPM leaves i false s2; BoundaryPM leaves i false s) = Ret s' /\
    run_ok s' (if final then a2 else bpm i false (bpm i false a2))) as Hpackage.
  { destruct final; [by exists s2|]. destruct (IH false s2 a2 Hr2 ltac:(lia)) as (s3 & -> & Hr3).
    rewrite outcome_bind_ret. destruct (IH false s3 _ Hr3 ltac:(lia)) as (s4 & -> & Hr4). by exists s4. }
  fold n_leaves. destruct (Z.ltb_spec (hc c1) n_leaves) as [Hlt|Hge]; cbn [andb].
  + destruct (leaf_weight_range (hc c1) ltac:(lia)) as (leaf & -> & Hw & _). rewrite !outcome_bind_ret, Hw.
    destruct (wt (hc c1) <? hw d0 + hw d1).
    * destruct (shape_node _ _ _ _ Hsh Hc1') as (old & -> & _ & _ & Ht). cbn [or_undefined].
      rewrite outcome_bind_ret, Hw. eexists. split; [done|].
      apply (run_ok_push _ _ _ _ _ _ _ c0); try done.
      destruct Hsh as (w & k & t & -> & _ & _ & Hlen). cbn [hc ctail] in *.
      exists (wt k), (k + 1), t. split; [done|]. split; [apply leaf_weight_level; lia|]. split; [lia|done].
    * by apply Hpackage.
  + rewrite outcome_bind_ret. by apply Hpackage.
Qed.

Lemma BoundaryPM_refines index final s a :
  run_ok s a -> (index < maxbits)%nat ->
  exists s', BoundaryPM leaves index final s = Ret s' /\ run_ok s' (bpm index final a).
Proof. revert final s a. induction index as [|i IH]; [exact BoundaryPM_first|exact (BoundaryPM_next i IH)]. Qed.
End refinement.
