(* ===== verification/CodeLengths.v ===== *)
(** * Zopfli: the code lengths, proved

    The package-merge on immutable chains ([bpm] of [PackageMerge]): the last
    chain of the last list has as many items as the algorithm asks for, its
    counts decrease along the chain, and the lengths that it gives satisfy
    Kraft's equality. A list can ask for more items of the list below than
    there are, and then packages stale ones; the bound [reach] says when that
    cannot matter. *)

From S2P Require Import Prelude ZopfliUtil ZopfliBits ZopfliTree Katajainen PackageMerge.

Local Open Scope Z_scope.

(** How many items of a list a chain stands for: its leaves, and half the items
    of the chain below. *)
Fixpoint pos (c : chain) : Z := match c with [] => 0 | (_, k) :: t => k + pos t / 2 end.

(** How many leaves of a chain's nodes come after the leaf [i]: its length. *)
Fixpoint depth (c : chain) (i : Z) : Z :=
  match c with [] => 0 | (_, k) :: t => (if i <? k then 1 else 0) + depth t i end.

Section merge.
Context (leaves : list Leaf).
Local Abbreviation n := (n_leaves leaves).
Local Abbreviation wt := (wt leaves).
Local Abbreviation bpm := (bpm leaves).

(** How many items a list really has. *)
Fixpoint reach (j : nat) : Z := match j with O => n | S i => n + reach i / 2 end.

Fixpoint good (j : nat) (c : chain) : Prop :=
  match c with
  | [] => False
  | (_, k) :: t =>
      1 <= k <= n /\
      match t with
      | [] => True
      | _ => match j with O => False | S i => good i t /\ hc t <= k /\ exists h, pos t = 2 * h end
      end
  end.

(** The invariant of a list: [K j] is how many items it was asked for. *)
Definition level_ok (K : nat -> Z) (a : list (chain * chain)) (j : nat) : Prop :=
  exists c0 c1, a !! j = Some (c0, c1) /\ 0 < hw c0 <= hw c1 /\ 2 <= K j /\
    (K j <= reach j -> good j c1 /\ pos c1 = K j /\ wt (hc c1 - 1) <= hw c1 /\
       (hc c1 < n -> hw c1 <= wt (hc c1))) /\
    (reach j < K j -> hc c1 = n /\ wt (n - 1) < hw c0 + hw c1) /\
    match j with
    | O => True
    | S i => exists d0 d1, a !! i = Some (d0, d1) /\ hw c1 <= hw d0 + hw d1 /\
        (K j <= reach j -> K i = 2 * (K j - hc c1 + 1) /\ 2 * (K j - hc c1) <= reach i) /\
        (reach j < K j -> reach i < K i)
    end.

Definition levels_ok (K : nat -> Z) (a : list (chain * chain)) (j : nat) : Prop :=
  forall i, (i <= j)%nat -> level_ok K a i.

Context (Hn : 2 <= n).
Context (Hsorted : forall i j, 0 <= i <= j -> j < n -> 0 < wt i <= wt j).

Lemma reach_ge j : n <= reach j.
Proof.
  induction j as [|j IH]; cbn [reach]; [lia|]. pose proof (Z.div_pos (reach j) 2 ltac:(lia) ltac:(lia)). lia.
Qed.

Lemma half x y : 2 * x <= y <-> x <= y / 2.
Proof. split; intros; [apply Z.div_le_lower_bound; lia|pose proof (Z.mul_div_le y 2); lia]. Qed.

Lemma good_one j w k : 1 <= k <= n -> good j [(w, k)].
Proof. by destruct j. Qed.

Lemma good_cons i w k t h : 1 <= k <= n -> good i t -> hc t <= k -> pos t = 2 * h -> good (S i) ((w, k) :: t).
Proof.
  intros Hk Ht Hc Hp. destruct t as [|x t]; [by destruct i|]. split; [done|]. split; [done|]. split; [done|]. by exists h.
Qed.

Lemma pos_cons w k t : pos ((w, k) :: t) = k + pos t / 2.
Proof. done. Qed.

Lemma good_count j c : good j c -> 1 <= hc c <= n.
Proof. by destruct c as [|[w k] t], j; intros H; destruct H. Qed.

Lemma good_zero c : good 0 c -> pos c = hc c.
Proof. destruct c as [|[w k] [|x t]]; [done|cbn [pos hc]; change (0 / 2) with 0; lia|by intros [_ []]]. Qed.

Lemma bpm_above index final a j : (index < j)%nat -> bpm index final a !! j = a !! j.
Proof.
  revert final a. induction index as [|i IH]; intros final a Hj; cbn [PackageMerge.bpm].
  - destruct (a !! 0%nat) as [[c0 c1]|]; [|done]. case_match; [done|]. by rewrite list_lookup_insert_ne by lia.
  - destruct (a !! S i) as [[c0 c1]|]; [|done]. destruct (a !! i) as [[d0 d1]|]; [|done].
    case_match; [by rewrite list_lookup_insert_ne by lia|].
    destruct final; rewrite ?IH by lia; by rewrite list_lookup_insert_ne by lia.
Qed.

Lemma bpm_length index final a : length (bpm index final a) = length a.
Proof.
  revert final a. induction index as [|i IH]; intros final a; cbn [PackageMerge.bpm].
  - destruct (a !! 0%nat) as [[c0 c1]|]; [|done]. case_match; [done|]. by rewrite length_insert.
  - destruct (a !! S i) as [[c0 c1]|]; [|done]. destruct (a !! i) as [[d0 d1]|]; [|done].
    case_match; [by rewrite length_insert|]. destruct final; rewrite ?IH; by rewrite length_insert.
Qed.

(** The last flag changes nothing at its own list. *)
Lemma bpm_final index a : bpm index true a !! index = bpm index false a !! index.
Proof.
  destruct index as [|i]; [done|]. cbn [PackageMerge.bpm].
  destruct (a !! S i) as [[c0 c1]|]; [|done]. destruct (a !! i) as [[d0 d1]|]; [|done].
  case_match; [done|]. by rewrite !bpm_above by lia.
Qed.

Lemma level_ok_ext K K' a a' j :
  (forall i, (i <= j)%nat -> K i = K' i) -> (forall i, (i <= j)%nat -> a !! i = a' !! i) ->
  level_ok K a j -> level_ok K' a' j.
Proof.
  intros HK Ha (c0 & c1 & H1 & H2 & H3 & H4 & H5 & H6). exists c0, c1.
  rewrite <-Ha, <-HK by lia. split_and!; try tauto. destruct j as [|i]; [done|].
  rewrite <-Ha, <-HK by lia. done.
Qed.

(** An update of the requests of one list. *)
Definition upd (K : nat -> Z) (j : nat) (k : Z) : nat -> Z := fun i => if (i =? j)%nat then k else K i.

Lemma upd_eq K j k : upd K j k j = k.
Proof. unfold upd. by rewrite Nat.eqb_refl. Qed.
Lemma upd_ne K j k i : i ≠ j -> upd K j k i = K i.
Proof. intros H. unfold upd. by rewrite (proj2 (Nat.eqb_neq _ _) H). Qed.

Lemma level_ok_below K a j k x i : (i < j)%nat -> level_ok K a i -> level_ok (upd K j k) (<[j := x]> a) i.
Proof.
  intros Hi. apply level_ok_ext; intros i' Hi'; [by rewrite upd_ne by lia|by rewrite list_lookup_insert_ne by lia].
Qed.

(** What one run does to its list and to the sum of its last two items. *)
Definition advanced (K K' : nat -> Z) (a a' : list (chain * chain)) (j : nat) : Prop :=
  levels_ok K' a' j /\ K' j = K j + 1 /\
  forall c0 c1 c0' c1', a !! j = Some (c0, c1) -> a' !! j = Some (c0', c1') ->
    hw c0 + hw c1 <= hw c0' + hw c1'.

Lemma run_leaf_list K a : levels_ok K a 0 -> exists K', advanced K K' a (bpm 0 false a) 0.
Proof.
  intros Hl. destruct (Hl 0%nat ltac:(lia)) as (c0 & c1 & Ha & Hw & HK & Hreal & Hbogus & _).
  exists (upd K 0 (K 0%nat + 1)). unfold advanced, levels_ok. rewrite upd_eq. cbn [PackageMerge.bpm]. rewrite Ha.
  destruct (Z.leb_spec n (hc c1)) as [Hge|Hlt].
  - split_and!; [|lia|intros ? ? ? ?; rewrite Ha; by intros [= <- <-] [= <- <-]]. intros i Hi. assert (i = 0)%nat as -> by lia.
    exists c0, c1. rewrite upd_eq. split_and!; try done; try lia.
    + intros HR. cbn [reach] in HR. destruct (Hreal ltac:(cbn [reach]; lia)) as (Hg & Hp & _).
      pose proof (good_zero _ Hg). pose proof (good_count _ _ Hg). lia.
    + intros HR. destruct (Z.le_gt_cases (K 0%nat) (reach 0)) as [Hr|Hr]; [|by apply Hbogus].
      destruct (Hreal Hr) as (Hg & _ & Hw1 & _). pose proof (good_count _ _ Hg).
      assert (hc c1 = n) as E by lia. rewrite E in Hw1. split; [done|lia].
  - destruct (Z.le_gt_cases (K 0%nat) (reach 0)) as [Hr|Hr]; [|destruct (Hbogus ltac:(lia)); lia].
    destruct (Hreal Hr) as (Hg & Hp & Hw1 & Hw2). pose proof (good_count _ _ Hg) as Hk.
    pose proof (good_zero _ Hg) as E. rewrite Hp in E.
    pose proof (Hsorted (hc c1) (hc c1) ltac:(lia) Hlt).
    assert (0 < length a)%nat as Hla by (by eapply lookup_lt_Some).
    split_and!; [|done|].
    + intros i Hi. assert (i = 0)%nat as -> by lia. exists c1, [(wt (hc c1), hc c1 + 1)].
      rewrite upd_eq, list_lookup_insert_eq by done. cbn [hw hc]. specialize (Hw2 Hlt).
      split_and!; try done; try lia.
      * intros _. split; [apply good_one; lia|]. split; [rewrite pos_cons; change (pos [] / 2) with 0; lia|].
        split; [by replace (hc c1 + 1 - 1) with (hc c1) by lia|]. intros Hlt'. apply (Hsorted (hc c1) (hc c1 + 1)); lia.
      * cbn [reach]. lia.
    + intros ? ? c0' c1' [= <- <-] H'. rewrite list_lookup_insert_eq in H' by done. injection H' as <- <-.
      cbn [hw]. specialize (Hw2 Hlt). lia.
Qed.
(** The two cases of a list of packages. *)
Lemma push_leaf K a i c0 c1 d0 d1 :
  levels_ok K a (S i) -> a !! S i = Some (c0, c1) -> a !! i = Some (d0, d1) ->
  hc c1 < n -> wt (hc c1) < hw d0 + hw d1 ->
  advanced K (upd K (S i) (K (S i) + 1)) a (<[S i := (c1, (wt (hc c1), hc c1 + 1) :: ctail c1)]> a) (S i).
Proof.
  intros Hl Ha Hd Hlt Hsum.
  destruct (Hl (S i) ltac:(lia)) as (c0' & c1' & Ha' & Hw & HK & Hreal & Hbogus & d0' & d1' & Hd' & Hw4 & Hreal' & _).
  assert (c0' = c0 /\ c1' = c1 /\ d0' = d0 /\ d1' = d1) as (-> & -> & -> & ->) by (split_and!; congruence).
  destruct (Z.le_gt_cases (K (S i)) (reach (S i))) as [Hr|Hr]; [|destruct (Hbogus ltac:(lia)); lia].
  destruct (Hreal Hr) as (Hg & Hp & Hw1 & Hw2). destruct (Hreal' Hr) as [HKi Hri]. specialize (Hw2 Hlt).
  pose proof (good_count _ _ Hg) as Hk. assert (S i < length a)%nat as Hla by (by eapply lookup_lt_Some).
  assert (K (S i) + 1 <= reach (S i)) as Hr1 by (cbn [reach]; apply half in Hri; lia).
  unfold advanced. rewrite upd_eq. split_and!; [|done|].
  - intros j Hj. destruct (decide (j = S i)) as [->|Hne]; [|apply level_ok_below; [lia|apply Hl; lia]].
    exists c1, ((wt (hc c1), hc c1 + 1) :: ctail c1). rewrite upd_eq, upd_ne, list_lookup_insert_eq by (done || lia).
    cbn [hw hc]. split_and!; try done; try lia.
    + intros _. destruct c1 as [|[w k] t]; [done|]. cbn [hc ctail hw] in *. split_and!.
      * destruct t as [|x t]; [apply good_one; lia|]. destruct Hg as (_ & Ht & Htk & h & Hh).
        apply (good_cons i _ _ _ h); [lia|done|lia|done].
      * rewrite pos_cons in Hp |- *. lia.
      * by replace (k + 1 - 1) with k by lia.
      * intros Hlt'. apply (Hsorted k (k + 1)); lia.
    + exists d0, d1. rewrite list_lookup_insert_ne by lia. split; [done|]. split; [lia|]. split; [|lia].
      intros _. lia.
  - intros ? ? ? ? H1 H2. rewrite Ha in H1. rewrite list_lookup_insert_eq in H2 by done.
    injection H1 as <- <-. injection H2 as <- <-. cbn [hw]. lia.
Qed.

Lemma level_lookup K a j : level_ok K a j -> exists c0 c1, a !! j = Some (c0, c1).
Proof. intros (c0 & c1 & H & _). by exists c0, c1. Qed.

(** Two runs of the list below. *)
Definition advanced2 (K K' : nat -> Z) (a a' : list (chain * chain)) (j : nat) : Prop :=
  levels_ok K' a' j /\ K' j = K j + 2 /\
  forall c0 c1 c0' c1', a !! j = Some (c0, c1) -> a' !! j = Some (c0', c1') ->
    hw c0 + hw c1 <= hw c0' + hw c1'.

Lemma advanced_twice K K1 K2 a a1 a2 j :
  advanced K K1 a a1 j -> advanced K1 K2 a1 a2 j -> advanced2 K K2 a a2 j.
Proof.
  intros (Hl1 & HK1 & Hs1) (Hl2 & HK2 & Hs2). split; [done|]. split; [lia|]. intros c0 c1 c0' c1' H H'.
  destruct (level_lookup K1 a1 j (Hl1 j ltac:(lia))) as (e0 & e1 & He).
  specialize (Hs1 _ _ _ _ H He). specialize (Hs2 _ _ _ _ He H'). lia.
Qed.

Lemma push_package K a i c0 c1 d0 d1 K2 a2 (c2 : chain) :
  levels_ok K a (S i) -> a !! S i = Some (c0, c1) -> a !! i = Some (d0, d1) ->
  (hc c1 < n -> hw d0 + hw d1 <= wt (hc c1)) ->
  c2 = (hw d0 + hw d1, hc c1) :: d1 ->
  advanced2 K K2 a a2 i -> a2 !! S i = Some (c1, c2) ->
  advanced K (upd K2 (S i) (K (S i) + 1)) a a2 (S i).
Proof.
  intros Hl Ha Hd Hcond Hc2 (Hl2 & HK2 & Hsum) Ha2.
  destruct (Hl (S i) ltac:(lia)) as (c0' & c1' & Ha' & Hw & HK & Hreal & Hbogus & d0' & d1' & Hd' & Hw4 & Hreal' & Hbogus').
  assert (c0' = c0 /\ c1' = c1 /\ d0' = d0 /\ d1' = d1) as (-> & -> & -> & ->) by (split_and!; congruence).
  destruct (Hl i ltac:(lia)) as (x0 & x1 & Hx & Hxw & HxK & Hxreal & Hxbogus & _).
  assert (x0 = d0 /\ x1 = d1) as (-> & ->) by (split; congruence).
  destruct (level_lookup K2 a2 i (Hl2 i ltac:(lia))) as (e0 & e1 & He). specialize (Hsum _ _ _ _ Hd He).
  unfold advanced. rewrite upd_eq. split_and!; [|done|].
  2: { intros ? ? ? ? H1 H2. rewrite Ha in H1. rewrite Ha2 in H2. injection H1 as <- <-. injection H2 as <- <-. rewrite Hc2. cbn [hw]. lia. }
  intros j Hj. destruct (decide (j = S i)) as [->|Hne].
  2: { apply (level_ok_ext K2 _ a2 a2); [intros j' Hj'; by rewrite upd_ne by lia|done|apply Hl2; lia]. }
  exists c1, c2. rewrite upd_eq, upd_ne by lia. subst c2. cbn [hw hc].
  assert (reach (S i) < K (S i) \/ K (S i) <= reach (S i) /\ reach i < K i \/ K (S i) <= reach (S i) /\ K i <= reach i)
    as [Hr|[[Hr Hri]|[Hr Hri]]] by lia.
  - destruct (Hbogus Hr) as [Hk Hw2]. specialize (Hbogus' Hr). split_and!; try done; try lia.
    exists e0, e1. split_and!; try done; try lia.
  - destruct (Hreal Hr) as (Hg & Hp & Hw1 & _). destruct (Hreal' Hr) as [HKi Hle]. destruct (Hxbogus Hri) as [Hdn Hdw].
    pose proof (good_count _ _ Hg) as Hk.
    assert (hc c1 = n) as Hkn.
    { destruct (Z.eq_dec (hc c1) n) as [?|Hnn]; [done|]. specialize (Hcond ltac:(lia)).
      pose proof (Hsorted (hc c1) (n - 1) ltac:(lia) ltac:(lia)). lia. }
    assert (reach (S i) < K (S i) + 1) as Hr1.
    { cbn [reach]. pose proof (half (K (S i) - n + 1) (reach i)). lia. }
    split_and!; try done; try lia. exists e0, e1. split_and!; try done; try lia.
  - destruct (Hreal Hr) as (Hg & Hp & Hw1 & _). destruct (Hreal' Hr) as [HKi Hle].
    destruct (Hxreal Hri) as (Hdg & Hdp & Hdw & _).
    pose proof (good_count _ _ Hg) as Hk. pose proof (good_count _ _ Hdg) as Hdk.
    assert (hc d1 <= hc c1) as Hmono.
    { destruct (Z.le_gt_cases (hc d1) (hc c1)) as [?|Hgt]; [done|]. specialize (Hcond ltac:(lia)).
      pose proof (Hsorted (hc c1) (hc d1 - 1) ltac:(lia) ltac:(lia)). lia. }
    assert (K (S i) + 1 <= reach (S i)) as Hr1.
    { cbn [reach]. pose proof (half (K (S i) - hc c1 + 1) (reach i)). lia. }
    split_and!; try done; try lia.
    + intros _. split; [by apply (good_cons i _ _ _ (K (S i) - hc c1 + 1)); [|done|lia|lia]|].
      rewrite pos_cons, Hdp, HKi, Z.mul_comm, Z.div_mul by lia. split_and!; [lia|lia|done].
    + exists e0, e1. split_and!; try done; try lia.
Qed.

Lemma bpm_step j K a : levels_ok K a j -> exists K', advanced K K' a (bpm j false a) j.
Proof.
  revert K a. induction j as [|i IH]; intros K a Hl; [by apply run_leaf_list|].
  destruct (level_lookup K a (S i) (Hl (S i) ltac:(lia))) as (c0 & c1 & Ha).
  destruct (level_lookup K a i (Hl i ltac:(lia))) as (d0 & d1 & Hd).
  cbn [PackageMerge.bpm]. rewrite Ha, Hd.
  destruct ((hc c1 <? n) && (wt (hc c1) <? hw d0 + hw d1)) eqn:E.
  - apply andb_true_iff in E as [?%Z.ltb_lt ?%Z.ltb_lt]. exists (upd K (S i) (K (S i) + 1)).
    by apply (push_leaf K a i c0 c1 d0 d1).
  - set (a1 := <[S i := (c1, (hw d0 + hw d1, hc c1) :: d1)]> a).
    assert (levels_ok K a1 i) as Hl1.
    { intros j Hj. apply (level_ok_ext K K a a1); [done| |apply Hl; lia].
      intros j' Hj'. unfold a1. by rewrite list_lookup_insert_ne by lia. }
    destruct (IH K a1 Hl1) as [K1 H1]. destruct (IH K1 _ (proj1 H1)) as [K2 H2].
    exists (upd K2 (S i) (K (S i) + 1)). apply (push_package K a i c0 c1 d0 d1 _ _ ((hw d0 + hw d1, hc c1) :: d1)); try done.
    + intros Hlt. apply andb_false_iff in E as [?%Z.ltb_ge|?%Z.ltb_ge]; lia.
    + destruct (advanced_twice _ _ _ _ _ _ _ H1 H2) as (H3 & H4 & H5). split; [done|]. split; [done|].
      intros ? ? ? ? Hx. apply H5. unfold a1. by rewrite list_lookup_insert_ne by lia.
    + rewrite !bpm_above by lia. unfold a1. rewrite list_lookup_insert_eq; [done|]. by eapply lookup_lt_Some.
Qed.

(** The state that the lists start from. *)
Definition start : chain * chain := ([(wt 0, 1)], [(wt 1, 2)]).

Lemma start_ok m j : (j < m)%nat -> levels_ok (fun _ => 2) (replicate m start) j.
Proof.
  intros Hj i Hi. exists [(wt 0, 1)], [(wt 1, 2)]. rewrite lookup_replicate_2 by lia.
  pose proof (Hsorted 0 1 ltac:(lia) ltac:(lia)). pose proof (reach_ge i). cbn [hw hc].
  split_and!; try done; try lia.
  - intros _. split_and!; [apply good_one; lia|done|done|]. intros Hlt. apply (Hsorted 1 2); lia.
  - destruct i as [|i]; [done|]. pose proof (reach_ge i). exists [(wt 0, 1)], [(wt 1, 2)].
    rewrite lookup_replicate_2 by lia. cbn [hw]. split_and!; [done|lia|lia|lia].
Qed.

(** With [n <= 2 ^ m] the last of [m] lists has the items asked for. *)
Lemma reach_enough m j : (j < m)%nat -> n <= 2 ^ Z.of_nat m -> 2 * n - 2 ^ Z.of_nat (m - j) <= reach j.
Proof.
  induction j as [|j IH]; intros Hj Hm; cbn [reach]; [rewrite Nat.sub_0_r; lia|]. specialize (IH ltac:(lia) Hm).
  replace (m - j)%nat with (S (m - S j)) in IH by lia. rewrite Nat2Z.inj_succ, Z.pow_succ_r in IH by lia.
  pose proof (half (n - 2 ^ Z.of_nat (m - S j)) (reach j)). lia.
Qed.

Lemma good_length j c : good j c -> (length c <= S j)%nat.
Proof.
  revert c. induction j as [|j IH]; intros [|[w k] [|x t]]; simpl; try done; try lia; try by intros [_ []].
  intros (_ & Ht & _). specialize (IH _ Ht). simpl in IH. lia.
Qed.

Lemma good_tail j w k t : good j ((w, k) :: t) -> t = [] \/ exists i h, j = S i /\ good i t /\ hc t <= k /\ pos t = 2 * h.
Proof.
  intros H. destruct t as [|x t]; [by left|]. right. destruct j as [|i]; [by destruct H as [_ []]|]. destruct H as (_ & H1 & H2 & h & H3).
  by exists i, h.
Qed.

Lemma good_pos j c : good j c -> pos c <= 2 * hc c - 1.
Proof.
  revert c. induction j as [|j IH]; intros [|[w k] t] Hg; try done; pose proof (good_count _ _ Hg) as Hk; cbn [hc] in *;
    rewrite pos_cons; (destruct (good_tail _ _ _ _ Hg) as [->|(i & h & E & Ht & Hc & Hp)];
      [change (pos [] / 2) with 0; lia|]); [done|].
  injection E as ->. specialize (IH _ Ht). rewrite Hp, Z.mul_comm, Z.div_mul by lia. lia.
Qed.

Lemma depth_bound c i : 0 <= depth c i <= Z.of_nat (length c).
Proof. induction c as [|[w k] t IH]; cbn [depth length]; [lia|]. destruct (i <? k); lia. Qed.

Lemma depth_above j c i : good j c -> hc c <= i -> depth c i = 0.
Proof.
  revert c. induction j as [|j IH]; intros [|[w k] t] Hg Hi; try done; cbn [depth hc] in *;
    rewrite (proj2 (Z.ltb_ge _ _)) by done; destruct (good_tail _ _ _ _ Hg) as [->|(i' & h & E & Ht & Hc & Hp)]; try done.
  injection E as ->. rewrite (IH t); [lia|done|lia].
Qed.

(** Kraft's sum of the first [k] leaves, in units of [2 ^ - m]. *)
Definition leaf_sum (m : Z) (c : chain) (is_ : list Z) : Z := foldr (fun i acc => 2 ^ (m - depth c i) + acc) 0 is_.

Lemma leaf_sum_app m c a b : leaf_sum m c (a ++ b) = leaf_sum m c a + leaf_sum m c b.
Proof. unfold leaf_sum. induction a as [|i a IH]; [done|]. simpl. lia. Qed.

Lemma leaf_sum_ext m c m' c' l : (forall i, i ∈ l -> m - depth c i = m' - depth c' i) -> leaf_sum m c l = leaf_sum m' c' l.
Proof.
  induction l as [|i l IH]; intros H; [done|]. cbn [leaf_sum foldr]. rewrite (H i) by left. f_equal.
  apply IH. intros x Hx. apply H. by right.
Qed.

Lemma leaf_sum_const m c l e : (forall i, i ∈ l -> m - depth c i = e) -> leaf_sum m c l = Z.of_nat (length l) * 2 ^ e.
Proof.
  induction l as [|i l IH]; intros H; [done|]. cbn [leaf_sum foldr length]. rewrite (H i) by left.
  fold (leaf_sum m c l). rewrite IH by (intros x Hx; apply H; by right). lia.
Qed.

Lemma good_kraft j c k m : good j c -> hc c <= k -> Z.of_nat (length c) <= m ->
  2 * leaf_sum m c (seqZ 0 k) = 2 ^ m * (2 * k - pos c).
Proof.
  revert j k m. induction c as [|[w k0] t IH]; intros j k m Hg Hk Hm; [by destruct j|].
  pose proof (good_count _ _ Hg) as Hk0. cbn [hc length] in *.
  assert (2 * leaf_sum m ((w, k0) :: t) (seqZ 0 k0) = 2 ^ (m - 1) * (2 * k0 - pos t)) as H1.
  { rewrite (leaf_sum_ext _ _ (m - 1) t).
    - destruct (good_tail _ _ _ _ Hg) as [->|(i & h & _ & Ht & Htk & _)]; [|by apply (IH i); [|done|lia]].
      rewrite (leaf_sum_const _ _ _ (m - 1)) by (intros; cbn; lia). rewrite length_seqZ, Z2Nat.id by lia. change (pos []) with 0. lia.
    - intros i [Hi Hi']%elem_of_seqZ. cbn [depth]. rewrite (proj2 (Z.ltb_lt _ _)) by lia. lia. }
  assert (leaf_sum m ((w, k0) :: t) (seqZ k0 (k - k0)) = (k - k0) * 2 ^ m) as H2.
  { rewrite (leaf_sum_const _ _ _ m); [by rewrite length_seqZ, Z2Nat.id by lia|]. intros i [Hi _]%elem_of_seqZ.
    rewrite (depth_above _ _ _ Hg) by done. lia. }
  replace (seqZ 0 k) with (seqZ 0 k0 ++ seqZ k0 (k - k0)) by
    (rewrite <-(Z.add_0_l k0) at 2; rewrite <-seqZ_app by lia; f_equal; lia).
  rewrite leaf_sum_app, Z.mul_add_distr_l, H1, H2, pos_cons.
  assert (exists h, pos t = 2 * h) as [h Hh].
  { destruct (good_tail _ _ _ _ Hg) as [->|(i & h & _ & _ & _ & Hh)]; [by exists 0|by exists h]. }
  rewrite Hh, (Z.mul_comm 2 h), Z.div_mul by lia.
  replace (2 ^ m) with (2 * 2 ^ (m - 1)) by (rewrite <-Z.pow_succ_r by lia; f_equal; lia). lia.
Qed.

(** Every leaf has a length, and the lengths fill the code space. *)
Lemma good_full j c : good j c -> pos c = 2 * n - 2 ->
  hc c = n /\ (forall i, 0 <= i < n -> 1 <= depth c i <= Z.of_nat (S j)) /\
  leaf_sum (Z.of_nat (S j)) c (seqZ 0 n) = 2 ^ Z.of_nat (S j).
Proof.
  intros Hg Hp. pose proof (good_count _ _ Hg). pose proof (good_pos _ _ Hg). pose proof (good_length _ _ Hg).
  assert (hc c = n) as Hc by lia. split; [done|]. split.
  - intros i Hi. pose proof (depth_bound c i). destruct c as [|[w k] t]; [done|]. cbn [hc depth] in *.
    pose proof (depth_bound t i). rewrite (proj2 (Z.ltb_lt _ _)) in * by lia. lia.
  - pose proof (good_kraft j c n (Z.of_nat (S j)) Hg ltac:(lia) ltac:(lia)) as Hk. rewrite Hp in Hk. lia.
Qed.

End merge.

(** ** The whole algorithm *)

Lemma sorted_lookup {A} (R : A -> A -> Prop) (l : list A) i j a b :
  StronglySorted R l -> l !! i = Some a -> l !! j = Some b -> (i < j)%nat -> R a b.
Proof.
  intros Hs Ha Hb Hij. rewrite <-(take_drop_middle l i a Ha), StronglySorted_app, StronglySorted_cons, Forall_forall in Hs.
  apply Hs. rewrite list_elem_of_lookup. exists (j - S i)%nat. rewrite lookup_drop, <-Hb. f_equal. lia.
Qed.

Section algorithm.
Context (leaves : list Leaf) (maxbits : nat).
Context (Hmax : (1 <= maxbits <= 31)%nat).
Context (Hweights : Forall (fun l => 0 < leaf_weight l < 2 ^ 31) leaves).
Context (Hsorted : StronglySorted (fun a b => leaf_weight a <= leaf_weight b) leaves).
Context (Hn : 2 <= n_leaves leaves <= 2 ^ Z.of_nat maxbits).

Local Abbreviation n := (n_leaves leaves).

Lemma wt_sorted i j : 0 <= i <= j -> j < n -> 0 < wt leaves i <= wt leaves j.
Proof.
  intros Hi Hj. unfold n_leaves, numsymbols in Hj. unfold wt.
  destruct (lookup_lt_is_Some_2 leaves (Z.to_nat i) ltac:(lia)) as [a Ha].
  destruct (lookup_lt_is_Some_2 leaves (Z.to_nat j) ltac:(lia)) as [b Hb]. rewrite Ha, Hb.
  split; [apply (proj1 (Forall_lookup _ _) Hweights _ _ Ha)|].
  destruct (Z.eq_dec i j) as [->|Hne]; [assert (a = b) as -> by congruence; done|].
  apply (sorted_lookup _ _ _ _ _ _ Hsorted Ha Hb). lia.
Qed.

Lemma GetFreeNode_fresh lists ns i x : ns !! i = Some x -> inuse x = false ->
  GetFreeNode lists (MkPool ns i) = Ret (i, MkPool ns (S i)).
Proof.
  intros Hi Hx. unfold GetFreeNode. cbn [nodes]. pose proof (lookup_lt_Some _ _ _ Hi).
  replace (2 * length ns + 2)%nat with (S (2 * length ns + 1)) by lia. cbn [find_free nodes Katajainen.next].
  rewrite (proj2 (Nat.leb_gt _ _)) by done. rewrite outcome_bind_ret. cbn [nodes Katajainen.next].
  rewrite Hi. cbn [or_undefined]. by rewrite outcome_bind_ret, Hx.
Qed.

Lemma InitLists_spec :
  exists s, InitLists leaves (MkPool (replicate (2 * maxbits * (maxbits + 1)) (MkNode 0 None 0 false)) 0) maxbits = Ret s /\
    run_ok leaves maxbits s (replicate maxbits (start leaves)).
Proof.
  assert (exists k, (2 * maxbits * (maxbits + 1))%nat = S (S k)) as [k Hk]
    by (exists (2 * maxbits * (maxbits + 1) - 2)%nat; nia).
  set (z := MkNode 0 None 0 false). unfold InitLists.
  rewrite (GetFreeNode_fresh _ _ 0 z) by (rewrite ?Hk; done). rewrite outcome_bind_ret.
  rewrite (GetFreeNode_fresh _ _ 1 z) by (rewrite ?Hk; done). rewrite outcome_bind_ret.
  destruct (leaf_weight_range leaves maxbits ltac:(lia) Hweights 0 ltac:(lia)) as (l0 & -> & E0 & Hw0). rewrite outcome_bind_ret.
  destruct (leaf_weight_range leaves maxbits ltac:(lia) Hweights 1 ltac:(lia)) as (l1 & -> & E1 & Hw1). rewrite outcome_bind_ret, E0, E1.
  eexists. split; [done|].
  assert (forall j w k, 0 < w < 2 ^ 31 -> 1 <= k <= n -> chain_shape leaves j [(w, k)]) as Hsh.
  { intros j w c Hw Hc. exists w, c, []. split; [done|]. simpl length. split_and!; try lia.
    pose proof (Z.pow_le_mono_r 2 31 (32 + Z.of_nat j) ltac:(lia) ltac:(lia)). lia. }
  constructor; cbn [fst snd nodes InitNode].
  - apply Forall2_replicate. rewrite Hk. cbn [replicate insert list_insert]. split_and!; cbn [fst snd start length]; try lia.
    + exists [0%nat]. split; [split; [done|by eexists]|]. repeat constructor. by eexists.
    + exists [1%nat]. split; [split; [done|by eexists]|]. repeat constructor. by eexists.
  - intros j x Hx. apply lookup_replicate_1 in Hx as [-> _]. cbn [fst snd start]. split; apply Hsh; lia.
  - by rewrite length_replicate.
  - by rewrite !length_insert, length_replicate.
Qed.

(** The state after [i] of the runs: the last one leaves the lists below the
    last as they were. *)
Definition merged (i : Z) (s : list (nat * nat) * NodePool) : Prop :=
  exists a a' K, run_ok leaves maxbits s a /\ a' !! (maxbits - 1)%nat = a !! (maxbits - 1)%nat /\
    (i < 2 * n - 4 -> a' = a) /\ levels_ok leaves K a' (maxbits - 1) /\ K (maxbits - 1)%nat = i + 2.

Lemma package_merge_spec :
  exists lists pool l c, package_merge leaves maxbits = Ret (lists, pool) /\ lists !! (maxbits - 1)%nat = Some l /\
    chain_ok (nodes pool) (Some l.2) c /\ (length c <= length (nodes pool))%nat /\
    good leaves (maxbits - 1) c /\ pos c = 2 * n - 2.
Proof.
  unfold package_merge. destruct InitLists_spec as (s0 & -> & Hr0). rewrite outcome_bind_ret.
  fold n. destruct (for_each_seqZ merged
    (fun i s => BoundaryPM leaves (maxbits - 1) (i =? 2 * n - 4 - 1) s) 0 (2 * n - 4) s0) as ([lists pool] & -> & Hm).
  - lia.
  - exists (replicate maxbits (start leaves)), (replicate maxbits (start leaves)), (fun _ => 2).
    split_and!; try done. apply (start_ok leaves); [lia|apply wt_sorted|lia].
  - intros i s Hi (a & a' & K & Hr & Ha & Heq & Hl & HK). rewrite (Heq ltac:(lia)) in *.
    destruct (BoundaryPM_refines leaves maxbits ltac:(lia) Hweights (maxbits - 1) (i =? 2 * n - 4 - 1) s a Hr ltac:(lia))
      as (s' & -> & Hr').
    destruct (bpm_step leaves wt_sorted (maxbits - 1) K a Hl) as (K' & Hl' & HK' & _).
    exists s'. split; [done|]. eexists _, (bpm leaves (maxbits - 1) false a), K'. split; [exact Hr'|]. split_and!; try done.
    + destruct (i =? _); [symmetry; apply bpm_final|done].
    + intros Hlt. by rewrite (proj2 (Z.eqb_neq _ _)) by lia.
    + lia.
  - destruct Hm as (a & a' & K & Hr & Ha & _ & Hl & HK).
    destruct (Hl (maxbits - 1)%nat ltac:(lia)) as (c0 & c1 & Hc & _ & _ & Hreal & _). rewrite Ha in Hc.
    destruct (run_ok_lookup _ _ _ _ _ _ Hr Hc) as (l & Hls & _ & Hc1). cbn [fst snd] in *.
    pose proof (reach_enough leaves maxbits (maxbits - 1) ltac:(lia) ltac:(lia)) as Hreach.
    replace (maxbits - (maxbits - 1))%nat with 1%nat in Hreach by lia. change (2 ^ Z.of_nat 1) with 2 in Hreach.
    destruct (Hreal ltac:(lia)) as (Hg & Hp & _).
    exists lists, pool, l, c1. split_and!; try done; [|lia].
    pose proof (ro_size _ _ _ _ Hr) as Hsz. cbn [snd] in Hsz. rewrite Hsz. pose proof (good_length _ _ _ Hg). nia.
Qed.
End algorithm.

(** ** The lengths of the leaves *)

(** A sum over a list. *)
Definition total {A} (f : A -> Z) (l : list A) : Z := foldr (fun x acc => f x + acc) 0 l.

Lemma total_perm {A} (f : A -> Z) l k : l ≡ₚ k -> total f l = total f k.
Proof. unfold total. induction 1; simpl; lia. Qed.

Section extract.
Context (leaves : list Leaf).
Context (Hsyms : NoDup (leaf_count <$> leaves)).
Local Abbreviation n := (n_leaves leaves).

Definition sym (i : Z) : Z := match leaves !! Z.to_nat i with Some l => leaf_count l | None => -1 end.

Lemma sym_inj i j : 0 <= i < n -> 0 <= j < n -> sym i = sym j -> i = j.
Proof.
  unfold n_leaves, numsymbols, sym. intros Hi Hj.
  destruct (lookup_lt_is_Some_2 leaves (Z.to_nat i) ltac:(lia)) as [a Ha].
  destruct (lookup_lt_is_Some_2 leaves (Z.to_nat j) ltac:(lia)) as [b Hb]. rewrite Ha, Hb. intros E.
  enough (Z.to_nat i = Z.to_nat j) by lia. apply (NoDup_lookup _ _ _ (leaf_count a) Hsyms);
    rewrite list_lookup_fmap, ?Ha, ?Hb; simpl; congruence.
Qed.

(** Every leaf has its symbol in the table. *)
Definition covers (table : list Z) : Prop := forall i, 0 <= i < n -> 0 <= sym i < Z.of_nat (length table).

(** The table with [f i] added to the entry of the leaf [i]. *)
Definition raised (f : Z -> Z) (t t' : list Z) : Prop :=
  length t' = length t /\ (forall i, 0 <= i < n -> table_at t' (sym i) = table_at t (sym i) + f i) /\
  (forall s, (forall i, 0 <= i < n -> sym i <> s) -> table_at t' s = table_at t s).

Lemma count_leaves t k : covers t -> 0 <= k <= n -> (forall i, 0 <= i < n -> 0 <= table_at t (sym i) < 2 ^ 31) ->
  exists t', for_each (seqZ 0 k) (count_leaf leaves) t = Ret t' /\ raised (fun i => if i <? k then 1 else 0) t t'.
Proof.
  intros Hc Hk Hb. apply (for_each_seqZ (fun k => raised (fun i => if i <? k then 1 else 0) t)); [lia|..].
  - split_and!; [done| |done]. intros i Hi. rewrite (proj2 (Z.ltb_ge _ _)); lia.
  - intros i t1 Hi (Hl & H1 & H2). unfold count_leaf, leaf_at. rewrite (proj2 (Z.ltb_ge _ _)) by lia.
    destruct (lookup_lt_is_Some_2 leaves (Z.to_nat i)) as [a Ha]; [unfold n_leaves, numsymbols in Hk; lia|].
    rewrite Ha. cbn [or_undefined]. rewrite outcome_bind_ret. eexists. split; [done|].
    assert (leaf_count a = sym i) as Hs by (unfold sym; by rewrite Ha). rewrite Hs.
    specialize (Hc i ltac:(lia)) as Hci.
    split_and!.
    + by rewrite length_insert.
    + intros j Hj. specialize (Hc j Hj). rewrite table_at_insert by lia.
      destruct (Z.eqb_spec (sym j) (sym i)) as [E|Hne].
      * apply sym_inj in E as ->; [|lia|lia]. rewrite (proj2 (Z.ltb_lt _ _)) by lia. rewrite H1 by lia.
        rewrite (proj2 (Z.ltb_ge _ _)) by lia. specialize (Hb i ltac:(lia)). rewrite u32_small; lia.
      * rewrite H1 by done. assert (j <> i) by congruence.
        destruct (Z.ltb_spec j i), (Z.ltb_spec j (i + 1)); lia.
    + intros s Hns. rewrite <-H2 by done. specialize (Hns i ltac:(lia)).
      destruct (Z.ltb_spec s 0); [unfold table_at; by rewrite (proj2 (Z.ltb_lt _ _)) by done|].
      rewrite table_at_insert by lia. by rewrite (proj2 (Z.eqb_neq _ _)) by done.
Qed.

Lemma ExtractBitLengths_spec fuel p is_ c ns t :
  chain_at ns p is_ c -> (length c <= fuel)%nat -> Forall (fun x => 0 <= x.2 <= n) c -> covers t ->
  (forall i, 0 <= i < n -> 0 <= table_at t (sym i) < 2 ^ 31 - Z.of_nat (length c)) ->
  exists t', ExtractBitLengths leaves fuel p ns t = Ret t' /\ raised (depth c) t t'.
Proof.
  revert p is_ t fuel. induction c as [|[w k] c IH]; intros p [|i is_] t fuel Hc Hf Hcs Hcov Hb; try done.
  - simpl in Hc. subst p. exists t. split; [by destruct fuel|]. split_and!; [done| |done]. intros. cbn [depth]. lia.
  - destruct Hc as (-> & x & Hx & _ & Hk & Ht). destruct fuel as [|fuel]; [simpl in Hf; lia|].
    apply Forall_cons in Hcs as [Hkr Hcs]. cbn [snd] in Hkr. cbn [ExtractBitLengths]. rewrite Hx. cbn [or_undefined].
    rewrite outcome_bind_ret, Hk. cbn [length] in *.
    destruct (count_leaves t k Hcov Hkr) as (t1 & -> & Hl1 & H1 & H1'); [intros j Hj; specialize (Hb j Hj); lia|].
    rewrite outcome_bind_ret.
    destruct (IH (tail x) is_ t1 fuel Ht ltac:(lia) Hcs) as (t2 & -> & Hl2 & H2 & H2').
    + intros j Hj. rewrite Hl1. by apply Hcov.
    + intros j Hj. rewrite H1 by done. specialize (Hb j Hj). case_match; lia.
    + exists t2. split; [done|]. split_and!; [congruence| |].
      * intros j Hj. rewrite H2, H1 by done. cbn [depth]. lia.
      * intros s Hs. by rewrite H2', H1'.
Qed.
End extract.

Lemma good_counts leaves j c : good leaves j c -> Forall (fun x => 0 <= x.2 <= n_leaves leaves) c.
Proof.
  revert j. induction c as [|[w k] t IH]; intros j Hg; [constructor|].
  pose proof (good_count _ _ _ Hg) as Hk. cbn [hc] in Hk. constructor; [cbn [snd]; lia|].
  destruct (good_tail _ _ _ _ _ Hg) as [->|(i & h & _ & Ht & _)]; [constructor|by apply (IH i)].
Qed.

(** ** The leaves of a histogram *)

Lemma make_leaves_elem fs i l : l ∈ make_leaves fs i <->
  exists k, fs !! k = Some (leaf_weight l) /\ leaf_count l = i + Z.of_nat k /\ leaf_weight l <> 0.
Proof.
  revert i. induction fs as [|f fs IH]; intros i; cbn [make_leaves].
  - split; [by intros ?%elem_of_nil|by intros (k & ? & _)].
  - assert (l ∈ make_leaves fs (i + 1) <-> exists k, (f :: fs) !! S k = Some (leaf_weight l) /\
      leaf_count l = i + Z.of_nat (S k) /\ leaf_weight l <> 0) as H.
    { rewrite IH. cbn [lookup list_lookup]. split; intros (k & H1 & H2 & H3); exists k; (split_and!; [done|lia|done]). }
    destruct (Z.eqb_spec f 0) as [->|Hf]; rewrite ?elem_of_cons, H.
    + split; [intros (k & ?); by exists (S k)|]. intros ([|k] & H1 & H2 & H3); [injection H1; lia|by exists k].
    + split.
      * intros [->|(k & ?)]; [exists 0%nat|by exists (S k)]. cbn. split_and!; [done|lia|done].
      * intros ([|k] & H1 & H2 & H3); [left|right; by exists k]. injection H1 as ->. destruct l as [w c]. cbn in *. f_equal. lia.
Qed.

Lemma make_leaves_NoDup fs i : NoDup (leaf_count <$> make_leaves fs i).
Proof.
  revert i. induction fs as [|f fs IH]; intros i; cbn [make_leaves]; [constructor|].
  destruct (f =? 0); [done|]. rewrite fmap_cons. constructor; [|done]. cbn [leaf_count].
  intros (l & Hl & (k & _ & Hc & _)%make_leaves_elem)%list_elem_of_fmap. lia.
Qed.

(** Kraft's sum of the lengths is the sum over the leaves. *)
Lemma kraft_leaves fs lens m i (L : Z -> Z) :
  Forall2 (fun f len => (f = 0 <-> len = 0) /\ 0 <= len <= m) fs lens ->
  (forall k len, lens !! k = Some len -> L (i + Z.of_nat k) = len) ->
  kraft_upto lens m m = total (fun l => 2 ^ (m - L (leaf_count l))) (make_leaves fs i).
Proof.
  intros H. revert i. induction H as [|f len fs lens [Hf Hl] _ IH]; intros i HL; [done|]. cbn [make_leaves kraft_upto].
  rewrite (IH (i + 1)).
  - rewrite (proj2 (Z.leb_le len m)), andb_true_r by lia. destruct (Z.eqb_spec f 0) as [E|E].
    + rewrite (proj1 Hf E). done.
    + rewrite (proj2 (Z.ltb_lt _ _)) by lia. cbn [total foldr leaf_count]. do 3 f_equal.
      rewrite <-(HL 0%nat len) by done. f_equal. lia.
  - intros k x Hx. rewrite <-(HL (S k) x Hx). f_equal. lia.
Qed.

(** The comparison of weights. *)
Lemma LeafComparator_le a b : 0 < leaf_weight a < 2 ^ 31 -> 0 < leaf_weight b < 2 ^ 31 ->
  LeafComparator a b <= 0 <-> leaf_weight a <= leaf_weight b.
Proof.
  intros Ha Hb. unfold LeafComparator, s32, u64.
  replace ((leaf_weight a - leaf_weight b) mod 2 ^ 64 + 2 ^ 31)
    with (leaf_weight a - leaf_weight b + 2 ^ 31 + - (2 ^ 32 * ((leaf_weight a - leaf_weight b) / 2 ^ 64)) * 2 ^ 32).
  - rewrite Z.mod_add by lia. rewrite Z.mod_small by lia. lia.
  - pose proof (Z.div_mod (leaf_weight a - leaf_weight b) (2 ^ 64)). lia.
Qed.

Lemma total_index {A} (f : A -> Z) (g : Z -> Z) (l : list A) a :
  (forall i x, l !! i = Some x -> g (a + Z.of_nat i) = f x) -> total f l = total g (seqZ a (Z.of_nat (length l))).
Proof.
  revert a. induction l as [|x l IH]; intros a H; [done|]. cbn [length]. rewrite seqZ_cons by lia.
  cbn [total foldr]. rewrite <-(H 0%nat x) by done. change (Z.of_nat 0) with 0. rewrite Z.add_0_r.
  do 2 f_equal. rewrite Nat2Z.inj_succ, Z.pred_succ. apply IH. intros i y Hy. rewrite <-(H (S i) y Hy). f_equal. lia.
Qed.

Section code_lengths.
Context {sort : Qsort} (frequencies : list Z) (maxbits : nat).
Context (Hmax : (1 <= maxbits <= 31)%nat).
Context (Hfreq : Forall (fun f => 0 <= f < 2 ^ 31) frequencies).

Local Abbreviation leaves := (make_leaves frequencies 0).

Lemma leaf_weights : Forall (fun l => 0 < leaf_weight l < 2 ^ 31) leaves.
Proof.
  apply Forall_forall. intros l (k & Hk & _ & Hw)%make_leaves_elem.
  pose proof (proj1 (Forall_lookup _ _) Hfreq _ _ Hk). cbn in *. lia.
Qed.

Lemma sorted_leaves : StronglySorted (fun a b => leaf_weight a <= leaf_weight b) (qsort LeafComparator leaves).
Proof.
  pose proof (proj1 (Forall_forall _ _) leaf_weights) as Hw. cbv beta in Hw.
  assert (forall a b, a ∈ leaves -> b ∈ leaves -> LeafComparator a b <= 0 <-> leaf_weight a <= leaf_weight b) as Hc
    by (intros a b Ha Hb; apply LeafComparator_le; by apply Hw).
  assert (StronglySorted (fun a b => LeafComparator a b <= 0) (qsort LeafComparator leaves)) as Hs.
  { apply qsort_sorted.
    - intros a b Ha Hb. rewrite !Hc by done. lia.
    - intros a b c Ha Hb Hd. rewrite !Hc by done. lia. }
  pose proof (qsort_perm LeafComparator leaves) as Hp.
  assert (forall l, l ∈ qsort LeafComparator leaves -> l ∈ leaves) as Hin by (intros l; by rewrite Hp).
  clear Hp. induction Hs as [|a l Hs IH Ha]; [constructor|]. constructor.
  - apply IH. intros x Hx. apply Hin. by right.
  - rewrite Forall_forall in Ha |- *. intros b Hb. apply Hc; [apply Hin; left|apply Hin; by right|by apply Ha].
Qed.

(** What the function promises of the lengths. *)
Record code_lengths (lengths : list Z) : Prop := {
  cl_table : Forall2 (fun f len => (f = 0 <-> len = 0) /\ 0 <= len <= Z.of_nat maxbits) frequencies lengths;
  cl_kraft : kraft_upto lengths (Z.of_nat maxbits) (Z.of_nat maxbits) =
    match leaves with [] => 0 | [_] => 2 ^ (Z.of_nat maxbits - 1) | _ => 2 ^ Z.of_nat maxbits end;
}.

Local Abbreviation sorted := (qsort LeafComparator leaves).

Lemma sorted_perm : sorted ≡ₚ leaves.
Proof. apply qsort_perm. Qed.

Lemma sorted_n : n_leaves sorted = numsymbols leaves.
Proof. unfold n_leaves, numsymbols. by rewrite sorted_perm. Qed.

Lemma sorted_syms : NoDup (leaf_count <$> sorted).
Proof. rewrite sorted_perm. apply make_leaves_NoDup. Qed.

(** The symbols that occur are those of the leaves. *)
Lemma sorted_sym i : 0 <= i < n_leaves sorted ->
  exists k l, sorted !! Z.to_nat i = Some l /\ sym sorted i = leaf_count l /\ leaf_count l = Z.of_nat k /\
    frequencies !! k = Some (leaf_weight l) /\ leaf_weight l <> 0.
Proof.
  intros Hi. unfold n_leaves, numsymbols in Hi. destruct (lookup_lt_is_Some_2 sorted (Z.to_nat i) ltac:(lia)) as [l Hl].
  assert (l ∈ leaves) as (k & Hk & Hc & Hw)%make_leaves_elem by (rewrite <-sorted_perm; by eapply list_elem_of_lookup_2).
  exists k, l. unfold sym. rewrite Hl. split_and!; done.
Qed.

Lemma sym_sorted k f : frequencies !! k = Some f -> f <> 0 ->
  exists i, 0 <= i < n_leaves sorted /\ sym sorted i = Z.of_nat k.
Proof.
  intros Hk Hf. assert (MkLeaf f (Z.of_nat k) ∈ sorted) as [i Hi]%list_elem_of_lookup.
  { rewrite sorted_perm. apply make_leaves_elem. by exists k. }
  exists (Z.of_nat i). unfold sym, n_leaves, numsymbols. rewrite Nat2Z.id, Hi. split; [|done].
  pose proof (lookup_lt_Some _ _ _ Hi). lia.
Qed.

Lemma merged_lengths c t : 2 <= n_leaves sorted -> good sorted (maxbits - 1) c -> pos c = 2 * n_leaves sorted - 2 ->
  raised sorted (depth c) (replicate (length frequencies) 0) t -> code_lengths t.
Proof.
  intros Hn Hg Hp (Hl & H1 & H2). rewrite length_replicate in Hl.
  destruct (good_full _ _ _ Hg Hp) as (_ & Hd & Hs). replace (S (maxbits - 1)) with maxbits in * by lia.
  assert (Forall2 (fun f len => (f = 0 <-> len = 0) /\ 0 <= len <= Z.of_nat maxbits) frequencies t) as Htable.
  { apply Forall2_same_length_lookup_2; [done|]. intros k f len Hf Hlen.
    assert (len = table_at t (Z.of_nat k)) as -> by (rewrite table_at_nat; by rewrite Hlen).
    destruct (Z.eq_dec f 0) as [->|Hne].
    - rewrite H2, table_at_replicate; [lia|]. intros i Hi E.
      destruct (sorted_sym i Hi) as (k' & l & _ & E1 & E2 & Hk & Hw). assert (k' = k) as -> by lia. congruence.
    - destruct (sym_sorted k f Hf Hne) as (i & Hi & <-). rewrite H1, table_at_replicate by done.
      specialize (Hd i Hi). lia. }
  constructor; [done|].
  rewrite (kraft_leaves frequencies t (Z.of_nat maxbits) 0 (table_at t) Htable).
  2: { intros k len Hk. rewrite Z.add_0_l, table_at_nat. by rewrite Hk. }
  rewrite <-(total_perm _ _ _ sorted_perm).
  rewrite (total_index _ (fun i => 2 ^ (Z.of_nat maxbits - depth c i)) _ 0).
  - assert (2 <= length leaves)%nat as Hlen by (rewrite sorted_n in Hn; unfold numsymbols in Hn; lia).
    destruct leaves as [|? [|? ?]]; [simpl in Hlen; lia|simpl in Hlen; lia|]. exact Hs.
  - intros i l Hi. pose proof (lookup_lt_Some _ _ _ Hi). rewrite Z.add_0_l.
    assert (leaf_count l = sym sorted (Z.of_nat i)) as -> by (unfold sym; by rewrite Nat2Z.id, Hi).
    rewrite H1, table_at_replicate by (unfold n_leaves, numsymbols; lia). done.
Qed.

Lemma no_symbol_lengths : leaves = [] -> code_lengths (replicate (length frequencies) 0).
Proof.
  intros E. assert (Forall2 (fun f len => (f = 0 <-> len = 0) /\ 0 <= len <= Z.of_nat maxbits)
    frequencies (replicate (length frequencies) 0)) as Htable.
  { apply Forall2_same_length_lookup_2; [by rewrite length_replicate|]. intros k f len Hf [-> _]%lookup_replicate_1.
    split; [|lia]. split; [done|]. intros _. destruct (Z.eq_dec f 0) as [?|Hne]; [done|].
    assert (MkLeaf f (Z.of_nat k) ∈ leaves) as Hin by (apply make_leaves_elem; by exists k).
    rewrite E in Hin. by apply elem_of_nil in Hin. }
  constructor; [done|]. rewrite (kraft_leaves frequencies _ _ 0 (fun _ => 0) Htable).
  - by rewrite E.
  - by intros k len [-> _]%lookup_replicate_1.
Qed.

Lemma one_symbol_lengths leaf : leaves = [leaf] ->
  code_lengths (<[Z.to_nat (leaf_count leaf) := 1]> (replicate (length frequencies) 0)).
Proof.
  intros E. assert (leaf ∈ leaves) as (k & Hk & Hc & Hw)%make_leaves_elem by (rewrite E; left).
  rewrite Hc, Z.add_0_l, Nat2Z.id.
  assert (forall i len, <[k := 1]> (replicate (length frequencies) 0) !! i = Some len -> len = if (i =? k)%nat then 1 else 0) as Hlen.
  { intros i len [(-> & -> & _)|[Hne [-> _]%lookup_replicate_1]]%list_lookup_insert_Some;
      [by rewrite Nat.eqb_refl|by rewrite (proj2 (Nat.eqb_neq _ _)) by done]. }
  assert (Forall2 (fun f len => (f = 0 <-> len = 0) /\ 0 <= len <= Z.of_nat maxbits)
    frequencies (<[k := 1]> (replicate (length frequencies) 0))) as Htable.
  { apply Forall2_same_length_lookup_2; [by rewrite length_insert, length_replicate|]. intros i f len Hf ->%Hlen.
    destruct (Nat.eqb_spec i k) as [->|Hne]; [split; [|lia]; split; [congruence|lia]|].
    split; [|lia]. split; [done|]. intros _. destruct (Z.eq_dec f 0) as [?|Hnf]; [done|].
    assert (MkLeaf f (Z.of_nat i) ∈ leaves) as Hin by (apply make_leaves_elem; by exists i).
    rewrite E, list_elem_of_singleton in Hin. subst leaf. cbn in Hc. lia. }
  constructor; [done|]. rewrite (kraft_leaves frequencies _ _ 0 (fun s => if s =? Z.of_nat k then 1 else 0) Htable).
  - rewrite E. cbn [total foldr]. rewrite Hc, Z.add_0_l, Z.eqb_refl. lia.
  - intros i len ->%Hlen. rewrite Z.add_0_l. destruct (Nat.eqb_spec i k) as [->|Hne]; [by rewrite Z.eqb_refl|].
    by rewrite (proj2 (Z.eqb_neq _ _)) by lia.
Qed.

Lemma many_symbol_lengths : 2 <= numsymbols leaves <= 2 ^ Z.of_nat maxbits ->
  exists lists pool l lengths, package_merge sorted maxbits = Ret (lists, pool) /\
    lists !! (maxbits - 1)%nat = Some l /\
    ExtractBitLengths sorted (length (nodes pool)) (Some l.2) (nodes pool) (replicate (length frequencies) 0) = Ret lengths /\
    code_lengths lengths.
Proof.
  intros Hn. rewrite <-sorted_n in Hn.
  destruct (package_merge_spec sorted maxbits) as (lists & pool & l & c & Hm & Hl & (is_ & Hc & _) & Hlen & Hg & Hp);
    [done|rewrite sorted_perm; apply leaf_weights|apply sorted_leaves|done|].
  destruct (ExtractBitLengths_spec sorted sorted_syms (length (nodes pool)) _ _ _ _ (replicate (length frequencies) 0) Hc Hlen)
    as (t & Ht & Hr).
  - by eapply good_counts.
  - intros i Hi. destruct (sorted_sym i Hi) as (k & x & _ & -> & -> & Hk & _). rewrite length_replicate.
    pose proof (lookup_lt_Some _ _ _ Hk). lia.
  - intros i Hi. rewrite table_at_replicate. pose proof (good_length _ _ _ Hg). lia.
  - exists lists, pool, l, t. split_and!; try done. apply (merged_lengths c); [lia|done..].
Qed.

Lemma ZopfliLengthLimitedCodeLengths_spec :
  if 2 ^ Z.of_nat maxbits <? numsymbols leaves
  then ZopfliLengthLimitedCodeLengths frequencies maxbits = Ret (1, replicate (length frequencies) 0)
  else exists lengths, ZopfliLengthLimitedCodeLengths frequencies maxbits = Ret (0, lengths) /\ code_lengths lengths.
Proof.
  unfold ZopfliLengthLimitedCodeLengths. cbv zeta. destruct (Z.ltb_spec (2 ^ Z.of_nat maxbits) (numsymbols leaves)) as [?|Hle]; [done|].
  destruct leaves as [|leaf [|leaf' rest]] eqn:E.
  - eexists. split; [done|]. by apply no_symbol_lengths.
  - eexists. split; [done|]. by apply one_symbol_lengths.
  - rewrite <-E in *. assert (2 <= numsymbols leaves) as Hge by (rewrite E; unfold numsymbols; simpl length; lia).
    destruct (many_symbol_lengths (conj Hge Hle)) as (lists & pool & l & lengths & -> & Hl & He & Hc).
    rewrite outcome_bind_ret, Hl. cbn [or_undefined]. rewrite outcome_bind_ret, He, outcome_bind_ret. by exists lengths.
Qed.

End code_lengths.

(** The lengths are those of a prefix code. *)
Lemma code_lengths_ok frequencies maxbits lengths :
  (1 <= maxbits <= 31)%nat -> code_lengths frequencies maxbits lengths -> lengths_ok (Z.of_nat maxbits) lengths.
Proof.
  intros Hm [Ht Hk]. constructor; [lia| |].
  - apply Forall_lookup. intros i len Hi. destruct (Forall2_lookup_r _ _ _ _ _ Ht Hi) as (f & _ & _ & H). exact H.
  - rewrite Hk. pose proof (Z.pow_nonneg 2 (Z.of_nat maxbits) ltac:(lia)).
    pose proof (Z.pow_le_mono_r 2 (Z.of_nat maxbits - 1) (Z.of_nat maxbits) ltac:(lia) ltac:(lia)).
    destruct (make_leaves frequencies 0) as [|? [|? ?]]; lia.
Qed.

Lemma ZopfliCalculateBitLengths_spec {sort : Qsort} frequencies maxbits :
  (1 <= maxbits <= 31)%nat -> Forall (fun f => 0 <= f < 2 ^ 31) frequencies ->
  Z.of_nat (length frequencies) <= 2 ^ Z.of_nat maxbits ->
  exists lengths, ZopfliCalculateBitLengths frequencies maxbits = Ret lengths /\ code_lengths frequencies maxbits lengths.
Proof.
  intros Hm Hf Hn. pose proof (ZopfliLengthLimitedCodeLengths_spec frequencies maxbits Hm Hf) as H.
  assert (forall fs i, (length (make_leaves fs i) <= length fs)%nat) as Hl.
  { induction fs as [|f fs IH]; intros i; [done|]. cbn [make_leaves]. specialize (IH (i + 1)). destruct (f =? 0); simpl; lia. }
  specialize (Hl frequencies 0). rewrite (proj2 (Z.ltb_ge _ _)) in H by (unfold numsymbols; lia).
  destruct H as (lengths & Hlen & Hc). exists lengths. split; [|done].
  unfold ZopfliCalculateBitLengths. by rewrite Hlen.
Qed.

(** How many symbols of a histogram occur. *)
Definition occurring (frequencies : list Z) : Z := Z.of_nat (length (filter (fun f => f <> 0) frequencies)).

Lemma numsymbols_occurring frequencies i : numsymbols (make_leaves frequencies i) = occurring frequencies.
Proof.
  unfold numsymbols, occurring. f_equal. revert i. induction frequencies as [|f fs IH]; intros i; [done|].
  cbn [make_leaves]. rewrite filter_cons. destruct (Z.eqb_spec f 0) as [->|Hf].
  - rewrite decide_False by (intros H; by apply H). apply IH.
  - rewrite decide_True by done. simpl. f_equal. apply IH.
Qed.

(** C10. Length-limited code lengths. For every histogram of counts below 2 ^ 31, and
    every limit [maxbits] of 1 to 31, the function ends, its pool of chain nodes never runs out, and it answers either an error, exactly
    when more symbols occur than there are codes of [maxbits] bits, or lengths
    of at most [maxbits] bits that are zero exactly for the symbols that do not
    occur, and that with two symbols or more fill the code space. *)
Theorem length_limited_code_lengths {sort : Qsort} frequencies maxbits
    (Hmax : (1 <= maxbits <= 31)%nat) (Hfreq : Forall (fun f => 0 <= f < 2 ^ 31) frequencies) :
  if 2 ^ Z.of_nat maxbits <? occurring frequencies
  then ZopfliLengthLimitedCodeLengths frequencies maxbits = Ret (1, replicate (length frequencies) 0)
  else exists lengths, ZopfliLengthLimitedCodeLengths frequencies maxbits = Ret (0, lengths) /\
    Forall2 (fun f len => (f = 0 <-> len = 0) /\ 0 <= len <= Z.of_nat maxbits) frequencies lengths /\
    lengths_ok (Z.of_nat maxbits) lengths /\
    (2 <= occurring frequencies -> kraft_upto lengths (Z.of_nat maxbits) (Z.of_nat maxbits) = 2 ^ Z.of_nat maxbits).
Proof.
  pose proof (ZopfliLengthLimitedCodeLengths_spec frequencies maxbits Hmax Hfreq) as H.
  rewrite numsymbols_occurring in H. case_match; [exact H|].
  destruct H as (lengths & Hr & Hc). exists lengths. split; [done|].
  split; [apply Hc|]. split; [by eapply code_lengths_ok|]. rewrite (cl_kraft _ _ _ Hc), <-(numsymbols_occurring _ 0).
  unfold numsymbols. destruct (make_leaves frequencies 0) as [|? [|? ?]]; simpl length; lia.
Qed.

Lemma length_limited_code_lengths_witness :
  ZopfliLengthLimitedCodeLengths (sort := sorting) [1; 1; 1; 1; 1] 2 = Ret (1, [0; 0; 0; 0; 0]) /\
  exists lengths, ZopfliLengthLimitedCodeLengths (sort := sorting) [1; 1; 2; 0; 4; 8; 16] 3 = Ret (0, lengths) /\
    kraft_upto lengths 3 3 = 8.
Proof.
  pose proof (length_limited_code_lengths (sort := sorting) [1; 1; 1; 1; 1] 2) as H1.
  pose proof (length_limited_code_lengths (sort := sorting) [1; 1; 2; 0; 4; 8; 16] 3) as H2.
  split.
  - apply H1; [lia|]. repeat (apply Forall_cons; split; [lia|]). apply Forall_nil. exact I.
  - destruct H2 as (lengths & Hr & _ & _ & Hk); [lia|repeat (apply Forall_cons; split; [lia|]); apply Forall_nil; exact I|].
    exists lengths. split; [exact Hr|]. apply Hk. vm_compute. discriminate.
Defined.
