(* ===== verification/Inflate.v ===== *)
(** * Inflate

    A decoder of the deflate format, written from RFC 1951 on lists of bits,
    as the specification of what the compressor writes; it is not code of the
    repository. *)

From S2P Require Import Prelude ZopfliUtil ZopfliBits ZopfliTree.

Local Open Scope Z_scope.

(** ** Reading bits *)

Fixpoint strip_prefix (p l : list bool) : option (list bool) :=
  match p, l with
  | [], _ => Some l
  | x :: p', y :: l' => if Bool.eqb x y then strip_prefix p' l' else None
  | _, [] => None
  end.

(** An unsigned number of [n] bits, the least significant first. *)
Fixpoint read_bits (n : nat) (bits : list bool) : option (Z * list bool) :=
  match n with
  | O => Some (0, bits)
  | S n' =>
      match bits with
      | [] => None
      | b :: bits' => '(v, rest) ← read_bits n' bits'; Some (Z.b2z b + 2 * v, rest)
      end
  end.

(** The symbol whose code comes next. *)
Fixpoint find_symbol (lengths : list Z) (candidates : list nat) (bits : list bool) : option (Z * list bool) :=
  match candidates with
  | [] => None
  | i :: candidates' =>
      if 0 <? table_at lengths (Z.of_nat i) then
        match strip_prefix (code_bits lengths i) bits with
        | Some rest => Some (Z.of_nat i, rest)
        | None => find_symbol lengths candidates' bits
        end
      else find_symbol lengths candidates' bits
  end.

Definition read_symbol (lengths : list Z) (bits : list bool) : option (Z * list bool) :=
  find_symbol lengths (seq 0 (length lengths)) bits.

(** ** Compressed data *)

(** The last [dist] bytes of the output, repeated to [len] bytes. *)
Fixpoint copy_match (len : nat) (dist : Z) (output : list Z) : option (list Z) :=
  match len with
  | O => Some output
  | S len' =>
      if (1 <=? dist) && (dist <=? Z.of_nat (length output)) then
        b ← output !! Z.to_nat (Z.of_nat (length output) - dist);
        copy_match len' dist (output ++ [b])
      else None
  end.

(** The symbols of a block, up to the end of block. *)
Fixpoint inflate_data (fuel : nat) (ll_lengths d_lengths : list Z) (bits : list bool) (output : list Z) :
    option (list Z * list bool) :=
  match fuel with
  | O => None
  | S f =>
      '(sym, bits) ← read_symbol ll_lengths bits;
      if sym <? 256 then inflate_data f ll_lengths d_lengths bits (output ++ [sym])
      else if sym =? 256 then Some (output, bits)
      else if 285 <? sym then None
      else
        '(extra, bits) ← read_bits (Z.to_nat (table_at length_extra (sym - 257))) bits;
        let len := table_at length_base (sym - 257) + extra in
        '(dsym, bits) ← read_symbol d_lengths bits;
        if 29 <? dsym then None
        else
          '(dextra, bits) ← read_bits (Z.to_nat (table_at dist_extra dsym)) bits;
          let dist := table_at dist_base dsym + dextra in
          output ← copy_match (Z.to_nat len) dist output;
          inflate_data f ll_lengths d_lengths bits output
  end.

(** ** Code lengths of a dynamic block *)

Definition code_length_order : list nat := [16; 17; 18; 0; 8; 7; 9; 6; 10; 5; 11; 4; 12; 3; 13; 2; 14; 1; 15]%nat.

Fixpoint read_code_lengths (order : list nat) (bits : list bool) (clcl : list Z) : option (list Z * list bool) :=
  match order with
  | [] => Some (clcl, bits)
  | i :: order' => '(len, bits) ← read_bits 3 bits; read_code_lengths order' bits (<[i := len]> clcl)
  end.

(** Lengths, run by run, until there are [total] of them. *)
Fixpoint read_lengths (fuel total : nat) (clcl : list Z) (bits : list bool) (lengths : list Z) :
    option (list Z * list bool) :=
  if (total <=? length lengths)%nat then
    if (length lengths =? total)%nat then Some (lengths, bits) else None
  else
    match fuel with
    | O => None
    | S f =>
        '(sym, bits) ← read_symbol clcl bits;
        if sym <? 16 then read_lengths f total clcl bits (lengths ++ [sym])
        else if sym =? 16 then
          previous ← last lengths;
          '(extra, bits) ← read_bits 2 bits;
          read_lengths f total clcl bits (lengths ++ replicate (Z.to_nat (3 + extra)) previous)
        else if sym =? 17 then
          '(extra, bits) ← read_bits 3 bits;
          read_lengths f total clcl bits (lengths ++ replicate (Z.to_nat (3 + extra)) 0)
        else
          '(extra, bits) ← read_bits 7 bits;
          read_lengths f total clcl bits (lengths ++ replicate (Z.to_nat (11 + extra)) 0)
    end.

Definition read_trees (bits : list bool) : option (list Z * list Z * list bool) :=
  '(hlit, bits) ← read_bits 5 bits;
  '(hdist, bits) ← read_bits 5 bits;
  '(hclen, bits) ← read_bits 4 bits;
  '(clcl, bits) ← read_code_lengths (take (Z.to_nat (hclen + 4)) code_length_order) bits (replicate 19 0);
  let nlit := Z.to_nat (hlit + 257) in
  let total := (nlit + Z.to_nat (hdist + 1))%nat in
  '(lengths, bits) ← read_lengths total total clcl bits [];
  Some (take nlit lengths, drop nlit lengths, bits).

Definition fixed_ll_lengths : list Z :=
  replicate 144 8 ++ replicate 112 9 ++ replicate 24 7 ++ replicate 8 8.
Definition fixed_d_lengths : list Z := replicate 32 5.

(** ** Blocks *)

Fixpoint read_bytes (n : nat) (bits : list bool) : option (list Z * list bool) :=
  match n with
  | O => Some ([], bits)
  | S n' => '(b, bits) ← read_bits 8 bits; '(bs, bits) ← read_bytes n' bits; Some (b :: bs, bits)
  end.

(** A stored block: the bits left before the next byte are skipped; the input
    is a whole number of bytes. *)
Definition inflate_stored (bits : list bool) (output : list Z) : option (list Z * list bool) :=
  let bits := drop (length bits mod 8) bits in
  '(len, bits) ← read_bits 16 bits;
  '(nlen, bits) ← read_bits 16 bits;
  if nlen =? 65535 - len then
    '(bs, bits) ← read_bytes (Z.to_nat len) bits;
    Some (output ++ bs, bits)
  else None.

Definition inflate_block (bits : list bool) (output : list Z) : option (bool * list Z * list bool) :=
  '(final, bits) ← read_bits 1 bits;
  '(btype, bits) ← read_bits 2 bits;
  let done r := '(output, bits) ← r; Some (final =? 1, output, bits) in
  if btype =? 0 then done (inflate_stored bits output)
  else if btype =? 1 then done (inflate_data (length bits) fixed_ll_lengths fixed_d_lengths bits output)
  else if btype =? 2 then
    '(ll_lengths, d_lengths, bits) ← read_trees bits;
    done (inflate_data (length bits) ll_lengths d_lengths bits output)
  else None.

(** Blocks up to the final one; [fuel] bounds their number. *)
Fixpoint inflate_blocks (fuel : nat) (bits : list bool) (output : list Z) : option (list Z * list bool) :=
  match fuel with
  | O => None
  | S f =>
      '(final, output, bits) ← inflate_block bits output;
      if final : bool then Some (output, bits) else inflate_blocks f bits output
  end.

Definition inflate (input : list Z) : option (list Z) :=
  fst <$> inflate_blocks (8 * length input) (bytes_bits input) [].

(** The data of a stream at the start of the input, and the bytes after it. *)
Definition inflate_prefix (input : list Z) : option (list Z * list Z) :=
  '(output, bits) ← inflate_blocks (8 * length input) (bytes_bits input) [];
  Some (output, drop (length input - length bits / 8) input).

(** ** Reading what was written *)

Lemma strip_prefix_spec p l r : strip_prefix p l = Some r <-> l = p ++ r.
Proof.
  revert l. induction p as [|x p IH]; intros l; [simpl; split; [by intros [= ->]|by intros ->]|].
  destruct l as [|y l]; [by split|]. simpl. destruct (Bool.eqb x y) eqn:E.
  - apply Bool.eqb_prop in E as ->. rewrite IH. split; [by intros ->|by intros [= ->]].
  - split; [done|]. intros [= -> _]. by rewrite Bool.eqb_reflx in E.
Qed.

Lemma read_bits_lsb v n rest : 0 <= v < 2 ^ Z.of_nat n ->
  read_bits n (lsb_bits v (Z.of_nat n) ++ rest) = Some (v, rest).
Proof.
  revert v. induction n as [|n IH]; intros v Hv.
  - simpl in *. by replace v with 0 by lia.
  - rewrite Nat2Z.inj_succ, Z.pow_succ_r in Hv by lia.
    assert (lsb_bits v (Z.of_nat (S n)) = Z.testbit v 0 :: lsb_bits (v / 2) (Z.of_nat n)) as ->.
    { unfold lsb_bits. rewrite seqZ_cons by lia. rewrite fmap_cons. f_equal.
      rewrite Nat2Z.inj_succ, Z.pred_succ, <-(fmap_add_seqZ 1 0), <-list_fmap_compose.
      apply list_fmap_ext. intros k i Hk. apply lookup_seqZ in Hk as [-> Hk]. unfold compose.
      rewrite <-Z.div2_div, Z.div2_spec, Z.shiftr_spec by lia. f_equal. lia. }
    cbn [app read_bits]. rewrite IH by (split; [apply Z.div_pos|apply Z.div_lt_upper_bound]; lia).
    cbn [mbind option_bind]. do 2 f_equal. rewrite Z.bit0_mod. pose proof (Z.div_mod v 2). lia.
Qed.

Lemma read_symbol_spec m lengths i rest :
  lengths_ok m lengths -> (i < length lengths)%nat -> 0 < table_at lengths (Z.of_nat i) ->
  read_symbol lengths (code_bits lengths i ++ rest) = Some (Z.of_nat i, rest).
Proof.
  intros Hok Hi Hp. unfold read_symbol.
  assert (forall c, Forall (fun j => (j < length lengths)%nat) c -> i ∈ c ->
    find_symbol lengths c (code_bits lengths i ++ rest) = Some (Z.of_nat i, rest)) as H.
  { induction c as [|j c IH]; [by intros _ ?%elem_of_nil|]. intros [Hj Hc]%Forall_cons Hin. cbn [find_symbol].
    destruct (decide (j = i)) as [->|Hne].
    - rewrite (proj2 (Z.ltb_lt _ _) Hp). by rewrite (proj2 (strip_prefix_spec _ _ rest)).
    - apply elem_of_cons in Hin as [?|Hin]; [done|]. destruct (Z.ltb_spec 0 (table_at lengths (Z.of_nat j))) as [Hlj|]; [|by apply IH].
      destruct (strip_prefix _ _) as [r|] eqn:E; [|by apply IH]. exfalso. apply Hne.
      apply strip_prefix_spec in E.
      destruct (prefix_weak_total (code_bits lengths j) (code_bits lengths i) (code_bits lengths i ++ rest)) as [Hpre|Hpre].
      + exists r. exact E.
      + by exists rest.
      + by apply (code_bits_prefix_free m lengths j i Hok).
      + symmetry. by apply (code_bits_prefix_free m lengths i j Hok). }
  apply H; [|by apply elem_of_seq; lia]. apply Forall_forall. intros j Hj%elem_of_seq. lia.
Qed.
