(* ===== verification/ZopfliDeflate.v ===== *)
(** * Zopfli: blocks

    The part of [deflate.cc] that writes blocks: the code lengths of a dynamic
    block with their run-length code, the symbols of a block, stored blocks,
    and the sizes that the block splitter asks for. The arrays [litlens] and
    [dists] are a store. Messages for [verbose] are left out. *)

From S2P Require Import Prelude ZopfliUtil ZopfliBits ZopfliTree Katajainen PackageMerge CodeLengths Inflate.

Local Open Scope Z_scope.

(** ** LZ77 data *)

Record ZopfliLZ77Store : Type := MkStore { litlens : list Z; dists : list Z }.

Definition ZopfliInitLZ77Store : ZopfliLZ77Store := MkStore [] [].

Definition ZopfliCopyLZ77Store (source : ZopfliLZ77Store) : ZopfliLZ77Store := MkStore (litlens source) (dists source).

(** The parameters are [unsigned short]. *)
Definition ZopfliStoreLitLenDist (length dist : Z) (store : ZopfliLZ77Store) : ZopfliLZ77Store :=
  MkStore (litlens store ++ [u16 length]) (dists store ++ [u16 dist]).

(** [litlens[i]] and [dists[i]]. *)
Definition item (store : ZopfliLZ77Store) (i : Z) : outcome (Z * Z) :=
  dist ← index (dists store) i; litlen ← index (litlens store) i; Ret (litlen, dist).

(** [count[i]++] *)
Definition increment (count : list Z) (i : Z) : outcome (list Z) :=
  c ← index count i; Ret (<[Z.to_nat i := u64 (c + 1)]> count).

Definition count_item (store : ZopfliLZ77Store) (i : Z) (counts : list Z * list Z) : outcome (list Z * list Z) :=
  let '(ll_count, d_count) := counts in
  '(litlen, dist) ← item store i;
  if dist =? 0 then
    ll_count ← increment ll_count litlen; Ret (ll_count, d_count)
  else
    lls ← ZopfliGetLengthSymbol litlen;
    ll_count ← increment ll_count lls;
    d_count ← increment d_count (ZopfliGetDistSymbol dist);
    Ret (ll_count, d_count).

Definition ZopfliLZ77Counts (store : ZopfliLZ77Store) (start end_ : Z) : outcome (list Z * list Z) :=
  '(ll_count, d_count) ← for_each (seqZ start (end_ - start)) (count_item store) (replicate 288 0, replicate 32 0);
  Ret (<[256%nat := 1]> ll_count, d_count).

(** ** Code lengths *)

(** [for (i = lo; i < hi; i++) table[i] = v] *)
Definition fill (lo hi : nat) (v : Z) (table : list Z) : list Z :=
  foldl (fun t i => <[i := v]> t) table (seq lo (hi - lo)).

(** It writes the whole of both arrays. *)
Definition GetFixedTree : list Z * list Z :=
  (fill 280 288 8 (fill 256 280 7 (fill 144 256 9 (fill 0 144 8 (replicate 288 0)))), fill 0 32 5 (replicate 32 0)).

(** The first loop; it leaves the function at two. *)
Fixpoint num_dist_codes (d_lengths : list Z) (i : list Z) (num : Z) : Z :=
  match i with
  | [] => num
  | i :: is_ =>
      let num := if table_at d_lengths i =? 0 then num else num + 1 in
      if 2 <=? num then num else num_dist_codes d_lengths is_ num
  end.

Definition PatchDistanceCodesForBuggyDecoders (d_lengths : list Z) : list Z :=
  let num := num_dist_codes d_lengths (seqZ 0 30) 0 in
  if 2 <=? num then d_lengths
  else if num =? 0 then <[0%nat := 1]> (<[1%nat := 1]> d_lengths)
  else <[(if table_at d_lengths 0 =? 0 then 0%nat else 1%nat) := 1]> d_lengths.

(** [while (k > 0 && lengths[base + k - 1] == 0) k--] *)
Fixpoint trim (lengths : list Z) (base : Z) (k : nat) : nat :=
  match k with
  | O => O
  | S k' => if table_at lengths (base + Z.of_nat k') =? 0 then trim lengths base k' else k
  end.

(** The lengths equal to the first. *)
Fixpoint run_length (x : Z) (l : list Z) : nat :=
  match l with
  | [] => O
  | y :: l' => if x =? y then S (run_length x l') else O
  end.

(** [while (repeat >= 6)]: codes and what remains. *)
Fixpoint repeat_sixes (repeat : nat) : list (Z * Z) * nat :=
  match repeat with
  | S (S (S (S (S (S r))))) => let '(codes, remaining) := repeat_sixes r in ((16, 6 - 3) :: codes, remaining)
  | _ => ([], repeat)
  end.

(** The codes of one run, with their extra bits, and how much of it they are. *)
Definition encode_run (x : Z) (count : nat) : list (Z * Z) * nat :=
  if (4 <=? count)%nat || (3 <=? count)%nat && (x =? 0) then
    if x =? 0 then
      if (10 <? count)%nat then
        let count := if (138 <? count)%nat then 138%nat else count in
        ([(18, Z.of_nat count - 11)], count)
      else ([(17, Z.of_nat count - 3)], count)
    else
      let '(sixes, remaining) := repeat_sixes (count - 1) in
      let '(three, remaining) := if (3 <=? remaining)%nat then ([(16, 3 - 3)], (remaining - 3)%nat) else ([], remaining) in
      ((x, 0) :: sixes ++ three ++ replicate remaining (x, 0), count)
  else ([(x, 0)], 1%nat).

(** [rle] and [rle_bits], with the assertion on the last code. *)
Fixpoint encode_lengths (fuel : nat) (lld_lengths : list Z) : outcome (list (Z * Z)) :=
  match lld_lengths with
  | [] => Ret []
  | x :: _ =>
      match fuel with
      | O => Undefined
      | S f =>
          let '(codes, used) := encode_run x (run_length x lld_lengths) in
          match last codes with
          | Some (code, _) =>
              if code <=? 18 then rest ← encode_lengths f (drop used lld_lengths); Ret (codes ++ rest) else Aborts
          | None => Undefined
          end
      end
  end.

Definition order : list Z := [16; 17; 18; 0; 8; 7; 9; 6; 10; 5; 11; 4; 12; 3; 13; 2; 14; 1; 15].

(** The lengths of both trees in one array, with the assertion. *)
Definition lld_lengths (ll_lengths d_lengths : list Z) (hlit hdist : Z) : outcome (list Z) :=
  let lld := (fun i => if i <? 257 + hlit then table_at ll_lengths i else table_at d_lengths (i - 257 - hlit))
    <$> seqZ 0 (hlit + 257 + hdist + 1) in
  if forallb (fun x => x <? 16) lld then Ret lld else Aborts.

(** A code of [rle], with its extra bits. *)
Definition add_code (clsymbols clcl : list Z) (c : Z * Z) (o : bitout) : outcome bitout :=
  let '(code, bits) := c in
  o ← AddHuffmanBits (table_at clsymbols code) (table_at clcl code) o;
  if code =? 16 then AddBits bits 2 o
  else if code =? 17 then AddBits bits 3 o
  else if code =? 18 then AddBits bits 7 o
  else Ret o.

Section deflate.
Context {sort : Qsort}.

Definition AddDynamicTree (ll_lengths d_lengths : list Z) (o : bitout) : outcome bitout :=
  let hlit := Z.of_nat (trim ll_lengths 257 29) in
  let hdist := Z.of_nat (trim d_lengths 1 29) in
  lld ← lld_lengths ll_lengths d_lengths hlit hdist;
  rle ← encode_lengths (length lld) lld;
  clcounts ← for_each rle (fun c counts => increment counts c.1) (replicate 19 0);
  clcl ← ZopfliCalculateBitLengths clcounts 7;
  clsymbols ← ZopfliLengthsToSymbols clcl 7;
  let hclen := Z.of_nat (trim (table_at clcounts <$> order) 4 15) in
  o ← AddBits hlit 5 o;
  o ← AddBits hdist 5 o;
  o ← AddBits hclen 4 o;
  o ← for_each (seqZ 0 (hclen + 4)) (fun i o => AddBits (table_at clcl (table_at order i)) 3 o) o;
  for_each rle (add_code clsymbols clcl) o.

(** Its size in bits: [size_t] arithmetic. *)
Definition CalculateTreeSize (ll_lengths d_lengths : list Z) : outcome Z :=
  o ← AddDynamicTree ll_lengths d_lengths (MkOut 0 []);
  Ret (u64 (Z.of_nat (length (out o)) * 8 + Z.land (bp o) 7)).

(** ** Symbols *)

Definition add_item (store : ZopfliLZ77Store) (ll_symbols ll_lengths d_symbols d_lengths : list Z)
    (i : Z) (s : Z * bitout) : outcome (Z * bitout) :=
  let '(testlength, o) := s in
  '(litlen, dist) ← item store i;
  if dist =? 0 then
    if negb (litlen <? 256) then Aborts
    else if negb (0 <? table_at ll_lengths litlen) then Aborts
    else
      o ← AddHuffmanBits (table_at ll_symbols litlen) (table_at ll_lengths litlen) o;
      Ret (u64 (testlength + 1), o)
  else
    lls ← ZopfliGetLengthSymbol litlen;
    let ds := ZopfliGetDistSymbol dist in
    if negb ((3 <=? litlen) && (litlen <=? 288)) then Aborts
    else if negb (0 <? table_at ll_lengths lls) then Aborts
    else if negb (0 <? table_at d_lengths ds) then Aborts
    else
      o ← AddHuffmanBits (table_at ll_symbols lls) (table_at ll_lengths lls) o;
      value ← ZopfliGetLengthExtraBitsValue litlen;
      bits ← ZopfliGetLengthExtraBits litlen;
      o ← AddBits value bits o;
      o ← AddHuffmanBits (table_at d_symbols ds) (table_at d_lengths ds) o;
      o ← AddBits (ZopfliGetDistExtraBitsValue dist) (ZopfliGetDistExtraBits dist) o;
      Ret (u64 (testlength + litlen), o).

Definition AddLZ77Data (store : ZopfliLZ77Store) (lstart lend expected_data_size : Z)
    (ll_symbols ll_lengths d_symbols d_lengths : list Z) (o : bitout) : outcome bitout :=
  '(testlength, o) ← for_each (seqZ lstart (lend - lstart))
    (add_item store ll_symbols ll_lengths d_symbols d_lengths) (0, o);
  if (expected_data_size =? 0) || (testlength =? expected_data_size) then Ret o else Aborts.

Definition add_item_size (ll_lengths d_lengths : list Z) (store : ZopfliLZ77Store) (i result : Z) : outcome Z :=
  '(litlen, dist) ← item store i;
  if dist =? 0 then len ← index ll_lengths litlen; Ret (u64 (result + len))
  else
    lls ← ZopfliGetLengthSymbol litlen;
    bits ← ZopfliGetLengthExtraBits litlen;
    Ret (u64 (result + table_at ll_lengths lls + table_at d_lengths (ZopfliGetDistSymbol dist) + bits +
              ZopfliGetDistExtraBits dist)).

Definition CalculateBlockSymbolSize (ll_lengths d_lengths : list Z) (store : ZopfliLZ77Store) (lstart lend : Z) :
    outcome Z :=
  result ← for_each (seqZ lstart (lend - lstart)) (add_item_size ll_lengths d_lengths store) 0;
  Ret (u64 (result + table_at ll_lengths 256)).

(** The lengths of a dynamic block. *)
Definition dynamic_lengths (store : ZopfliLZ77Store) (lstart lend : Z) :
    outcome (list Z * list Z * list Z * list Z) :=
  '(ll_counts, d_counts) ← ZopfliLZ77Counts store lstart lend;
  ll_lengths ← ZopfliCalculateBitLengths ll_counts 15;
  d_lengths ← ZopfliCalculateBitLengths d_counts 15;
  Ret (ll_counts, d_counts, ll_lengths, PatchDistanceCodesForBuggyDecoders d_lengths).

(** The sum is a [double], exact below 2 ^ 53; [btype] is 1 or 2. *)
Definition ZopfliCalculateBlockSize (store : ZopfliLZ77Store) (lstart lend btype : Z) : outcome Z :=
  if negb ((btype =? 1) || (btype =? 2)) then Aborts
  else
    '(ll_lengths, d_lengths, result) ←
      (if btype =? 1 then Ret (GetFixedTree, 3)
       else
         '(_, _, ll_lengths, d_lengths) ← dynamic_lengths store lstart lend;
         size ← CalculateTreeSize ll_lengths d_lengths;
         Ret (ll_lengths, d_lengths, 3 + size));
    size ← CalculateBlockSymbolSize ll_lengths d_lengths store lstart lend;
    Ret (result + size).

(** ** Blocks *)

Definition AddLZ77Block (btype final : Z) (store : ZopfliLZ77Store) (lstart lend expected_data_size : Z)
    (o : bitout) : outcome bitout :=
  o ← AddBit final o;
  o ← AddBit (Z.land btype 1) o;
  o ← AddBit (Z.shiftr (Z.land btype 2) 1) o;
  '(ll_lengths, d_lengths, o) ←
    (if btype =? 1 then Ret (GetFixedTree, o)
     else if negb (btype =? 2) then Aborts
     else
       '(ll_counts, d_counts, ll_lengths, d_lengths) ← dynamic_lengths store lstart lend;
       o ← AddDynamicTree ll_lengths d_lengths o;
       if forallb (fun i => (table_at ll_counts i =? 0) || (0 <? table_at ll_lengths i)) (seqZ 0 288) &&
          forallb (fun i => (table_at d_counts i =? 0) || (0 <? table_at d_lengths i)) (seqZ 0 32)
       then Ret (ll_lengths, d_lengths, o) else Aborts);
  ll_symbols ← ZopfliLengthsToSymbols ll_lengths 15;
  d_symbols ← ZopfliLengthsToSymbols d_lengths 15;
  o ← AddLZ77Data store lstart lend expected_data_size ll_symbols ll_lengths d_symbols d_lengths o;
  AddHuffmanBits (table_at ll_symbols 256) (table_at ll_lengths 256) o.

(** [in_[instart..inend)]: a read outside is undefined; [nlen] is an
    [unsigned short]. *)
Definition DeflateNonCompressedBlock (final : Z) (in_ : list Z) (instart inend : Z) (o : bitout) : outcome bitout :=
  let blocksize := u64 (inend - instart) in
  let nlen := u16 (Z.lnot blocksize) in
  if negb (blocksize <? 65536) then Aborts
  else
    o ← AddBit final o;
    o ← AddBit 0 o;
    o ← AddBit 0 o;
    let o := MkOut 0 (out o) in
    let o := append_data (blocksize mod 256) o in
    let o := append_data (blocksize / 256 mod 256) o in
    let o := append_data (nlen mod 256) o in
    let o := append_data (nlen / 256 mod 256) o in
    for_each (seqZ instart (inend - instart)) (fun i o => b ← index in_ i; Ret (append_data b o)) o.

(** The loop of [DeflateSplittingLast] over the split points of a store. *)
Definition add_split_blocks (btype : Z) (final : bool) (store : ZopfliLZ77Store) (splitpoints : list Z) (o : bitout) :
    outcome bitout :=
  let npoints := Z.of_nat (length splitpoints) in
  for_each (seqZ 0 (npoints + 1)) (fun i o =>
    start ← (if i =? 0 then Ret 0 else index splitpoints (i - 1));
    end_ ← (if i =? npoints then Ret (Z.of_nat (length (dists store))) else index splitpoints i);
    AddLZ77Block btype (Z.b2z ((i =? npoints) && final)) store start end_ 0 o) o.
End deflate.

Definition hello : ZopfliLZ77Store := MkStore [104; 101; 108; 108; 111; 32; 4; 33] [0; 0; 0; 0; 0; 0; 6; 0].

Example fixed_block_example :
  (o ← AddLZ77Block (sort := sorting) 1 1 hello 0 8 11 (MkOut 0 []); Ret (inflate (out o))) =
    Ret (Some [104; 101; 108; 108; 111; 32; 104; 101; 108; 108; 33]).
Proof. vm_compute. reflexivity. Qed.

Example dynamic_block_example :
  (o ← AddLZ77Block (sort := sorting) 2 1 hello 0 8 0 (MkOut 0 []); Ret (inflate (out o), ZopfliCalculateBlockSize (sort := sorting) hello 0 8 2)) =
    Ret (Some [104; 101; 108; 108; 111; 32; 104; 101; 108; 108; 33], Ret 194).
Proof. vm_compute. reflexivity. Qed.
