(* ===== verification/ZopfliBlocks.v ===== *)
(** * Zopfli: blocks, proved

    What [AddLZ77Block] and [DeflateNonCompressedBlock] write, [inflate_block]
    reads back: the data that the LZ77 items stand for. *)

From S2P Require Import Prelude ZopfliUtil ZopfliBits ZopfliTree Katajainen PackageMerge CodeLengths Inflate ZopfliDeflate.

Local Open Scope Z_scope.

(** ** Items *)

(** The items of a range of a store: a length or literal, and a distance. *)
Definition block_items (store : ZopfliLZ77Store) (lstart lend : Z) : list (Z * Z) :=
  take (Z.to_nat (lend - lstart)) (drop (Z.to_nat lstart) (zip (litlens store) (dists store))).

Definition range_ok (store : ZopfliLZ77Store) (lstart lend : Z) : Prop :=
  0 <= lstart <= lend /\ lend <= Z.of_nat (length (zip (litlens store) (dists store))).

(** A literal, or a match of the format. *)
Definition item_ok (x : Z * Z) : Prop :=
  x.2 = 0 /\ 0 <= x.1 < 256 \/ 1 <= x.2 <= 32768 /\ 3 <= x.1 <= 258.

(** The data that items stand for, after [output]. *)
Fixpoint lz_decode (items : list (Z * Z)) (output : list Z) : option (list Z) :=
  match items with
  | [] => Some output
  | (litlen, dist) :: items' =>
      if dist =? 0 then lz_decode items' (output ++ [litlen])
      else output ← copy_match (Z.to_nat litlen) dist output; lz_decode items' output
  end.

Definition item_size (x : Z * Z) : Z := if x.2 =? 0 then 1 else x.1.

Lemma item_lookup store i x : zip (litlens store) (dists store) !! i = Some x -> item store (Z.of_nat i) = Ret x.
Proof.
  destruct x as [a b]. intros [H1 H2]%lookup_zip_Some. unfold item, index.
  by rewrite (proj2 (Z.ltb_ge _ _)), Nat2Z.id, H1, H2 by lia.
Qed.

(** A loop over a range is a loop over its items. *)
Lemma for_each_items {T} store lstart lend (f : Z -> T -> outcome T) (g : Z * Z -> T -> outcome T) s :
  range_ok store lstart lend ->
  (forall i s, f i s = (x ← item store i; g x s)) ->
  for_each (seqZ lstart (lend - lstart)) f s = for_each (block_items store lstart lend) g s.
Proof.
  intros [Hr Hl] Hf. unfold block_items. remember (Z.to_nat (lend - lstart)) as n eqn:Hn.
  replace (lend - lstart) with (Z.of_nat n) by lia. assert (lend = lstart + Z.of_nat n) as -> by lia. clear Hn.
  revert lstart s Hr Hl. induction n as [|n IH]; intros a s Hr Hl; [done|].
  destruct (lookup_lt_is_Some_2 (zip (litlens store) (dists store)) (Z.to_nat a) ltac:(lia)) as [x Hx].
  rewrite (drop_S _ _ _ Hx), seqZ_cons by lia. cbn [take for_each]. rewrite Hf.
  pose proof (item_lookup _ _ _ Hx) as Hi. rewrite Z2Nat.id in Hi by lia. rewrite Hi, outcome_bind_ret.
  destruct (g x s) as [s'| | |]; try done. rewrite !outcome_bind_ret, Nat2Z.inj_succ, Z.pred_succ.
  replace (S (Z.to_nat a)) with (Z.to_nat (Z.succ a)) by lia. apply IH; lia.
Qed.

Lemma length_block_items store lstart lend : range_ok store lstart lend ->
  Z.of_nat (length (block_items store lstart lend)) = lend - lstart.
Proof. intros [Hr Hl]. unfold block_items. rewrite length_take, length_drop. lia. Qed.

(** ** Symbols *)

Lemma table_at_symbol_codes lengths i : 0 <= i < Z.of_nat (length lengths) -> 0 < table_at lengths i ->
  table_at (symbol_codes lengths) i = canonical_code lengths (Z.to_nat i).
Proof.
  intros Hi Hp. assert (exists k, i = Z.of_nat k) as [k ->] by (exists (Z.to_nat i); lia).
  rewrite table_at_nat, Nat2Z.id. unfold symbol_codes. rewrite list_lookup_fmap, lookup_seq_lt by lia.
  cbn [fmap option_fmap option_map default Nat.add]. unfold symbol_code. by rewrite (proj2 (Z.eqb_neq _ _)) by lia.
Qed.

(** A symbol is written as its code. *)
Lemma symbol_emits lengths i : 0 <= i < Z.of_nat (length lengths) -> 0 < table_at lengths i ->
  emits (AddHuffmanBits (table_at (symbol_codes lengths) i) (table_at lengths i)) (code_bits lengths (Z.to_nat i)).
Proof.
  intros Hi Hp. rewrite table_at_symbol_codes by done. unfold code_bits. rewrite Z2Nat.id by lia.
  apply AddHuffmanBits_emits.
Qed.

Lemma read_extra v n rest : 0 <= n <= 13 -> 0 <= v < 2 ^ n ->
  read_bits (Z.to_nat n) (lsb_bits v n ++ rest) = Some (v, rest).
Proof. intros Hn Hv. rewrite <-(Z2Nat.id n) at 2 by lia. apply read_bits_lsb. by rewrite Z2Nat.id by lia. Qed.

Lemma code_bits_length lengths i : 0 < table_at lengths (Z.of_nat i) -> (0 < length (code_bits lengths i))%nat.
Proof. intros H. pose proof (length_msb_bits (canonical_code lengths i) (table_at lengths (Z.of_nat i)) ltac:(lia)). unfold code_bits. lia. Qed.

Section symbols.
Context (ll d : list Z).
Context (Hll : lengths_ok 15 ll) (Hd : lengths_ok 15 d) (Hlen : length ll = 288%nat) (Hdlen : length d = 32%nat).

(** Every symbol of an item has a code. *)
Definition has_codes (x : Z * Z) : Prop :=
  if x.2 =? 0 then 0 < table_at ll x.1
  else (forall lls, ZopfliGetLengthSymbol x.1 = Ret lls -> 0 < table_at ll lls) /\
       0 < table_at d (ZopfliGetDistSymbol x.2).

Definition ret_or (m : outcome Z) : Z := match m with Ret v => v | _ => 0 end.

Definition item_bits (x : Z * Z) : list bool :=
  if x.2 =? 0 then code_bits ll (Z.to_nat x.1)
  else
    code_bits ll (Z.to_nat (ret_or (ZopfliGetLengthSymbol x.1))) ++
    lsb_bits (ret_or (ZopfliGetLengthExtraBitsValue x.1)) (ret_or (ZopfliGetLengthExtraBits x.1)) ++
    code_bits d (Z.to_nat (ZopfliGetDistSymbol x.2)) ++
    lsb_bits (ZopfliGetDistExtraBitsValue x.2) (ZopfliGetDistExtraBits x.2).

(** [add_item] after its reads. *)
Definition put_item (x : Z * Z) (s : Z * bitout) : outcome (Z * bitout) :=
  add_item (MkStore [x.1] [x.2]) (symbol_codes ll) ll (symbol_codes d) d 0 s.

Lemma add_item_put store i s :
  add_item store (symbol_codes ll) ll (symbol_codes d) d i s = (x ← item store i; put_item x s).
Proof.
  unfold put_item, add_item. destruct s as [t o]. destruct (item store i) as [[a b]| | |]; [|done..].
  cbn [mbind outcome_bind]. reflexivity.
Qed.

Lemma put_item_emits x t o pre : item_ok x -> has_codes x -> holds o pre ->
  exists o', put_item x (t, o) = Ret (u64 (t + item_size x), o') /\ holds o' (pre ++ item_bits x).
Proof.
  destruct x as [litlen dist]. unfold item_ok, has_codes, item_bits, item_size, put_item, add_item, item. cbn [fst snd].
  change (index (dists (MkStore [litlen] [dist])) 0) with (Ret dist : outcome Z).
  change (index (litlens (MkStore [litlen] [dist])) 0) with (Ret litlen : outcome Z). rewrite !outcome_bind_ret.
  intros Hok Hc Ho. destruct (Z.eqb_spec dist 0) as [->|Hne].
  - destruct Hok as [[_ Hl]|]; [|lia]. rewrite (proj2 (Z.ltb_lt litlen 256)), (proj2 (Z.ltb_lt 0 _)) by (done || lia). cbn [negb].
    destruct (symbol_emits ll litlen ltac:(lia) Hc o pre Ho) as (o' & -> & H'). rewrite outcome_bind_ret. by exists o'.
  - destruct Hok as [[? _]|[Hdist Hl]]; [lia|].
    destruct (length_symbol_ok litlen Hl) as (lls & bits & value & E1 & E2 & E3 & Hs).
    destruct Hc as [Hc1 Hc2]. specialize (Hc1 _ E1). pose proof (symbol_ok_inv _ _ _ _ _ _ _ Hs) as (Hr & _).
    pose proof (symbol_ok_inv _ _ _ _ _ _ _ (dist_symbol_ok dist Hdist)) as (Hdr & _). cbn [length dist_base length_base] in Hr, Hdr.
    rewrite E1, E2, E3. cbn [ret_or]. rewrite !outcome_bind_ret.
    rewrite (proj2 (Z.leb_le 3 litlen)), (proj2 (Z.leb_le litlen 288)), !(proj2 (Z.ltb_lt 0 _)) by (done || lia).
    cbn [negb andb].
    destruct (symbol_emits ll lls ltac:(lia) Hc1 o pre Ho) as (o1 & -> & H1). rewrite !outcome_bind_ret.
    destruct (AddBits_emits value bits o1 _ H1) as (o2 & -> & H2). rewrite outcome_bind_ret.
    destruct (symbol_emits d (ZopfliGetDistSymbol dist) ltac:(lia) Hc2 o2 _ H2) as (o3 & -> & H3). rewrite outcome_bind_ret.
    destruct (AddBits_emits (ZopfliGetDistExtraBitsValue dist) (ZopfliGetDistExtraBits dist) o3 _ H3) as (o4 & -> & H4).
    rewrite outcome_bind_ret. exists o4. split; [done|]. by rewrite <-!app_assoc in H4.
Qed.
Lemma put_items_emits l t o pre : Forall item_ok l -> Forall has_codes l -> holds o pre ->
  exists o', for_each l put_item (u64 t, o) = Ret (u64 (t + total item_size l), o') /\
    holds o' (pre ++ concat (item_bits <$> l)).
Proof.
  intros Hl. revert t o pre. induction Hl as [|x l Hx _ IH]; intros t o pre Hc Ho.
  - exists o. cbn [for_each total foldr fmap list_fmap concat]. by rewrite Z.add_0_r, app_nil_r.
  - apply Forall_cons in Hc as [Hxc Hc]. cbn [for_each].
    destruct (put_item_emits x (u64 t) o pre Hx Hxc Ho) as (o1 & -> & H1). rewrite outcome_bind_ret.
    unfold u64 at 1. unfold u64 at 1. rewrite Zplus_mod_idemp_l. fold (u64 (t + item_size x)).
    destruct (IH (t + item_size x) o1 _ Hc H1) as (o2 & -> & H2). exists o2. rewrite fmap_cons. cbn [total foldr concat].
    rewrite <-Z.add_assoc, app_assoc. by split.
Qed.

Lemma AddLZ77Data_emits store lstart lend expected :
  let l := block_items store lstart lend in
  range_ok store lstart lend -> Forall item_ok l -> Forall has_codes l ->
  expected = 0 \/ expected = u64 (total item_size l) ->
  emits (AddLZ77Data store lstart lend expected (symbol_codes ll) ll (symbol_codes d) d) (concat (item_bits <$> l)).
Proof.
  intros l Hr Hok Hc He o pre Ho. unfold AddLZ77Data.
  rewrite (for_each_items store lstart lend _ put_item) by (done || apply add_item_put). fold l.
  destruct (put_items_emits l 0 o pre Hok Hc Ho) as (o' & Hf & Ho'). change (u64 0) with 0 in Hf. rewrite Hf, outcome_bind_ret.
  exists o'. split; [|done]. destruct He as [->| ->]; [done|]. by rewrite Z.add_0_l, Z.eqb_refl, orb_true_r.
Qed.

(** ** Decoding *)

(** Code lengths that read back every symbol that [ll] and [d] write. *)
Context (ll' d' : list Z).
Context (Hrl : forall i rest, 0 <= i < 288 -> 0 < table_at ll i ->
  read_symbol ll' (code_bits ll (Z.to_nat i) ++ rest) = Some (i, rest)).
Context (Hrd : forall i rest, 0 <= i < 32 -> 0 < table_at d i ->
  read_symbol d' (code_bits d (Z.to_nat i) ++ rest) = Some (i, rest)).

Lemma inflate_item f x rest output output' : item_ok x -> has_codes x -> lz_decode [x] output = Some output' ->
  inflate_data (S f) ll' d' (item_bits x ++ rest) output = inflate_data f ll' d' rest output'.
Proof.
  destruct x as [litlen dist]. unfold item_ok, has_codes, item_bits. cbn [fst snd lz_decode].
  intros Hok Hc Hdec. cbn [inflate_data]. destruct (Z.eqb_spec dist 0) as [->|Hne].
  - destruct Hok as [[_ Hl]|]; [|lia]. rewrite Hrl by (done || lia). cbn [mbind option_bind].
    rewrite (proj2 (Z.ltb_lt litlen 256)) by lia. congruence.
  - destruct Hok as [[? _]|[Hdist Hl]]; [lia|].
    destruct (length_symbol_ok litlen Hl) as (lls & bits & value & E1 & E2 & E3 & Hs).
    destruct Hc as [Hc1 Hc2]. specialize (Hc1 _ E1). pose proof (symbol_ok_inv _ _ _ _ _ _ _ Hs) as (Hr & Hb & Hv & Hbr & Hvr).
    pose proof (symbol_ok_inv _ _ _ _ _ _ _ (dist_symbol_ok dist Hdist)) as (Hdr & Hdb & Hdv & Hdbr & Hdvr).
    cbn [length dist_base length_base] in Hr, Hdr. rewrite Z.sub_0_r in Hdb, Hdv. rewrite E1, E2, E3. cbn [ret_or]. rewrite <-!app_assoc.
    rewrite Hrl by (done || lia). cbn [mbind option_bind].
    rewrite (proj2 (Z.ltb_ge lls 256)), (proj2 (Z.eqb_neq lls 256)), (proj2 (Z.ltb_ge 285 lls)), Hb by lia.
    rewrite read_extra by done. cbn [mbind option_bind]. rewrite Hv, Hrd by (done || lia). cbn [mbind option_bind].
    rewrite (proj2 (Z.ltb_ge 29 _)), Hdb by lia. rewrite read_extra by done. cbn [mbind option_bind]. rewrite Hdv.
    destruct (copy_match _ _ _) as [o|]; [|done]. cbn [mbind option_bind lz_decode] in Hdec |- *. congruence.
Qed.

Lemma inflate_items f l rest output output' : Forall item_ok l -> Forall has_codes l -> 0 < table_at ll 256 ->
  lz_decode l output = Some output' -> (length l < f)%nat ->
  inflate_data f ll' d' (concat (item_bits <$> l) ++ code_bits ll 256 ++ rest) output = Some (output', rest).
Proof.
  intros Hl. revert f output. induction Hl as [|x l Hx _ IH]; intros f output Hc H256 Hdec Hf; (destruct f as [|f]; [simpl in Hf; lia|]).
  - injection Hdec as <-. cbn [fmap list_fmap concat app inflate_data]. change 256%nat with (Z.to_nat 256).
    rewrite Hrl by (done || lia). done.
  - apply Forall_cons in Hc as [Hxc Hc]. rewrite fmap_cons. cbn [concat]. rewrite <-!app_assoc.
    destruct x as [litlen dist]. assert (exists o, lz_decode [(litlen, dist)] output = Some o /\ lz_decode l o = Some output') as (o & H1 & H2).
    { cbn [lz_decode] in Hdec |- *. destruct (dist =? 0); [by eexists|].
      destruct (copy_match _ _ _) as [o|]; [|done]. cbn [mbind option_bind] in Hdec |- *. by exists o. }
    rewrite (inflate_item f _ _ output o Hx Hxc H1). apply IH; [done|done|done|simpl in Hf; lia].
Qed.

Lemma item_bits_length l : Forall item_ok l -> Forall has_codes l -> (length l <= length (concat (item_bits <$> l)))%nat.
Proof.
  induction 1 as [|[litlen dist] l Hx _ IH]; [done|]. intros [Hc Hcs]%Forall_cons. specialize (IH Hcs).
  rewrite fmap_cons. cbn [concat length]. rewrite length_app.
  enough (0 < length (item_bits (litlen, dist)))%nat by lia.
  unfold item_ok, has_codes, item_bits in *. cbn [fst snd] in *. destruct (dist =? 0) eqn:E.
  - destruct Hx as [[_ Hl]|[? _]]; [|apply Z.eqb_eq in E; lia]. apply code_bits_length. by rewrite Z2Nat.id by lia.
  - destruct Hx as [[? _]|[_ Hl]]; [apply Z.eqb_neq in E; lia|].
    destruct (length_symbol_ok litlen Hl) as (lls & bits & value & E1 & _ & _ & Hs). destruct Hc as [Hc _]. specialize (Hc _ E1).
    pose proof (symbol_ok_inv _ _ _ _ _ _ _ Hs) as (Hr & _). rewrite E1, length_app. cbn [ret_or].
    pose proof (code_bits_length ll (Z.to_nat lls)) as Hcl. rewrite Z2Nat.id in Hcl by lia. specialize (Hcl Hc). lia.
Qed.
End symbols.

(** ** A block and its reading *)

(** [f] writes a block that decodes as [decode] says, whatever comes before and
    after it; the whole stream is a number of bytes. *)
Definition writes_block (f : bitout -> outcome bitout) (final : bool) (decode : list Z -> option (list Z)) : Prop :=
  forall o pre, holds o pre -> exists o' bits, f o = Ret o' /\ holds o' (pre ++ bits) /\ bits ≠ [] /\
    forall rest output output', decode output = Some output' -> (length (pre ++ bits ++ rest) mod 8 = 0)%nat ->
      inflate_block (bits ++ rest) output = Some (final, output', rest).

Definition header (btype : Z) (final : bool) (o : bitout) : outcome bitout :=
  o ← AddBit (Z.b2z final) o; o ← AddBit (Z.land btype 1) o; AddBit (Z.shiftr (Z.land btype 2) 1) o.

Lemma header_emits btype final : btype = 0 \/ btype = 1 \/ btype = 2 ->
  emits (header btype final) [final; Z.testbit btype 0; Z.testbit btype 1].
Proof.
  intros Hb. apply (emits_bind _ _ [final] [Z.testbit btype 0; Z.testbit btype 1]); [apply AddBit_emits|].
  apply (emits_bind _ _ [Z.testbit btype 0] [Z.testbit btype 1]); destruct Hb as [->|[->| ->]];
    (apply (AddBit_emits false) || apply (AddBit_emits true)).
Qed.

Definition block_body (btype : Z) (bits : list bool) (output : list Z) : option (list Z * list bool) :=
  if btype =? 0 then inflate_stored bits output
  else if btype =? 1 then inflate_data (length bits) fixed_ll_lengths fixed_d_lengths bits output
  else '(ll_lengths, d_lengths, bits) ← read_trees bits; inflate_data (length bits) ll_lengths d_lengths bits output.

Lemma inflate_header btype final bits output : btype = 0 \/ btype = 1 \/ btype = 2 ->
  inflate_block (final :: Z.testbit btype 0 :: Z.testbit btype 1 :: bits) output =
    ('(output, bits) ← block_body btype bits output; Some (final, output, bits)).
Proof.
  intros Hb. destruct Hb as [->|[->| ->]], final; try reflexivity;
    unfold inflate_block, block_body; cbn [read_bits mbind option_bind]; simpl; by destruct (read_trees bits) as [[[? ?] ?]|].
Qed.

(** Fixed codes. *)
Lemma fixed_trees : GetFixedTree = (fixed_ll_lengths, fixed_d_lengths).
Proof. vm_compute. reflexivity. Qed.

Lemma fixed_ll_ok : lengths_ok 15 fixed_ll_lengths.
Proof. constructor; [lia|apply (bool_decide_unpack _); by vm_compute|by vm_compute]. Qed.

Lemma fixed_d_ok : lengths_ok 15 fixed_d_lengths.
Proof. constructor; [lia|apply (bool_decide_unpack _); by vm_compute|by vm_compute]. Qed.

Lemma table_at_positive lengths i : Forall (fun x => 0 < x) lengths -> 0 <= i < Z.of_nat (length lengths) ->
  0 < table_at lengths i.
Proof.
  intros Hf Hi. unfold table_at. rewrite (proj2 (Z.ltb_ge _ _)) by lia.
  destruct (lookup_lt_is_Some_2 lengths (Z.to_nat i) ltac:(lia)) as [x Hx]. rewrite Hx.
  apply (proj1 (Forall_lookup _ _) Hf _ _ Hx).
Qed.

Lemma fixed_ll_codes i : 0 <= i < 288 -> 0 < table_at fixed_ll_lengths i.
Proof. intros Hi. apply table_at_positive; [apply (bool_decide_unpack _); by vm_compute|exact Hi]. Qed.

Lemma fixed_d_codes i : 0 <= i < 32 -> 0 < table_at fixed_d_lengths i.
Proof. intros Hi. apply table_at_positive; [apply (bool_decide_unpack _); by vm_compute|exact Hi]. Qed.

Lemma fixed_has_codes x : item_ok x -> has_codes fixed_ll_lengths fixed_d_lengths x.
Proof.
  destruct x as [litlen dist]. unfold item_ok, has_codes. cbn [fst snd]. destruct (Z.eqb_spec dist 0) as [->|Hne]; intros Hok.
  - apply fixed_ll_codes. lia.
  - destruct Hok as [[? _]|[Hd Hl]]; [lia|]. split.
    + intros lls E. destruct (length_symbol_ok litlen Hl) as (lls' & ? & ? & E' & _ & _ & Hs).
      assert (lls' = lls) as -> by congruence. apply symbol_ok_inv in Hs as (Hr & _). cbn in Hr. apply fixed_ll_codes. lia.
    + pose proof (symbol_ok_inv _ _ _ _ _ _ _ (dist_symbol_ok dist Hd)) as (Hr & _). cbn in Hr. apply fixed_d_codes. lia.
Qed.

(** The symbols of a block, with the end of block. *)
Definition add_symbols store lstart lend expected ll d (o : bitout) : outcome bitout :=
  ll_symbols ← ZopfliLengthsToSymbols ll 15;
  d_symbols ← ZopfliLengthsToSymbols d 15;
  o ← AddLZ77Data store lstart lend expected ll_symbols ll d_symbols d o;
  AddHuffmanBits (table_at ll_symbols 256) (table_at ll 256) o.

Definition symbol_bits ll d items : list bool := concat (item_bits ll d <$> items) ++ code_bits ll 256.

Record block_ok store lstart lend expected : Prop := {
  bo_range : range_ok store lstart lend;
  bo_items : Forall item_ok (block_items store lstart lend);
  bo_size : expected = 0 \/ expected = u64 (total item_size (block_items store lstart lend));
}.

Record trees_ok ll d items : Prop := {
  to_ll : lengths_ok 15 ll;
  to_d : lengths_ok 15 d;
  to_ll_length : length ll = 288%nat;
  to_d_length : length d = 32%nat;
  to_codes : Forall (has_codes ll d) items;
  to_end : 0 < table_at ll 256;
}.

Lemma add_symbols_emits store lstart lend expected ll d :
  block_ok store lstart lend expected -> trees_ok ll d (block_items store lstart lend) ->
  emits (add_symbols store lstart lend expected ll d) (symbol_bits ll d (block_items store lstart lend)).
Proof.
  intros [Hr Hi He] [H1 H2 H3 H4 Hc H256].
  apply (emits_ext _ (fun o => o ← AddLZ77Data store lstart lend expected (symbol_codes ll) ll (symbol_codes d) d o;
    AddHuffmanBits (table_at (symbol_codes ll) 256) (table_at ll 256) o)).
  - intros o. unfold add_symbols. rewrite (lengths_to_symbols_spec 15 ll H1) by (rewrite H3; lia). rewrite outcome_bind_ret.
    rewrite (lengths_to_symbols_spec 15 d H2) by (rewrite H4; lia). by rewrite outcome_bind_ret.
  - apply emits_bind; [by apply AddLZ77Data_emits|]. apply (symbol_emits ll 256); [rewrite H3; lia|done].
Qed.

(** What reads the symbols back. *)
Lemma inflate_symbols ll d ll' d' items rest output output' :
  trees_ok ll d items -> Forall item_ok items ->
  (forall i rest, 0 <= i < 288 -> 0 < table_at ll i ->
    read_symbol ll' (code_bits ll (Z.to_nat i) ++ rest) = Some (i, rest)) ->
  (forall i rest, 0 <= i < 32 -> 0 < table_at d i ->
    read_symbol d' (code_bits d (Z.to_nat i) ++ rest) = Some (i, rest)) ->
  lz_decode items output = Some output' ->
  inflate_data (length (symbol_bits ll d items ++ rest)) ll' d' (symbol_bits ll d items ++ rest) output = Some (output', rest).
Proof.
  intros [H1 H2 H3 H4 Hc H256] Hi Hrl Hrd Hdec. unfold symbol_bits. rewrite <-!app_assoc.
  apply inflate_items; try done. rewrite !length_app.
  pose proof (item_bits_length ll d H3 H4 items Hi Hc). pose proof (code_bits_length ll 256 H256). lia.
Qed.

Lemma read_symbol_ok lengths i rest : lengths_ok 15 lengths -> 0 <= i < Z.of_nat (length lengths) -> 0 < table_at lengths i ->
  read_symbol lengths (code_bits lengths (Z.to_nat i) ++ rest) = Some (i, rest).
Proof.
  intros Hok Hi Hp. rewrite <-(Z2Nat.id i) at 2 by lia. apply (read_symbol_spec 15); [done|lia|by rewrite Z2Nat.id by lia].
Qed.

(** The step from the header, the trees and the symbols to the block. *)
Lemma block_written btype final f tree tree_bits store lstart lend expected ll d :
  btype = 1 \/ btype = 2 -> block_ok store lstart lend expected -> trees_ok ll d (block_items store lstart lend) ->
  emits tree tree_bits ->
  (forall o, f o = (o ← header btype final o; o ← tree o; add_symbols store lstart lend expected ll d o)) ->
  (forall rest output output', lz_decode (block_items store lstart lend) output = Some output' ->
    block_body btype (tree_bits ++ symbol_bits ll d (block_items store lstart lend) ++ rest) output = Some (output', rest)) ->
  writes_block f final (lz_decode (block_items store lstart lend)).
Proof.
  intros Hb Hok Ht Htree Hf Hread o pre Ho. rewrite Hf.
  pose proof (emits_bind _ _ _ _ (header_emits btype final ltac:(tauto))
    (emits_bind _ _ _ _ Htree (add_symbols_emits _ _ _ _ _ _ Hok Ht))) as He.
  destruct (He o pre Ho) as (o' & Ho' & Hh). exists o'. eexists. split; [exact Ho'|]. split; [exact Hh|]. split; [done|].
  intros rest output output' Hdec _. cbn [app]. rewrite inflate_header by tauto. rewrite <-app_assoc, (Hread _ _ _ Hdec). done.
Qed.

Lemma fixed_trees_ok items : Forall item_ok items -> trees_ok fixed_ll_lengths fixed_d_lengths items.
Proof.
  intros Hi. constructor; [apply fixed_ll_ok|apply fixed_d_ok|done|done| |by apply fixed_ll_codes].
  eapply Forall_impl; [exact Hi|]. apply fixed_has_codes.
Qed.

Lemma bind_ext {A B} (m : outcome A) (f g : A -> outcome B) : (forall x, f x = g x) -> (m ≫= f) = (m ≫= g).
Proof. intros H. by destruct m; simpl. Qed.

(** [AddLZ77Block] after the header. *)
Definition after_header {sort : Qsort} btype store lstart lend expected (o : bitout) : outcome bitout :=
  '(ll_lengths, d_lengths, o) ←
    (if btype =? 1 then Ret (GetFixedTree, o)
     else if negb (btype =? 2) then Aborts
     else
       '(ll_counts, d_counts, ll_lengths, d_lengths) ← dynamic_lengths store lstart lend;
       o ← AddDynamicTree ll_lengths d_lengths o;
       if forallb (fun i => (table_at ll_counts i =? 0) || (0 <? table_at ll_lengths i)) (seqZ 0 288) &&
          forallb (fun i => (table_at d_counts i =? 0) || (0 <? table_at d_lengths i)) (seqZ 0 32)
       then Ret (ll_lengths, d_lengths, o) else Aborts);
  add_symbols store lstart lend expected ll_lengths d_lengths o.

Lemma AddLZ77Block_header {sort : Qsort} btype final store lstart lend expected o :
  AddLZ77Block btype (Z.b2z final) store lstart lend expected o =
    (o ← header btype final o; after_header btype store lstart lend expected o).
Proof.
  unfold header. rewrite outcome_bind_assoc. apply bind_ext. intros o1. rewrite outcome_bind_assoc. apply bind_ext. intros o2.
  apply bind_ext. intros o3. apply bind_ext. intros [[ll d] o4]. reflexivity.
Qed.

Lemma fixed_block_written {sort : Qsort} final store lstart lend expected : block_ok store lstart lend expected ->
  writes_block (AddLZ77Block 1 (Z.b2z final) store lstart lend expected) final (lz_decode (block_items store lstart lend)).
Proof.
  intros Hok. pose proof (fixed_trees_ok _ (bo_items _ _ _ _ Hok)) as Ht.
  apply (block_written 1 final _ Ret [] store lstart lend expected fixed_ll_lengths fixed_d_lengths); try done.
  - by left.
  - apply emits_ret.
  - intros o. rewrite AddLZ77Block_header. apply bind_ext. intros o'. unfold after_header. rewrite fixed_trees, Z.eqb_refl.
    cbv beta iota. by rewrite !outcome_bind_ret.
  - intros rest output output' Hdec. cbn [app]. unfold block_body. cbn [Z.eqb Pos.eqb].
    apply inflate_symbols; try done; [apply Hok|..]; intros i r Hi Hp; apply read_symbol_ok;
      (apply fixed_ll_ok || apply fixed_d_ok || done || exact Hi).
Qed.
