(* ===== verification/ZopfliDynamic.v ===== *)
(** * Zopfli: the trees of a dynamic block, proved

    The run-length code of the lengths, the code of that code, and what
    [AddDynamicTree] writes: [read_trees] reads the two arrays of lengths back,
    without their last zeros. *)

From S2P Require Import Prelude ZopfliUtil ZopfliBits ZopfliTree Katajainen PackageMerge CodeLengths Inflate ZopfliDeflate ZopfliBlocks.

Local Open Scope Z_scope.

(** ** Run-length code *)

(** What codes stand for, after the lengths [acc]. *)
Fixpoint expand (codes : list (Z * Z)) (acc : list Z) : option (list Z) :=
  match codes with
  | [] => Some acc
  | (code, bits) :: codes' =>
      if code <? 16 then expand codes' (acc ++ [code])
      else if code =? 16 then
        previous ← last acc; expand codes' (acc ++ replicate (Z.to_nat (3 + bits)) previous)
      else if code =? 17 then expand codes' (acc ++ replicate (Z.to_nat (3 + bits)) 0)
      else expand codes' (acc ++ replicate (Z.to_nat (11 + bits)) 0)
  end.

Definition code_ok (c : Z * Z) : Prop :=
  0 <= c.1 < 16 \/ c.1 = 16 /\ 0 <= c.2 < 4 \/ c.1 = 17 /\ 0 <= c.2 < 8 \/ c.1 = 18 /\ 0 <= c.2 < 128.

Lemma expand_app a b acc : expand (a ++ b) acc = (acc ← expand a acc; expand b acc).
Proof.
  revert acc. induction a as [|[code bits] a IH]; intros acc; [done|]. cbn [app expand].
  repeat (case_match; rewrite ?IH; try done). destruct (last acc) as [p|]; [|done]. cbn [mbind option_bind]. apply IH.
Qed.

Lemma run_length_spec x l : (run_length x l <= length l)%nat /\ take (run_length x l) l = replicate (run_length x l) x.
Proof.
  induction l as [|y l [IH1 IH2]]; [done|]. cbn [run_length]. destruct (Z.eqb_spec x y) as [->|]; [|simpl; split; [lia|done]].
  cbn [take replicate length]. rewrite IH2. split; [lia|done].
Qed.

Lemma expand_literals n x acc : 0 <= x < 16 -> expand (replicate n (x, 0)) acc = Some (acc ++ replicate n x).
Proof.
  intros Hx. revert acc. induction n as [|n IH]; intros acc; [by rewrite app_nil_r|]. cbn [replicate expand].
  rewrite (proj2 (Z.ltb_lt _ _)) by lia. rewrite IH, <-app_assoc. done.
Qed.

Lemma expand_repeat n x acc bits : 0 <= bits -> n = Z.to_nat (3 + bits) ->
  expand [(16, bits)] (acc ++ [x]) = Some ((acc ++ replicate n x) ++ [x]).
Proof.
  intros Hb ->. cbn [expand]. rewrite (proj2 (Z.ltb_ge 16 16)), Z.eqb_refl, last_snoc by lia. cbn [mbind option_bind].
  rewrite <-!app_assoc. do 2 f_equal. change ([x] ++ replicate (Z.to_nat (3 + bits)) x) with (replicate (S (Z.to_nat (3 + bits))) x).
  by rewrite replicate_S_end.
Qed.

Lemma repeat_sixes_spec n x : forall acc codes m, repeat_sixes n = (codes, m) ->
  Forall code_ok codes /\ (m < 6)%nat /\ exists k, n = (k + m)%nat /\ expand codes (acc ++ [x]) = Some ((acc ++ replicate k x) ++ [x]).
Proof.
  induction n as [n IH] using (well_founded_induction lt_wf). intros acc codes m.
  do 6 (destruct n as [|n]; [intros [= <- <-]; split; [constructor|]; split; [lia|]; exists 0%nat; by rewrite app_nil_r|]).
  cbn [repeat_sixes]. destruct (repeat_sixes n) as [c r] eqn:E. intros [= <- <-].
  destruct (IH n ltac:(lia) (acc ++ replicate 6 x) c r E) as (Hc & Hr & k & -> & He).
  split; [constructor; [|done]; right; left; cbn; lia|]. split; [done|]. exists (6 + k)%nat. split; [lia|].
  change ((16, 6 - 3) :: c) with ([(16, 3)] ++ c). rewrite expand_app, (expand_repeat 6) by done. cbn [mbind option_bind].
  rewrite He. by rewrite replicate_add, <-!app_assoc.
Qed.

Lemma encode_run_spec x count acc codes used : 0 <= x < 16 -> (0 < count)%nat -> encode_run x count = (codes, used) ->
  Forall code_ok codes /\ codes ≠ [] /\ (0 < used <= count)%nat /\ expand codes acc = Some (acc ++ replicate used x).
Proof.
  intros Hx Hn. unfold encode_run.
  assert (code_ok (x, 0)) as Hok by (left; done).
  destruct ((4 <=? count)%nat || (3 <=? count)%nat && (x =? 0)) eqn:E.
  2: { intros [= <- <-]. split; [by apply Forall_singleton|]. split; [done|]. split; [lia|]. by apply (expand_literals 1). }
  apply orb_true_iff in E. rewrite andb_true_iff, !Nat.leb_le, Z.eqb_eq in E.
  destruct (Z.eqb_spec x 0) as [->|Hx0].
  - destruct (Nat.ltb_spec 10 count).
    + set (k := if (138 <? count)%nat then 138%nat else count). intros [= <- <-].
      assert (11 <= k <= 138 /\ k <= count)%nat as [Hk Hkc] by (unfold k; destruct (Nat.ltb_spec 138 count); lia).
      split; [apply Forall_singleton; right; right; right; cbn; lia|]. split; [done|]. split; [lia|]. cbn [expand].
      rewrite (proj2 (Z.ltb_ge 18 16)), (proj2 (Z.eqb_neq 18 16)), (proj2 (Z.eqb_neq 18 17)) by lia.
      by replace (Z.to_nat (11 + (Z.of_nat k - 11))) with k by lia.
    + intros [= <- <-]. split; [apply Forall_singleton; right; right; left; cbn; lia|]. split; [done|]. split; [lia|].
      cbn [expand]. rewrite (proj2 (Z.ltb_ge 17 16)), (proj2 (Z.eqb_neq 17 16)), Z.eqb_refl by lia.
      by replace (Z.to_nat (3 + (Z.of_nat count - 3))) with count by lia.
  - destruct (repeat_sixes (count - 1)) as [sixes remaining] eqn:E6.
    destruct (repeat_sixes_spec _ x acc _ _ E6) as (H6 & Hr & k & Hk & He).
    set (three := (if (3 <=? remaining)%nat then ([(16, 3 - 3)], (remaining - 3)%nat) else ([], remaining))).
    assert (Forall code_ok three.1 /\ exists j, remaining = (j + three.2)%nat /\
      forall acc, expand three.1 (acc ++ [x]) = Some ((acc ++ replicate j x) ++ [x])) as (H3 & j & Hj & He3).
    { unfold three. destruct (Nat.leb_spec 3 remaining); cbn [fst snd].
      - split; [apply Forall_singleton; right; left; cbn; lia|]. exists 3%nat. split; [lia|]. intros a. by apply (expand_repeat 3).
      - split; [constructor|]. exists 0%nat. split; [lia|]. intros a. by rewrite app_nil_r. }
    destruct three as [t r] eqn:Et. cbn [fst snd] in *. intros [= <- <-].
    split; [|split; [done|split; [lia|]]].
    + constructor; [done|]. rewrite !Forall_app. split_and!; [done|done|]. by apply Forall_replicate.
    + change ((x, 0) :: sixes ++ t ++ replicate r (x, 0)) with (replicate 1 (x, 0) ++ sixes ++ t ++ replicate r (x, 0)).
      rewrite expand_app, expand_literals by done. change (replicate 1 x) with [x]. cbn [mbind option_bind].
      rewrite expand_app, He. cbn [mbind option_bind]. rewrite expand_app, He3. cbn [mbind option_bind].
      rewrite expand_literals by done. f_equal. rewrite <-!app_assoc. f_equal.
      replace count with (k + (j + (1 + r)))%nat by lia. by rewrite !replicate_add.
Qed.

(** A code stands for one length at least. *)
Lemma expand_length codes acc r : Forall code_ok codes -> expand codes acc = Some r ->
  (length acc + length codes <= length r)%nat.
Proof.
  intros Hc. revert acc. induction Hc as [|[code bits] codes Hx _ IH]; intros acc; [intros [= <-]; simpl; lia|].
  unfold code_ok in Hx. cbn [fst snd] in Hx. cbn [expand]. intros H. cbn [length].
  destruct (Z.ltb_spec code 16); [|destruct (Z.eqb_spec code 16); [destruct (last acc) as [p|]; [cbn [mbind option_bind] in H|done]|
    destruct (Z.eqb_spec code 17)]]; apply IH in H; rewrite length_app, ?length_replicate in H; cbn [length] in H; lia.
Qed.

Lemma encode_lengths_spec fuel l acc : Forall (fun x => 0 <= x < 16) l -> (length l <= fuel)%nat ->
  exists rle, encode_lengths fuel l = Ret rle /\ Forall code_ok rle /\ expand rle acc = Some (acc ++ l).
Proof.
  revert l acc. induction fuel as [|f IH]; intros [|x l] acc Hl Hf; try (simpl in Hf; lia);
    try by (exists []; cbn; rewrite app_nil_r; split_and!).
  destruct (proj1 (Forall_cons _ _ _) Hl) as [Hx _]. cbn [encode_lengths].
  destruct (run_length_spec x (x :: l)) as [Hrl Hrt].
  assert (0 < run_length x (x :: l))%nat as Hr0 by (cbn; rewrite Z.eqb_refl; lia).
  destruct (encode_run x (run_length x (x :: l))) as [codes used] eqn:E.
  destruct (encode_run_spec x _ acc codes used Hx Hr0 E) as (Hc & Hne & Hu & He).
  set (l0 := x :: l) in *.
  assert (take used l0 = replicate used x) as Ht.
  { rewrite <-(Nat.min_l used (run_length x l0)), <-take_take, Hrt, take_replicate by lia. by rewrite Nat.min_l by lia. }
  destruct (IH (drop used l0) (acc ++ replicate used x)) as (rle & Hrle & Hok & Hexp).
  { by apply Forall_drop. }
  { rewrite length_drop. lia. }
  exists (codes ++ rle). split; [|split; [by apply Forall_app|]].
  - destruct (exists_last Hne) as (c & [code bits] & ->). rewrite last_snoc.
    apply Forall_app in Hc as [Hc Hcode%Forall_inv]. unfold code_ok in Hcode. cbn [fst snd] in Hcode.
    rewrite (proj2 (Z.leb_le code 18)) by lia. by rewrite Hrle.
  - rewrite expand_app, He. cbn [mbind option_bind]. rewrite Hexp, <-app_assoc, <-Ht. by rewrite take_drop.
Qed.

(** ** The codes of the lengths *)

Section codes.
Context (clcl : list Z) (Hok : lengths_ok 7 clcl) (Hlen : length clcl = 19%nat).

Definition extra_bits (code : Z) : Z := if code =? 16 then 2 else if code =? 17 then 3 else if code =? 18 then 7 else 0.

Definition rle_bits (c : Z * Z) : list bool :=
  code_bits clcl (Z.to_nat c.1) ++ lsb_bits c.2 (extra_bits c.1).

Definition rle_has_code (c : Z * Z) : Prop := 0 < table_at clcl c.1.

Lemma add_code_emits c : code_ok c -> rle_has_code c -> emits (add_code (symbol_codes clcl) clcl c) (rle_bits c).
Proof.
  destruct c as [code bits]. unfold code_ok, rle_has_code, rle_bits, add_code. cbn [fst snd]. intros Hc Hp.
  apply emits_bind; [apply symbol_emits; [lia|done]|]. unfold extra_bits.
  destruct (code =? 16); [apply AddBits_emits|]. destruct (code =? 17); [apply AddBits_emits|].
  destruct (code =? 18); [apply AddBits_emits|apply emits_ret].
Qed.

Lemma read_code code rest : 0 <= code <= 18 -> 0 < table_at clcl code ->
  read_symbol clcl (code_bits clcl (Z.to_nat code) ++ rest) = Some (code, rest).
Proof.
  intros Hc Hp. rewrite <-(Z2Nat.id code) at 2 by lia. apply (read_symbol_spec 7); [done|lia|by rewrite Z2Nat.id by lia].
Qed.

Lemma read_lengths_done fuel total bits lengths : length lengths = total ->
  read_lengths fuel total clcl bits lengths = Some (lengths, bits).
Proof. intros <-. destruct fuel; cbn [read_lengths]; by rewrite (proj2 (Nat.leb_le _ _)), Nat.eqb_refl by lia. Qed.

Lemma read_lengths_spec rle fuel acc final rest :
  Forall code_ok rle -> Forall rle_has_code rle -> expand rle acc = Some final -> (length final <= fuel + length acc)%nat ->
  read_lengths fuel (length final) clcl (concat (rle_bits <$> rle) ++ rest) acc = Some (final, rest).
Proof.
  intros Hc. revert fuel acc. induction Hc as [|[code bits] rle Hx Hc IH]; intros fuel acc Hp He Hf.
  - injection He as <-. by apply read_lengths_done.
  - apply Forall_cons in Hp as [Hxp Hp]. pose proof (expand_length _ _ _ (Forall_cons_2 _ _ _ Hx Hc) He) as Hl. cbn [length] in Hl.
    destruct fuel as [|f]; [lia|]. cbn [read_lengths]. rewrite (proj2 (Nat.leb_gt _ _)) by lia.
    rewrite fmap_cons. cbn [concat]. unfold rle_bits at 1. unfold rle_has_code in Hxp. unfold code_ok in Hx.
    cbn [fst snd] in *. rewrite <-!app_assoc, read_code by (done || lia). cbn [mbind option_bind]. cbn [expand] in He.
    unfold extra_bits. destruct (Z.ltb_spec code 16) as [Hlt|Hge].
    + rewrite !(proj2 (Z.eqb_neq code _)) by lia. apply IH; [done|done|]. rewrite length_app. simpl. lia.
    + destruct (Z.eqb_spec code 16) as [->|H16].
      * destruct (last acc) as [p|]; [|done]. cbn [mbind option_bind] in He |- *.
        rewrite (read_bits_lsb bits 2) by (simpl; lia). cbn [mbind option_bind]. apply IH; [done|done|].
        rewrite length_app, length_replicate. lia.
      * destruct (Z.eqb_spec code 17) as [->|H17].
        -- rewrite (read_bits_lsb bits 3) by (simpl; lia). cbn [mbind option_bind]. apply IH; [done|done|].
           rewrite length_app, length_replicate. lia.
        -- rewrite (proj2 (Z.eqb_eq code 18)) by lia. rewrite (read_bits_lsb bits 7) by (simpl; lia).
           cbn [mbind option_bind]. apply IH; [done|done|]. rewrite length_app, length_replicate. lia.
Qed.

(** The lengths of the code lengths, in their order. *)
Definition set_codes (os : list nat) (t : list Z) : list Z := foldl (fun t o => <[o := table_at clcl (Z.of_nat o)]> t) t os.

Lemma read_code_lengths_spec os t rest :
  read_code_lengths os (concat ((fun o => lsb_bits (table_at clcl (Z.of_nat o)) 3) <$> os) ++ rest) t = Some (set_codes os t, rest).
Proof.
  revert t. induction os as [|o os IH]; intros t; [done|]. rewrite fmap_cons. cbn [concat read_code_lengths].
  rewrite <-app_assoc, (read_bits_lsb _ 3).
  - cbn [mbind option_bind]. apply IH.
  - unfold table_at. rewrite (proj2 (Z.ltb_ge _ _)), Nat2Z.id by lia. destruct (clcl !! o) as [x|] eqn:E; [|simpl; lia].
    pose proof (proj1 (Forall_lookup _ _) (lo_range _ _ Hok) _ _ E). simpl in *. lia.
Qed.

Lemma set_codes_lookup os t j : (j < length t)%nat ->
  table_at (set_codes os t) (Z.of_nat j) = if bool_decide (j ∈ os) then table_at clcl (Z.of_nat j) else table_at t (Z.of_nat j).
Proof.
  unfold set_codes. revert t. induction os as [|o os IH]; intros t Hj; [done|]. cbn [foldl].
  rewrite IH by (by rewrite length_insert). destruct (decide (j ∈ os)) as [Hin|Hin].
  - rewrite !bool_decide_true by (done || by right). done.
  - rewrite (bool_decide_false (j ∈ os)) by done. destruct (decide (o = j)) as [->|Hne].
    + rewrite bool_decide_true by left. rewrite table_at_nat. by rewrite list_lookup_insert_eq.
    + rewrite bool_decide_false by (rewrite elem_of_cons; intros [?|?]; congruence).
      by rewrite !table_at_nat, list_lookup_insert_ne by done.
Qed.
End codes.

(** ** Trimming *)

Lemma trim_spec lengths base k :
  (trim lengths base k <= k)%nat /\
  forall i, (trim lengths base k <= i < k)%nat -> table_at lengths (base + Z.of_nat i) = 0.
Proof.
  induction k as [|k [IH1 IH2]]; cbn [trim]; [split; [lia|intros; lia]|].
  destruct (Z.eqb_spec (table_at lengths (base + Z.of_nat k)) 0) as [E|E]; [|split; [lia|intros; lia]].
  split; [lia|]. intros i Hi. destruct (decide (i = k)) as [->|Hne]; [done|]. apply IH2. lia.
Qed.

(** Lengths without their last zeros give the same codes. *)
Lemma length_count_zeros lengths k l : l <> 0 -> length_count (lengths ++ replicate k 0) l = length_count lengths l.
Proof.
  intros Hl. rewrite length_count_app. assert (length_count (replicate k 0) l = 0) as ->; [|lia].
  induction k as [|k IH]; [done|]. cbn [replicate length_count]. rewrite IH. by rewrite (proj2 (Z.eqb_neq _ _)) by done.
Qed.

Lemma first_code_zeros lengths k n : first_code (lengths ++ replicate k 0) n = first_code lengths n.
Proof.
  induction n as [|n IH]; [done|]. cbn [first_code]. rewrite IH. destruct (Nat.eqb_spec n 0); [done|].
  by rewrite length_count_zeros by lia.
Qed.

Lemma code_bits_zeros lengths k i : (i < length lengths)%nat ->
  code_bits (lengths ++ replicate k 0) i = code_bits lengths i.
Proof.
  intros Hi. unfold code_bits, canonical_code.
  assert (table_at (lengths ++ replicate k 0) (Z.of_nat i) = table_at lengths (Z.of_nat i)) as ->
    by (by rewrite !table_at_nat, lookup_app_l by done).
  rewrite first_code_zeros, take_app_le by lia. done.
Qed.

Lemma lengths_ok_zeros m lengths k : lengths_ok m (lengths ++ replicate k 0) -> lengths_ok m lengths.
Proof.
  intros [H1 H2 H3]. apply Forall_app in H2 as [H2 _]. constructor; [done|done|].
  assert (forall a b, kraft_upto (a ++ b) m m = kraft_upto a m m + kraft_upto b m m) as Happ.
  { induction a as [|x a IH]; intros b; [done|]. cbn [app kraft_upto]. rewrite IH. lia. }
  rewrite Happ in H3. assert (kraft_upto (replicate k 0) m m = 0) as E by (clear; induction k as [|k IH]; [done|cbn; apply IH]). lia.
Qed.

Lemma trimmed_split lengths base k :
  (base + k <= length lengths)%nat ->
  (forall i, (base + k <= i < length lengths)%nat -> table_at lengths (Z.of_nat i) = 0) ->
  let h := trim lengths (Z.of_nat base) k in
  lengths = take (base + h) lengths ++ replicate (length lengths - (base + h)) 0.
Proof.
  intros Hk H0 h. destruct (trim_spec lengths (Z.of_nat base) k) as [Hh Hz]. fold h in Hh, Hz.
  rewrite <-(take_drop (base + h) lengths) at 1. f_equal. apply list_eq_same_length with (n := (length lengths - (base + h))%nat);
    [by rewrite length_replicate|by rewrite length_drop|].
  intros i x y Hi Hx [-> _]%lookup_replicate_1. rewrite lookup_drop in Hx.
  assert (table_at lengths (Z.of_nat (base + h + i)) = x) as <- by (rewrite table_at_nat; by rewrite Hx).
  destruct (decide (base + h + i < base + k)%nat) as [Hlt|Hge].
  - rewrite <-(Hz (h + i)%nat) by lia. f_equal. lia.
  - apply H0. lia.
Qed.

(** A symbol of the trimmed lengths is read as one of all the lengths. *)
Lemma read_trimmed lengths n k i rest : lengths_ok 15 lengths -> lengths = take n lengths ++ replicate k 0 ->
  0 <= i < Z.of_nat (length lengths) -> 0 < table_at lengths i ->
  read_symbol (take n lengths) (code_bits lengths (Z.to_nat i) ++ rest) = Some (i, rest).
Proof.
  intros Hok E Hi Hp. assert (exists j, i = Z.of_nat j) as [j ->] by (exists (Z.to_nat i); lia). rewrite Nat2Z.id.
  assert (j < length (take n lengths))%nat as Hj.
  { destruct (Nat.lt_ge_cases j (length (take n lengths))) as [?|Hge]; [done|]. exfalso.
    rewrite E, table_at_nat, lookup_app_r in Hp by done. destruct (replicate k 0 !! _) as [x|] eqn:Ex; [|simpl in Hp; lia].
    apply lookup_replicate_1 in Ex as [-> _]. simpl in Hp. lia. }
  assert (table_at (take n lengths) (Z.of_nat j) = table_at lengths (Z.of_nat j)) as Ht
    by (rewrite E at 2; by rewrite !table_at_nat, lookup_app_l by done).
  rewrite E at 2. rewrite code_bits_zeros by done. apply (read_symbol_spec 15); [|done|lia].
  apply (lengths_ok_zeros 15 _ k). by rewrite <-E.
Qed.

Lemma lld_lengths_spec ll d h g : (257 + h <= length ll)%nat -> (1 + g <= length d)%nat ->
  Forall (fun x => 0 <= x <= 15) ll -> Forall (fun x => 0 <= x <= 15) d ->
  lld_lengths ll d (Z.of_nat h) (Z.of_nat g) = Ret (take (257 + h) ll ++ take (1 + g) d).
Proof.
  intros Hh Hg Hll Hd. unfold lld_lengths. cbv zeta.
  assert ((fun i => if i <? 257 + Z.of_nat h then table_at ll i else table_at d (i - 257 - Z.of_nat h))
    <$> seqZ 0 (Z.of_nat h + 257 + Z.of_nat g + 1) = take (257 + h) ll ++ take (1 + g) d) as ->.
  { apply list_eq_same_length with (n := (257 + h + (1 + g))%nat).
    - rewrite length_app, !length_take. lia.
    - rewrite length_fmap, length_seqZ. lia.
    - intros i x y Hi Hx Hy. apply list_lookup_fmap_Some in Hx as (z & -> & [-> Hz]%lookup_seqZ). rewrite Z.add_0_l.
      destruct (Z.ltb_spec (Z.of_nat i) (257 + Z.of_nat h)).
      + rewrite lookup_app_l, lookup_take_lt in Hy by (rewrite ?length_take; lia). rewrite table_at_nat. by rewrite Hy.
      + rewrite lookup_app_r, length_take, lookup_take_lt in Hy by (rewrite ?length_take; lia).
        replace (Z.of_nat i - 257 - Z.of_nat h) with (Z.of_nat (i - (257 + h) `min` length ll)) by lia.
        rewrite table_at_nat. by rewrite Hy. }
  rewrite (proj2 (forallb_forall _ _)); [done|]. intros x Hx%list_elem_of_In.
  assert (0 <= x <= 15); [|by apply Z.ltb_lt; lia].
  revert x Hx. apply Forall_forall. apply Forall_app. split; by apply Forall_take.
Qed.

(** ** Histograms *)

Definition occurrences {A} (g : A -> Z) (l : list A) (s : Z) : Z := Z.of_nat (length (filter (fun x => g x = s) l)).

Lemma occurrences_snoc {A} (g : A -> Z) l x s :
  occurrences g (l ++ [x]) s = occurrences g l s + (if s =? g x then 1 else 0).
Proof.
  unfold occurrences. rewrite filter_app, length_app, filter_cons, filter_nil.
  destruct (Z.eqb_spec s (g x)) as [->|Hne]; [rewrite decide_True by done|rewrite decide_False by congruence]; simpl; lia.
Qed.

Lemma occurrences_bound {A} (g : A -> Z) l s : 0 <= occurrences g l s <= Z.of_nat (length l).
Proof. unfold occurrences. pose proof (length_filter (fun x => g x = s) l). lia. Qed.

Lemma occurrences_pos {A} (g : A -> Z) l x : x ∈ l -> 0 < occurrences g l (g x).
Proof.
  intros Hx. unfold occurrences. assert (x ∈ filter (fun y => g y = g x) l) as H by (by apply list_elem_of_filter).
  destruct (filter _ l); [by apply elem_of_nil in H|simpl; lia].
Qed.

(** A table of counts. *)
Definition histogram {A} (g : A -> Z) (n : nat) (l : list A) (t : list Z) : Prop :=
  length t = n /\ forall s, 0 <= s < Z.of_nat n -> table_at t s = occurrences g l s.

Lemma increment_histogram {A} (g : A -> Z) n l x t : histogram g n l t -> 0 <= g x < Z.of_nat n ->
  Z.of_nat (length l) < 2 ^ 31 ->
  exists t', increment t (g x) = Ret t' /\ histogram g n (l ++ [x]) t'.
Proof.
  intros [Hn Ht] Hg Hl. unfold increment. rewrite index_ok by lia. rewrite outcome_bind_ret. eexists. split; [done|].
  split; [by rewrite length_insert|]. intros s Hs. rewrite table_at_insert, occurrences_snoc by lia.
  destruct (Z.eqb_spec s (g x)) as [->|]; [|rewrite Ht by done; lia].
  rewrite Ht by done. pose proof (occurrences_bound g l (g x)). by rewrite u64_small by lia.
Qed.

Lemma histogram_nil {A} (g : A -> Z) n : histogram g n [] (replicate n 0).
Proof. split; [by rewrite length_replicate|]. intros s _. by rewrite table_at_replicate. Qed.

Lemma histogram_range {A} (g : A -> Z) n l t : histogram g n l t -> Z.of_nat (length l) < 2 ^ 31 ->
  Forall (fun f => 0 <= f < 2 ^ 31) t.
Proof.
  intros [Hn Ht] Hl. apply Forall_lookup. intros i f Hi. pose proof (lookup_lt_Some _ _ _ Hi).
  assert (table_at t (Z.of_nat i) = f) as <- by (rewrite table_at_nat; by rewrite Hi). rewrite Ht by lia.
  pose proof (occurrences_bound g l (Z.of_nat i)). lia.
Qed.

Lemma rle_counts_spec rle : Forall code_ok rle -> Z.of_nat (length rle) < 2 ^ 31 ->
  exists t, for_each rle (fun c counts => increment counts c.1) (replicate 19 0) = Ret t /\ histogram fst 19 rle t.
Proof.
  intros Hc Hl. apply (for_each_inv (fun seen t => histogram fst 19 seen t)); [apply histogram_nil|].
  intros seen x rest t E Ht. rewrite E in Hc, Hl. apply Forall_app in Hc as [_ [Hx _]%Forall_cons].
  rewrite length_app in Hl. apply (increment_histogram fst); [done|unfold code_ok in Hx; simpl; lia|lia].
Qed.

(** ** The trees *)

Lemma order_prefix k : (k <= 19)%nat -> table_at order <$> seqZ 0 (Z.of_nat k) = Z.of_nat <$> take k code_length_order.
Proof. intros Hk. do 20 (destruct k as [|k]; [vm_compute; reflexivity|]). lia. Qed.

Lemma code_length_order_all j : (j < 19)%nat -> exists i, code_length_order !! i = Some j.
Proof.
  intros Hj. assert (Forall (fun j => j ∈ code_length_order) (seq 0 19)) as H by (apply (bool_decide_unpack _); by vm_compute).
  rewrite Forall_forall in H. apply list_elem_of_lookup, H, elem_of_seq. lia.
Qed.

(** A code length that is not written is zero. *)
Lemma set_codes_all clcounts clcl : length clcl = 19%nat ->
  (forall j, table_at clcounts (Z.of_nat j) = 0 -> table_at clcl (Z.of_nat j) = 0) ->
  set_codes clcl (take (trim (table_at clcounts <$> order) 4 15 + 4) code_length_order) (replicate 19 0) = clcl.
Proof.
  intros Hl Hz. destruct (trim_spec (table_at clcounts <$> order) 4 15) as [Hh Ht].
  set (h := trim (table_at clcounts <$> order) 4 15) in *.
  assert (length (set_codes clcl (take (h + 4) code_length_order) (replicate 19 0)) = 19%nat) as Hsl.
  { clear. unfold set_codes. generalize (replicate 19 0) (eq_refl : length (replicate 19 0) = 19%nat).
    induction (take (h + 4) code_length_order) as [|o os IH]; intros t Ht; [done|]. cbn [foldl]. apply IH. by rewrite length_insert. }
  apply list_eq_same_length with (n := 19%nat); [done|done|]. intros j x y Hj Hx Hy.
  pose proof (set_codes_lookup clcl (take (h + 4) code_length_order) (replicate 19 0) j ltac:(by rewrite length_replicate)) as E.
  rewrite table_at_replicate in E. rewrite !table_at_nat, Hx, Hy in E. cbn [default from_option] in E. unfold id in E. rewrite E.
  case_bool_decide as Hin; [done|]. assert (table_at clcl (Z.of_nat j) = y) as <- by (rewrite table_at_nat; by rewrite Hy).
  symmetry. apply Hz. destruct (code_length_order_all j Hj) as [i Hi]. pose proof (lookup_lt_Some _ _ _ Hi) as Hi19. cbn in Hi19.
  assert (h + 4 <= i)%nat as Hge.
  { destruct (Nat.lt_ge_cases i (h + 4)) as [Hlt|]; [|done]. exfalso. apply Hin. apply list_elem_of_lookup. exists i.
    by rewrite lookup_take_lt. }
  specialize (Ht (i - 4)%nat ltac:(lia)). replace (4 + Z.of_nat (i - 4)) with (Z.of_nat i) in Ht by lia.
  rewrite table_at_nat, list_lookup_fmap in Ht.
  assert (order !! i = Some (Z.of_nat j)) as Ho.
  { assert (order = Z.of_nat <$> code_length_order) as -> by reflexivity. by rewrite list_lookup_fmap, Hi. }
  rewrite Ho in Ht. exact Ht.
Qed.

Lemma emits_bind_l {A} (m : outcome A) x (f : A -> bitout -> outcome bitout) bits :
  m = Ret x -> emits (f x) bits -> emits (fun o => y ← m; f y o) bits.
Proof. intros ->. done. Qed.

Section trees.
Context {sort : Qsort} (ll d : list Z).
Context (Hll : lengths_ok 15 ll) (Hd : lengths_ok 15 d) (Hlen : length ll = 288%nat) (Hdlen : length d = 32%nat).
Context (Hll0 : table_at ll 286 = 0 /\ table_at ll 287 = 0) (Hd0 : table_at d 30 = 0 /\ table_at d 31 = 0).

Definition ll_size : nat := 257 + trim ll 257 29.
Definition d_size : nat := 1 + trim d 1 29.

Lemma ll_trimmed : ll = take ll_size ll ++ replicate (288 - ll_size) 0.
Proof.
  pose proof (trimmed_split ll 257 29) as H. cbv zeta in H. rewrite Hlen in H. change (Z.of_nat 257) with 257 in H.
  apply H; [lia|]. intros i Hi. assert (i = 286 \/ i = 287)%nat as [->| ->] by lia; apply Hll0.
Qed.

Lemma d_trimmed : d = take d_size d ++ replicate (32 - d_size) 0.
Proof.
  pose proof (trimmed_split d 1 29) as H. cbv zeta in H. rewrite Hdlen in H. change (Z.of_nat 1) with 1 in H.
  apply H; [lia|]. intros i Hi. assert (i = 30 \/ i = 31)%nat as [->| ->] by lia; apply Hd0.
Qed.

Lemma trees_lengths :
  (257 <= ll_size <= 286)%nat /\ (1 <= d_size <= 30)%nat /\
  exists lld rle clcounts clcl,
    lld = take ll_size ll ++ take d_size d /\ length lld = (ll_size + d_size)%nat /\
    lld_lengths ll d (Z.of_nat (trim ll 257 29)) (Z.of_nat (trim d 1 29)) = Ret lld /\
    encode_lengths (length lld) lld = Ret rle /\ Forall code_ok rle /\ expand rle [] = Some lld /\
    for_each rle (fun c counts => increment counts c.1) (replicate 19 0) = Ret clcounts /\
    ZopfliCalculateBitLengths clcounts 7 = Ret clcl /\ lengths_ok 7 clcl /\ length clcl = 19%nat /\
    Forall (rle_has_code clcl) rle /\
    (forall j, table_at clcounts (Z.of_nat j) = 0 -> table_at clcl (Z.of_nat j) = 0).
Proof.
  destruct (trim_spec ll 257 29) as [Hh _], (trim_spec d 1 29) as [Hg _].
  unfold ll_size, d_size. set (h := trim ll 257 29) in *. set (g := trim d 1 29) in *.
  split; [lia|]. split; [lia|]. set (lld := take (257 + h) ll ++ take (1 + g) d).
  assert (length lld = (257 + h + (1 + g))%nat) as Hlld by (unfold lld; rewrite length_app, !length_take; lia).
  assert (Forall (fun x => 0 <= x < 16) lld) as Hr.
  { unfold lld. apply Forall_app. split; apply Forall_take; (eapply Forall_impl; [apply (lo_range 15); done|]; intros; simpl in *; lia). }
  destruct (encode_lengths_spec (length lld) lld [] Hr ltac:(lia)) as (rle & Hrle & Hc & He).
  pose proof (expand_length _ _ _ Hc He) as Hel. cbn [length app] in Hel.
  destruct (rle_counts_spec rle Hc ltac:(lia)) as (clcounts & Hcc & Hist).
  pose proof (histogram_range fst 19 rle clcounts Hist ltac:(lia)) as Hrange. destruct Hist as [Hcl Hcount].
  destruct (ZopfliCalculateBitLengths_spec clcounts 7) as (clcl & Hcalc & Hcode); [lia|done|rewrite Hcl; simpl; lia|].
  pose proof (cl_table _ _ _ Hcode) as Htab. pose proof (Forall2_length _ _ _ Htab) as Hlen2.
  assert (forall j, (j < 19)%nat -> table_at clcounts (Z.of_nat j) = 0 <-> table_at clcl (Z.of_nat j) = 0) as Hiff.
  { intros j Hj. destruct (lookup_lt_is_Some_2 clcounts j ltac:(lia)) as [f Hf].
    destruct (Forall2_lookup_l _ _ _ _ _ Htab Hf) as (len & Hlj & H & _). by rewrite !table_at_nat, Hf, Hlj. }
  exists lld, rle, clcounts, clcl. split_and!; try done.
  - apply lld_lengths_spec; [lia|lia|apply Hll|apply Hd].
  - apply (code_lengths_ok clcounts 7); [lia|done].
  - lia.
  - apply Forall_forall. intros c Hin. unfold rle_has_code.
    assert (0 <= c.1 <= 18) as Hcr by (pose proof (proj1 (Forall_forall _ _) Hc c Hin) as H; unfold code_ok in H; lia).
    pose proof (occurrences_pos fst rle c Hin) as Hpos. rewrite <-Hcount in Hpos by lia.
    assert (exists j, c.1 = Z.of_nat j) as [j Hj] by (exists (Z.to_nat c.1); lia). rewrite Hj in *.
    assert (table_at clcl (Z.of_nat j) <> 0) by (rewrite <-Hiff by lia; lia).
    assert (0 <= table_at clcl (Z.of_nat j)); [|lia].
    rewrite table_at_nat. destruct (clcl !! j) as [x|] eqn:E; [|done]. destruct (Forall2_lookup_r _ _ _ _ _ Htab E) as (? & _ & _ & ?). simpl. lia.
  - intros j. destruct (Nat.lt_ge_cases j 19); [by apply Hiff|]. intros _. rewrite table_at_nat, lookup_ge_None_2 by lia. done.
Qed.
Lemma AddDynamicTree_written : exists bits, emits (AddDynamicTree ll d) bits /\
  forall rest, read_trees (bits ++ rest) = Some (take ll_size ll, take d_size d, rest).
Proof.
  destruct trees_lengths as (Hls & Hds & lld & rle & clcounts & clcl & Elld & Hll1 & H1 & H2 & Hc & He & H3 & H4 & Hok & Hcl & Hp & Hz).
  set (h := trim ll 257 29) in *. set (g := trim d 1 29) in *.
  set (k := trim (table_at clcounts <$> order) 4 15).
  assert (k <= 15)%nat as Hk by apply trim_spec.
  exists (lsb_bits (Z.of_nat h) 5 ++ lsb_bits (Z.of_nat g) 5 ++ lsb_bits (Z.of_nat k) 4 ++
    concat ((fun o => lsb_bits (table_at clcl (Z.of_nat o)) 3) <$> take (k + 4) code_length_order) ++
    concat (rle_bits clcl <$> rle)). split.
  - unfold AddDynamicTree. cbv zeta. fold h g.
    apply (emits_bind_l _ _ _ _ H1), (emits_bind_l _ _ _ _ H2), (emits_bind_l _ _ _ _ H3), (emits_bind_l _ _ _ _ H4).
    apply (emits_bind_l _ _ _ _ (lengths_to_symbols_spec 7 clcl Hok ltac:(rewrite Hcl; lia))). fold k.
    apply emits_bind; [apply AddBits_emits|]. apply emits_bind; [apply AddBits_emits|]. apply emits_bind; [apply AddBits_emits|].
    apply emits_bind.
    + replace (concat _) with (concat ((fun i => lsb_bits (table_at clcl (table_at order i)) 3) <$> seqZ 0 (Z.of_nat k + 4))).
      * apply emits_for_each, Forall_forall. intros i _. apply AddBits_emits.
      * f_equal. replace (Z.of_nat k + 4) with (Z.of_nat (k + 4)) by lia.
        rewrite (list_fmap_compose (table_at order) (fun x => lsb_bits (table_at clcl x) 3)), order_prefix by lia.
        by rewrite <-list_fmap_compose.
    + apply emits_for_each, Forall_forall. intros c Hin. apply add_code_emits;
        [exact Hcl|exact (proj1 (Forall_forall _ _) Hc c Hin)|exact (proj1 (Forall_forall _ _) Hp c Hin)].
  - intros rest. rewrite <-!app_assoc. unfold read_trees.
    rewrite (read_bits_lsb _ 5) by (unfold ll_size in Hls; fold h in Hls; simpl; lia). cbn [mbind option_bind].
    rewrite (read_bits_lsb _ 5) by (unfold d_size in Hds; fold g in Hds; simpl; lia). cbn [mbind option_bind].
    rewrite (read_bits_lsb _ 4) by (simpl; lia). cbn [mbind option_bind].
    replace (Z.to_nat (Z.of_nat k + 4)) with (k + 4)%nat by lia.
    rewrite read_code_lengths_spec by done. cbn [mbind option_bind]. unfold k. rewrite set_codes_all by done.
    replace (Z.to_nat (Z.of_nat h + 257)) with ll_size by (unfold ll_size; fold h; lia).
    replace (ll_size + Z.to_nat (Z.of_nat g + 1))%nat with (length lld) by (rewrite Hll1; unfold d_size; fold g; lia).
    rewrite read_lengths_spec by (done || lia). cbn [mbind option_bind].
    subst lld. rewrite take_app_le, take_take, Nat.min_id by (rewrite length_take; lia).
    rewrite drop_app_ge, length_take, Nat.min_l, Nat.sub_diag, drop_0 by (rewrite ?length_take; lia). done.
Qed.
End trees.

(** ** The distance codes for buggy decoders *)

Lemma num_dist_codes_spec d is_ num : 0 <= num -> let r := num_dist_codes d is_ num in r < 2 ->
  r = num /\ (forall i, i ∈ is_ -> table_at d i = 0) \/
  num = 0 /\ r = 1 /\ exists i0, i0 ∈ is_ /\ table_at d i0 <> 0 /\ forall i, i ∈ is_ -> i <> i0 -> table_at d i = 0.
Proof.
  cbv zeta. revert num. induction is_ as [|i is_ IH]; intros num Hn; [left; split; [done|by intros i ?%elem_of_nil]|].
  cbn [num_dist_codes]. destruct (Z.eqb_spec (table_at d i) 0) as [E|E].
  - destruct (Z.leb_spec 2 num) as [?|_]; [lia|]. intros Hr. destruct (IH num Hn Hr) as [[H1 H2]|(H1 & H2 & i0 & H3 & H4 & H5)].
    + left. split; [done|]. intros j [->|Hj]%elem_of_cons; [done|by apply H2].
    + right. split; [done|]. split; [done|]. exists i0. split; [by right|]. split; [done|].
      intros j [->|Hj]%elem_of_cons Hne; [done|by apply H5].
  - destruct (Z.leb_spec 2 (num + 1)) as [?|Hlt]; [lia|]. intros Hr.
    destruct (IH (num + 1) ltac:(lia) Hr) as [[H1 H2]|(H1 & _)]; [|lia]. right. split; [lia|]. split; [lia|]. exists i.
    split; [left|]. split; [done|]. intros j [->|Hj]%elem_of_cons Hne; [done|by apply H2].
Qed.

Lemma kraft_insert l i v m : l !! i = Some 0 -> 0 < v <= m ->
  kraft_upto (<[i := v]> l) m m = kraft_upto l m m + 2 ^ (m - v).
Proof.
  intros Hi Hv. revert i Hi. induction l as [|x l IH]; intros [|i] Hi; [done|done|..].
  - injection Hi as ->. cbn [insert list_insert kraft_upto]. rewrite (proj2 (Z.ltb_lt 0 v)), (proj2 (Z.leb_le v m)) by lia. cbn. lia.
  - cbn [insert list_insert kraft_upto]. change (list_insert i v l) with (<[i := v]> l). rewrite IH by done. lia.
Qed.

Section patch.
Context (d : list Z) (Hd : lengths_ok 15 d) (Hdlen : length d = 32%nat).
Context (Hd0 : table_at d 30 = 0 /\ table_at d 31 = 0).

Lemma d_lookup i x : d !! i = Some x -> x = table_at d (Z.of_nat i).
Proof. intros H. rewrite table_at_nat. by rewrite H. Qed.

Lemma insert_one_ok i l : lengths_ok 15 l -> l !! i = Some 0 -> kraft_upto l 15 15 <= 2 ^ 14 -> lengths_ok 15 (<[i := 1]> l).
Proof.
  intros [H1 H2 H3] Hi Hk. constructor; [done|by apply Forall_insert; [|lia]|]. rewrite (kraft_insert _ _ _ _ Hi) by lia.
  change (2 ^ (15 - 1)) with (2 ^ 14). lia.
Qed.

Lemma patch_spec : let d' := PatchDistanceCodesForBuggyDecoders d in
  lengths_ok 15 d' /\ length d' = 32%nat /\ table_at d' 30 = 0 /\ table_at d' 31 = 0 /\
  (forall i, 0 <= i -> 0 < table_at d i -> 0 < table_at d' i).
Proof.
  cbv zeta. unfold PatchDistanceCodesForBuggyDecoders. cbv zeta.
  destruct (Z.leb_spec 2 (num_dist_codes d (seqZ 0 30) 0)) as [_|Hlt]; [destruct Hd0; split_and!; try done; tauto|].
  assert (forall t i, length t = 32%nat -> (i < 2)%nat -> table_at t 30 = 0 -> table_at t 31 = 0 ->
    length (<[i := 1]> t) = 32%nat /\ table_at (<[i := 1]> t) 30 = 0 /\ table_at (<[i := 1]> t) 31 = 0 /\
    forall j, 0 <= j -> 0 < table_at t j -> 0 < table_at (<[i := 1]> t) j) as Hins.
  { intros t i Hl Hi H30 H31. assert (forall j, 0 <= j -> table_at (<[i := 1]> t) j = if j =? Z.of_nat i then 1 else table_at t j) as E.
    { intros j Hj. rewrite <-(Nat2Z.id i) at 1. rewrite table_at_insert by lia. done. }
    split; [by rewrite length_insert|]. rewrite !E, !(proj2 (Z.eqb_neq _ (Z.of_nat i))) by lia. split; [done|]. split; [done|].
    intros j Hj Hp. rewrite E by done. destruct (j =? Z.of_nat i); lia. }
  destruct (num_dist_codes_spec d (seqZ 0 30) 0 ltac:(lia) Hlt) as [[-> Hz]|(_ & -> & i0 & Hi0 & Hp & Hz)].
  - rewrite Z.eqb_refl. assert (d = replicate 32 0) as ->.
    { apply list_eq_same_length with (n := 32%nat); [by rewrite length_replicate|done|]. intros i x y Hi ->%d_lookup [-> _]%lookup_replicate_1.
      destruct (decide (i < 30)%nat); [apply Hz, elem_of_seqZ; lia|]. assert (i = 30 \/ i = 31)%nat as [->| ->] by lia; apply Hd0. }
    destruct (Hins (<[1%nat := 1]> (replicate 32 0)) 0%nat) as (H1 & H2 & H3 & _); [done|lia|done|done|].
    split; [constructor; [lia|apply (bool_decide_unpack _); by vm_compute|by vm_compute]|]. split; [exact H1|]. split; [exact H2|]. split; [exact H3|].
    intros i Hi. rewrite table_at_replicate. lia.
  - change (1 =? 0) with false. cbv iota. set (j := if table_at d 0 =? 0 then 0%nat else 1%nat).
    apply elem_of_seqZ in Hi0 as Hr0.
    assert (d !! j = Some 0 /\ (j < 2)%nat) as [Hj Hj2].
    { unfold j. destruct (Z.eqb_spec (table_at d 0) 0) as [E|E].
      - split; [|lia]. destruct (lookup_lt_is_Some_2 d 0 ltac:(lia)) as [x Hx]. rewrite Hx. f_equal. by rewrite (d_lookup _ _ Hx).
      - split; [|lia]. destruct (lookup_lt_is_Some_2 d 1 ltac:(lia)) as [x Hx]. rewrite Hx. f_equal. rewrite (d_lookup _ _ Hx).
        apply Hz; [apply elem_of_seqZ; lia|]. intros <-. apply E. apply Hz; [apply elem_of_seqZ; lia|lia]. }
    assert (kraft_upto d 15 15 <= 2 ^ 14) as Hk.
    { destruct (lookup_lt_is_Some_2 d (Z.to_nat i0) ltac:(lia)) as [x Hx].
      pose proof (proj1 (Forall_lookup _ _) (lo_range _ _ Hd) _ _ Hx) as Hxr. cbn in Hxr.
      pose proof (d_lookup _ _ Hx) as Ex. rewrite Z2Nat.id in Ex by lia.
      assert (d = <[Z.to_nat i0 := x]> (replicate 32 0)) as ->.
      { apply list_eq_same_length with (n := 32%nat); [by rewrite length_insert, length_replicate|done|].
        intros i a b Hi Ha [(<- & <- & _)|[Hne [-> _]%lookup_replicate_1]]%list_lookup_insert_Some.
        - congruence.
        - rewrite (d_lookup _ _ Ha). destruct (decide (i < 30)%nat); [apply Hz; [apply elem_of_seqZ; lia|lia]|].
          assert (i = 30 \/ i = 31)%nat as [->| ->] by lia; apply Hd0. }
      rewrite kraft_insert by (try lia; apply lookup_replicate_2; lia).
      change (kraft_upto (replicate 32 0) 15 15) with 0. pose proof (Z.pow_le_mono_r 2 (15 - x) 14). lia. }
    destruct (Hins d j Hdlen Hj2) as (H1 & H2 & H3 & H4); [apply Hd0..|]. split_and!; try done. by apply insert_one_ok.
Qed.
End patch.
