(* ===== verification/ZopfliRoundTrip.v ===== *)
(** * Zopfli: what is written is read back

    A dynamic block from the histograms of its data, a stored block, and
    sequences of blocks up to the final one. *)

From S2P Require Import Prelude ZopfliUtil ZopfliBits ZopfliTree Katajainen PackageMerge CodeLengths Inflate ZopfliDeflate ZopfliBlocks ZopfliDynamic.

Local Open Scope Z_scope.

(** ** Counts *)

(** The literal or length symbol of an item, and the distance symbol of a
    match. *)
Definition ll_symbol (x : Z * Z) : Z := if x.2 =? 0 then x.1 else ret_or (ZopfliGetLengthSymbol x.1).
Definition d_symbol (x : Z * Z) : Z := ZopfliGetDistSymbol x.2.
Definition matches (l : list (Z * Z)) : list (Z * Z) := filter (fun x => x.2 <> 0) l.

Lemma item_symbols x : item_ok x -> 0 <= ll_symbol x <= 285 /\ ll_symbol x <> 256 /\
  (x.2 <> 0 -> ZopfliGetLengthSymbol x.1 = Ret (ll_symbol x) /\ 0 <= d_symbol x <= 29).
Proof.
  unfold item_ok, ll_symbol, d_symbol. intros [[-> Hl]|[Hd Hl]]; [cbn; lia|]. rewrite (proj2 (Z.eqb_neq x.2 0)) by lia.
  destruct (length_symbol_ok x.1 Hl) as (lls & bits & value & E & _ & _ & Hs). rewrite E. cbn [ret_or].
  apply symbol_ok_inv in Hs as (Hr & _). cbn in Hr.
  pose proof (symbol_ok_inv _ _ _ _ _ _ _ (dist_symbol_ok x.2 Hd)) as (Hdr & _). cbn in Hdr. split; [lia|]. split; [lia|]. intros _. split; [done|lia].
Qed.

(** [count_item] after its reads. *)
Definition put_count (x : Z * Z) (counts : list Z * list Z) : outcome (list Z * list Z) :=
  let '(ll_count, d_count) := counts in
  let '(litlen, dist) := x in
  if dist =? 0 then
    ll_count ← increment ll_count litlen; Ret (ll_count, d_count)
  else
    lls ← ZopfliGetLengthSymbol litlen;
    ll_count ← increment ll_count lls;
    d_count ← increment d_count (ZopfliGetDistSymbol dist);
    Ret (ll_count, d_count).

Lemma counts_spec store lstart lend : range_ok store lstart lend ->
  Forall item_ok (block_items store lstart lend) -> lend - lstart < 2 ^ 31 ->
  exists llc dc, ZopfliLZ77Counts store lstart lend = Ret (<[256%nat := 1]> llc, dc) /\
    histogram ll_symbol 288 (block_items store lstart lend) llc /\
    histogram d_symbol 32 (matches (block_items store lstart lend)) dc.
Proof.
  intros Hr Hok Hsize. unfold ZopfliLZ77Counts.
  rewrite (for_each_items store lstart lend _ put_count); [|done|].
  2: { intros i [llc dc]. unfold count_item. apply bind_ext. by intros [a b]. }
  pose proof (length_block_items _ _ _ Hr) as Hl. set (l := block_items store lstart lend) in *.
  destruct (for_each_inv (fun seen s => histogram ll_symbol 288 seen s.1 /\ histogram d_symbol 32 (matches seen) s.2)
    put_count l (replicate 288 0, replicate 32 0)) as ([llc dc] & -> & H1 & H2).
  - split; apply histogram_nil.
  - intros seen x rest [llc dc] E [H1 H2]. cbn [fst snd] in *. rewrite E in Hok, Hl.
    apply Forall_app in Hok as [_ [Hx _]%Forall_cons]. rewrite length_app in Hl.
    destruct (item_symbols x Hx) as (Hs & _ & Hm).
    destruct (increment_histogram ll_symbol 288 seen x llc H1 ltac:(lia) ltac:(lia)) as (llc' & E1 & H1').
    unfold put_count. destruct x as [litlen dist]. unfold matches. rewrite filter_app, filter_cons, filter_nil.
    unfold ll_symbol in E1, Hm. cbn [fst snd] in E1, Hm. destruct (Z.eqb_spec dist 0) as [->|Hne].
    + rewrite E1, outcome_bind_ret. eexists. split; [done|]. split; [done|]. cbn [fst snd].
      rewrite decide_False, app_nil_r by (intros H; by apply H). done.
    + destruct (Hm Hne) as [-> Hds]. rewrite outcome_bind_ret, E1, outcome_bind_ret.
      destruct (increment_histogram d_symbol 32 (matches seen) (litlen, dist) dc H2 ltac:(lia)) as (dc' & E2 & H2').
      { unfold matches. pose proof (length_filter (fun x : Z * Z => x.2 <> 0) seen). lia. }
      unfold d_symbol in E2. cbn [snd] in E2. rewrite E2, outcome_bind_ret. eexists. split; [done|]. split; [done|].
      cbn [fst snd]. rewrite decide_True by done. exact H2'.
  - rewrite outcome_bind_ret. by exists llc, dc.
Qed.

Lemma occurrences_none {A} (g : A -> Z) l s : (forall x, x ∈ l -> g x <> s) -> occurrences g l s = 0.
Proof.
  intros H. unfold occurrences. induction l as [|x l IH]; [done|]. rewrite filter_cons, decide_False by (apply H; left).
  apply IH. intros y Hy. apply H. by right.
Qed.

(** The code lengths that a histogram gets. *)
Lemma lengths_of_counts {sort : Qsort} n counts : length counts = n -> (n <= 288)%nat -> Forall (fun f => 0 <= f < 2 ^ 31) counts ->
  exists lengths, ZopfliCalculateBitLengths counts 15 = Ret lengths /\ lengths_ok 15 lengths /\ length lengths = n /\
    forall i, 0 <= i < Z.of_nat n -> (table_at counts i = 0 <-> table_at lengths i = 0) /\ 0 <= table_at lengths i.
Proof.
  intros Hn Hle Hf. destruct (ZopfliCalculateBitLengths_spec counts 15) as (lengths & Hl & Hc); [lia|done|simpl; lia|].
  exists lengths. split; [done|]. split; [apply (code_lengths_ok counts 15); [lia|done]|].
  pose proof (cl_table _ _ _ Hc) as Ht. pose proof (Forall2_length _ _ _ Ht). split; [lia|].
  intros i Hi. assert (exists j, i = Z.of_nat j) as [j ->] by (exists (Z.to_nat i); lia).
  destruct (lookup_lt_is_Some_2 counts j ltac:(lia)) as [f Hfj]. destruct (Forall2_lookup_l _ _ _ _ _ Ht Hfj) as (len & Hlj & Hz & Hr).
  rewrite !table_at_nat, Hfj, Hlj. cbn. lia.
Qed.

Lemma dynamic_trees {sort : Qsort} store lstart lend : range_ok store lstart lend ->
  Forall item_ok (block_items store lstart lend) -> lend - lstart < 2 ^ 31 ->
  exists llc dc ll d, dynamic_lengths store lstart lend = Ret (llc, dc, ll, d) /\
    trees_ok ll d (block_items store lstart lend) /\
    table_at ll 286 = 0 /\ table_at ll 287 = 0 /\ table_at d 30 = 0 /\ table_at d 31 = 0 /\
    (forall i, 0 <= i < 288 -> table_at llc i = 0 \/ 0 < table_at ll i) /\
    (forall i, 0 <= i < 32 -> table_at dc i = 0 \/ 0 < table_at d i).
Proof.
  intros Hr Hok Hsize. destruct (counts_spec store lstart lend Hr Hok Hsize) as (llc & dc & Hc & Hll & Hd).
  pose proof (length_block_items _ _ _ Hr) as Hl. set (l := block_items store lstart lend) in *.
  assert (Z.of_nat (length (matches l)) <= Z.of_nat (length l)) as Hml by (unfold matches; pose proof (length_filter (fun x : Z * Z => x.2 <> 0) l); lia).
  pose proof (histogram_range _ _ _ _ Hll ltac:(lia)) as Hllr. pose proof (histogram_range _ _ _ _ Hd ltac:(lia)) as Hdr.
  destruct Hll as [Hlln Hllc], Hd as [Hdn Hdc].
  destruct (lengths_of_counts 288 (<[256%nat := 1]> llc)) as (ll & Hllv & Hllok & Hllen & Hlliff);
    [by rewrite length_insert|lia|by apply Forall_insert; [|lia]|].
  destruct (lengths_of_counts 32 dc) as (d & Hdv & Hdok & Hdlen & Hdiff); [done|lia|done|].
  assert (forall i, 0 <= i < 288 -> table_at (<[256%nat := 1]> llc) i = if i =? 256 then 1 else table_at llc i) as Hins
    by (intros i Hi; change 256%nat with (Z.to_nat 256); by rewrite table_at_insert by lia).
  assert (forall s, 286 <= s < 288 -> table_at ll s = 0) as Hll0.
  { intros s Hs. apply Hlliff; [lia|]. rewrite Hins, (proj2 (Z.eqb_neq s 256)), Hllc by lia.
    apply occurrences_none. intros x Hx%(proj1 (Forall_forall _ _) Hok)%item_symbols. lia. }
  assert (forall s, 30 <= s < 32 -> table_at d s = 0) as Hd0.
  { intros s Hs. apply Hdiff; [lia|]. rewrite Hdc by lia. apply occurrences_none.
    intros x [Hne Hx]%list_elem_of_filter. apply (proj1 (Forall_forall _ _) Hok) in Hx. destruct (item_symbols x Hx) as (_ & _ & H).
    destruct (H Hne). lia. }
  destruct (patch_spec d Hdok Hdlen ltac:(split; apply Hd0; lia)) as (Hpok & Hplen & Hp30 & Hp31 & Hpos).
  exists (<[256%nat := 1]> llc), dc, ll, (PatchDistanceCodesForBuggyDecoders d).
  assert (forall s, 0 <= s < 288 -> 0 < table_at (<[256%nat := 1]> llc) s -> 0 < table_at ll s) as Hllpos
    by (intros s Hs Hp; specialize (Hlliff s ltac:(lia)); lia).
  assert (forall s, 0 <= s < 32 -> 0 < table_at dc s -> 0 < table_at (PatchDistanceCodesForBuggyDecoders d) s) as Hdpos
    by (intros s Hs Hp; apply Hpos; [lia|]; specialize (Hdiff s ltac:(lia)); lia).
  split; [unfold dynamic_lengths; rewrite Hc, outcome_bind_ret, Hllv, outcome_bind_ret, Hdv; done|]. split.
  - constructor; try done.
    + apply Forall_forall. intros x Hx. pose proof (proj1 (Forall_forall _ _) Hok x Hx) as Hxok.
      destruct (item_symbols x Hxok) as (Hs & Hne & Hm). unfold has_codes.
      assert (0 < table_at ll (ll_symbol x)) as Hp.
      { apply Hllpos; [lia|]. rewrite Hins, (proj2 (Z.eqb_neq _ _)), Hllc by (done || lia). by apply occurrences_pos. }
      unfold ll_symbol in Hp, Hm. destruct (Z.eqb_spec x.2 0) as [_|Hx2]; [done|]. destruct (Hm Hx2) as [E Hds].
      split; [intros lls E'; rewrite E in E'; injection E' as <-; done|]. apply Hdpos; [exact ltac:(unfold d_symbol in Hds; lia)|].
      change (ZopfliGetDistSymbol x.2) with (d_symbol x). rewrite Hdc by lia. apply occurrences_pos. by apply list_elem_of_filter.
    + apply Hllpos; [lia|]. by rewrite Hins by lia.
  - split_and!; try (apply Hll0; lia); try done.
    + intros i Hi. destruct (Z.eq_dec (table_at (<[256%nat := 1]> llc) i) 0) as [?|Hne]; [by left|]. right.
      specialize (Hlliff i ltac:(lia)). lia.
    + intros i Hi. destruct (Z.eq_dec (table_at dc i) 0) as [?|Hne]; [by left|]. right.
      apply Hpos; [lia|]. specialize (Hdiff i ltac:(lia)). lia.
Qed.

Lemma dynamic_block_written {sort : Qsort} final store lstart lend expected :
  block_ok store lstart lend expected -> lend - lstart < 2 ^ 31 ->
  writes_block (AddLZ77Block 2 (Z.b2z final) store lstart lend expected) final (lz_decode (block_items store lstart lend)).
Proof.
  intros Hok Hsize. pose proof Hok as [Hr Hi _].
  destruct (dynamic_trees store lstart lend Hr Hi Hsize) as (llc & dc & ll & d & Hdl & Ht & H286 & H287 & H30 & H31 & Hall & Hdall).
  pose proof Ht as [Hllok Hdok Hlllen Hdlen _ _].
  destruct (AddDynamicTree_written ll d Hllok Hdok Hlllen Hdlen) as (tree_bits & Htree & Hread).
  apply (block_written 2 final _ (AddDynamicTree ll d) tree_bits store lstart lend expected ll d); [by right|done|done|done|..].
  - intros o. rewrite AddLZ77Block_header. apply bind_ext. intros o1. unfold after_header.
    change (2 =? 1) with false. change (negb (2 =? 2)) with false. cbv iota. rewrite Hdl, outcome_bind_ret, !outcome_bind_assoc.
    apply bind_ext. intros o2.
    assert (forall n t t', (forall i, 0 <= i < n -> table_at t i = 0 \/ 0 < table_at t' i) ->
      forallb (fun i => (table_at t i =? 0) || (0 <? table_at t' i)) (seqZ 0 n) = true) as Hassert.
    { intros n t t' H. apply forallb_forall. intros i Hin%list_elem_of_In%elem_of_seqZ.
      destruct (H i ltac:(lia)) as [->|Hp]; [done|]. by rewrite (proj2 (Z.ltb_lt _ _) Hp), orb_true_r. }
    rewrite !Hassert by done. cbn [andb]. by rewrite outcome_bind_ret.
  - intros rest output output' Hdec. unfold block_body. change (2 =? 0) with false. change (2 =? 1) with false. cbv iota.
    rewrite Hread. cbn [mbind option_bind]. apply inflate_symbols; [done|done| | |done].
    + intros i r Hin Hp. eapply read_trimmed; [done|exact (ll_trimmed ll d Hlllen Hdlen (conj H286 H287))|lia|done].
    + intros i r Hin Hp. eapply read_trimmed; [done|exact (d_trimmed ll d Hlllen Hdlen (conj H30 H31))|lia|done].
Qed.

(** ** Stored blocks *)

Lemma read_bits_add n m bits v r w r' : read_bits n bits = Some (v, r) -> read_bits m r = Some (w, r') ->
  read_bits (n + m) bits = Some (v + 2 ^ Z.of_nat n * w, r').
Proof.
  revert bits v. induction n as [|n IH]; intros bits v; cbn [read_bits Nat.add].
  - intros [= <- <-] ->. do 2 f_equal. lia.
  - destruct bits as [|b bits]; [done|]. destruct (read_bits n bits) as [[v0 r0]|] eqn:E; [|done]. cbn [mbind option_bind].
    intros [= <- <-] Hw. rewrite (IH bits v0 E Hw). cbn [mbind option_bind]. do 2 f_equal.
    rewrite Nat2Z.inj_succ, Z.pow_succ_r by lia. lia.
Qed.

Lemma read_byte b rest : is_byte b -> read_bits 8 (byte_bits b ++ rest) = Some (b, rest).
Proof.
  intros Hb. change (byte_bits b) with (lsb_bits b (Z.of_nat 8)). apply read_bits_lsb. unfold is_byte in Hb. simpl. lia.
Qed.

Lemma read_two_bytes a b rest : is_byte a -> is_byte b ->
  read_bits 16 (bytes_bits [a; b] ++ rest) = Some (a + 256 * b, rest).
Proof.
  intros Ha Hb. change (bytes_bits [a; b]) with (byte_bits a ++ byte_bits b ++ []). rewrite app_nil_r, <-app_assoc.
  apply (read_bits_add 8 8 _ _ (byte_bits b ++ rest)); by apply read_byte.
Qed.

Lemma read_bytes_spec bs rest : Forall is_byte bs -> read_bytes (length bs) (bytes_bits bs ++ rest) = Some (bs, rest).
Proof.
  induction 1 as [|b bs Hb _ IH]; [done|]. cbn [length read_bytes].
  change (bytes_bits (b :: bs)) with (byte_bits b ++ bytes_bits bs). rewrite <-app_assoc, read_byte by done.
  cbn [mbind option_bind]. rewrite IH. done.
Qed.

(** Whole bytes after whole bytes. *)
Lemma holds_bytes o pre pad bs : holds o pre -> bytes_bits (out o) = pre ++ replicate pad false -> Forall is_byte bs ->
  holds (MkOut 0 (out o ++ bs)) (pre ++ replicate pad false ++ bytes_bits bs).
Proof.
  intros Ho Hp Hb. constructor; cbn [out bp].
  - apply Forall_app. split; [apply Ho|done].
  - exists 0%nat. split; [lia|]. by rewrite bytes_bits_app, Hp, app_nil_r, app_assoc.
  - rewrite app_assoc, <-Hp, length_app, !length_bytes_bits.
    replace (Z.of_nat (8 * length (out o) + 8 * length bs)) with (Z.of_nat (length (out o) + length bs) * 8) by lia.
    by rewrite Z.mod_mul.
Qed.

Definition slice (in_ : list Z) (instart inend : Z) : list Z :=
  take (Z.to_nat (inend - instart)) (drop (Z.to_nat instart) in_).

Lemma append_slice in_ instart inend o : 0 <= instart <= inend -> inend <= Z.of_nat (length in_) -> Forall is_byte in_ ->
  for_each (seqZ instart (inend - instart)) (fun i o => b ← index in_ i; Ret (append_data b o)) o =
    Ret (MkOut (bp o) (out o ++ slice in_ instart inend)).
Proof.
  intros Hi He Hb. unfold slice. remember (Z.to_nat (inend - instart)) as n eqn:Hn.
  replace (inend - instart) with (Z.of_nat n) by lia. assert (inend = instart + Z.of_nat n) as -> by lia. clear Hn.
  revert instart o Hi He. induction n as [|n IH]; intros a o Hi He; [destruct o; cbn; by rewrite app_nil_r|].
  destruct (lookup_lt_is_Some_2 in_ (Z.to_nat a) ltac:(lia)) as [x Hx].
  rewrite (drop_S _ _ _ Hx), seqZ_cons by lia. cbn [take for_each].
  assert (index in_ a = Ret x) as -> by (unfold index; by rewrite (proj2 (Z.ltb_ge _ _)), Hx by lia).
  rewrite !outcome_bind_ret, Nat2Z.inj_succ, Z.pred_succ. replace (S (Z.to_nat a)) with (Z.to_nat (Z.succ a)) by lia.
  rewrite IH by lia. cbn [append_data bp out]. unfold u8.
  pose proof (proj1 (Forall_lookup _ _) Hb _ _ Hx) as Hxb. unfold is_byte in Hxb. rewrite Z.mod_small by lia. by rewrite <-app_assoc.
Qed.

Lemma u16_lnot x : 0 <= x < 65536 -> u16 (Z.lnot x) = 65535 - x.
Proof.
  intros Hx. unfold u16, Z.lnot. replace (Z.pred (- x)) with (65535 - x + (-1) * 2 ^ 16) by lia.
  rewrite Z.mod_add, Z.mod_small by lia. done.
Qed.

Lemma low_high x : 0 <= x < 65536 ->
  is_byte (x mod 256) /\ is_byte (x / 256 mod 256) /\ x mod 256 + 256 * (x / 256 mod 256) = x.
Proof.
  intros Hx. unfold is_byte. pose proof (Z.mod_pos_bound x 256). pose proof (Z.mod_pos_bound (x / 256) 256).
  pose proof (Z.div_pos x 256). pose proof (Z.div_lt_upper_bound x 256 256). rewrite (Z.mod_small (x / 256)) by lia.
  pose proof (Z.div_mod x 256). lia.
Qed.

Lemma stored_block_written final in_ instart inend :
  0 <= instart <= inend -> inend <= Z.of_nat (length in_) -> Forall is_byte in_ -> inend - instart < 65536 ->
  writes_block (DeflateNonCompressedBlock (Z.b2z final) in_ instart inend) final
    (fun output => Some (output ++ slice in_ instart inend)).
Proof.
  intros Hi He Hb Hsize o pre Ho. unfold DeflateNonCompressedBlock. rewrite u64_small by lia. set (n := inend - instart) in *.
  cbv zeta. rewrite (proj2 (Z.ltb_lt n 65536)) by done. cbn [negb].
  destruct (header_emits 0 final ltac:(tauto) o pre Ho) as (o1 & Hh & H1).
  unfold header in Hh. change (Z.land 0 1) with 0 in Hh. change (Z.shiftr (Z.land 0 2) 1) with 0 in Hh.
  destruct (AddBit (Z.b2z final) o) as [a| | |]; try done. rewrite outcome_bind_ret in Hh |- *.
  destruct (AddBit 0 a) as [b| | |]; try done. rewrite outcome_bind_ret in Hh |- *. rewrite Hh, outcome_bind_ret.
  change (seqZ instart n) with (seqZ instart (inend - instart)). rewrite append_slice by done. cbn [append_data bp out]. rewrite u16_lnot by lia.
  destruct (low_high n ltac:(lia)) as (L1 & L2 & L3). destruct (low_high (65535 - n) ltac:(lia)) as (N1 & N2 & N3).
  assert (forall x, is_byte x -> u8 x = x) as Hu8 by (intros x Hx; apply Z.mod_small; unfold is_byte in Hx; lia).
  rewrite !Hu8 by done. rewrite <-!app_assoc. cbn [app].
  set (data := slice in_ instart inend).
  set (bytes := n mod 256 :: n / 256 mod 256 :: (65535 - n) mod 256 :: (65535 - n) / 256 mod 256 :: data).
  assert (Forall is_byte data) as Hdata by (by apply Forall_take, Forall_drop).
  destruct (h_bits _ _ H1) as (pad & Hpad & Hbits).
  exists (MkOut 0 (out o1 ++ bytes)). exists ([final; false; false] ++ replicate pad false ++ bytes_bits bytes).
  split; [done|]. split.
  - rewrite app_assoc. apply holds_bytes; [exact H1|exact Hbits|unfold bytes; repeat (apply Forall_cons; split; [assumption|]); exact Hdata].
  - split; [done|]. intros rest output output' [= <-] Hmod. rewrite <-!app_assoc. cbn [app].
    change (final :: false :: false :: ?l) with (final :: Z.testbit 0 0 :: Z.testbit 0 1 :: l).
    rewrite inflate_header by tauto. unfold block_body. change (0 =? 0) with true. cbv iota.
    assert (length (replicate pad false ++ bytes_bits bytes ++ rest) mod 8 = pad)%nat as Hskip.
    { apply (f_equal length) in Hbits. rewrite length_bytes_bits, !length_app, length_replicate in Hbits. cbn [length] in Hbits.
      rewrite !length_app, length_replicate, length_bytes_bits in Hmod. cbn [length] in Hmod.
      rewrite !length_app, length_replicate, length_bytes_bits.
      replace (length pre + (3 + (pad + 8 * length bytes) + length rest))%nat
        with (length rest + (length (out o1) + length bytes) * 8)%nat in Hmod by lia.
      rewrite Nat.Div0.mod_add in Hmod.
      replace (pad + (8 * length bytes + length rest))%nat with (pad + length rest + length bytes * 8)%nat by lia.
      rewrite Nat.Div0.mod_add, Nat.Div0.add_mod, Hmod, Nat.add_0_r, Nat.Div0.mod_mod. by apply Nat.mod_small. }
    unfold inflate_stored. rewrite Hskip, drop_app_ge, length_replicate, Nat.sub_diag, drop_0 by (rewrite length_replicate; lia).
    change (bytes_bits bytes) with (bytes_bits [n mod 256; n / 256 mod 256] ++
      bytes_bits [(65535 - n) mod 256; (65535 - n) / 256 mod 256] ++ bytes_bits data). rewrite <-!app_assoc.
    rewrite read_two_bytes by done. cbn [mbind option_bind]. rewrite read_two_bytes by done. cbn [mbind option_bind].
    rewrite L3, N3, Z.eqb_refl.
    assert (Z.to_nat n = length data) as -> by (unfold data, slice; rewrite length_take, length_drop; lia).
    rewrite read_bytes_spec by done. done.
Qed.

(** ** Streams of blocks *)

Lemma lz_decode_app a b output : lz_decode (a ++ b) output = (o ← lz_decode a output; lz_decode b o).
Proof.
  revert output. induction a as [|[litlen dist] a IH]; intros output; [done|]. cbn [app lz_decode].
  destruct (dist =? 0); [apply IH|]. destruct (copy_match _ _ _) as [o|]; [|done]. cbn [mbind option_bind]. apply IH.
Qed.

Lemma block_items_app store a b c : 0 <= a <= b -> b <= c ->
  block_items store a c = block_items store a b ++ block_items store b c.
Proof.
  intros Hab Hbc. unfold block_items. replace (Z.to_nat (c - a)) with (Z.to_nat (b - a) + Z.to_nat (c - b))%nat by lia.
  rewrite <-take_take_drop, drop_drop. do 3 f_equal. lia.
Qed.

(** [f] writes blocks that a decoder reads, after [output], as [output'], whatever
    comes before and after them; the last one has the bit [final]. *)
Definition writes_blocks (f : bitout -> outcome bitout) (final : bool) (output output' : list Z) : Prop :=
  forall o pre, holds o pre -> exists o' bits, f o = Ret o' /\ holds o' (pre ++ bits) /\
    exists k, (0 < k <= length bits)%nat /\ forall rest fuel, (length (pre ++ bits ++ rest) mod 8 = 0)%nat ->
      inflate_blocks (k + fuel) (bits ++ rest) output = if final then Some (output', rest) else inflate_blocks fuel rest output'.

Lemma one_block f final decode output output' : writes_block f final decode -> decode output = Some output' ->
  writes_blocks f final output output'.
Proof.
  intros Hf Hd o pre Ho. destruct (Hf o pre Ho) as (o' & bits & E & Ho' & Hne & Hread). exists o', bits. split; [done|]. split; [done|].
  exists 1%nat. split; [destruct bits; [done|simpl; lia]|]. intros rest fuel Hmod. cbn [Nat.add inflate_blocks].
  rewrite (Hread _ _ _ Hd Hmod). cbn [mbind option_bind]. by destruct final.
Qed.

Lemma blocks_ext f g final output output' : (forall o, f o = g o) -> writes_blocks g final output output' -> writes_blocks f final output output'.
Proof. intros E H o pre Ho. rewrite E. by apply H. Qed.

Lemma blocks_bind f g final output1 output2 output3 : writes_blocks f false output1 output2 -> writes_blocks g final output2 output3 ->
  writes_blocks (fun o => o ← f o; g o) final output1 output3.
Proof.
  intros Hf Hg o pre Ho. destruct (Hf o pre Ho) as (o1 & bits1 & -> & Ho1 & k1 & Hk1 & Hr1). rewrite outcome_bind_ret.
  destruct (Hg o1 _ Ho1) as (o2 & bits2 & -> & Ho2 & k2 & Hk2 & Hr2). exists o2, (bits1 ++ bits2). split; [done|].
  split; [by rewrite app_assoc|]. exists (k1 + k2)%nat. split; [rewrite length_app; lia|]. intros rest fuel Hmod.
  rewrite <-!app_assoc in Hmod |- *. replace (k1 + k2 + fuel)%nat with (k1 + (k2 + fuel))%nat by lia. rewrite Hr1 by done. apply Hr2.
  by rewrite <-app_assoc.
Qed.

(** The blocks of a loop; [outputs i] is the output before the block [i]. *)
Lemma blocks_for_each (outputs : Z -> list Z) F final a n : 0 < n ->
  (forall i, a <= i < a + n -> writes_blocks (F i) ((i =? a + n - 1) && final) (outputs i) (outputs (i + 1))) ->
  writes_blocks (for_each (seqZ a n) F) final (outputs a) (outputs (a + n)).
Proof.
  intros Hn. remember (Z.to_nat (n - 1)) as m eqn:Hm. assert (n = Z.of_nat m + 1) as -> by lia. clear Hm Hn.
  revert a. induction m as [|m IH]; intros a H; rewrite seqZ_cons by lia.
  - replace (Z.pred _) with 0 by lia. specialize (H a ltac:(lia)). rewrite (proj2 (Z.eqb_eq _ _)) in H by lia. cbn [andb] in H.
    apply (blocks_ext _ (F a)); [|by replace (a + (Z.of_nat 0 + 1)) with (a + 1) by lia].
    intros o. cbn [for_each]. by destruct (F a o).
  - cbn [for_each]. apply (blocks_bind (F a) (for_each (seqZ (Z.succ a) (Z.pred (Z.of_nat (S m) + 1))) F) final _ (outputs (a + 1))).
    + specialize (H a ltac:(lia)). by rewrite (proj2 (Z.eqb_neq _ _)) in H by lia.
    + replace (Z.succ a) with (a + 1) by lia. replace (Z.pred _) with (Z.of_nat m + 1) by lia.
      replace (a + (Z.of_nat (S m) + 1)) with (a + 1 + (Z.of_nat m + 1)) by lia. apply IH.
      intros i Hi. specialize (H i ltac:(lia)). by replace (a + (Z.of_nat (S m) + 1) - 1) with (a + 1 + (Z.of_nat m + 1) - 1) in H by lia.
Qed.

(** Whole bytes, from their bits. *)
Lemma bytes_bits_prefix a c bits : Forall is_byte a -> Forall is_byte c -> bytes_bits c = bytes_bits a ++ bits ->
  exists b, c = a ++ b /\ bytes_bits b = bits.
Proof.
  intros Ha. revert c. induction Ha as [|x a Hx _ IH]; intros c Hc E; [by exists c|].
  change (bytes_bits (x :: a)) with (byte_bits x ++ bytes_bits a) in E.
  destruct c as [|y c]; [apply (f_equal length) in E; simpl in E; lia|]. apply Forall_cons in Hc as [Hy Hc].
  change (bytes_bits (y :: c)) with (byte_bits y ++ bytes_bits c) in E. rewrite <-app_assoc in E.
  apply app_inj_1 in E as [Exy E]; [|done]. destruct (IH c Hc E) as (b & -> & Eb). exists b. split; [|done].
  pose proof (read_byte x [] Hx) as Rx. pose proof (read_byte y [] Hy) as Ry. rewrite Exy in Ry. assert (x = y) as -> by congruence. done.
Qed.

(** A whole stream, after bytes that another reads and before bytes that follow. *)
Lemma blocks_read f data header : writes_blocks f true [] data -> Forall is_byte header ->
  exists o bytes, f (MkOut 0 header) = Ret o /\ out o = header ++ bytes /\ Forall is_byte bytes /\
    forall rest, inflate_prefix (bytes ++ rest) = Some (data, rest).
Proof.
  intros Hf Hh. assert (holds (MkOut 0 header) (bytes_bits header)) as Ho.
  { constructor; [done|exists 0%nat; split; [lia|by rewrite app_nil_r]|]. rewrite length_bytes_bits, Nat2Z.inj_mul, Z.mul_comm, Z.mod_mul; done. }
  destruct (Hf _ _ Ho) as (o & bits & -> & [Hby (pad & Hpad & Hbits) _] & k & Hk & Hread). rewrite <-app_assoc in Hbits.
  destruct (bytes_bits_prefix header (out o) _ Hh Hby Hbits) as (bytes & E & Hb). exists o, bytes. split; [done|]. split; [done|].
  split; [rewrite E in Hby; by apply Forall_app in Hby as [_ ?]|]. intros rest. unfold inflate_prefix.
  assert (8 * length bytes = length bits + pad)%nat as Hl by (rewrite <-length_bytes_bits, Hb, length_app, length_replicate; lia).
  rewrite bytes_bits_app, Hb, <-app_assoc.
  replace (8 * length (bytes ++ rest))%nat with (k + (8 * length (bytes ++ rest) - k))%nat by (rewrite length_app; lia).
  rewrite Hread.
  - cbn [mbind option_bind]. rewrite !length_app, length_replicate, length_bytes_bits. do 2 f_equal.
    rewrite Nat.mul_comm, Nat.div_add, Nat.div_small, Nat.add_0_l by lia. rewrite drop_app_ge, Nat.add_sub by lia.
    by rewrite Nat.sub_diag.
  - rewrite !length_app, length_replicate, !length_bytes_bits. replace (8 * length header + (length bits + (pad + 8 * length rest)))%nat
      with ((length header + length bytes + length rest) * 8)%nat by lia. apply Nat.Div0.mod_mul.
Qed.

Lemma inflate_of_prefix bytes : inflate bytes = fst <$> inflate_prefix bytes.
Proof. unfold inflate, inflate_prefix. by destruct (inflate_blocks _ _ _) as [[? ?]|]. Qed.

Lemma blocks_inflate f data : writes_blocks f true [] data -> exists o, f (MkOut 0 []) = Ret o /\ inflate (out o) = Some data.
Proof.
  intros Hf. destruct (blocks_read f data [] Hf (Forall_nil_2 _)) as (o & bytes & E & Eo & _ & Hr). exists o. split; [done|].
  specialize (Hr []). by rewrite app_nil_r in Hr; rewrite Eo, inflate_of_prefix; cbn [app]; rewrite Hr.
Qed.

(** A store whose arrays have one size, with items of the format. *)
Record store_ok (store : ZopfliLZ77Store) : Prop := {
  so_length : length (litlens store) = length (dists store);
  so_size : Z.of_nat (length (dists store)) < 2 ^ 31;
  so_items : Forall item_ok (zip (litlens store) (dists store));
}.

Definition store_size (store : ZopfliLZ77Store) : Z := Z.of_nat (length (dists store)).

Lemma store_block_ok store a b : store_ok store -> 0 <= a <= b -> b <= store_size store -> block_ok store a b 0.
Proof.
  intros [H1 H2 H3] Ha Hb. unfold store_size in Hb. constructor; [|by apply Forall_take, Forall_drop|by left].
  split; [done|]. rewrite length_zip. lia.
Qed.

Lemma split_block_written {sort : Qsort} btype final store a b : btype = 1 \/ btype = 2 -> store_ok store ->
  0 <= a <= b -> b <= store_size store ->
  writes_block (AddLZ77Block btype (Z.b2z final) store a b 0) final (lz_decode (block_items store a b)).
Proof.
  intros Hb Hs Ha Hbs. pose proof (store_block_ok store a b Hs Ha Hbs) as Hok. destruct Hb as [->| ->];
    [by apply fixed_block_written|apply dynamic_block_written; [done|]]. pose proof (so_size _ Hs). unfold store_size in Hbs. lia.
Qed.

(** ** Split points *)

Section points.
Context (first last : Z) (splitpoints : list Z).
Local Abbreviation npoints := (Z.of_nat (length splitpoints)).

(** Where the block [i] starts. *)
Definition point (i : Z) : Z := table_at (first :: splitpoints ++ [last]) i.

Lemma point_first : point 0 = first.
Proof. done. Qed.

Lemma point_lookup i : 0 <= i <= npoints + 1 -> (first :: splitpoints ++ [last]) !! Z.to_nat i = Some (point i).
Proof.
  intros Hi. unfold point, table_at. rewrite (proj2 (Z.ltb_ge _ _)) by lia.
  destruct (lookup_lt_is_Some_2 (first :: splitpoints ++ [last]) (Z.to_nat i)) as [x Hx];
    [cbn [length]; rewrite length_app; simpl; lia|]. by rewrite Hx.
Qed.

Lemma point_last : point (npoints + 1) = last.
Proof.
  pose proof (point_lookup (npoints + 1) ltac:(lia)) as H. replace (Z.to_nat (npoints + 1)) with (S (length splitpoints)) in H by lia.
  change ((splitpoints ++ [last]) !! length splitpoints = Some (point (npoints + 1))) in H.
  rewrite list_lookup_middle in H by done. congruence.
Qed.

Lemma point_next i : 0 <= i < npoints -> index splitpoints i = Ret (point (i + 1)).
Proof.
  intros Hi. unfold index. rewrite (proj2 (Z.ltb_ge _ _)) by lia. pose proof (point_lookup (i + 1) ltac:(lia)) as H.
  replace (Z.to_nat (i + 1)) with (S (Z.to_nat i)) in H by lia.
  change ((splitpoints ++ [last]) !! Z.to_nat i = Some (point (i + 1))) in H. rewrite lookup_app_l in H by lia. by rewrite H.
Qed.

(** The ends of a block, as the loops over the blocks compute them. *)
Lemma block_ends i : 0 <= i < npoints + 1 ->
  (if i =? 0 then Ret first else index splitpoints (i - 1)) = Ret (point i) /\
  (if i =? npoints then Ret last else index splitpoints i) = Ret (point (i + 1)).
Proof.
  intros Hi. split.
  - destruct (Z.eqb_spec i 0) as [->|Hne]; [done|]. rewrite point_next by lia. do 2 f_equal. lia.
  - destruct (Z.eqb_spec i npoints) as [->|Hne]; [by rewrite point_last|apply point_next; lia].
Qed.

Lemma point_adjacent R i : Sorted R (first :: splitpoints ++ [last]) -> 0 <= i < npoints + 1 -> R (point i) (point (i + 1)).
Proof.
  intros Hs Hi. pose proof (point_lookup i ltac:(lia)) as H1. pose proof (point_lookup (i + 1) ltac:(lia)) as H2.
  replace (Z.to_nat (i + 1)) with (S (Z.to_nat i)) in H2 by lia. set (l := first :: splitpoints ++ [last]) in *. clearbody l.
  revert H1 H2. generalize (Z.to_nat i) as k. induction Hs as [|x l Hs IH Hx]; intros k H1 H2; [done|].
  destruct k as [|k]; [|by apply (IH k)]. cbn in H1, H2. injection H1 as <-. destruct Hx as [|y l Hxy]; [done|]. cbn in H2. injection H2 as <-. done.
Qed.

Lemma point_in i : StronglySorted Z.le (first :: splitpoints ++ [last]) -> 0 <= i <= npoints + 1 -> first <= point i <= last.
Proof.
  intros Hs Hi. split.
  - destruct (Z.eq_dec i 0) as [->|Hne]; [done|].
    apply (sorted_lookup Z.le _ (Z.to_nat 0) (Z.to_nat i) _ _ Hs (point_lookup 0 ltac:(lia)) (point_lookup i Hi)). lia.
  - rewrite <-point_last. destruct (Z.eq_dec i (npoints + 1)) as [->|Hne]; [done|].
    apply (sorted_lookup Z.le _ (Z.to_nat i) (Z.to_nat (npoints + 1)) _ _ Hs (point_lookup i Hi) (point_lookup (npoints + 1) ltac:(lia))). lia.
Qed.
End points.

Section split.
Context {sort : Qsort} (btype : Z) (final : bool) (store : ZopfliLZ77Store) (splitpoints start data : list Z).
Context (Hbtype : btype = 1 \/ btype = 2) (Hstore : store_ok store).
Context (Hsorted : StronglySorted Z.le (0 :: splitpoints ++ [store_size store])).
Context (Hdata : lz_decode (block_items store 0 (store_size store)) start = Some data).
Local Abbreviation npoints := (Z.of_nat (length splitpoints)).
Local Abbreviation point := (point 0 (store_size store) splitpoints).

(** The output before the block [i]. *)
Definition output_before (i : Z) : list Z := default [] (lz_decode (block_items store 0 (point i)) start).

Lemma block_step i : 0 <= i < npoints + 1 ->
  writes_blocks (AddLZ77Block btype (Z.b2z ((i =? npoints) && final)) store (point i) (point (i + 1)) 0) ((i =? npoints) && final)
    (output_before i) (output_before (i + 1)).
Proof.
  intros Hi. pose proof (point_adjacent _ _ _ Z.le i (StronglySorted_Sorted Hsorted) Hi) as Hle.
  destruct (point_in _ _ _ i Hsorted ltac:(lia)) as [H0 _], (point_in _ _ _ (i + 1) Hsorted ltac:(lia)) as [_ Hend].
  eapply one_block; [by apply split_block_written|]. unfold output_before.
  rewrite (block_items_app store 0 (point (i + 1))) in Hdata by lia. rewrite (block_items_app store 0 (point i) (point (i + 1))) in Hdata |- * by lia.
  rewrite !lz_decode_app in Hdata. rewrite lz_decode_app.
  destruct (lz_decode (block_items store 0 (point i)) start) as [output|]; [|done]. unfold default, id. cbn [mbind option_bind] in Hdata |- *.
  destruct (lz_decode (block_items store (point i) _) output) as [o|]; [done|discriminate Hdata].
Qed.

Lemma split_blocks_written : writes_blocks (add_split_blocks btype final store splitpoints) final start data.
Proof.
  cut (writes_blocks (add_split_blocks btype final store splitpoints) final (output_before 0) (output_before (0 + (npoints + 1)))).
  { rewrite Z.add_0_l. unfold output_before. by rewrite point_last, Hdata. }
  unfold add_split_blocks. cbv zeta. apply (blocks_for_each output_before); [lia|]. intros i Hi. replace (0 + (npoints + 1) - 1) with npoints by lia.
  eapply blocks_ext; [|apply block_step; lia]. intros o. cbv beta.
  destruct (block_ends 0 (store_size store) splitpoints i ltac:(lia)) as [-> E]. unfold store_size in E at 1. by rewrite outcome_bind_ret, E, outcome_bind_ret.
Qed.
End split.

(** ** Sizes *)

Lemma length_code_bits lengths i : 0 <= i -> 0 <= table_at lengths i ->
  Z.of_nat (length (code_bits lengths (Z.to_nat i))) = table_at lengths i.
Proof. intros Hi Hp. unfold code_bits. rewrite Z2Nat.id by lia. by apply length_msb_bits. Qed.

Lemma length_lsb_bits z n : 0 <= n -> Z.of_nat (length (lsb_bits z n)) = n.
Proof. intros Hn. unfold lsb_bits. rewrite length_fmap, length_seqZ. lia. Qed.

Section sizes.
Context (ll d : list Z) (Hll : lengths_ok 15 ll) (Hd : lengths_ok 15 d) (Hlen : length ll = 288%nat) (Hdlen : length d = 32%nat).

Lemma table_at_range m lengths i : lengths_ok m lengths -> 0 <= table_at lengths i <= m.
Proof.
  intros [Hm Hr _]. unfold table_at. destruct (if i <? 0 then None else lengths !! Z.to_nat i) as [x|] eqn:E; [|simpl; lia].
  destruct (i <? 0); [done|]. apply (proj1 (Forall_lookup _ _) Hr _ _ E).
Qed.

Definition item_bit_size (x : Z * Z) : Z := Z.of_nat (length (item_bits ll d x)).

Lemma item_bit_size_spec x result : item_ok x -> 0 <= result < 2 ^ 63 ->
  (let '(litlen, dist) := x in
    if dist =? 0 then len ← index ll litlen; Ret (u64 (result + len))
    else
      lls ← ZopfliGetLengthSymbol litlen;
      bits ← ZopfliGetLengthExtraBits litlen;
      Ret (u64 (result + table_at ll lls + table_at d (ZopfliGetDistSymbol dist) + bits + ZopfliGetDistExtraBits dist)))
  = Ret (result + item_bit_size x) /\ 0 <= item_bit_size x <= 56.
Proof.
  destruct x as [litlen dist]. unfold item_ok, item_bit_size, item_bits. cbn [fst snd]. intros Hx Hr.
  destruct (Z.eqb_spec dist 0) as [->|Hne].
  - destruct Hx as [[_ Hl]|]; [|lia]. rewrite index_ok by lia. pose proof (table_at_range 15 ll litlen Hll).
    rewrite length_code_bits by lia. rewrite outcome_bind_ret, u64_small by lia. split; [done|lia].
  - destruct Hx as [[? _]|[Hdist Hl]]; [lia|].
    destruct (length_symbol_ok litlen Hl) as (lls & bits & value & E1 & E2 & E3 & Hs).
    pose proof (symbol_ok_inv _ _ _ _ _ _ _ Hs) as (Hlr & _ & _ & Hbr & _).
    pose proof (symbol_ok_inv _ _ _ _ _ _ _ (dist_symbol_ok dist Hdist)) as (Hdr & _ & _ & Hdbr & _).
    pose proof (table_at_range 15 ll lls Hll). pose proof (table_at_range 15 d (ZopfliGetDistSymbol dist) Hd).
    rewrite E1, E2, E3, !outcome_bind_ret. cbn [ret_or].
    rewrite !length_app, !Nat2Z.inj_add, !length_code_bits, !length_lsb_bits by lia.
    rewrite u64_small by lia. split; [f_equal; lia|lia].
Qed.

Lemma CalculateBlockSymbolSize_spec store a b : range_ok store a b -> Forall item_ok (block_items store a b) -> b - a < 2 ^ 31 ->
  CalculateBlockSymbolSize ll d store a b = Ret (Z.of_nat (length (symbol_bits ll d (block_items store a b)))).
Proof.
  intros Hr Hok Hsize. unfold CalculateBlockSymbolSize.
  rewrite (for_each_items store a b _ (fun x result => let '(litlen, dist) := x in
    if dist =? 0 then len ← index ll litlen; Ret (u64 (result + len))
    else
      lls ← ZopfliGetLengthSymbol litlen;
      bits ← ZopfliGetLengthExtraBits litlen;
      Ret (u64 (result + table_at ll lls + table_at d (ZopfliGetDistSymbol dist) + bits + ZopfliGetDistExtraBits dist)))); [|done|].
  2: { intros i s. unfold add_item_size. apply bind_ext. by intros [? ?]. }
  pose proof (length_block_items _ _ _ Hr) as Hl. set (l := block_items store a b) in *.
  match goal with |- (for_each l ?f 0 ≫= _) = _ => assert (forall k result, Forall item_ok k -> 0 <= result ->
    result + 56 * Z.of_nat (length k) < 2 ^ 63 ->
    for_each k f result = Ret (result + Z.of_nat (length (concat (item_bits ll d <$> k)))) /\
      Z.of_nat (length (concat (item_bits ll d <$> k))) <= 56 * Z.of_nat (length k)) as H end.
  { induction k as [|x k IH]; intros result Hk H0 Hb; [cbn; split; [f_equal; lia|lia]|]. apply Forall_cons in Hk as [Hx Hk].
    cbn [length] in Hb. cbn [for_each]. destruct (item_bit_size_spec x result Hx ltac:(lia)) as [E Hb56]. rewrite E, outcome_bind_ret.
    unfold item_bit_size in *. destruct (IH (result + Z.of_nat (length (item_bits ll d x))) Hk ltac:(lia) ltac:(lia)) as [-> Hle].
    rewrite fmap_cons. cbn [concat length]. rewrite length_app. split; [f_equal; lia|lia]. }
  destruct (H l 0 Hok ltac:(lia) ltac:(lia)) as [-> Hle]. rewrite outcome_bind_ret.
  pose proof (table_at_range 15 ll 256 Hll). pose proof (length_code_bits ll 256 ltac:(lia) ltac:(lia)) as E.
  change (Z.to_nat 256) with 256%nat in E. unfold symbol_bits. rewrite length_app, Nat2Z.inj_add, E, u64_small by lia. done.
Qed.
End sizes.

Lemma CalculateTreeSize_spec {sort : Qsort} ll d bits : emits (AddDynamicTree ll d) bits ->
  CalculateTreeSize ll d = Ret (u64 (Z.of_nat (length bits) + (if Z.of_nat (length bits) mod 8 =? 0 then 0 else 8))).
Proof.
  intros He. destruct (He (MkOut 0 []) [] holds_nil) as (o & Ho & Hh). unfold CalculateTreeSize. rewrite Ho, outcome_bind_ret.
  destruct Hh as [_ (pad & Hpad & Hbits) Hbp]. cbn [app] in *. rewrite land_7, Hbp.
  apply (f_equal length) in Hbits. rewrite length_bytes_bits, length_app, length_replicate in Hbits.
  set (n := length bits) in *. do 2 f_equal. pose proof (Z.div_mod (Z.of_nat n) 8). pose proof (Z.mod_pos_bound (Z.of_nat n) 8).
  assert (Z.of_nat (length (out o)) * 8 = Z.of_nat n + Z.of_nat pad) as -> by lia.
  assert (Z.of_nat n + Z.of_nat pad = 8 * Z.of_nat (length (out o))) by lia.
  destruct (Z.eqb_spec (Z.of_nat n mod 8) 0); lia.
Qed.

(** The size of a block of items is a number of bits. *)
Lemma block_size_total {sort : Qsort} btype store a b : btype = 1 \/ btype = 2 -> store_ok store -> 0 <= a <= b -> b <= store_size store ->
  exists size, ZopfliCalculateBlockSize store a b btype = Ret size /\ 0 <= size < 2 ^ 66.
Proof.
  intros Hbtype Hs Ha Hb. destruct (store_block_ok store a b Hs Ha Hb) as [Hr Hi _]. pose proof (so_size _ Hs) as Hsize. unfold store_size in Hb.
  assert (forall ll d, lengths_ok 15 ll -> lengths_ok 15 d -> length ll = 288%nat -> length d = 32%nat ->
    exists size, CalculateBlockSymbolSize ll d store a b = Ret size /\ 0 <= size < 2 ^ 64) as Hsymbols.
  { intros ll d H1 H2 H3 H4. pose proof (CalculateBlockSymbolSize_spec ll d H1 H2 H3 H4 store a b Hr Hi ltac:(lia)) as E.
    unfold CalculateBlockSymbolSize in E |- *. apply outcome_bind_ret_inv in E as (r & -> & _). rewrite outcome_bind_ret. eexists. split; [done|].
    apply Z.mod_pos_bound. lia. }
  unfold ZopfliCalculateBlockSize. destruct Hbtype as [->| ->]; cbn [Z.eqb Pos.eqb orb negb].
  - rewrite outcome_bind_ret, fixed_trees. destruct (Hsymbols _ _ fixed_ll_ok fixed_d_ok eq_refl eq_refl) as (size & -> & Hsz).
    rewrite outcome_bind_ret. eexists. split; [done|]. lia.
  - destruct (dynamic_trees store a b Hr Hi ltac:(lia)) as (llc & dc & ll & d & -> & [H1 H2 H3 H4 _ _] & _).
    rewrite outcome_bind_ret. destruct (AddDynamicTree_written ll d H1 H2 H3 H4) as (bits & He & _).
    rewrite (CalculateTreeSize_spec ll d bits He), !outcome_bind_ret. destruct (Hsymbols ll d H1 H2 H3 H4) as (size & -> & Hsz).
    rewrite outcome_bind_ret. eexists. split; [done|]. unfold u64. pose proof (Z.mod_pos_bound (Z.of_nat (length bits) + (if Z.of_nat (length bits) mod 8 =? 0 then 0 else 8)) (2 ^ 64) ltac:(lia)). lia.
Qed.

(** ** Properties *)

(** C9. LZ77 blocks. The blocks that the compressor writes for a store and its
    split points, with the fixed or with dynamic codes, are written without a
    failed assertion, and a decoder of RFC 1951 reads the data back. *)
Theorem split_blocks_roundtrip {sort : Qsort} btype store splitpoints data
    (Hbtype : btype = 1 \/ btype = 2) (Hstore : store_ok store)
    (Hsorted : StronglySorted Z.le (0 :: splitpoints ++ [store_size store]))
    (Hdata : lz_decode (zip (litlens store) (dists store)) [] = Some data) :
  exists o, add_split_blocks btype true store splitpoints (MkOut 0 []) = Ret o /\ inflate (out o) = Some data.
Proof.
  apply blocks_inflate, split_blocks_written; try done. rewrite <-Hdata. f_equal. unfold block_items, store_size.
  rewrite drop_0, take_ge; [done|]. rewrite length_zip. lia.
Qed.

Lemma split_blocks_roundtrip_witness :
  exists o, add_split_blocks (sort := sorting) 2 true hello [5] (MkOut 0 []) = Ret o /\
    inflate (out o) = Some [104; 101; 108; 108; 111; 32; 104; 101; 108; 108; 33].
Proof.
  apply (split_blocks_roundtrip (sort := sorting) 2 hello [5]).
  - right. reflexivity.
  - constructor; [reflexivity|reflexivity|]. unfold item_ok. cbn [hello litlens dists zip fst snd].
    repeat (apply Forall_cons; split; [cbn [fst snd]; lia|]). apply Forall_nil. exact I.
  - unfold store_size. cbn [hello dists length app].
    repeat (apply SSorted_cons || apply SSorted_nil || (apply Forall_cons; split; [lia|]) || (apply Forall_nil; exact I)).
  - vm_compute. reflexivity.
Defined.

(** Stored blocks. A stored block of less than 64 kB is read back by a
    decoder, after whatever bits were written before it. *)
Theorem stored_block_roundtrip final in_ instart inend o pre
    (Hrange : 0 <= instart <= inend) (Hend : inend <= Z.of_nat (length in_)) (Hbytes : Forall is_byte in_)
    (Hsize : inend - instart < 65536) (Ho : holds o pre) :
  exists o' bits, DeflateNonCompressedBlock (Z.b2z final) in_ instart inend o = Ret o' /\ holds o' (pre ++ bits) /\
    forall rest output, (length (pre ++ bits ++ rest) mod 8 = 0)%nat ->
      inflate_block (bits ++ rest) output = Some (final, output ++ slice in_ instart inend, rest).
Proof.
  destruct (stored_block_written final in_ instart inend Hrange Hend Hbytes Hsize o pre Ho) as (o' & bits & H1 & H2 & _ & H3).
  exists o', bits. split; [done|]. split; [done|]. intros rest output Hmod. by apply H3.
Qed.

Lemma stored_block_roundtrip_witness :
  exists o' bits, DeflateNonCompressedBlock (Z.b2z true) [1; 2; 3] 1 3 (MkOut 0 []) = Ret o' /\ holds o' bits.
Proof.
  destruct (stored_block_roundtrip true [1; 2; 3] 1 3 (MkOut 0 []) []) as (o' & bits & H1 & H2 & _).
  - lia.
  - simpl. lia.
  - unfold is_byte. repeat (apply Forall_cons; split; [lia|]). apply Forall_nil. exact I.
  - lia.
  - exact holds_nil.
  - exists o', bits. split; [exact H1|exact H2].
Defined.

(** C29. Trees of a dynamic block. The two arrays of code lengths, run-length
    coded with codes of their own, are read back without their last zeros; the
    size that the block splitter gets for them is not the exact one that its
    comment promises but 8 bits more unless it is a multiple of 8. *)
Theorem dynamic_tree_roundtrip {sort : Qsort} ll d
    (Hll : lengths_ok 15 ll) (Hd : lengths_ok 15 d) (Hlen : length ll = 288%nat) (Hdlen : length d = 32%nat) :
  exists bits, emits (AddDynamicTree ll d) bits /\
    (forall rest, read_trees (bits ++ rest) = Some (take (ll_size ll) ll, take (d_size d) d, rest)) /\
    CalculateTreeSize ll d =
      Ret (u64 (Z.of_nat (length bits) + (if Z.of_nat (length bits) mod 8 =? 0 then 0 else 8))).
Proof.
  destruct (AddDynamicTree_written ll d Hll Hd Hlen Hdlen) as (bits & H1 & H2). exists bits. split; [done|]. split; [done|].
  by apply CalculateTreeSize_spec.
Qed.

Lemma dynamic_tree_roundtrip_witness :
  exists bits, emits (AddDynamicTree (sort := sorting) fixed_ll_lengths fixed_d_lengths) bits /\
    read_trees bits = Some (take 286 fixed_ll_lengths, take 30 fixed_d_lengths, []).
Proof.
  destruct (dynamic_tree_roundtrip (sort := sorting) fixed_ll_lengths fixed_d_lengths) as (bits & H1 & H2 & _).
  - exact fixed_ll_ok.
  - exact fixed_d_ok.
  - reflexivity.
  - reflexivity.
  - exists bits. split; [exact H1|]. specialize (H2 []). rewrite app_nil_r in H2. exact H2.
Defined.

(** Symbol sizes. The size that [CalculateBlockSymbolSize] gives for the
    symbols of a block is the number of bits that are written for them. *)
Theorem block_symbol_size_exact ll d store lstart lend
    (Hll : lengths_ok 15 ll) (Hd : lengths_ok 15 d) (Hlen : length ll = 288%nat) (Hdlen : length d = 32%nat)
    (Hrange : range_ok store lstart lend) (Hitems : Forall item_ok (block_items store lstart lend))
    (Hsize : lend - lstart < 2 ^ 31) :
  CalculateBlockSymbolSize ll d store lstart lend =
    Ret (Z.of_nat (length (symbol_bits ll d (block_items store lstart lend)))).
Proof. by apply CalculateBlockSymbolSize_spec. Qed.

Lemma block_symbol_size_exact_witness :
  CalculateBlockSymbolSize fixed_ll_lengths fixed_d_lengths hello 0 8 = Ret (Z.of_nat 76).
Proof.
  rewrite (block_symbol_size_exact fixed_ll_lengths fixed_d_lengths hello 0 8).
  - vm_compute. reflexivity.
  - exact fixed_ll_ok.
  - exact fixed_d_ok.
  - reflexivity.
  - reflexivity.
  - split; [lia|simpl; lia].
  - unfold item_ok. cbn [hello litlens dists]. unfold block_items. cbn [hello litlens dists zip fst snd drop take].
    repeat (apply Forall_cons; split; [cbn [fst snd]; lia|]). apply Forall_nil. exact I.
  - lia.
Defined.
