(* ===== verification/Checksums.v ===== *)
(** * Zopfli: checksums

    The CRC of [gzip_container.cc], with its table that is made on the first
    call, and the Adler-32 of [zlib_container.cc]. The references are those of
    the formats: the division of the message, bit by bit (RFC 1952, section 8),
    and sums modulo 65521 at every byte (RFC 1950, section 8.2). *)

From S2P Require Import Prelude ZopfliUtil ZopfliBits.

Local Open Scope Z_scope.

(** ** CRC *)

(** The static variables: the table and whether it has been computed. *)
Record crc_static : Type := MkCrc { crc_table : list Z; crc_table_computed : bool }.

Definition crc_initially : crc_static := MkCrc (replicate 256 0) false.

(** One turn of the inner loop of [MakeCRCTable]. *)
Definition crc_shift (c : Z) : Z :=
  if Z.land c 1 =? 0 then Z.shiftr c 1 else Z.lxor 0xedb88320 (Z.shiftr c 1).

Definition MakeCRCTable : crc_static :=
  MkCrc ((fun n => Nat.iter 8 crc_shift n) <$> seqZ 0 256) true.

(** [n] is an [unsigned]: with 2 ^ 32 bytes or more it is never the length, and the loop does not end. *)
Definition UpdateCRC (crc : Z) (buf : list Z) (len : Z) (st : crc_static) : outcome (Z * crc_static) :=
  let c := Z.lxor crc 0xffffffff in
  let st := if crc_table_computed st then st else MakeCRCTable in
  if 2 ^ 32 <=? len then Undefined
  else
    c ← for_each (seqZ 0 len) (fun n c =>
      b ← index buf n;
      t ← index (crc_table st) (Z.land (Z.lxor c b) 0xff);
      Ret (Z.lxor t (Z.shiftr c 8))) c;
    Ret (Z.lxor c 0xffffffff, st).

(** [len] is an [int], and then a [size_t]. *)
Definition CRC (buf : list Z) (len : Z) (st : crc_static) : outcome (Z * crc_static) :=
  UpdateCRC 0 buf (u64 (s32 len)) st.

(** ** Adler-32 *)

(** The inner loop: [amount] bytes. *)
Definition adler_bytes (bs : list Z) (s : Z * Z) : Z * Z :=
  foldl (fun s b => let s1 := u32 (s.1 + b) in (s1, u32 (s.2 + s1))) s bs.

Fixpoint adler_loop (fuel : nat) (data : list Z) (s : Z * Z) : Z * Z :=
  match data, fuel with
  | [], _ | _, O => s
  | _, S f =>
      let amount := Z.to_nat (Z.min (Z.of_nat (length data)) 5550) in
      let '(s1, s2) := adler_bytes (take amount data) s in
      adler_loop f (drop amount data) (s1 mod 65521, s2 mod 65521)
  end.

(** [s2] starts at [1 >> 16]. *)
Definition adler32 (data : list Z) : Z :=
  let '(s1, s2) := adler_loop (length data) data (1, Z.shiftr 1 16) in
  Z.lor (u32 (Z.shiftl s2 16)) s1.

(** "123456789" *)
Definition digits : list Z := [49; 50; 51; 52; 53; 54; 55; 56; 57].

Example crc_check : (r ← CRC digits 9 crc_initially; Ret r.1) = Ret 0xcbf43926 /\ adler32 digits = 0x091e01de.
Proof. vm_compute. done. Qed.

(** ** References *)

(** A message bit divided by the polynomial. *)
Definition crc_bit (c : Z) (bit : bool) : Z :=
  if xorb (Z.testbit c 0) bit then Z.lxor 0xedb88320 (Z.shiftr c 1) else Z.shiftr c 1.

Definition crc32 (message : list Z) : Z :=
  Z.lxor (foldl crc_bit 0xffffffff (bytes_bits message)) 0xffffffff.

Definition adler_sum (message : list Z) : Z * Z :=
  foldl (fun s b => let s1 := (s.1 + b) mod 65521 in (s1, (s.2 + s1) mod 65521)) (1, 0) message.

(** ** The table *)

Lemma land_1 c : Z.land c 1 = Z.b2z (Z.testbit c 0).
Proof. rewrite <-(Z.shiftr_0_r c) at 1. by apply bit_at. Qed.

Lemma crc_shift_spec c : crc_shift c = Z.lxor (if Z.testbit c 0 then 0xedb88320 else 0) (Z.shiftr c 1).
Proof. unfold crc_shift. rewrite land_1. destruct (Z.testbit c 0); [done|]. by rewrite Z.lxor_0_l. Qed.

Lemma lxor_swap a b c d : Z.lxor (Z.lxor a b) (Z.lxor c d) = Z.lxor (Z.lxor a c) (Z.lxor b d).
Proof. rewrite !Z.lxor_assoc. f_equal. rewrite <-!Z.lxor_assoc. f_equal. apply Z.lxor_comm. Qed.

(** The division is linear. *)
Lemma crc_shift_lxor a b : crc_shift (Z.lxor a b) = Z.lxor (crc_shift a) (crc_shift b).
Proof.
  rewrite !crc_shift_spec, lxor_swap, Z.shiftr_lxor, Z.lxor_spec. f_equal.
  by destruct (Z.testbit a 0), (Z.testbit b 0).
Qed.

Lemma crc_iter_lxor n a b : Nat.iter n crc_shift (Z.lxor a b) = Z.lxor (Nat.iter n crc_shift a) (Nat.iter n crc_shift b).
Proof. induction n as [|n IH]; [done|]. cbn [Nat.iter nat_rect]. rewrite <-crc_shift_lxor. f_equal. exact IH. Qed.

Lemma crc_iter_shiftl n y : Nat.iter n crc_shift (Z.shiftl y (Z.of_nat n)) = y.
Proof.
  induction n as [|n IH]; [by rewrite Z.shiftl_0_r|]. rewrite Nat.iter_succ_r, crc_shift_spec, Z.shiftl_spec_low by lia.
  rewrite Z.lxor_0_l, Z.shiftr_shiftl_l by lia. replace (Z.of_nat (S n) - 1) with (Z.of_nat n) by lia. exact IH.
Qed.

Lemma low_byte x : Z.lxor (Z.land x 255) (Z.shiftl (Z.shiftr x 8) 8) = x.
Proof.
  apply Z.bits_inj'. intros i Hi. rewrite Z.lxor_spec. change 255 with (Z.ones 8).
  rewrite Z.land_spec, Z.testbit_ones_nonneg by lia. destruct (Z.ltb_spec i 8).
  - by rewrite Z.shiftl_spec_low, andb_true_r, xorb_false_r by lia.
  - rewrite Z.shiftl_spec, Z.shiftr_spec by lia. rewrite andb_false_r. cbn. f_equal. lia.
Qed.

(** A byte by the table. *)
Lemma crc_table_step c : Nat.iter 8 crc_shift c = Z.lxor (Nat.iter 8 crc_shift (Z.land c 255)) (Z.shiftr c 8).
Proof. rewrite <-(low_byte c) at 1. rewrite crc_iter_lxor. f_equal. exact (crc_iter_shiftl 8 (Z.shiftr c 8)). Qed.

Lemma crc_bit_shift c bit : crc_bit c bit = crc_shift (Z.lxor c (Z.b2z bit)).
Proof.
  rewrite crc_shift_spec, Z.lxor_spec, Z.shiftr_lxor.
  assert (Z.testbit (Z.b2z bit) 0 = bit /\ Z.shiftr (Z.b2z bit) 1 = 0) as [-> ->] by (by destruct bit).
  rewrite Z.lxor_0_r. unfold crc_bit. destruct (xorb _ _); [done|]. by rewrite Z.lxor_0_l.
Qed.

(** The bits of a byte, one by one. *)
Lemma crc_bits_iter n b c :
  foldl crc_bit c (Z.testbit b <$> seqZ 0 (Z.of_nat n)) = Nat.iter n crc_shift (Z.lxor c (Z.land b (Z.ones (Z.of_nat n)))).
Proof.
  induction n as [|n IH]; [change (Z.ones (Z.of_nat 0)) with 0; cbn; by rewrite Z.land_0_r, Z.lxor_0_r|].
  rewrite Nat2Z.inj_succ, <-Z.add_1_r, seqZ_app by lia. rewrite fmap_app, foldl_app, IH.
  rewrite seqZ_cons, seqZ_nil by lia. cbn [fmap list_fmap foldl]. rewrite crc_bit_shift. cbn [Nat.iter nat_rect]. f_equal.
  rewrite <-(crc_iter_shiftl n (Z.b2z (Z.testbit b (0 + Z.of_nat n)))).
  change (nat_rect (fun _ => Z) ?x (fun _ => crc_shift) n) with (Nat.iter n crc_shift x).
  rewrite <-crc_iter_lxor. f_equal. rewrite Z.lxor_assoc. f_equal. rewrite Z.add_0_l.
  apply Z.bits_inj'. intros i Hi. rewrite Z.lxor_spec, !Z.land_spec, !Z.testbit_ones_nonneg by lia.
  destruct (Z.lt_trichotomy i (Z.of_nat n)) as [Hlt|[->|Hgt]].
  - rewrite Z.shiftl_spec_low by lia. rewrite !(proj2 (Z.ltb_lt i _)) by lia. by rewrite xorb_false_r.
  - rewrite Z.shiftl_spec, Z.sub_diag by lia. rewrite (proj2 (Z.ltb_ge _ _)), (proj2 (Z.ltb_lt _ _)) by lia.
    rewrite andb_false_r, andb_true_r. by destruct (Z.testbit b (Z.of_nat n)).
  - rewrite Z.shiftl_spec by lia. rewrite !(proj2 (Z.ltb_ge i _)) by lia. rewrite !andb_false_r.
    destruct (Z.testbit b (Z.of_nat n)); [|by rewrite Z.bits_0]. change (Z.b2z true) with (2 ^ 0). by rewrite Z.pow2_bits_false by lia.
Qed.

Lemma crc_byte c b : is_byte b -> foldl crc_bit c (byte_bits b) = Nat.iter 8 crc_shift (Z.lxor c b).
Proof.
  intros Hb. change (byte_bits b) with (Z.testbit b <$> seqZ 0 (Z.of_nat 8)). rewrite crc_bits_iter. f_equal. f_equal.
  rewrite Z.land_ones by lia. apply Z.mod_small. exact Hb.
Qed.

(** A made table, or none yet. *)
Definition crc_ok (st : crc_static) : Prop := crc_table_computed st = true -> st = MakeCRCTable.

Lemma crc_table_at x : 0 <= x < 256 -> index (crc_table MakeCRCTable) x = Ret (Nat.iter 8 crc_shift x).
Proof.
  intros Hx. unfold index. rewrite (proj2 (Z.ltb_ge _ _)) by lia. cbn [crc_table MakeCRCTable].
  rewrite list_lookup_fmap, lookup_seqZ_lt by lia. cbn [fmap option_fmap option_map or_undefined]. do 2 f_equal. lia.
Qed.

(** It does not matter who made it. *)
Lemma CRC_initially buf len st : crc_ok st -> CRC buf len st = CRC buf len crc_initially.
Proof.
  intros Hst. unfold CRC, UpdateCRC. cbv zeta.
  assert ((if crc_table_computed st then st else MakeCRCTable) = MakeCRCTable) as -> by (destruct (crc_table_computed st) eqn:E; [by apply Hst|done]).
  done.
Qed.

Lemma UpdateCRC_spec crc buf len st : crc_ok st -> Forall is_byte buf -> 0 <= len <= Z.of_nat (length buf) -> len < 2 ^ 32 ->
  UpdateCRC crc buf len st =
    Ret (Z.lxor (foldl crc_bit (Z.lxor crc 0xffffffff) (bytes_bits (take (Z.to_nat len) buf))) 0xffffffff, MakeCRCTable).
Proof.
  intros Hst Hbuf Hlen H32. unfold UpdateCRC. cbv zeta.
  assert ((if crc_table_computed st then st else MakeCRCTable) = MakeCRCTable) as ->
    by (destruct (crc_table_computed st) eqn:E; [by apply Hst|done]).
  rewrite (proj2 (Z.leb_gt _ _)) by done.
  destruct (for_each_seqZ (fun i c => c = foldl crc_bit (Z.lxor crc 0xffffffff) (bytes_bits (take (Z.to_nat i) buf)))
    (fun n c => b ← index buf n; t ← index (crc_table MakeCRCTable) (Z.land (Z.lxor c b) 0xff);
      Ret (Z.lxor t (Z.shiftr c 8))) 0 len (Z.lxor crc 0xffffffff)) as (c & -> & ->).
  - lia.
  - done.
  - intros i c Hi ->. destruct (lookup_lt_is_Some_2 buf (Z.to_nat i) ltac:(lia)) as [b Hb].
    assert (index buf i = Ret b) as -> by (unfold index; by rewrite (proj2 (Z.ltb_ge _ _)), Hb by lia).
    pose proof (proj1 (Forall_lookup _ _) Hbuf _ _ Hb) as Hbyte. cbn beta in Hbyte.
    set (c0 := foldl crc_bit _ _). rewrite outcome_bind_ret.
    assert (0 <= Z.land (Z.lxor c0 b) 255 < 256) as Hr.
    { change 255 with (Z.ones 8). rewrite Z.land_ones by lia. by apply Z.mod_pos_bound. }
    rewrite crc_table_at, outcome_bind_ret by done. eexists. split; [done|].
    replace (Z.to_nat (i + 1)) with (S (Z.to_nat i)) by lia. rewrite (take_S_r _ _ _ Hb), bytes_bits_app, foldl_app, bytes_bits_one.
    fold c0. rewrite crc_byte, (crc_table_step (Z.lxor c0 b)) by done. f_equal. rewrite Z.shiftr_lxor.
    unfold is_byte in Hbyte. assert (Z.shiftr b 8 = 0) as ->; [|by rewrite Z.lxor_0_r].
    rewrite Z.shiftr_div_pow2 by lia. apply Z.div_small. simpl. lia.
  - done.
Qed.

(** ** Adler-32 *)

(** Without the reductions. *)
Definition adler_exact (bs : list Z) (s : Z * Z) : Z * Z :=
  foldl (fun s b => let s1 := s.1 + b in (s1, s.2 + s1)) s bs.

Definition adler_step (s : Z * Z) (b : Z) : Z * Z :=
  let s1 := (s.1 + b) mod 65521 in (s1, (s.2 + s1) mod 65521).

Definition reduced (s : Z * Z) : Z * Z := (s.1 mod 65521, s.2 mod 65521).

(** No sum of a chunk overflows. *)
Lemma adler_bytes_exact bs s1 s2 : Forall is_byte bs -> 0 <= s1 -> 0 <= s2 ->
  2 * s2 + 2 * Z.of_nat (length bs) * s1 + 255 * Z.of_nat (length bs) * (Z.of_nat (length bs) + 1) < 2 ^ 33 ->
  adler_bytes bs (s1, s2) = adler_exact bs (s1, s2).
Proof.
  intros Hb. revert s1 s2. induction Hb as [|b bs Hb _ IH]; intros s1 s2 H1 H2 Hlt; [done|].
  unfold is_byte in Hb. cbn [length] in Hlt. rewrite Nat2Z.inj_succ in Hlt. set (n := Z.of_nat (length bs)) in *.
  assert (0 <= n) by lia. unfold adler_bytes, adler_exact. cbn [foldl fst snd].
  assert (u32 (s1 + b) = s1 + b) as -> by (apply u32_small; nia).
  assert (u32 (s2 + (s1 + b)) = s2 + (s1 + b)) as -> by (apply u32_small; nia).
  apply IH; [lia|lia|nia].
Qed.

Lemma adler_exact_reduced bs s : foldl adler_step (reduced s) bs = reduced (adler_exact bs s).
Proof.
  revert s. induction bs as [|b bs IH]; intros [s1 s2]; [done|].
  change (adler_exact (b :: bs) (s1, s2)) with (adler_exact bs (s1 + b, s2 + (s1 + b))). cbn [foldl]. rewrite <-IH. f_equal.
  unfold adler_step, reduced. cbn [fst snd]. rewrite Zplus_mod_idemp_l. f_equal. by rewrite <-Zplus_mod.
Qed.

Lemma adler_exact_nonneg bs s : Forall is_byte bs -> 0 <= s.1 -> 0 <= s.2 -> 0 <= (adler_exact bs s).1 /\ 0 <= (adler_exact bs s).2.
Proof.
  intros Hb. revert s. induction Hb as [|b bs Hb _ IH]; intros [s1 s2] H1 H2; [done|]. unfold is_byte in Hb.
  apply (IH (s1 + b, s2 + (s1 + b))); cbn [fst snd] in *; lia.
Qed.

Lemma adler_loop_spec fuel data s : Forall is_byte data -> (length data <= fuel)%nat -> reduced s = s ->
  adler_loop fuel data s = foldl adler_step s data.
Proof.
  revert data s. induction fuel as [|f IH]; intros data s Hb Hf Hs; [by destruct data; [|simpl in Hf; lia]|].
  destruct data as [|x data]; [done|]. set (l := x :: data) in *.
  set (amount := Z.to_nat (Z.min (Z.of_nat (length l)) 5550)).
  assert (0 < amount <= length l)%nat as Ha by (unfold amount, l; cbn [length]; lia).
  assert (Z.of_nat amount <= 5550) as Ha' by (unfold amount; lia).
  change (adler_loop (S f) l s) with
    (let '(s1, s2) := adler_bytes (take amount l) s in adler_loop f (drop amount l) (s1 mod 65521, s2 mod 65521)).
  destruct s as [s1 s2]. injection Hs as E1 E2. cbn [fst snd] in E1, E2.
  pose proof (Z.mod_pos_bound s1 65521). pose proof (Z.mod_pos_bound s2 65521).
  rewrite adler_bytes_exact; [|by apply Forall_take|lia|lia|rewrite length_take, Nat.min_l by lia; nia].
  destruct (adler_exact (take amount l) (s1, s2)) as [t1 t2] eqn:E.
  change (t1 mod 65521, t2 mod 65521) with (reduced (t1, t2)). rewrite <-E, <-adler_exact_reduced.
  rewrite IH; [| |rewrite length_drop; lia|].
  - rewrite <-foldl_app, take_drop. do 2 f_equal; unfold reduced; cbn [fst snd]; by rewrite E1, E2.
  - by apply Forall_drop.
  - rewrite adler_exact_reduced, E. unfold reduced. cbn [fst snd]. by rewrite !Z.mod_mod.
Qed.

Lemma high_low a b : 0 <= b < 2 ^ 16 -> Z.land (a * 2 ^ 16) b = 0.
Proof.
  intros Hb. apply Z.bits_inj'. intros i Hi. rewrite Z.land_spec, Z.bits_0.
  destruct (Z.lt_ge_cases i 16); [by rewrite Z.mul_pow2_bits_low|].
  rewrite <-(Z.mod_small b (2 ^ 16)), Z.mod_pow2_bits_high by lia. apply andb_false_r.
Qed.

(** The CRC of the first [len] bytes. *)
Lemma CRC_spec st buf len : crc_ok st -> Forall is_byte buf -> 0 <= len <= Z.of_nat (length buf) -> len < 2 ^ 31 ->
  CRC buf len st = Ret (crc32 (take (Z.to_nat len) buf), MakeCRCTable).
Proof.
  intros Hst Hbuf Hlen Hmax. unfold CRC. rewrite s32_small, u64_small by (unfold int_min, int_max; lia). by rewrite UpdateCRC_spec by (done || lia).
Qed.

Lemma adler32_spec data : Forall is_byte data ->
  adler32 data = (adler_sum data).2 * 65536 + (adler_sum data).1.
Proof.
  intros Hdata.
  unfold adler32. change (Z.shiftr 1 16) with 0. rewrite adler_loop_spec by done.
  change (foldl adler_step (1, 0) data) with (adler_sum data).
  assert (0 <= (adler_sum data).1 < 65521 /\ 0 <= (adler_sum data).2 < 65521) as [H1 H2].
  { change (adler_sum data) with (foldl adler_step (reduced (1, 0)) data). rewrite adler_exact_reduced.
    unfold reduced. cbn [fst snd]. split; by apply Z.mod_pos_bound. }
  destruct (adler_sum data) as [s1 s2]. cbn [fst snd] in *. rewrite Z.shiftl_mul_pow2 by lia. change (2 ^ 16) with 65536.
  rewrite u32_small by lia. rewrite <-Z.lxor_lor, <-Z.add_nocarry_lxor; try done; change 65536 with (2 ^ 16); apply high_low; lia.
Qed.

(** ** Properties *)

(** C31. The CRC. With the table made before or not, a message of less than
    2 ^ 31 bytes gets the remainder of its division bit by bit, and the table
    stays made. *)
Theorem crc_table_driven st buf (Hst : crc_ok st) (Hbuf : Forall is_byte buf) (Hlen : Z.of_nat (length buf) < 2 ^ 31) :
  exists st', CRC buf (Z.of_nat (length buf)) st = Ret (crc32 buf, st') /\ crc_ok st' /\ crc_table_computed st' = true.
Proof.
  exists MakeCRCTable. split; [|done]. rewrite CRC_spec by (done || lia). by rewrite Nat2Z.id, take_ge by lia.
Qed.

Lemma crc_table_driven_witness :
  exists st', CRC digits 9 crc_initially = Ret (0xcbf43926, st') /\ crc_table_computed st' = true.
Proof.
  destruct (crc_table_driven crc_initially digits) as (st' & H1 & _ & H2).
  - intros H. discriminate H.
  - unfold is_byte, digits. repeat (apply Forall_cons; split; [lia|]). apply Forall_nil. exact I.
  - simpl. lia.
  - exists st'. split; [|exact H2]. change 9 with (Z.of_nat (length digits)). rewrite H1. vm_compute. reflexivity.
Defined.

(** C40. The Adler-32 checksum. Reducing the sums every 5550 bytes only, they never
    overflow their 32 bits, and the checksum is the one of the format, which
    reduces them at every byte. *)
Theorem adler32_reference data (Hdata : Forall is_byte data) :
  adler32 data = (adler_sum data).2 * 65536 + (adler_sum data).1.
Proof. by apply adler32_spec. Qed.

Lemma adler32_reference_witness : adler32 digits = 0x091e01de.
Proof.
  rewrite (adler32_reference digits).
  - vm_compute. reflexivity.
  - unfold is_byte, digits. repeat (apply Forall_cons; split; [lia|]). apply Forall_nil. exact I.
Defined.
