(* ===== verification/ZopfliEntropy.v ===== *)
(** * Zopfli: entropy

    [ZopfliCalculateEntropy] of [tree.cc]: how many bits a symbol is worth, from
    its count. The logarithm of the C library is a class: its results for
    integers are finite, in range, and in order up to a small error.

    Proved here: the assertion holds, by the clamp before it, as long as the
    [unsigned] sum of the counts does not wrap. *)

From S2P Require Import Prelude CFloat ZopfliUtil.
From Stdlib Require Import SpecFloat.

Local Open Scope Z_scope.

(** A tolerance of [2 ^ -40]. *)
Definition log_error : Z := 2 ^ (- unit - 40).

(** [log], of the integers that an [unsigned] holds. *)
Class Log : Type := {
  log : spec_float -> spec_float;
  log_range : forall n, 1 <= n < 2 ^ 32 -> double_upto (units 23) (log (double_of_Z n));
  log_order : forall a b, 1 <= a <= b -> b < 2 ^ 32 -> value (log (double_of_Z a)) <= value (log (double_of_Z b)) + log_error;
}.

Definition zero : spec_float := S754_zero false.
Definition double_div : spec_float -> spec_float -> spec_float := SFdiv 53 1024.

(** [1.4426950408889] and [-1e-5]. *)
Definition kInvLog2 : spec_float := double_div (double_of_Z 14426950408889) (double_of_Z (10 ^ 13)).
Definition almost_zero : spec_float := SFopp (double_div (double_of_Z 1) (double_of_Z (10 ^ 5))).

Section entropy.
Context {logarithm : Log}.

Definition symbol_entropy (log2sum : spec_float) (count : Z) : outcome spec_float :=
  let bits := if count =? 0 then log2sum else double_sub log2sum (double_mul (log (double_of_Z count)) kInvLog2) in
  let bits := if SFltb bits zero && SFltb almost_zero bits then zero else bits in
  _ ← assertion (SFleb zero bits);
  Ret bits.

(** [n] is the length of [count]. *)
Definition ZopfliCalculateEntropy (count : list Z) : outcome (list spec_float) :=
  let n := Z.of_nat (length count) in
  let sum := foldl (fun sum c => u32 (sum + c)) 0 count in
  let log2sum := double_mul (log (double_of_Z (if sum =? 0 then n else sum))) kInvLog2 in
  mapM (symbol_entropy log2sum) count.

(** ** Its range *)

Definition inv_log2 : Z := value kInvLog2.
Lemma kInvLog2_range : double kInvLog2 /\ 0 < inv_log2 /\ 2 * inv_log2 <= 3 * 2 ^ (- unit).
Proof. split; [by vm_compute|]. split; [by vm_compute|]. apply (Z.leb_le (2 * inv_log2)). by vm_compute. Qed.

(** The logarithms to base 2. *)
Lemma log2_value n : 1 <= n < 2 ^ 32 -> let x := double_mul (log (double_of_Z n)) kInvLog2 in
  let p := value (log (double_of_Z n)) * inv_log2 / 2 ^ (- unit) in
  double_upto (units 35) x /\ Z.abs (value x - p) <= 2 ^ (- unit - 46).
Proof.
  intros Hn x p. destruct (log_range n Hn) as [Hl Hlv]. destruct kInvLog2_range as (Hk & Hk0 & Hk1). pose proof one_positive as H1.
  assert (0 <= p <= units 35) as Hp.
  { unfold p. split; [apply Z.div_pos; [nia|lia]|]. apply Z.div_le_upper_bound; [lia|]. unfold units in *. nia. }
  destruct (double_mul_value 35 (log (double_of_Z n)) kInvLog2) as [Hx Hv]; [done|done|lia|unfold inv_log2 in *; lia|exact (proj2 Hp)|lia|].
  split; [done|]. unfold x. rewrite Hv. fold inv_log2. fold p. etransitivity; [apply (rounded_error 53 1024 p ltac:(lia) ltac:(lia) ltac:(unfold unit; lia)); lia|].
  apply Z.pow_le_mono_r; [lia|]. unfold last_bit. assert (Z.log2 p <= 5 - unit) as Hlog.
  { transitivity (Z.log2 (units 35)); [apply Z.log2_le_mono; lia|]. apply (Z.leb_le (Z.log2 (units 35))). by vm_compute. }
  unfold fexp, emin. unfold unit in *. lia.
Qed.

(** A difference that is not below [-2 ^ -20]. *)
Lemma clamped x y : double x -> double y -> 0 <= value x <= units 35 -> 0 <= value y -> value y <= value x + 2 ^ (- unit - 20) ->
  let b := double_sub x y in double_upto (units 35) (if SFltb b zero && SFltb almost_zero b then zero else b).
Proof.
  intros Hx Hy Hvx Hvy Hle b. pose proof (double_sub_value x y Hx Hy) as Hr. fold b in Hr.
  destruct (Z.le_gt_cases 0 (value x - value y)) as [Hge|Hlt].
  - assert (double_upto (units 35) b) as Hb by (apply (double_rounds_to_units _ 35 _ Hr); lia).
    destruct (_ && _); [|done]. apply zero_upto. apply Z.mul_nonneg_nonneg; [lia|]. pose proof one_positive. lia.
  - assert (rounded 53 1024 (value y - value x) <= 2 ^ (- unit - 20)) as Hround.
    { transitivity (rounded 53 1024 (2 ^ (- unit - 20))); [apply double_rounded_mono; lia|]. apply Z.leb_le. by vm_compute. }
    pose proof (double_rounded_nonneg (value y - value x) ltac:(lia)) as H0.
    unfold double_rounds, rounds_to, overflows, round_value in Hr. replace (Z.abs (value x - value y)) with (value y - value x) in Hr by lia.
    rewrite (proj2 (Z.leb_gt _ _)) in Hr by (apply (Z.le_lt_trans _ _ _ Hround); by apply Z.ltb_lt; vm_compute). destruct Hr as [Hb Hv].
    rewrite Z.sgn_neg in Hv by lia. assert (double zero) as Hz by done. assert (double almost_zero) as Ha by (by vm_compute).
    rewrite (double_ltb b zero), (double_ltb almost_zero b), Hv by done. change (value zero) with 0.
    assert (value almost_zero < - 2 ^ (- unit - 20)) as Hsmall by (apply Z.ltb_lt; by vm_compute).
    rewrite (proj2 (Z.ltb_lt (value almost_zero) _)) by lia. rewrite andb_true_r.
    assert (0 <= units 35) as H35 by (pose proof one_positive; unfold units; lia).
    destruct (Z.ltb_spec (-1 * rounded 53 1024 (value y - value x)) 0); [by apply zero_upto|]. split; [done|]. rewrite Hv. lia.
Qed.

Lemma log2_order a b : 1 <= a <= b -> b < 2 ^ 32 ->
  value (double_mul (log (double_of_Z a)) kInvLog2) <= value (double_mul (log (double_of_Z b)) kInvLog2) + 2 ^ (- unit - 20).
Proof.
  intros Hab Hb. pose proof (log_order a b Hab Hb) as Hl. destruct (log2_value a ltac:(lia)) as [_ Ea]. destruct (log2_value b ltac:(lia)) as [_ Eb].
  cbv zeta in Ea, Eb. destruct kInvLog2_range as (_ & Hk0 & Hk1). pose proof one_positive as H1.
  set (la := value (log (double_of_Z a))) in *. set (lb := value (log (double_of_Z b))) in *.
  assert (la * inv_log2 / 2 ^ (- unit) <= lb * inv_log2 / 2 ^ (- unit) + 2 * log_error) as Hp.
  { transitivity ((lb * inv_log2 + 2 * log_error * 2 ^ (- unit)) / 2 ^ (- unit)).
    - apply Z.div_le_mono; [done|]. assert (0 < log_error) by (apply Z.ltb_lt; by vm_compute). nia.
    - rewrite Z.div_add by lia. lia. }
  assert (2 * log_error + 2 * 2 ^ (- unit - 46) <= 2 ^ (- unit - 20)) as Hsmall by (apply Z.leb_le; by vm_compute). lia.
Qed.

Lemma symbol_entropy_ok sum c n : 1 <= sum < 2 ^ 32 -> 0 <= c <= sum -> n = double_mul (log (double_of_Z sum)) kInvLog2 ->
  exists x, symbol_entropy n c = Ret x /\ double_upto (units 35) x.
Proof.
  intros Hs Hc ->. destruct (log2_value sum Hs) as [[Hx Hv] _]. unfold symbol_entropy. cbv zeta.
  assert (forall b, double_upto (units 35) b -> (assertion (SFleb zero b) ≫= fun _ => Ret b) = Ret b) as Hassert.
  { intros b [Hb Hbv]. rewrite assertion_holds; [done|]. rewrite double_leb by done. change (value zero) with 0. apply Z.leb_le, Hbv. }
  eexists. assert (double_upto (units 35) (let bits := if c =? 0 then double_mul (log (double_of_Z sum)) kInvLog2
      else double_sub (double_mul (log (double_of_Z sum)) kInvLog2) (double_mul (log (double_of_Z c)) kInvLog2) in
      if SFltb bits zero && SFltb almost_zero bits then zero else bits)) as Hb; [|cbv zeta in Hb; rewrite (Hassert _ Hb); by split].
  destruct (Z.eqb_spec c 0) as [->|Hc0].
  - cbv zeta. destruct (_ && _); [|done]. apply zero_upto. pose proof one_positive. unfold units. lia.
  - destruct (log2_value c ltac:(lia)) as [[Hy Hyv] _]. apply clamped; try done; try lia. apply log2_order; lia.
Qed.

(** The sum of the counts, and that it does not wrap. *)
Definition sum_of (count : list Z) : Z := foldr Z.add 0 count.

Lemma sum_of_nonneg count : Forall (fun c => 0 <= c) count -> 0 <= sum_of count.
Proof. induction 1 as [|c l Hc _ IH]; [done|]. unfold sum_of in *. cbn [foldr]. lia. Qed.

Lemma sum_counts count : Forall (fun c => 0 <= c) count -> forall start, 0 <= start -> start + sum_of count < 2 ^ 32 ->
  foldl (fun sum c => u32 (sum + c)) start count = start + sum_of count /\ Forall (fun c => c <= sum_of count) count.
Proof.
  induction 1 as [|c count Hc Hcs IH]; intros start Hs Hsum; [cbn; split; [lia|constructor]|]. cbn [sum_of foldl foldr] in *.
  pose proof (sum_of_nonneg count Hcs) as H0. unfold sum_of in H0, IH.
  rewrite (u32_small (start + c)) by lia. destruct (IH (start + c) ltac:(lia) ltac:(lia)) as [-> Hle]. split; [lia|].
  apply Forall_cons. split; [lia|]. eapply Forall_impl; [exact Hle|]. cbn. intros x. lia.
Qed.

(** Every symbol gets a number of bits, at most 35. *)
Lemma ZopfliCalculateEntropy_spec count : Forall (fun c => 0 <= c) count -> 0 < Z.of_nat (length count) < 2 ^ 32 -> sum_of count < 2 ^ 32 ->
  exists bitlengths, ZopfliCalculateEntropy count = Ret bitlengths /\ length bitlengths = length count /\ Forall (double_upto (units 35)) bitlengths.
Proof.
  intros Hc Hn Hsum. destruct (sum_counts count Hc 0) as [E Hle]; [done|lia|]. unfold ZopfliCalculateEntropy. cbv zeta. rewrite E, Z.add_0_l.
  set (sum := if sum_of count =? 0 then Z.of_nat (length count) else sum_of count).
  assert (1 <= sum < 2 ^ 32 /\ Forall (fun c => 0 <= c <= sum) count) as [Hs Hcs].
  { pose proof (sum_of_nonneg count Hc) as H0. unfold sum.
    destruct (Z.eqb_spec (sum_of count) 0) as [Ez|]; (split; [lia|]); apply Forall_and; split; try done; eapply Forall_impl; try exact Hle; cbn; intros; lia. }
  clearbody sum. clear -Hcs Hs. remember (double_mul (log (double_of_Z sum)) kInvLog2) as n eqn:En.
  induction Hcs as [|c count Hc _ (bl & Ebl & Hl & Hb)]; [by exists []|].
  destruct (symbol_entropy_ok sum c n Hs Hc En) as (x & Hx & Hxb). exists (x :: bl). cbn [mapM]. rewrite Hx, outcome_bind_ret, Ebl. split; [done|].
  split; [cbn; by rewrite Hl|by constructor].
Qed.
End entropy.

(** ** A logarithm *)

(** [k] binary digits of the logarithm to base 2 of [x / 2 ^ 63], in [1, 2). *)
Fixpoint log2_digits (k : nat) (x : Z) : Z :=
  match k with
  | O => 0
  | S k' =>
      let y := Z.shiftr (x * x) 63 in
      if 2 ^ 64 <=? y then 2 ^ Z.of_nat k' + log2_digits k' (Z.shiftr y 1) else log2_digits k' y
  end.

(** The logarithm to base 2 of an integer, with 48 digits after the point. *)
Definition fixed_log2 (n : Z) : Z := Z.log2 n * 2 ^ 48 + log2_digits 48 (n * 2 ^ (63 - Z.log2 n)).

(** Of the integer part, by the logarithm of 2. *)
Definition natural_log (x : spec_float) : spec_float :=
  match size_of_double x with
  | Ret n => double_mul (binary_normalize 53 1024 (fixed_log2 n) (-48) false) (double_div (double_of_Z 6931471805599453) (double_of_Z (10 ^ 16)))
  | _ => zero
  end.

Lemma log2_digits_mono k : forall x y, 2 ^ 63 <= x <= y -> y < 2 ^ 64 -> 0 <= log2_digits k x <= log2_digits k y /\ log2_digits k y < 2 ^ Z.of_nat k.
Proof.
  induction k as [|k IH]; intros x y Hx Hy; [cbn; lia|]. cbn [log2_digits]. cbv zeta. rewrite !Z.shiftr_div_pow2 by lia.
  rewrite Nat2Z.inj_succ, Z.pow_succ_r by lia. assert (x * x / 2 ^ 63 <= y * y / 2 ^ 63) as Hxy by (apply Z.div_le_mono; nia).
  assert (2 ^ 63 <= x * x / 2 ^ 63) as Hl by (apply Z.div_le_lower_bound; nia).
  assert (y * y / 2 ^ 63 < 2 * 2 ^ 64) as Hu by (apply Z.div_lt_upper_bound; nia).
  assert (forall z, 2 ^ 64 <= z -> z < 2 * 2 ^ 64 -> 2 ^ 63 <= z / 2 ^ 1 < 2 ^ 64) as Hhalf
    by (intros z H1 H2; split; [apply Z.div_le_lower_bound; lia|apply Z.div_lt_upper_bound; lia]).
  destruct (Z.leb_spec (2 ^ 64) (x * x / 2 ^ 63)) as [Bx|Bx], (Z.leb_spec (2 ^ 64) (y * y / 2 ^ 63)) as [By|By]; try lia.
  - pose proof (Z.div_le_mono _ _ (2 ^ 1) ltac:(lia) Hxy). destruct (IH (x * x / 2 ^ 63 / 2 ^ 1) (y * y / 2 ^ 63 / 2 ^ 1)); [split; [apply Hhalf; lia|done]|apply Hhalf; lia|]. lia.
  - pose proof (Hhalf _ By Hu). destruct (IH (x * x / 2 ^ 63) (x * x / 2 ^ 63)) as [? ?]; [lia..|].
    destruct (IH (y * y / 2 ^ 63 / 2 ^ 1) (y * y / 2 ^ 63 / 2 ^ 1)) as [? ?]; [lia..|]. lia.
  - destruct (IH (x * x / 2 ^ 63) (y * y / 2 ^ 63)); lia.
Qed.

Lemma fixed_log2_mono a b : 1 <= a <= b -> b < 2 ^ 32 -> 0 <= fixed_log2 a <= fixed_log2 b /\ fixed_log2 b < 32 * 2 ^ 48.
Proof.
  intros Hab Hb. unfold fixed_log2. pose proof (Z.log2_le_mono a b ltac:(lia)) as Hl. pose proof (Z.log2_lt_pow2 b 32 ltac:(lia)) as [H32 _]. specialize (H32 Hb).
  pose proof (Z.log2_nonneg a).
  assert (forall n, 1 <= n -> Z.log2 n < 32 -> 2 ^ 63 <= n * 2 ^ (63 - Z.log2 n) < 2 ^ 64) as Hn.
  { intros n Hn Hn32. pose proof (Z.log2_nonneg n). pose proof (Z.log2_spec n ltac:(lia)) as [H1 H2].
    replace (2 ^ 63) with (2 ^ Z.log2 n * 2 ^ (63 - Z.log2 n)) by (rewrite <-Z.pow_add_r by lia; f_equal; lia).
    replace (2 ^ 64) with (2 ^ Z.succ (Z.log2 n) * 2 ^ (63 - Z.log2 n)) by (rewrite <-Z.pow_add_r by lia; f_equal; lia).
    assert (0 < 2 ^ (63 - Z.log2 n)) by (apply Z.pow_pos_nonneg; lia). split; [apply Z.mul_le_mono_nonneg_r; lia|apply Z.mul_lt_mono_pos_r; lia]. }
  pose proof (Hn a ltac:(lia) ltac:(lia)) as Ha. pose proof (Hn b ltac:(lia) ltac:(lia)) as Hb'.
  set (da := log2_digits 48 _). set (db := log2_digits 48 (b * _)).
  assert (0 <= da < 2 ^ 48 /\ 0 <= db < 2 ^ 48) as [Hda Hdb].
  { pose proof (log2_digits_mono 48 _ _ (conj (proj1 Ha) (Z.le_refl _)) (proj2 Ha)). pose proof (log2_digits_mono 48 _ _ (conj (proj1 Hb') (Z.le_refl _)) (proj2 Hb')). lia. }
  destruct (Z.eq_dec (Z.log2 a) (Z.log2 b)) as [E|Hne]; [|lia].
  assert (da <= db); [|lia]. unfold da, db. rewrite E in *. apply log2_digits_mono; [|lia]. split; [lia|].
  apply Z.mul_le_mono_nonneg_r; lia.
Qed.

(** The factors of [natural_log]. *)
Lemma log2_part n : 0 <= n < 32 * 2 ^ 48 -> let x := binary_normalize 53 1024 n (-48) false in
  double_upto (units 32) x /\ value x = rounded 53 1024 (scaled n (-48)).
Proof.
  intros Hn x. pose proof (binary_normalize_value 53 1024 ltac:(done) ltac:(done) ltac:(done) n (-48) false ltac:(done)) as Hr. change (double_rounds (scaled n (-48)) x) in Hr.
  assert (0 <= scaled n (-48) <= units 32) as Hs.
  { unfold scaled, units. replace (- unit) with (48 + (-48 - unit)) by lia. rewrite Z.pow_add_r by (unfold unit; lia). assert (0 < 2 ^ (-48 - unit)) by (apply Z.pow_pos_nonneg; unfold unit; lia). nia. }
  split; [apply (double_rounds_to_units (scaled n (-48)) 32 x Hr Hs); lia|]. apply (double_rounds_pos _ _ Hr); [lia|].
  pose proof (double_rounded_mono (scaled n (-48)) (units 32) Hs) as Hm. rewrite (double_rounded_units 32) in Hm by lia.
  pose proof (double_units_range 32 ltac:(lia)). lia.
Qed.

Lemma natural_log_value n : 1 <= n < 2 ^ 32 -> let k := double_div (double_of_Z 6931471805599453) (double_of_Z (10 ^ 16)) in
  double_upto (units 23) (natural_log (double_of_Z n)) /\
  value (natural_log (double_of_Z n)) = rounded 53 1024 (rounded 53 1024 (scaled (fixed_log2 n) (-48)) * value k / 2 ^ (- unit)).
Proof.
  intros Hn k. destruct (double_of_Z_value n ltac:(lia)) as [Hd Hv]. pose proof one_positive as H1. unfold natural_log.
  destruct (size_of_double_value n (double_of_Z n)) as [-> _]; [split; [done|]; rewrite Hv; unfold units; nia|lia|].
  assert (value (double_of_Z n) / 2 ^ (- unit) = n) as -> by (rewrite Hv; unfold units; apply Z.div_mul; lia). destruct (fixed_log2_mono n n ltac:(lia) ltac:(lia)) as [Hf Hf'].
  destruct (log2_part (fixed_log2 n) ltac:(lia)) as [[Hx Hxv] Hxr]. cbv zeta in Hxr. rewrite <-Hxr. fold k.
  assert (double k /\ 0 <= value k /\ 32 * value k <= 23 * 2 ^ (- unit)) as (Hk & Hk0 & Hk1).
  { split; [by vm_compute|]. split; [apply Z.leb_le; by vm_compute|]. apply Z.leb_le. by vm_compute. }
  apply (double_mul_value 23); [exact Hx|exact Hk|lia|lia| |lia]. apply Z.div_le_upper_bound; [lia|]. unfold units in *. clearbody k. nia.
Qed.

Lemma natural_log_order a b : 1 <= a <= b -> b < 2 ^ 32 ->
  value (natural_log (double_of_Z a)) <= value (natural_log (double_of_Z b)) + log_error.
Proof.
  intros Ha Hb. rewrite (proj2 (natural_log_value a ltac:(lia))), (proj2 (natural_log_value b ltac:(lia))). assert (0 <= log_error) as He by (apply Z.leb_le; by vm_compute).
  assert (0 <= value (double_div (double_of_Z 6931471805599453) (double_of_Z (10 ^ 16)))) as Hk by (apply Z.leb_le; by vm_compute).
  destruct (fixed_log2_mono a b Ha Hb) as [Hf _]. pose proof one_positive as H1.
  assert (0 <= scaled (fixed_log2 a) (-48) <= scaled (fixed_log2 b) (-48)) as Hs.
  { unfold scaled. assert (0 < 2 ^ (-48 - unit)) by (apply Z.pow_pos_nonneg; unfold unit; lia). nia. }
  pose proof (double_rounded_mono _ _ Hs) as Hm. pose proof (double_rounded_nonneg (scaled (fixed_log2 a) (-48)) ltac:(lia)) as H0.
  generalize dependent (value (double_div (double_of_Z 6931471805599453) (double_of_Z (10 ^ 16)))). intros k Hk.
  enough (rounded 53 1024 (rounded 53 1024 (scaled (fixed_log2 a) (-48)) * k / 2 ^ (- unit)) <= rounded 53 1024 (rounded 53 1024 (scaled (fixed_log2 b) (-48)) * k / 2 ^ (- unit))) by lia.
  apply double_rounded_mono. split; [apply Z.div_pos; nia|]. apply Z.div_le_mono; nia.
Qed.

#[export] Instance integer_log : Log :=
  {| log := natural_log; log_range n Hn := proj1 (natural_log_value n Hn); log_order := natural_log_order |}.

(** ** Properties *)

Example entropy_example : exists a b, ZopfliCalculateEntropy [1; 0; 3] = Ret [a; a; b] /\ SFltb b a = true.
Proof. eexists _, _. split; [vm_compute; reflexivity|vm_compute; reflexivity]. Qed.

(** The sum is an [unsigned] while the counts are of type [size_t]: when it wraps, a
    count is larger than the sum, and the assertion fails. *)
Lemma entropy_sum_wraps : ZopfliCalculateEntropy [2 ^ 31; 2 ^ 31 + 1] = Aborts.
Proof. vm_compute. reflexivity. Qed.

(** The bits of symbols. For counts whose sum is below [2 ^ 32], and any
    logarithm that is in range and in order up to an error of [2 ^ -40],
    [ZopfliCalculateEntropy] fails no assertion: every symbol gets a number of
    bits, not negative, not a NaN, and at most 35. *)
Theorem entropy_in_range {logarithm : Log} count
    (Hcount : Forall (fun c => 0 <= c) count) (Hn : 0 < Z.of_nat (length count) < 2 ^ 32) (Hsum : sum_of count < 2 ^ 32) :
  exists bitlengths, ZopfliCalculateEntropy count = Ret bitlengths /\ length bitlengths = length count /\
    Forall (double_upto (units 35)) bitlengths.
Proof. by apply ZopfliCalculateEntropy_spec. Qed.

Lemma entropy_in_range_witness :
  exists bitlengths, ZopfliCalculateEntropy (logarithm := integer_log) [5; 0; 1000000] = Ret bitlengths /\ length bitlengths = 3%nat /\
    Forall (double_upto (units 35)) bitlengths.
Proof.
  apply (entropy_in_range (logarithm := integer_log) [5; 0; 1000000]).
  - repeat (apply Forall_cons; split; [lia|]). apply Forall_nil. exact I.
  - split; reflexivity.
  - reflexivity.
Defined.
