(* ===== verification/ZopfliHash.v ===== *)
(** * Zopfli: the hash chains

    [hash.cc]: for each value of a hash of three bytes the most recent position
    of the window with that value, and from each position the previous one; the
    same with a hash that also counts repetitions of the first byte
    ([ZOPFLI_HASH_SAME] and [ZOPFLI_HASH_SAME_HASH] are defined). A position of
    the data is kept modulo the size of the window.

    Proved here: the chains lead from a position to earlier ones with the same
    hash, as long as they stay in the window. *)

From S2P Require Import Prelude ZopfliUtil ZopfliBits.

Local Open Scope Z_scope.

Definition ZOPFLI_MIN_MATCH : Z := 3.
Definition ZOPFLI_MAX_MATCH : Z := 258.
Definition ZOPFLI_WINDOW_SIZE : Z := 32768.
Definition ZOPFLI_WINDOW_MASK : Z := ZOPFLI_WINDOW_SIZE - 1.
Definition HASH_SHIFT : Z := 5.
Definition HASH_MASK : Z := 32767.

(** ** The state *)

(** The arrays of one hash and its current value. *)
Record hash_chain : Type := MkChain { head : list Z; prev : list Z; hashval : list Z; val : Z }.

(** The second one is [head2], [prev2], [hashval2] and [val2]. *)
Record ZopfliHash : Type := MkHash { hash1 : hash_chain; hash2 : hash_chain; same : list Z }.

(** [prev[i] = i], from [i] on. *)
Fixpoint self_positions (n : nat) (i : Z) : list Z :=
  match n with O => [] | S n' => u16 i :: self_positions n' (i + 1) end.

Definition init_chain (window_size : Z) : hash_chain :=
  MkChain (replicate (Z.to_nat 65536) (-1)) (self_positions (Z.to_nat window_size) 0) (replicate (Z.to_nat window_size) (-1)) 0.

Definition ZopfliInitHash (window_size : Z) : ZopfliHash :=
  MkHash (init_chain window_size) (init_chain window_size) (replicate (Z.to_nat window_size) 0).

(** ** Its operations *)

Definition hash_step (val c : Z) : Z := Z.land (Z.lxor (Z.shiftl val HASH_SHIFT) c) HASH_MASK.

Definition UpdateHashValue (h : ZopfliHash) (c : Z) : ZopfliHash :=
  let h1 := hash1 h in
  MkHash (MkChain (head h1) (prev h1) (hashval h1) (hash_step (val h1) c)) (hash2 h) (same h).

(** The new position is put at the head of the chain of [v]. *)
Definition push_position (c : hash_chain) (hpos v : Z) : outcome hash_chain :=
  hashval' ← assign (hashval c) hpos v;
  hd ← index (head c) v;
  linked ← (if hd =? -1 then Ret false else x ← index hashval' hd; Ret (x =? v));
  prev' ← assign (prev c) hpos (if linked : bool then u16 hd else hpos);
  head' ← assign (head c) v hpos;
  Ret (MkChain head' prev' hashval' v).

(** [while (pos + amount + 1 < end && array[pos] == array[pos + amount + 1] &&
    amount < (unsigned short)(-1))]: at most 65535 turns. *)
Fixpoint count_same (fuel : nat) (array : list Z) (pos end_ amount : Z) : outcome Z :=
  match fuel with
  | O => Ret amount
  | S f =>
      if pos + amount + 1 <? end_ then
        a ← index array pos;
        b ← index array (pos + amount + 1);
        if (a =? b) && (amount <? 65535) then count_same f array pos end_ (amount + 1) else Ret amount
      else Ret amount
  end.

Definition ZopfliUpdateHash (array : list Z) (pos end_ : Z) (h : ZopfliHash) : outcome ZopfliHash :=
  let hpos := u16 (Z.land pos ZOPFLI_WINDOW_MASK) in
  c ← (if pos + ZOPFLI_MIN_MATCH <=? end_ then index array (pos + ZOPFLI_MIN_MATCH - 1) else Ret 0);
  let h := UpdateHashValue h c in
  h1 ← push_position (hash1 h) hpos (val (hash1 h));
  before ← index (same h) (Z.land (pos - 1) ZOPFLI_WINDOW_MASK);
  amount ← count_same (Z.to_nat 65536) array pos end_ (if 1 <? before then before - 1 else 0);
  same' ← assign (same h) hpos (u16 amount);
  s ← index same' hpos;
  h2 ← push_position (hash2 h) hpos (Z.lxor (Z.land (s - ZOPFLI_MIN_MATCH) 255) (val h1));
  Ret (MkHash h1 h2 same').

Definition ZopfliWarmupHash (array : list Z) (pos : Z) (h : ZopfliHash) : outcome ZopfliHash :=
  a ← index array pos;
  b ← index array (pos + 1);
  Ret (UpdateHashValue (UpdateHashValue h a) b).

(** The hash after the positions from [ws] on and before [n]. *)
Definition hashed (array : list Z) (ws end_ n : Z) : outcome ZopfliHash :=
  h ← ZopfliWarmupHash array ws (ZopfliInitHash ZOPFLI_WINDOW_SIZE);
  for_each (seqZ ws (n - ws)) (fun i h => ZopfliUpdateHash array i end_ h) h.

Example hash_example :
  (h ← ZopfliWarmupHash [1; 2; 3; 1; 2; 3] 0 (ZopfliInitHash ZOPFLI_WINDOW_SIZE);
   h ← for_each (seqZ 0 4) (fun i => ZopfliUpdateHash [1; 2; 3; 1; 2; 3] i 6) h;
   p ← index (prev (hash1 h)) 3; q ← index (prev (hash1 h)) 2; Ret (p, q, val (hash1 h))) = Ret (0, 2, 1091).
Proof. vm_compute. reflexivity. Qed.

(** ** The chains *)

Local Abbreviation W := ZOPFLI_WINDOW_SIZE.

Definition slot (x : Z) : Z := x mod W.

Lemma slot_range x : 0 <= slot x < W.
Proof. apply Z.mod_pos_bound. unfold W. lia. Qed.

Lemma slot_ne x y : 0 < y - x < W -> slot x <> slot y.
Proof. unfold slot, W. intros H. Z.div_mod_to_equations. lia. Qed.

Lemma slot_sub x d : slot (x - d) = (slot x - d) mod W.
Proof. unfold slot. by rewrite Zminus_mod_idemp_l. Qed.

(** The last position before [n] in the slot of [y]. *)
Lemma slot_latest y n : y < n -> exists z, y <= z < n /\ n - W <= z /\ slot z = slot y.
Proof.
  intros H. exists (n - 1 - (n - 1 - y) mod W). pose proof (Z.mod_pos_bound (n - 1 - y) W ltac:(unfold W; lia)).
  pose proof (Z.mod_le (n - 1 - y) W ltac:(lia) ltac:(unfold W; lia)). split; [lia|]. split; [unfold W in *; lia|].
  unfold slot. replace (n - 1 - (n - 1 - y) mod W) with (y + (n - 1 - y) / W * W) by (pose proof (Z.div_mod (n - 1 - y) W); unfold W in *; lia).
  apply Z.mod_add. unfold W. lia.
Qed.

Lemma u16_slot x : u16 (slot x) = slot x.
Proof. apply Z.mod_small. pose proof (slot_range x). unfold W in *. lia. Qed.

Lemma window_mask x : Z.land x ZOPFLI_WINDOW_MASK = slot x.
Proof. change ZOPFLI_WINDOW_MASK with (Z.ones 15). by apply Z.land_ones. Qed.

(** The chain of the positions from [ws] on and before [n], with the hash values
    [hv]; only the window before [n] is kept. *)
Record chain_ok (ws n : Z) (hv : Z -> Z) (c : hash_chain) : Prop := {
  ch_head_length : length (head c) = Z.to_nat 65536;
  ch_prev_length : length (prev c) = Z.to_nat W;
  ch_hashval_length : length (hashval c) = Z.to_nat W;
  ch_hashval : forall x, ws <= x < n -> n - W <= x -> table_at (hashval c) (slot x) = hv x;
  ch_head : forall v, 0 <= v < 65536 -> table_at (head c) v = -1 /\ (forall z, ws <= z < n -> hv z <> v) \/
    exists y, ws <= y < n /\ table_at (head c) v = slot y /\ hv y = v /\ forall z, y < z < n -> hv z <> v;
  ch_prev : forall x, ws <= x < n -> n - W <= x -> table_at (prev c) (slot x) = slot x \/
    exists y, ws <= y < x /\ x - W < y /\ table_at (prev c) (slot x) = slot y /\ hv y = hv x;
  ch_adjacent : forall x, ws < x < n -> n - W <= x -> hv (x - 1) = hv x -> table_at (prev c) (slot x) = slot (x - 1);
}.

Definition extend (hv : Z -> Z) (n v : Z) : Z -> Z := fun x => if x =? n then v else hv x.

Lemma extend_eq hv n v : extend hv n v n = v.
Proof. unfold extend. by rewrite Z.eqb_refl. Qed.
Lemma extend_ne hv n v x : x <> n -> extend hv n v x = hv x.
Proof. intros H. unfold extend. by rewrite (proj2 (Z.eqb_neq _ _)). Qed.

(** Whether the head of the chain of [v] is linked to: exactly when it is still
    in the window. *)
Lemma linked_spec ws n hv c v : chain_ok ws n hv c -> 0 <= v < 65536 ->
  let hd := table_at (head c) v in
  exists linked, (if hd =? -1 then Ret false else x ← index (<[Z.to_nat (slot n) := v]> (hashval c)) hd; Ret (x =? v)) = Ret linked /\
    (linked = true -> hd = slot n \/ exists y, ws <= y < n /\ n - W < y /\ hd = slot y /\ hv y = v) /\
    (ws < n -> hv (n - 1) = v -> linked = true /\ hd = slot (n - 1)).
Proof.
  intros Hc Hv hd. destruct (ch_head _ _ _ _ Hc v Hv) as [[E Hnone]|(y & Hy & E & Hhv & Hlast)]; fold hd in E.
  { rewrite E. exists false. split; [done|]. split; [done|]. intros Hn Hx. exfalso. apply (Hnone (n - 1)); [lia|done]. }
  pose proof (slot_range y) as Hsy. rewrite E, (proj2 (Z.eqb_neq _ _)) by lia.
  assert (Z.of_nat (length (hashval c)) = W) as Hl by (rewrite (ch_hashval_length _ _ _ _ Hc); unfold W; lia).
  rewrite index_ok by (rewrite length_insert; lia). rewrite outcome_bind_ret. eexists. split; [done|].
  pose proof (slot_range n). rewrite table_at_insert by lia. split.
  2: { intros Hn Hx. assert (y = n - 1) as -> by (destruct (Z.eq_dec y (n - 1)); [done|]; exfalso; apply (Hlast (n - 1)); [lia|done]).
    split; [|done]. apply Z.eqb_eq. destruct (Z.eqb_spec (slot (n - 1)) (slot n)); [done|]. rewrite (ch_hashval _ _ _ _ Hc) by (unfold W; lia). done. }
  destruct (Z.eqb_spec (slot y) (slot n)) as [Heq|Hne]; [by left|].
  intros Hx%Z.eqb_eq. right. destruct (slot_latest y n ltac:(lia)) as (z & Hz & Hzw & Hzs).
  rewrite <-Hzs, (ch_hashval _ _ _ _ Hc z) in Hx by lia.
  assert (z = y) as -> by (destruct (Z.eq_dec z y); [done|]; exfalso; apply (Hlast z); [lia|done]).
  exists y. split_and!; try done; try lia. assert (y <> n - W); [|lia]. intros ->. apply Hne.
  unfold slot. replace (n - W) with (n + (-1) * W) by lia. apply Z.mod_add. unfold W. lia.
Qed.

Lemma push_position_spec ws n hv c v : chain_ok ws n hv c -> ws <= n -> 0 <= v < 65536 ->
  exists c', push_position c (slot n) v = Ret c' /\ chain_ok ws (n + 1) (extend hv n v) c' /\ val c' = v /\
    table_at (head c') v = slot n.
Proof.
  intros Hc Hn Hv. pose proof (slot_range n) as Hs. destruct (linked_spec ws n hv c v Hc Hv) as (linked & Hlk & Hlink & Hadj).
  pose proof (ch_head_length _ _ _ _ Hc) as L1. pose proof (ch_prev_length _ _ _ _ Hc) as L2. pose proof (ch_hashval_length _ _ _ _ Hc) as L3.
  assert (Z.of_nat (length (head c)) = 65536 /\ Z.of_nat (length (prev c)) = W /\ Z.of_nat (length (hashval c)) = W) as (Z1 & Z2 & Z3)
    by (rewrite L1, L2, L3; unfold W; lia).
  unfold push_position. rewrite (assign_ok (hashval c)), outcome_bind_ret, (index_ok (head c)), outcome_bind_ret, Hlk, outcome_bind_ret by lia.
  set (hd := table_at (head c) v) in *. rewrite (assign_ok (prev c)), outcome_bind_ret, (assign_ok (head c)), outcome_bind_ret by lia.
  eexists. split; [done|]. split; [|split; [done|cbn [head]; rewrite table_at_insert by lia; by rewrite Z.eqb_refl]].
  constructor; cbn [head prev hashval]; rewrite ?length_insert; try done.
  - intros x Hx Hw. rewrite table_at_insert by (pose proof (slot_range x); lia).
    destruct (Z.eq_dec x n) as [->|Hne]; [by rewrite Z.eqb_refl, extend_eq|].
    rewrite (proj2 (Z.eqb_neq _ _)), extend_ne by (done || apply slot_ne; lia). apply (ch_hashval _ _ _ _ Hc); lia.
  - intros u Hu. rewrite table_at_insert by lia. destruct (Z.eqb_spec u v) as [->|Hne].
    + right. exists n. rewrite extend_eq. split_and!; try done; try lia.
    + destruct (ch_head _ _ _ _ Hc u Hu) as [[E Hnone]|(y & Hy & E & Hhv & Hlast)].
      { left. split; [done|]. intros z Hz. destruct (Z.eq_dec z n) as [->|]; [by rewrite extend_eq|]. rewrite extend_ne by done. apply Hnone. lia. }
      right. exists y.
      rewrite extend_ne by lia. split_and!; try done; try lia. intros z Hz. destruct (Z.eq_dec z n) as [->|Hzn]; [by rewrite extend_eq|].
      rewrite extend_ne by done. apply Hlast. lia.
  - intros x Hx Hw. rewrite table_at_insert by (pose proof (slot_range x); lia). destruct (Z.eq_dec x n) as [->|Hne].
    + rewrite Z.eqb_refl. destruct linked; [|by left]. destruct (Hlink eq_refl) as [E|(y & Hy & Hyw & E & Hhv)]; rewrite E, u16_slot; [by left|].
      right. exists y. rewrite extend_eq, extend_ne by lia. split_and!; try done; lia.
    + rewrite (proj2 (Z.eqb_neq _ _)) by (apply slot_ne; lia).
      destruct (ch_prev _ _ _ _ Hc x ltac:(lia) ltac:(lia)) as [E|(y & Hy & Hyw & E & Hhv)]; [by left|]. right. exists y.
      rewrite !extend_ne by lia. split_and!; try done; lia.
  - intros x Hx Hw. rewrite table_at_insert by (pose proof (slot_range x); lia). destruct (Z.eq_dec x n) as [->|Hne].
    + rewrite Z.eqb_refl, extend_eq, extend_ne by lia. intros Ha. destruct (Hadj ltac:(lia) Ha) as [-> ->]. apply u16_slot.
    + rewrite (proj2 (Z.eqb_neq _ _)) by (apply slot_ne; lia). rewrite !extend_ne by lia. apply (ch_adjacent _ _ _ _ Hc); lia.
Qed.

(** ** Repetitions *)

Section array.
Context (array : list Z) (ws end_ : Z).
Context (Hbytes : Forall is_byte array) (Hws : 0 <= ws) (Hend : end_ <= Z.of_nat (length array)).

(** [a] more bytes after [x] are the one at [x]. *)
Definition repeats (x a : Z) : Prop :=
  0 <= a <= 65535 /\ x + a < end_ /\ forall k, 0 <= k <= a -> table_at array (x + k) = table_at array x.

Lemma repeats_zero x : x < end_ -> repeats x 0.
Proof. intros Hx. split; [lia|]. split; [lia|]. intros k Hk. f_equal. lia. Qed.

Lemma repeats_next x a : repeats x a -> 0 < a -> repeats (x + 1) (a - 1).
Proof.
  intros (Ha & He & Hk) H0. split; [lia|]. split; [lia|]. intros k Hkr.
  replace (x + 1 + k) with (x + (k + 1)) by lia. rewrite !Hk by lia. done.
Qed.

Lemma count_same_spec fuel x a : 0 <= x -> repeats x a -> exists b, count_same fuel array x end_ a = Ret b /\ repeats x b.
Proof.
  intros Hx. revert a. induction fuel as [|f IH]; intros a Ha; cbn [count_same]; [by exists a|].
  destruct (Z.ltb_spec (x + a + 1) end_) as [Hlt|]; [|by exists a]. destruct Ha as (Hr & He & Hk).
  rewrite !index_ok, !outcome_bind_ret by lia.
  destruct (Z.eqb_spec (table_at array x) (table_at array (x + a + 1))) as [E|]; cbn [andb]; [|by exists a].
  destruct (Z.ltb_spec a 65535) as [Ha|]; [|by exists a]. apply IH. split; [lia|]. split; [lia|]. intros k Hkr.
  destruct (Z.eq_dec k (a + 1)) as [->|Hne]; [rewrite E; f_equal; lia|apply Hk; lia].
Qed.

Record same_ok (n : Z) (t : list Z) : Prop := {
  sm_length : length t = Z.to_nat W;
  sm_repeats : forall x, ws <= x < n -> n - W <= x -> repeats x (table_at t (slot x));
  sm_initial : n = ws -> forall s, table_at t s = 0;
}.

Lemma same_before n t : same_ok n t -> ws <= n < end_ ->
  let before := table_at t (slot (n - 1)) in repeats n (if 1 <? before then before - 1 else 0).
Proof.
  intros Ht Hn before. destruct (Z.ltb_spec 1 before) as [Hb|]; [|apply repeats_zero; lia].
  destruct (Z.eq_dec n ws) as [->|Hne]; [unfold before in Hb; rewrite (sm_initial _ _ Ht) in Hb by done; lia|].
  pose proof (sm_repeats _ _ Ht (n - 1) ltac:(lia) ltac:(unfold W; lia)) as Hr. fold before in Hr.
  apply repeats_next in Hr; [|lia]. by replace (n - 1 + 1) with n in Hr by lia.
Qed.

(** ** The hash *)

(** The hash of three bytes. *)
Definition hash_of_three (x : Z) : Z := hash_step (hash_step (hash_step 0 (table_at array x)) (table_at array (x + 1))) (table_at array (x + 2)).

(** After the positions from [ws] on and before [n]. *)
Definition hash_inv (n : Z) (h : ZopfliHash) : Prop :=
  exists hv hv2, chain_ok ws n hv (hash1 h) /\ chain_ok ws n hv2 (hash2 h) /\ same_ok n (same h) /\
    0 <= val (hash1 h) < 32768 /\
    (ws < n -> val (hash1 h) = hv (n - 1) /\ table_at (head (hash1 h)) (val (hash1 h)) = slot (n - 1) /\
       val (hash2 h) = hv2 (n - 1)) /\
    (forall x, ws <= x < n -> x + 3 <= end_ -> hv x = hash_of_three x) /\
    (n + 2 <= end_ -> exists u, val (hash1 h) = hash_step (hash_step u (table_at array n)) (table_at array (n + 1))).

Definition hash_ok (n : Z) (h : ZopfliHash) : Prop := hashed array ws end_ n = Ret h /\ hash_inv n h.

(** Only the last three bytes count. *)
Lemma hash_step_bits v w c k : 0 <= k -> (forall i, 0 <= i < k -> Z.testbit v i = Z.testbit w i) ->
  forall i, 0 <= i < k + 5 -> Z.testbit (hash_step v c) i = Z.testbit (hash_step w c) i.
Proof.
  intros Hk H i Hi. unfold hash_step, HASH_SHIFT. rewrite !Z.land_spec, !Z.lxor_spec, !Z.shiftl_spec by lia. do 2 f_equal.
  destruct (Z.lt_ge_cases i 5); [by rewrite !Z.testbit_neg_r by lia|]. apply H. lia.
Qed.

Lemma hash_step_high v c i : 15 <= i -> Z.testbit (hash_step v c) i = false.
Proof. intros Hi. unfold hash_step. change HASH_MASK with (Z.ones 15). rewrite Z.land_spec, Z.ones_spec_high by lia. apply andb_false_r. Qed.

Lemma hash_three u a b c : hash_step (hash_step (hash_step u a) b) c = hash_step (hash_step (hash_step 0 a) b) c.
Proof.
  apply Z.bits_inj'. intros i Hi. destruct (Z.lt_ge_cases i 15); [|by rewrite !hash_step_high].
  apply (hash_step_bits _ _ _ 10); [lia| |lia]. apply (hash_step_bits _ _ _ 5); [lia|]. apply (hash_step_bits _ _ _ 0); lia.
Qed.

Lemma hash_step_range v c : 0 <= hash_step v c < 32768.
Proof. unfold hash_step. change HASH_MASK with (Z.ones 15). rewrite Z.land_ones by lia. by apply Z.mod_pos_bound. Qed.

Lemma lxor_15_bits a b : 0 <= a < 2 ^ 15 -> 0 <= b < 2 ^ 15 -> 0 <= Z.lxor a b < 2 ^ 15.
Proof.
  intros Ha Hb. assert (Z.lxor a b = Z.lxor a b mod 2 ^ 15) as ->; [|by apply Z.mod_pos_bound].
  apply Z.bits_inj'. intros i Hi. destruct (Z.lt_ge_cases i 15); [by rewrite Z.mod_pow2_bits_low|].
  rewrite Z.mod_pow2_bits_high, Z.lxor_spec by lia.
  rewrite <-(Z.mod_small a (2 ^ 15)), <-(Z.mod_small b (2 ^ 15)), !Z.mod_pow2_bits_high by lia. done.
Qed.

Lemma hash_value_2 s v : 0 <= v < 32768 -> 0 <= Z.lxor (Z.land (s - ZOPFLI_MIN_MATCH) 255) v < 65536.
Proof.
  intros Hv. assert (0 <= Z.land (s - ZOPFLI_MIN_MATCH) 255 < 256) as Ha
    by (change 255 with (Z.ones 8); rewrite Z.land_ones by lia; by apply Z.mod_pos_bound).
  pose proof (lxor_15_bits (Z.land (s - ZOPFLI_MIN_MATCH) 255) v). lia.
Qed.

Lemma UpdateHash_inv n h : hash_inv n h -> ws <= n < end_ ->
  exists h', ZopfliUpdateHash array n end_ h = Ret h' /\ hash_inv (n + 1) h'.
Proof.
  intros (hv & hv2 & H1 & H2 & H3 & H4 & _ & Hthree & Hroll) Hn. unfold ZopfliUpdateHash. rewrite !window_mask, u16_slot.
  assert (exists c, (if n + ZOPFLI_MIN_MATCH <=? end_ then index array (n + ZOPFLI_MIN_MATCH - 1) else Ret 0) = Ret c /\
    (n + 3 <= end_ -> c = table_at array (n + 2))) as (c & -> & Hc).
  { unfold ZOPFLI_MIN_MATCH. destruct (Z.leb_spec (n + 3) end_); [|eexists; split; [done|lia]]. rewrite index_ok by lia.
    eexists. split; [done|]. intros _. f_equal. lia. }
  rewrite outcome_bind_ret. cbv zeta. cbn [UpdateHashValue hash1 hash2 same].
  set (c1 := MkChain (head (hash1 h)) (prev (hash1 h)) (hashval (hash1 h)) (hash_step (val (hash1 h)) c)).
  assert (chain_ok ws n hv c1) as Hc1 by (destruct H1; by constructor).
  pose proof (hash_step_range (val (hash1 h)) c) as Hv.
  destruct (push_position_spec ws n hv c1 (val c1) Hc1 ltac:(lia) ltac:(cbn [val c1]; lia)) as (c1' & E1 & Hc1' & Ev1 & Eh1).
  rewrite E1, outcome_bind_ret. pose proof (sm_length _ _ H3) as Hl. pose proof (slot_range (n - 1)) as Hs1. pose proof (slot_range n) as Hs.
  assert (Z.of_nat (length (same h)) = W) as Hlz by (rewrite Hl; unfold W; lia).
  rewrite (index_ok (same h)), outcome_bind_ret by lia.
  destruct (count_same_spec (Z.to_nat 65536) n _ ltac:(lia) (same_before n (same h) H3 Hn)) as (a & Ea & Ha).
  rewrite Ea, outcome_bind_ret.
  assert (u16 a = a) as -> by (apply Z.mod_small; destruct Ha as [? _]; lia).
  rewrite (assign_ok (same h)), outcome_bind_ret by lia. rewrite (index_ok (<[_ := _]> _)), outcome_bind_ret by (rewrite length_insert; lia).
  rewrite table_at_insert, Z.eqb_refl by lia.
  assert (0 <= val c1' < 32768) as Hv1 by (rewrite Ev1; exact Hv).
  destruct (push_position_spec ws n hv2 (hash2 h) _ H2 ltac:(lia) (hash_value_2 a (val c1') Hv1)) as (c2' & E2 & Hc2' & Ev2 & _).
  rewrite E2, outcome_bind_ret. eexists. split; [done|].
  exists (extend hv n (val c1)), (extend hv2 n (Z.lxor (Z.land (a - ZOPFLI_MIN_MATCH) 255) (val c1'))). cbn [hash1 hash2 same].
  split; [done|]. split; [done|]. split; [|split; [done|]].
  - constructor; [by rewrite length_insert| |lia]. intros x Hx Hw. pose proof (slot_range x).
    rewrite table_at_insert by lia. destruct (Z.eq_dec x n) as [->|Hne]; [by rewrite Z.eqb_refl|].
    rewrite (proj2 (Z.eqb_neq _ _)) by (apply slot_ne; lia). apply (sm_repeats _ _ H3); lia.
  - split; [intros _; replace (n + 1 - 1) with n by lia; rewrite !extend_eq; split_and!; [done|by rewrite Ev1|done]|].
    rewrite Ev1. cbn [val c1]. split.
    + intros x Hx Hx3. destruct (Z.eq_dec x n) as [->|Hne]; [|rewrite extend_ne by done; apply Hthree; lia].
      rewrite extend_eq, Hc by done. destruct (Hroll ltac:(lia)) as [u ->]. apply hash_three.
    + intros Hn3. rewrite Hc by lia. destruct (Hroll ltac:(lia)) as [u ->]. exists (hash_step u (table_at array n)).
      by replace (n + 1 + 1) with (n + 2) by lia.
Qed.

Lemma ZopfliUpdateHash_spec n h : hash_ok n h -> ws <= n < end_ ->
  exists h', ZopfliUpdateHash array n end_ h = Ret h' /\ hash_ok (n + 1) h'.
Proof.
  intros [Hd Hi] Hn. destruct (UpdateHash_inv n h Hi Hn) as (h' & E & Hi'). exists h'. split; [done|]. split; [|done].
  unfold hashed in *. destruct (ZopfliWarmupHash _ _ _) as [h0| | |]; [|done..]. rewrite outcome_bind_ret in *.
  replace (n + 1 - ws) with (n - ws + 1) by lia. rewrite seqZ_app, for_each_app, Hd by lia. rewrite outcome_bind_ret.
  replace (ws + (n - ws)) with n by lia. change (seqZ n 1) with [n]. cbn [for_each]. by rewrite E.
Qed.

Lemma length_self_positions n i : length (self_positions n i) = n.
Proof. revert i. induction n as [|n IH]; intros i; [done|]. cbn [self_positions length]. by rewrite IH. Qed.

(** Two bytes are added to the initial state. *)
Lemma Warmup_inv a b : table_at array ws = a -> table_at array (ws + 1) = b -> hash_inv ws (UpdateHashValue (UpdateHashValue (ZopfliInitHash W) a) b).
Proof.
  intros Ha Hb.
  assert (chain_ok ws ws (fun _ => 0) (init_chain W)) as Hc.
  { constructor; cbn [head prev hashval init_chain]; rewrite ?length_replicate, ?length_self_positions; try done; try (intros; lia).
    intros v Hv. left. split; [|lia]. unfold table_at. rewrite (proj2 (Z.ltb_ge _ _)) by lia. rewrite lookup_replicate_2 by lia. done. }
  exists (fun _ => 0), (fun _ => 0). cbn [hash1 hash2 same ZopfliInitHash UpdateHashValue]. split; [by destruct Hc; constructor|]. split; [done|]. split.
  - constructor; [by rewrite length_replicate|lia|]. intros _ s. apply table_at_replicate.
  - cbn [val init_chain]. split; [apply hash_step_range|]. split; [lia|]. split; [lia|]. intros _. exists 0. by rewrite Ha, Hb.
Qed.

Lemma ZopfliWarmupHash_ok : ws + 1 < Z.of_nat (length array) ->
  exists h, ZopfliWarmupHash array ws (ZopfliInitHash W) = Ret h /\ hash_ok ws h.
Proof.
  intros Hl. assert (ZopfliWarmupHash array ws (ZopfliInitHash W) =
    Ret (UpdateHashValue (UpdateHashValue (ZopfliInitHash W) (table_at array ws)) (table_at array (ws + 1)))) as E
    by (unfold ZopfliWarmupHash; by rewrite !index_ok, !outcome_bind_ret by lia).
  eexists. split; [exact E|]. split; [|by apply Warmup_inv]. unfold hashed. change ZOPFLI_WINDOW_SIZE with W.
  by rewrite E, outcome_bind_ret, Z.sub_diag.
Qed.
End array.

(** The warm-up reads two bytes whatever the length of the data. *)
Lemma warmup_reads_past_end b : ZopfliWarmupHash [b] 0 (ZopfliInitHash W) = Undefined.
Proof. reflexivity. Qed.
