(* ===== verification/ZopfliCache.v ===== *)
(** * Zopfli: the cache of longest matches

    [cache.cc]: for each position of a block the length and the distance of its
    longest match, and the distances for the shorter lengths ([sublen]) as at
    most eight runs of three bytes.

    Proved here: what is put into the cache for a position is what is got back,
    up to the length that [ZopfliMaxCachedSublen] gives, and the entries of the
    other positions stay. *)

From S2P Require Import Prelude ZopfliUtil ZopfliBits.

Local Open Scope Z_scope.

Definition ZOPFLI_CACHE_LENGTH : Z := 8.

(** The arrays [length], [dist] and [sublen]. *)
Record ZopfliLongestMatchCache : Type := MkCache { lmc_length : list Z; lmc_dist : list Z; lmc_sublen : list Z }.

(** A length of 1 at distance 0 is an entry that is not filled in. *)
Definition ZopfliInitCache (blocksize : Z) : ZopfliLongestMatchCache :=
  MkCache (replicate (Z.to_nat blocksize) 1) (replicate (Z.to_nat blocksize) 0)
    (replicate (Z.to_nat (ZOPFLI_CACHE_LENGTH * blocksize * 3)) 0).

(** [cache = &lmc->sublen[ZOPFLI_CACHE_LENGTH * pos * 3]], as an index. *)
Definition cache_at (pos : Z) : Z := ZOPFLI_CACHE_LENGTH * pos * 3.

(** Its parameter [length] is not used. *)
Definition ZopfliMaxCachedSublen (lmc : ZopfliLongestMatchCache) (pos : Z) : outcome Z :=
  let t := lmc_sublen lmc in
  let cache := cache_at pos in
  c1 ← index t (cache + 1);
  none ← (if c1 =? 0 then c2 ← index t (cache + 2); Ret (c2 =? 0) else Ret false);
  if none : bool then Ret 0
  else c ← index t (cache + (ZOPFLI_CACHE_LENGTH - 1) * 3); Ret (c + 3).

(** The loop of [ZopfliSublenToCache] over [i], with [j], [bestlength] and the
    bytes of the cache. *)
Fixpoint store_runs (sublen : list Z) (length cache : Z) (i : list Z) (j bestlength : Z) (t : list Z) :
    outcome (Z * Z * list Z) :=
  match i with
  | [] => Ret (j, bestlength, t)
  | i :: is_ =>
      ends ← (if i =? length then Ret true else a ← index sublen i; b ← index sublen (i + 1); Ret (negb (a =? b)));
      if ends : bool then
        t ← assign t (cache + j * 3) (u8 (i - 3));
        d ← index sublen i;
        t ← assign t (cache + (j * 3 + 1)) (d mod 256);
        t ← assign t (cache + (j * 3 + 2)) (Z.shiftr d 8 mod 256);
        if ZOPFLI_CACHE_LENGTH <=? j + 1 then Ret (j + 1, i, t)
        else store_runs sublen length cache is_ (j + 1) i t
      else store_runs sublen length cache is_ j bestlength t
  end.

Definition ZopfliSublenToCache (sublen : list Z) (pos length : Z) (lmc : ZopfliLongestMatchCache) :
    outcome ZopfliLongestMatchCache :=
  let cache := cache_at pos in
  if length <? 3 then Ret lmc
  else
    '(j, bestlength, t) ← store_runs sublen length cache (seqZ 3 (length + 1 - 3)) 0 0 (lmc_sublen lmc);
    t ← (if j <? ZOPFLI_CACHE_LENGTH then
           if bestlength =? length then assign t (cache + (ZOPFLI_CACHE_LENGTH - 1) * 3) (u8 (bestlength - 3)) else Aborts
         else if bestlength <=? length then Ret t else Aborts);
    let lmc := MkCache (lmc_length lmc) (lmc_dist lmc) t in
    m ← ZopfliMaxCachedSublen lmc pos;
    if bestlength =? m then Ret lmc else Aborts.

(** The loop of [ZopfliCacheToSublen] over [j]. *)
Fixpoint load_runs (t : list Z) (cache maxlength : Z) (j : list Z) (prevlength : Z) (sublen : list Z) : outcome (list Z) :=
  match j with
  | [] => Ret sublen
  | j :: js =>
      c ← index t (cache + j * 3);
      let length := c + 3 in
      lo ← index t (cache + (j * 3 + 1));
      hi ← index t (cache + (j * 3 + 2));
      sublen ← for_each (seqZ prevlength (length + 1 - prevlength)) (fun i s => assign s i (u16 (lo + 256 * hi))) sublen;
      if length =? maxlength then Ret sublen
      else load_runs t cache maxlength js (length + 1) sublen
  end.

Definition ZopfliCacheToSublen (lmc : ZopfliLongestMatchCache) (pos length : Z) (sublen : list Z) : outcome (list Z) :=
  maxlength ← ZopfliMaxCachedSublen lmc pos;
  if length <? 3 then Ret sublen
  else load_runs (lmc_sublen lmc) (cache_at pos) maxlength (seqZ 0 ZOPFLI_CACHE_LENGTH) 0 sublen.

(** Distances 7, 7, 9, 9, 9 and 40000 for the lengths 3 to 8. *)
Definition sample_sublen : list Z := [0; 0; 0; 7; 7; 9; 9; 9; 40000].

Example cache_example :
  (lmc ← ZopfliSublenToCache sample_sublen 1 8 (ZopfliInitCache 2);
   s ← ZopfliCacheToSublen lmc 1 8 (replicate 9 1);
   m ← ZopfliMaxCachedSublen lmc 1;
   n ← ZopfliMaxCachedSublen lmc 0; Ret (s, m, n)) = Ret ([7; 7; 7; 7; 7; 9; 9; 9; 40000], 8, 0).
Proof. vm_compute. reflexivity. Qed.

(** ** Arrays *)

Lemma assign_range v s a n : 0 <= a -> 0 <= n -> a + n <= Z.of_nat (length s) ->
  exists s', for_each (seqZ a n) (fun i s => assign s i v) s = Ret s' /\ length s' = length s /\
    (forall i, a <= i < a + n -> table_at s' i = v) /\
    (forall i, 0 <= i -> i < a \/ a + n <= i -> table_at s' i = table_at s i).
Proof.
  intros Ha Hn Hl.
  destruct (for_each_seqZ (fun k s' => length s' = length s /\ (forall i, a <= i < k -> table_at s' i = v) /\
    (forall i, 0 <= i -> i < a \/ k <= i -> table_at s' i = table_at s i)) (fun i s => assign s i v) a n s) as (s' & E & H);
    [done|split_and!; [done|lia|done]| |by exists s'].
  intros k s1 Hk (H1 & H2 & H3). rewrite assign_ok by lia. eexists. split; [done|]. rewrite length_insert.
  split; [done|]. split; intros i Hi; [|intros Ho]; rewrite table_at_insert by lia; destruct (Z.eqb_spec i k) as [->|]; try lia.
  - apply H2. lia.
  - apply H3; lia.
Qed.

(** ** Runs *)

(** The lengths at which runs of [f] end, from the length [a] on. *)
Fixpoint runs (f : Z -> Z) (a : Z) (es : list Z) : Prop :=
  match es with
  | [] => True
  | l :: es' => a <= l <= 258 /\ (forall i, a <= i <= l -> f i = f l) /\ runs f (l + 1) es'
  end.

Definition next (a : Z) (es : list Z) : Z := match last es with Some l => l + 1 | None => a end.

Lemma next_cons a l es : next a (l :: es) = next (l + 1) es.
Proof.
  unfold next. destruct es as [|x es]; [done|]. change (last (l :: x :: es)) with (last (x :: es)).
  destruct (last (x :: es)) eqn:E; [done|]. by apply last_None in E.
Qed.

Lemma runs_snoc f a es l : runs f a es -> next a es <= l <= 258 -> (forall i, next a es <= i <= l -> f i = f l) -> runs f a (es ++ [l]).
Proof.
  revert a. induction es as [|x es IH]; intros a Hr Hl Hf; [by cbn|]. destruct Hr as (H1 & H2 & H3).
  rewrite next_cons in Hl, Hf. cbn [app runs]. split; [done|]. split; [done|]. by apply IH.
Qed.

Lemma runs_last f a es m : runs f a es -> last es = Some m -> a <= m <= 258.
Proof.
  revert a. induction es as [|x es IH]; intros a Hr Hl; [done|]. destruct Hr as (H1 & H2 & H3).
  destruct es as [|y es]; [injection Hl as <-; lia|]. specialize (IH _ H3 Hl). lia.
Qed.

(** The three bytes of the run [j], that ends at [l] and has the distance [d]. *)
Definition entry (t : list Z) (cache j l d : Z) : Prop :=
  table_at t (cache + j * 3) = l - 3 /\ table_at t (cache + (j * 3 + 1)) = d mod 256 /\
  table_at t (cache + (j * 3 + 2)) = Z.shiftr d 8 mod 256.

Lemma entry_dist d : 0 <= d < 65536 -> d mod 256 + 256 * (Z.shiftr d 8 mod 256) = d.
Proof.
  intros Hd. rewrite Z.shiftr_div_pow2 by lia. change (2 ^ 8) with 256. rewrite (Z.mod_small (d / 256)).
  - pose proof (Z.div_mod d 256). lia.
  - split; [apply Z.div_pos; lia|apply Z.div_lt_upper_bound; lia].
Qed.

Lemma load_runs_spec f t cache m es : 0 <= cache -> cache + 24 <= Z.of_nat (length t) ->
  forall j a prev sublen, (forall k l, es !! k = Some l -> entry t cache (j + Z.of_nat k) l (f l)) ->
  runs f a es -> last es = Some m -> (forall i, a <= i <= m -> 0 <= f i < 65536) -> 0 <= prev <= a ->
  length sublen = 259%nat -> 0 <= j -> j + Z.of_nat (length es) <= 8 ->
  exists s, load_runs t cache m (seqZ j (8 - j)) prev sublen = Ret s /\ length s = 259%nat /\
    forall i, 0 <= i -> a <= i <= m \/ i < prev -> table_at s i = if decide (i < prev) then table_at sublen i else f i.
Proof.
  intros Hc Ht. induction es as [|l es IH]; intros j a prev sublen He Hr Hm Hf Hp Hs Hj Hl; [done|].
  cbn [length] in Hl. rewrite seqZ_cons by lia. pose proof (runs_last _ _ _ _ Hr Hm) as Hbound. destruct Hr as (H1 & H2 & H3).
  destruct (He O l eq_refl) as (E1 & E2 & E3). rewrite Z.add_0_r in E1, E2, E3. cbn [load_runs].
  rewrite !(index_ok t), !outcome_bind_ret by lia. rewrite E1, E2, E3. replace (l - 3 + 3) with l by lia.
  assert (l <= m /\ (l = m -> es = [])) as [Hlm Heq].
  { destruct es as [|x es]; [injection Hm as <-; split; [lia|done]|]. pose proof (runs_last _ _ _ _ H3 Hm). split; [lia|]. intros ->. lia. }
  rewrite entry_dist by (apply Hf; lia). assert (u16 (f l) = f l) as -> by (apply Z.mod_small, Hf; lia).
  destruct (assign_range (f l) sublen prev (l + 1 - prev)) as (s1 & -> & L1 & S1 & S2); [lia..|]. rewrite outcome_bind_ret.
  assert (forall i, 0 <= i -> i <= l -> a <= i \/ i < prev -> table_at s1 i = if decide (i < prev) then table_at sublen i else f i) as Hs1.
  { intros i Hi Hil Ho. destruct (decide (i < prev)); [apply S2; lia|]. rewrite S1 by lia. symmetry. apply H2. lia. }
  destruct (Z.eqb_spec l m) as [->|Hne].
  { exists s1. split; [done|]. split; [lia|]. intros i Hi Ho. apply Hs1; lia. }
  replace (Z.pred (8 - j)) with (8 - Z.succ j) by lia.
  destruct es as [|x es]; [injection Hm as <-; lia|].
  destruct (IH (Z.succ j) (l + 1) (l + 1) s1) as (s & -> & L2 & S3); try lia.
  { intros k y Hk. replace (Z.succ j + Z.of_nat k) with (j + Z.of_nat (S k)) by lia. by apply He. }
  { exact H3. }
  { exact Hm. }
  { intros i Hi. apply Hf. lia. }
  exists s. split; [done|]. split; [done|]. intros i Hi Ho.
  rewrite S3 by lia. destruct (decide (i < l + 1)) as [Hlt|Hge].
  - apply Hs1; lia.
  - rewrite decide_False by lia. done.
Qed.

(** ** What an entry of the cache holds *)

(** The distances [f] of the lengths from 3 to [m]. *)
Definition cached (t : list Z) (cache : Z) (f : Z -> Z) (m : Z) : Prop :=
  exists es, Z.of_nat (length es) <= 8 /\ runs f 3 es /\ last es = Some m /\
    (forall k l, es !! k = Some l -> entry t cache (Z.of_nat k) l (f l)) /\
    table_at t (cache + (ZOPFLI_CACHE_LENGTH - 1) * 3) = m - 3 /\ f 3 <> 0 /\ forall i, 3 <= i <= m -> 0 <= f i < 65536.

(** [t'] differs from [t] in the bytes of one position only. *)
Definition frame (cache : Z) (t t' : list Z) : Prop :=
  length t' = length t /\ forall k, 0 <= k -> k < cache \/ cache + 24 <= k -> table_at t' k = table_at t k.

Lemma frame_trans cache t u v : frame cache t u -> frame cache u v -> frame cache t v.
Proof. intros [L1 H1] [L2 H2]. split; [lia|]. intros k Hk Ho. by rewrite H2, H1. Qed.

Lemma frame_assign cache t i v : 0 <= cache <= i -> i < cache + 24 -> i < Z.of_nat (length t) -> frame cache t (<[Z.to_nat i := v]> t).
Proof.
  intros Hi Hc Hl. split; [apply length_insert|]. intros k Hk Ho. rewrite table_at_insert by lia.
  by rewrite (proj2 (Z.eqb_neq _ _)) by lia.
Qed.

Lemma cached_frame c c' t t' f m : 0 <= c -> c + 24 <= c' \/ c' + 24 <= c -> frame c' t t' -> cached t c f m -> cached t' c f m.
Proof.
  unfold cached, ZOPFLI_CACHE_LENGTH. intros Hc Ho [_ Hf] (es & H1 & H2 & H3 & H4 & H5 & H6).
  exists es. split; [done|]. split; [done|]. split; [done|]. split; [|split; [rewrite Hf by lia; exact H5|exact H6]].
  intros k l Hk. destruct (H4 k l Hk) as (E1 & E2 & E3). apply lookup_lt_Some in Hk.
  split; [rewrite Hf by lia; exact E1|]. split; [rewrite Hf by lia; exact E2|rewrite Hf by lia; exact E3].
Qed.

Section store.
Context (sublen : list Z) (len cache : Z).
Local Abbreviation f := (table_at sublen).
Context (Hlen : 3 <= len <= 258) (Hsublen : len < Z.of_nat (length sublen)).
Context (Hf : forall i, 3 <= i <= len -> 0 <= f i < 65536) (Hcache : 0 <= cache).

Definition stored (es : list Z) (t : list Z) : Prop := forall k l, es !! k = Some l -> entry t cache (Z.of_nat k) l (f l).

(** The distance changes after [l]. *)
Definition changes (l : Z) : Prop := f l <> f (l + 1).

(** One run is written. *)
Lemma stored_snoc es t i : stored es t -> Z.of_nat (length es) < 8 -> cache + 24 <= Z.of_nat (length t) -> 3 <= i <= len ->
  let j := Z.of_nat (length es) in
  exists t', (forall A (rest : list Z -> outcome A),
      (t ← assign t (cache + j * 3) (u8 (i - 3));
       d ← index sublen i;
       t ← assign t (cache + (j * 3 + 1)) (d mod 256);
       t ← assign t (cache + (j * 3 + 2)) (Z.shiftr d 8 mod 256);
       rest t) = rest t') /\ stored (es ++ [i]) t' /\ frame cache t t'.
Proof.
  intros Hst Hj Ht Hi j. subst j. set (j := Z.of_nat (length es)) in *.
  assert (u8 (i - 3) = i - 3) as -> by (apply Z.mod_small; lia).
  eexists. split; [intros A rest|split].
  - rewrite (assign_ok t), outcome_bind_ret, (index_ok sublen), outcome_bind_ret by lia.
    rewrite (assign_ok (<[_ := _]> t)), outcome_bind_ret by (rewrite length_insert; lia).
    by rewrite (assign_ok (<[_ := _]> _)), outcome_bind_ret by (rewrite !length_insert; lia).
  - intros k l Hk. apply lookup_snoc_Some in Hk as [[Hlt Hk]|[-> <-]].
    + destruct (Hst k l Hk) as (E1 & E2 & E3). unfold entry. rewrite !table_at_insert by (rewrite ?length_insert; lia).
      rewrite !(proj2 (Z.eqb_neq _ _)) by lia. by split_and!.
    + unfold entry. rewrite !table_at_insert by (rewrite ?length_insert; lia). fold j. rewrite !Z.eqb_refl.
      rewrite !(proj2 (Z.eqb_neq _ _)) by lia. by split_and!.
  - do 2 (eapply frame_trans; [|apply frame_assign; rewrite ?length_insert; lia]). apply frame_assign; lia.
Qed.

Lemma store_runs_spec n : forall i es t, i + Z.of_nat n = len + 1 -> 3 <= i -> runs f 3 es -> stored es t ->
  Z.of_nat (length es) < 8 -> cache + 24 <= Z.of_nat (length t) -> next 3 es <= i ->
  (i <= len -> forall k, next 3 es <= k <= i -> f k = f i) -> (n = O -> last es = Some len) ->
  Forall (fun l => l = len \/ changes l) es ->
  exists es' m t', store_runs sublen len cache (seqZ i (Z.of_nat n)) (Z.of_nat (length es)) (default 0 (last es)) t
      = Ret (Z.of_nat (length es'), m, t') /\
    runs f 3 es' /\ stored es' t' /\ last es' = Some m /\ m <= len /\ Z.of_nat (length es') <= 8 /\
    (Z.of_nat (length es') < 8 -> m = len) /\ frame cache t t' /\ Forall (fun l => l = len \/ changes l) es'.
Proof.
  induction n as [|n IH]; intros i es t Hi Hi3 Hr Hst Hes Ht Hn Hc H0 Hch.
  { exists es, len, t. rewrite (H0 eq_refl). split; [done|]. split_and!; try done; try lia. }
  rewrite seqZ_cons by lia. replace (Z.pred (Z.of_nat (S n))) with (Z.of_nat n) by lia. cbn [store_runs].
  assert (exists ends : bool, (if i =? len then Ret true else a ← index sublen i; b ← index sublen (i + 1); Ret (negb (a =? b))) = Ret ends /\
    if ends then i = len \/ changes i else i < len /\ f i = f (i + 1)) as (ends & -> & Hends).
  { destruct (Z.eqb_spec i len); [exists true; by split; [|left]|]. rewrite !index_ok, !outcome_bind_ret by lia. eexists. split; [done|].
    destruct (Z.eqb_spec (f i) (f (i + 1))); [split; [lia|done]|by right]. }
  rewrite outcome_bind_ret. destruct ends; cbv beta iota.
  - destruct (stored_snoc es t i Hst Hes Ht ltac:(lia)) as (t' & E & Hst' & Hfr).
    assert (runs f 3 (es ++ [i])) as Hr' by (apply runs_snoc; [done|lia|apply Hc; lia]).
    assert (last (es ++ [i]) = Some i) as Hl by apply last_snoc.
    assert (Forall (fun l => l = len \/ changes l) (es ++ [i])) as Hch' by (apply Forall_app; split; [done|by apply Forall_singleton]).
    assert (Z.of_nat (length (es ++ [i])) = Z.of_nat (length es) + 1) as Hle by (rewrite length_app; cbn; lia).
    rewrite E. clear E. rewrite <-Hle. replace (ZOPFLI_CACHE_LENGTH <=? Z.of_nat (length (es ++ [i]))) with (8 <=? Z.of_nat (length (es ++ [i]))) by done.
    destruct (Z.leb_spec 8 (Z.of_nat (length (es ++ [i])))) as [Hfull|Hroom].
    + exists (es ++ [i]), i, t'. split_and!; try done; try lia.
    + assert (next 3 (es ++ [i]) = i + 1) as Hnext by (unfold next; by rewrite Hl).
      destruct (IH (i + 1) (es ++ [i]) t') as (es' & m & t2 & Eq & R1 & R2 & R3 & R4 & R5 & R6 & R7 & R8); try done; try lia.
      { destruct Hfr as [Hlt' _]. lia. }
      { intros _ k Hk. replace k with (i + 1) by lia. done. }
      { intros ->. rewrite Hl. f_equal. lia. }
      exists es', m, t2. rewrite Hl in Eq. split; [exact Eq|]. split_and!; try done. by eapply frame_trans.
  - destruct Hends as [Hlt Heq]. apply IH; try done; try lia.
    + intros _ k Hk. transitivity (f i); [|exact Heq]. destruct (Z.eq_dec k (i + 1)) as [->|]; [by rewrite Heq|]. apply Hc; lia.
Qed.
End store.

(** ** The operations *)

Lemma max_cached_spec lmc pos f m : 0 <= pos -> cache_at pos + 24 <= Z.of_nat (length (lmc_sublen lmc)) ->
  cached (lmc_sublen lmc) (cache_at pos) f m -> ZopfliMaxCachedSublen lmc pos = Ret m.
Proof.
  intros Hp Hl (es & H1 & H2 & H3 & H4 & H5 & H6 & H7). unfold ZopfliMaxCachedSublen, ZOPFLI_CACHE_LENGTH in *. cbv zeta.
  assert (0 <= cache_at pos) as Hc by (unfold cache_at, ZOPFLI_CACHE_LENGTH; lia).
  destruct es as [|l es]; [done|]. pose proof (runs_last _ _ _ _ H2 H3). destruct H2 as (R1 & R2 & R3).
  destruct (H4 O l eq_refl) as (_ & E2 & E3). rewrite <-(R2 3) in E2, E3 by lia.
  change (cache_at pos + (Z.of_nat 0 * 3 + 1)) with (cache_at pos + 1) in E2. change (cache_at pos + (Z.of_nat 0 * 3 + 2)) with (cache_at pos + 2) in E3.
  rewrite !index_ok, !outcome_bind_ret, E2, E3, H5 by lia. replace (m - 3 + 3) with m by lia.
  destruct (Z.eqb_spec (f 3 mod 256) 0) as [Hz|]; [|done]. rewrite outcome_bind_ret.
  destruct (Z.eqb_spec (Z.shiftr (f 3) 8 mod 256) 0) as [Hz'|]; [|done].
  exfalso. apply H6. rewrite <-(entry_dist (f 3)) by (apply H7; lia). lia.
Qed.

(** The length of the last run is put where [ZopfliMaxCachedSublen] looks for it. *)
Lemma last_run_stored sublen len cache es m t : 0 <= cache -> cache + 24 <= Z.of_nat (length t) ->
  (forall i, 3 <= i <= len -> 0 <= table_at sublen i < 65536) -> table_at sublen 3 <> 0 ->
  runs (table_at sublen) 3 es -> stored sublen cache es t -> last es = Some m -> m <= len ->
  Z.of_nat (length es) <= 8 -> (Z.of_nat (length es) < 8 -> m = len) ->
  exists t', (if Z.of_nat (length es) <? ZOPFLI_CACHE_LENGTH then
      if m =? len then assign t (cache + (ZOPFLI_CACHE_LENGTH - 1) * 3) (u8 (m - 3)) else Aborts
    else if m <=? len then Ret t else Aborts) = Ret t' /\ cached t' cache (table_at sublen) m /\ frame cache t t'.
Proof.
  unfold cached, ZOPFLI_CACHE_LENGTH. intros Hc Ht Hf H3 Hr Hst Hm Hle Hlen Hfull. pose proof (runs_last _ _ _ _ Hr Hm) as Hb.
  destruct (Z.ltb_spec (Z.of_nat (length es)) 8) as [Hlt|Hge].
  - pose proof (Hfull Hlt) as ->. rewrite Z.eqb_refl, assign_ok by lia. eexists. split; [done|]. split; [|apply frame_assign; lia].
    assert (u8 (len - 3) = len - 3) as -> by (apply Z.mod_small; lia).
    exists es. do 3 (split; [done|]). split; [|split; [|split; [done|exact Hf]]].
    + intros k l Hk. destruct (Hst k l Hk) as (E1 & E2 & E3). apply lookup_lt_Some in Hk. unfold entry.
      rewrite !table_at_insert by lia. rewrite !(proj2 (Z.eqb_neq _ _)) by lia. by split_and!.
    + rewrite table_at_insert by lia. by rewrite Z.eqb_refl.
  - rewrite (proj2 (Z.leb_le _ _)) by lia. exists t. split; [done|]. split; [|done].
    exists es. do 4 (split; [done|]). split; [|split; [done|intros i Hi; apply Hf; lia]].
    rewrite last_lookup in Hm. destruct (Hst _ _ Hm) as [E _]. replace (8 - 1) with (Z.of_nat (pred (length es))) by lia. exact E.
Qed.

Lemma runs_sorted f a es : runs f a es -> NoDup es /\ forall l, l ∈ es -> a <= l.
Proof.
  revert a. induction es as [|x es IH]; intros a Hr; [split; [apply NoDup_nil_2|by intros l ?%elem_of_nil]|].
  destruct Hr as (H1 & _ & H3). destruct (IH _ H3) as [H4 H5]. split.
  - apply NoDup_cons. split; [|done]. intros Hx%H5. lia.
  - intros l [->|Hl%H5]%elem_of_cons; lia.
Qed.

Lemma runs_le f a es m l : runs f a es -> last es = Some m -> l ∈ es -> l <= m.
Proof.
  revert a. induction es as [|x es IH]; intros a Hr Hm Hl; [by apply elem_of_nil in Hl|].
  pose proof (runs_last _ _ _ _ Hr Hm). destruct Hr as (H1 & _ & H3). destruct es as [|y es].
  - apply list_elem_of_singleton in Hl as ->. injection Hm as ->. done.
  - apply elem_of_cons in Hl as [->|Hl]; [|by apply (IH (x + 1))]. pose proof (runs_last _ _ _ _ H3 Hm). lia.
Qed.

(** The lengths from 3 to [m] after which the distance changes. *)
Definition changes_upto (sublen : list Z) (m : Z) : nat :=
  length (filter (fun i => table_at sublen i <> table_at sublen (i + 1)) (seqZ 3 (m - 2))).

Lemma runs_changes sublen len es m : runs (table_at sublen) 3 es -> last es = Some m -> m < len ->
  Forall (fun l => l = len \/ changes sublen l) es -> (length es <= changes_upto sublen m)%nat.
Proof.
  intros Hr Hm Hlt Hch. destruct (runs_sorted _ _ _ Hr) as [Hnd Hge]. apply submseteq_length, NoDup_submseteq; [done|].
  intros l Hl. pose proof (Hge l Hl). pose proof (runs_le _ _ _ _ _ Hr Hm Hl). apply list_elem_of_filter. split.
  - rewrite Forall_forall in Hch. destruct (Hch l Hl) as [->|]; [lia|done].
  - apply elem_of_seqZ. lia.
Qed.

Lemma SublenToCache_spec sublen pos len lmc : 3 <= len <= 258 -> len < Z.of_nat (length sublen) ->
  (forall i, 3 <= i <= len -> 0 <= table_at sublen i < 65536) -> table_at sublen 3 <> 0 ->
  0 <= pos -> cache_at pos + 24 <= Z.of_nat (length (lmc_sublen lmc)) ->
  exists t m, ZopfliSublenToCache sublen pos len lmc = Ret (MkCache (lmc_length lmc) (lmc_dist lmc) t) /\
    cached t (cache_at pos) (table_at sublen) m /\ 3 <= m <= len /\ frame (cache_at pos) (lmc_sublen lmc) t /\
    (m < len -> (8 <= changes_upto sublen m)%nat).
Proof.
  intros Hlen Hs Hf H3 Hp Hl. assert (0 <= cache_at pos) as Hc by (unfold cache_at, ZOPFLI_CACHE_LENGTH; lia).
  unfold ZopfliSublenToCache. rewrite (proj2 (Z.ltb_ge _ _)) by lia.
  destruct (store_runs_spec sublen len (cache_at pos) Hlen Hs Hc (Z.to_nat (len + 1 - 3)) 3 [] (lmc_sublen lmc)) as
    (es & m & t & E & R1 & R2 & R3 & R4 & R5 & R6 & R7 & R8); cbn; try done; try lia.
  { intros _ k Hk. by replace k with 3 by lia. }
  rewrite Z2Nat.id in E by lia. cbn [length last default] in E. change (Z.of_nat 0) with 0 in E. rewrite E, outcome_bind_ret. clear E.
  pose proof (runs_last _ _ _ _ R1 R3) as Hm. pose proof R7 as [Hlt _].
  destruct (last_run_stored sublen len (cache_at pos) es m t) as (t' & -> & Hcd & Hfr); try done; try lia.
  pose proof Hfr as [Hlt' _]. rewrite outcome_bind_ret. cbv zeta.
  rewrite (max_cached_spec _ _ (table_at sublen) m); cbn [lmc_sublen]; [|done|lia|done]. rewrite outcome_bind_ret, Z.eqb_refl.
  exists t', m. split; [done|]. split; [done|]. split; [lia|]. split; [by eapply frame_trans|].
  intros Hm'. pose proof (runs_changes _ _ _ _ R1 R3 Hm' R8). lia.
Qed.

Lemma CacheToSublen_spec lmc pos len sublen f m : 0 <= pos -> cache_at pos + 24 <= Z.of_nat (length (lmc_sublen lmc)) ->
  cached (lmc_sublen lmc) (cache_at pos) f m -> 3 <= len -> length sublen = 259%nat ->
  exists s, ZopfliCacheToSublen lmc pos len sublen = Ret s /\ length s = 259%nat /\
    forall i, 3 <= i <= m -> table_at s i = f i.
Proof.
  intros Hp Hl Hcd Hlen Hs. assert (0 <= cache_at pos) as Hc by (unfold cache_at, ZOPFLI_CACHE_LENGTH; lia).
  unfold ZopfliCacheToSublen. rewrite (max_cached_spec _ _ f m) by done. rewrite outcome_bind_ret, (proj2 (Z.ltb_ge _ _)) by lia.
  destruct Hcd as (es & H1 & H2 & H3 & H4 & H5 & H6 & H7).
  destruct (load_runs_spec f (lmc_sublen lmc) (cache_at pos) m es Hc Hl 0 3 0 sublen) as (s & E & Hlen' & Hs'); try done; try lia.
  exists s. split; [exact E|]. split; [done|]. intros i Hi. rewrite Hs' by lia. by rewrite decide_False by lia.
Qed.

(** ** Properties *)

(** C28. The distances put into the cache for a position are those got back: with
    [ZopfliSublenToCache], which fails no assertion, then [ZopfliCacheToSublen],
    all of them up to the length [m] of [ZopfliMaxCachedSublen], which is the
    whole length unless the distances change eight times before it; the bytes of
    the other positions stay. *)
Theorem sublen_cache_roundtrip sublen pos len lmc out
    (Hlen : 3 <= len <= 258) (Hsublen : len < Z.of_nat (length sublen))
    (Hdists : forall i, 3 <= i <= len -> 0 <= table_at sublen i < 65536) (Hfirst : table_at sublen 3 <> 0)
    (Hpos : 0 <= pos) (Hlmc : ZOPFLI_CACHE_LENGTH * (pos + 1) * 3 <= Z.of_nat (length (lmc_sublen lmc))) (Hout : length out = 259%nat) :
  exists lmc' m s, ZopfliSublenToCache sublen pos len lmc = Ret lmc' /\ ZopfliMaxCachedSublen lmc' pos = Ret m /\
    ZopfliCacheToSublen lmc' pos len out = Ret s /\ (forall i, 3 <= i <= m -> table_at s i = table_at sublen i) /\
    3 <= m <= len /\ (m < len -> (8 <= changes_upto sublen m)%nat) /\
    (forall k, 0 <= k -> k < cache_at pos \/ cache_at (pos + 1) <= k -> table_at (lmc_sublen lmc') k = table_at (lmc_sublen lmc) k).
Proof.
  assert (cache_at pos + 24 = cache_at (pos + 1)) as Hn by (unfold cache_at, ZOPFLI_CACHE_LENGTH; lia).
  assert (cache_at pos + 24 <= Z.of_nat (length (lmc_sublen lmc))) as Hl by (unfold cache_at, ZOPFLI_CACHE_LENGTH in *; lia).
  destruct (SublenToCache_spec sublen pos len lmc) as (t & m & E & Hc & Hm & [Hlt Hfr] & Hch); try done.
  rewrite <-Hlt in Hl. eexists _, m. destruct (CacheToSublen_spec (MkCache (lmc_length lmc) (lmc_dist lmc) t) pos len out (table_at sublen) m) as (s & Es & _ & Hs);
    try done; try lia.
  exists s. split; [done|]. split; [by apply (max_cached_spec _ _ (table_at sublen))|]. split_and!; try done; try lia.
  cbn [lmc_sublen]. intros k Hk Ho. apply Hfr; lia.
Qed.

Lemma sublen_cache_roundtrip_witness :
  exists lmc' m s, ZopfliSublenToCache sample_sublen 1 8 (ZopfliInitCache 2) = Ret lmc' /\
    ZopfliMaxCachedSublen lmc' 1 = Ret m /\ ZopfliCacheToSublen lmc' 1 8 (replicate 259 1) = Ret s /\
    (forall i, 3 <= i <= m -> table_at s i = table_at sample_sublen i) /\ 3 <= m <= 8 /\
    (m < 8 -> (8 <= changes_upto sample_sublen m)%nat) /\
    (forall k, 0 <= k -> k < cache_at 1 \/ cache_at (1 + 1) <= k ->
      table_at (lmc_sublen lmc') k = table_at (lmc_sublen (ZopfliInitCache 2)) k).
Proof.
  apply sublen_cache_roundtrip; try (vm_compute; congruence); try done.
  intros i Hi. assert (i = 3 \/ i = 4 \/ i = 5 \/ i = 6 \/ i = 7 \/ i = 8) as Hc by lia.
  repeat (destruct Hc as [->|Hc]; [vm_compute; split; [discriminate|reflexivity]|]). subst i. vm_compute. split; [discriminate|reflexivity].
Defined.
