(* ===== verification/ZopfliMatch.v ===== *)
(** * Zopfli: longest matches

    The part of [lz77.cc] that finds a match: [GetMatch], the calls of the
    cache, and [ZopfliFindLongestMatch] along the chains of the hash. Pointers
    into the data are indices; the search is that of a machine where [size_t] has
    64 bits, so that [GetMatch] compares 8 bytes at once.

    Proved here: on the state that the hash and the cache are in, no assertion
    fails, no read is out of bounds, and the bytes of the match are the same. *)

From S2P Require Import Prelude ZopfliUtil ZopfliBits ZopfliHash ZopfliCache.

Local Open Scope Z_scope.

(** ** Comparing *)

(** [n] bytes read as one integer. *)
Definition word (n : Z) (array : list Z) (i : Z) : outcome (list Z) :=
  if (0 <=? i) && (i + n <=? Z.of_nat (length array)) then Ret (take (Z.to_nat n) (drop (Z.to_nat i) array)) else Undefined.

(** The loops that compare [n] bytes as one integer. *)
Fixpoint match_words (fuel : nat) (n : Z) (array : list Z) (scan match_ safe_end : Z) : outcome (Z * Z) :=
  match fuel with
  | O => Undefined
  | S f =>
      if scan <? safe_end then
        a ← word n array scan;
        b ← word n array match_;
        if bool_decide (a = b) then match_words f n array (scan + n) (match_ + n) safe_end else Ret (scan, match_)
      else Ret (scan, match_)
  end.

(** [*scan == *match && *++scan == *++match && ...], with [k] increments. *)
Fixpoint compare_bytes (k : nat) (array : list Z) (scan match_ : Z) : outcome (Z * Z * bool) :=
  a ← index array scan;
  b ← index array match_;
  if a =? b then
    match k with
    | O => Ret (scan, match_, true)
    | S k' => compare_bytes k' array (scan + 1) (match_ + 1)
    end
  else Ret (scan, match_, false).

(** The loop that compares eight times for each test of the end. *)
Fixpoint match_eight (fuel : nat) (array : list Z) (scan match_ safe_end : Z) : outcome (Z * Z) :=
  match fuel with
  | O => Undefined
  | S f =>
      if scan <? safe_end then
        '(scan, match_, equal) ← compare_bytes 7 array scan match_;
        if equal : bool then match_eight f array (scan + 1) (match_ + 1) safe_end else Ret (scan, match_)
      else Ret (scan, match_)
  end.

Fixpoint match_bytes (fuel : nat) (array : list Z) (scan match_ end_ : Z) : outcome Z :=
  match fuel with
  | O => Undefined
  | S f =>
      if scan =? end_ then Ret scan
      else
        a ← index array scan;
        b ← index array match_;
        if a =? b then match_bytes f array (scan + 1) (match_ + 1) end_ else Ret scan
  end.

(** For the sizes of [size_t] and of [unsigned int]. *)
Definition GetMatch_for (sizeof_size_t sizeof_unsigned : Z) (array : list Z) (scan match_ end_ safe_end : Z) : outcome Z :=
  let fuel := S (Z.to_nat (end_ - scan)) in
  '(scan, match_) ← (if sizeof_size_t =? 8 then match_words fuel 8 array scan match_ safe_end
                     else if sizeof_unsigned =? 4 then match_words fuel 4 array scan match_ safe_end
                     else match_eight fuel array scan match_ safe_end);
  match_bytes fuel array scan match_ end_.

Definition GetMatch : list Z -> Z -> Z -> Z -> Z -> outcome Z := GetMatch_for 8 4.

(** ** The state of a block *)

(** [options] and [blockend] are not used by the code of this file. *)
Record ZopfliBlockState : Type := MkState { lmc : option ZopfliLongestMatchCache; blockstart : Z }.

(** What the cache answers: a match, or a limit for the search. *)
Inductive cached_match : Type :=
| FromCache (sublen : option (list Z)) (distance length : Z)
| NotCached (limit : Z).

(** [length[lmcpos] == 0 || dist[lmcpos] != 0] *)
Definition cache_available (c : ZopfliLongestMatchCache) (lmcpos : Z) : outcome bool :=
  len ← index (lmc_length c) lmcpos;
  if len =? 0 then Ret true else d ← index (lmc_dist c) lmcpos; Ret (negb (d =? 0)).

Definition TryGetFromLongestMatchCache (s : ZopfliBlockState) (pos limit : Z) (sublen : option (list Z)) : outcome cached_match :=
  match lmc s with
  | None => Ret (NotCached limit)
  | Some c =>
      let lmcpos := u64 (pos - blockstart s) in
      available ← cache_available c lmcpos;
      len ← index (lmc_length c) lmcpos;
      limit_ok ← (if (available : bool) then
          if (limit =? ZOPFLI_MAX_MATCH) || (len <=? limit) then Ret true
          else match sublen with None => Ret false | Some _ => m ← ZopfliMaxCachedSublen c lmcpos; Ret (limit <=? m) end
        else Ret false);
      if limit_ok && available then
        usable ← match sublen with None => Ret true | Some _ => m ← ZopfliMaxCachedSublen c lmcpos; Ret (len <=? m) end;
        if usable : bool then
          let length := if limit <? len then u16 limit else len in
          match sublen with
          | Some sl =>
              sl ← ZopfliCacheToSublen c lmcpos length sl;
              distance ← index sl length;
              _ ← (if (limit =? ZOPFLI_MAX_MATCH) && (ZOPFLI_MIN_MATCH <=? length)
                   then d ← index (lmc_dist c) lmcpos; assertion (distance =? d) else Ret tt);
              Ret (FromCache (Some sl) distance length)
          | None => d ← index (lmc_dist c) lmcpos; Ret (FromCache None d length)
          end
        else Ret (NotCached len)
      else Ret (NotCached limit)
  end.

Definition StoreInLongestMatchCache (s : ZopfliBlockState) (pos limit : Z) (sublen : option (list Z)) (distance length : Z) :
    outcome ZopfliBlockState :=
  match lmc s with
  | None => Ret s
  | Some c =>
      let lmcpos := u64 (pos - blockstart s) in
      available ← cache_available c lmcpos;
      match sublen with
      | None => Ret s
      | Some sl =>
          if (limit =? ZOPFLI_MAX_MATCH) && negb available then
            l0 ← index (lmc_length c) lmcpos;
            d0 ← index (lmc_dist c) lmcpos;
            _ ← assertion ((l0 =? 1) && (d0 =? 0));
            dist' ← assign (lmc_dist c) lmcpos (if length <? ZOPFLI_MIN_MATCH then 0 else distance);
            length' ← assign (lmc_length c) lmcpos (if length <? ZOPFLI_MIN_MATCH then 0 else length);
            l1 ← index length' lmcpos;
            d1 ← index dist' lmcpos;
            _ ← assertion (negb ((l1 =? 1) && (d1 =? 0)));
            c' ← ZopfliSublenToCache sl lmcpos length (MkCache length' dist' (lmc_sublen c));
            Ret (MkState (Some c') (blockstart s))
          else Ret s
      end
  end.

(** ** The search *)

(** The local variables of the loop; [second] tells that [hhead], [hprev],
    [hhashval] and [hval] are those of the second hash. *)
Record search : Type := MkSearch {
  pp : Z; p : Z; dist : Z; second : bool;
  bestdist : Z; bestlength : Z; found_sublen : option (list Z)
}.

Definition hash_of (h : ZopfliHash) (second : bool) : hash_chain := if second then hash2 h else hash1 h.

(** The distance from [pp] back to [p] in the window. *)
Definition hop (pp p : Z) : Z := if p <? pp then pp - p else (ZOPFLI_WINDOW_SIZE - p) + pp.

Section find.
Context (h : ZopfliHash) (array : list Z) (pos size limit : Z).

(** Bytes that [same] tells to be equal. *)
Definition shortcut (dist : Z) : outcome Z :=
  same0 ← index (same h) (Z.land pos ZOPFLI_WINDOW_MASK);
  if 2 <? same0 then
    a ← index array pos;
    b ← index array (pos - dist);
    if a =? b then
      same1 ← index (same h) (Z.land (pos - dist) ZOPFLI_WINDOW_MASK);
      let same := if same0 <? same1 then same0 else same1 in
      Ret (if limit <? same then u16 limit else same)
    else Ret 0
  else Ret 0.

(** [currentlength] *)
Definition match_length (dist bestlength : Z) : outcome Z :=
  compare ← (if size <=? pos + bestlength then Ret true
             else a ← index array (pos + bestlength); b ← index array (pos - dist + bestlength); Ret (a =? b));
  if compare : bool then
    skip ← shortcut dist;
    scan ← GetMatch array (pos + skip) (pos - dist + skip) (pos + limit) (pos + limit - 8);
    Ret (u16 (scan - pos))
  else Ret 0.

(** The first part of the body of the loop, and whether it leaves the loop. *)
Definition try_distance (t : search) : outcome (search * bool) :=
  if 0 <? dist t then
    _ ← assertion (pos <? size);
    _ ← assertion (dist t <=? pos);
    currentlength ← match_length (dist t) (bestlength t);
    if bestlength t <? currentlength then
      sublen ← match found_sublen t with
               | None => Ret None
               | Some sl => sl ← for_each (seqZ (bestlength t + 1) (currentlength - bestlength t)) (fun j s => assign s j (u16 (dist t))) sl;
                            Ret (Some sl)
               end;
      Ret (MkSearch (pp t) (p t) (dist t) (second t) (u16 (dist t)) currentlength sublen, limit <=? currentlength)
    else Ret (t, false)
  else Ret (t, false).

(** Whether to switch to the second hash. *)
Definition switches (t : search) : outcome bool :=
  if second t then Ret false
  else
    same0 ← index (same h) (u16 (Z.land pos ZOPFLI_WINDOW_MASK));
    if same0 <=? bestlength t then hv ← index (hashval (hash2 h)) (p t); Ret (val (hash2 h) =? hv) else Ret false.

(** The rest of the body, and whether it leaves the loop: the previous position. *)
Definition next_link (t : search) : outcome (search * bool) :=
  switch ← switches t;
  let second' := second t || switch in
  prev_p ← index (prev (hash_of h second')) (p t);
  if prev_p =? p t then Ret (MkSearch (p t) prev_p (dist t) second' (bestdist t) (bestlength t) (found_sublen t), true)
  else Ret (MkSearch (p t) prev_p (u32 (dist t + hop (p t) prev_p)) second' (bestdist t) (bestlength t) (found_sublen t), false).

(** The loop; [chain_counter] counts its turns down. *)
Fixpoint search_chain (chain_counter : nat) (t : search) : outcome search :=
  match chain_counter with
  | O => Ret t
  | S chain_counter' =>
      if dist t <? ZOPFLI_WINDOW_SIZE then
        let c := hash_of h (second t) in
        _ ← assertion (p t <? ZOPFLI_WINDOW_SIZE);
        prev_pp ← index (prev c) (pp t);
        _ ← assertion (p t =? prev_pp);
        hv ← index (hashval c) (p t);
        _ ← assertion (hv =? val c);
        '(t, leave) ← try_distance t;
        if leave : bool then Ret t
        else
          '(t, stop) ← next_link t;
          if stop : bool then Ret t else search_chain chain_counter' t
      else Ret t
  end.
End find.

Definition ZOPFLI_MAX_CHAIN_HITS : nat := Z.to_nat 8192.

(** The state, [sublen], [*distance] and [*length]. *)
Definition ZopfliFindLongestMatch (s : ZopfliBlockState) (h : ZopfliHash) (array : list Z) (pos size limit : Z)
    (sublen : option (list Z)) : outcome (ZopfliBlockState * option (list Z) * Z * Z) :=
  r ← TryGetFromLongestMatchCache s pos limit sublen;
  match r with
  | FromCache sublen distance length => _ ← assertion (pos + length <=? size); Ret (s, sublen, distance, length)
  | NotCached limit =>
      _ ← assertion (limit <=? ZOPFLI_MAX_MATCH);
      _ ← assertion (ZOPFLI_MIN_MATCH <=? limit);
      _ ← assertion (pos <? size);
      if size - pos <? ZOPFLI_MIN_MATCH then Ret (s, sublen, 0, 0)
      else
        let limit := if size <? pos + limit then size - pos else limit in
        let hval := val (hash1 h) in
        _ ← assertion (hval <? 65536);
        hd ← index (head (hash1 h)) hval;
        let pp := u16 hd in
        p ← index (prev (hash1 h)) pp;
        _ ← assertion (pp =? u16 (Z.land pos ZOPFLI_WINDOW_MASK));
        t ← search_chain h array pos size limit ZOPFLI_MAX_CHAIN_HITS (MkSearch pp p (hop pp p) false 0 1 sublen);
        s ← StoreInLongestMatchCache s pos limit (found_sublen t) (bestdist t) (bestlength t);
        _ ← assertion (bestlength t <=? limit);
        _ ← assertion (pos + bestlength t <=? size);
        Ret (s, found_sublen t, bestdist t, bestlength t)
  end.

Definition banana : list Z := [98; 97; 110; 97; 110; 97; 110; 97; 115].

Example find_example :
  (h ← hashed banana 0 9 4;
   '(_, _, d, l) ← ZopfliFindLongestMatch (MkState (Some (ZopfliInitCache 9)) 0) h banana 3 9 258 (Some (replicate 259 0));
   Ret (d, l)) = Ret (2, 5).
Proof. vm_compute. reflexivity. Qed.

(** ** Matches *)

Section array.
Context (array : list Z) (ws end_ : Z).
Context (Hbytes : Forall is_byte array) (Hws : 0 <= ws) (Hend : end_ <= Z.of_nat (length array)) (Hsize : end_ < 2 ^ 63).

(** The [l] bytes at [x] are those at the distance [d] before. *)
Definition match_at (x d l : Z) : Prop :=
  1 <= d < ZOPFLI_WINDOW_SIZE /\ d <= x /\ 0 <= l /\ x + l <= end_ /\
  forall k, 0 <= k < l -> table_at array (x + k) = table_at array (x - d + k).

Lemma match_at_shorter x d l m : match_at x d l -> 0 <= m <= l -> match_at x d m.
Proof. intros (H1 & H2 & H3 & H4 & H5) Hm. split_and!; try done; try lia. intros k Hk. apply H5. lia. Qed.

(** The [n] bytes at [a] and at [b] are the same. *)
Definition same_bytes (a b n : Z) : Prop := forall k, 0 <= k < n -> table_at array (a + k) = table_at array (b + k).

Lemma same_bytes_app a b n m : 0 <= n -> same_bytes a b n -> same_bytes (a + n) (b + n) m -> same_bytes a b (n + m).
Proof.
  intros Hn H1 H2 k Hk. destruct (Z.lt_ge_cases k n); [by apply H1; lia|].
  specialize (H2 (k - n) ltac:(lia)). replace (a + n + (k - n)) with (a + k) in H2 by lia.
  by replace (b + n + (k - n)) with (b + k) in H2 by lia.
Qed.

Lemma word_ok w i : 0 <= i -> i + w <= Z.of_nat (length array) -> word w array i = Ret (take (Z.to_nat w) (drop (Z.to_nat i) array)).
Proof. intros H1 H2. unfold word. by rewrite (proj2 (Z.leb_le _ _)), (proj2 (Z.leb_le _ _)) by lia. Qed.

Lemma equal_words w a b : 0 <= a -> 0 <= b ->
  take (Z.to_nat w) (drop (Z.to_nat a) array) = take (Z.to_nat w) (drop (Z.to_nat b) array) -> same_bytes a b w.
Proof.
  intros Ha Hb E k Hk. unfold table_at. rewrite !(proj2 (Z.ltb_ge _ _)) by lia. f_equal.
  pose proof (f_equal (fun l => l !! Z.to_nat k) E) as El. cbv beta in El.
  rewrite !lookup_take_lt, !lookup_drop in El by lia.
  rewrite <-!Z2Nat.inj_add in El by lia. exact El.
Qed.

Lemma same_bytes_0 a b : same_bytes a b 0.
Proof. intros k Hk. lia. Qed.
Local Hint Resolve same_bytes_0 : core.

(** What a loop of comparisons leaves: as many bytes are the same as it went on. *)
Definition compared (scan m e : Z) (r : outcome (Z * Z)) : Prop :=
  exists n, r = Ret (scan + n, m + n) /\ 0 <= n /\ same_bytes scan m n /\ scan + n <= e.

Lemma compared_stop scan m e : scan <= e -> compared scan m e (Ret (scan, m)).
Proof. intros H. exists 0. rewrite !Z.add_0_r. by split_and!. Qed.

Lemma compared_app n scan m e r : 0 <= n -> same_bytes scan m n -> compared (scan + n) (m + n) e r -> compared scan m e r.
Proof.
  intros Hn Hb (k & -> & Hk & Hbk & Hle). exists (n + k). rewrite !Z.add_assoc. split_and!; try done; try lia. by apply same_bytes_app.
Qed.

Lemma match_words_spec w fuel scan m e : 1 <= w <= 8 -> 0 <= m <= scan -> scan <= e -> e <= end_ -> e - scan < Z.of_nat fuel ->
  compared scan m e (match_words fuel w array scan m (e - 8)).
Proof.
  intros Hw. revert scan m. induction fuel as [|f IH]; intros scan m Hm Hs He Hf; cbn [match_words]; [lia|].
  destruct (Z.ltb_spec scan (e - 8)) as [Hlt|]; [|by apply compared_stop].
  rewrite !word_ok, !outcome_bind_ret by lia. case_bool_decide as E; [|by apply compared_stop].
  apply (compared_app w); [lia|apply equal_words; (lia || done)|]. apply IH; lia.
Qed.

Lemma same_bytes_1 a b : table_at array a = table_at array b -> same_bytes a b 1.
Proof. intros E k Hk. replace k with 0 by lia. by rewrite !Z.add_0_r. Qed.

Lemma compare_bytes_spec k scan m : 0 <= m <= scan -> scan + Z.of_nat k < end_ ->
  exists n equal, compare_bytes k array scan m = Ret (scan + n, m + n, equal) /\ 0 <= n <= Z.of_nat k /\
    same_bytes scan m (if equal : bool then n + 1 else n).
Proof.
  revert scan m. induction k as [|k IH]; intros scan m Hm Hk; cbn [compare_bytes]; rewrite !index_ok, !outcome_bind_ret by lia;
    (destruct (Z.eqb_spec (table_at array scan) (table_at array m)) as [E|]; [|exists 0, false; rewrite !Z.add_0_r; by split_and!]).
  - exists 0, true. rewrite !Z.add_0_r. split_and!; try done. by apply same_bytes_1.
  - destruct (IH (scan + 1) (m + 1)) as (n & equal & -> & Hn & Hb); [lia..|]. exists (1 + n), equal. rewrite !Z.add_assoc.
    split_and!; try done; try lia. destruct equal; [rewrite <-Z.add_assoc|]; apply same_bytes_app; try done; by apply same_bytes_1.
Qed.

Lemma match_eight_spec fuel scan m e : 0 <= m <= scan -> scan <= e -> e <= end_ -> e - scan < Z.of_nat fuel ->
  compared scan m e (match_eight fuel array scan m (e - 8)).
Proof.
  revert scan m. induction fuel as [|f IH]; intros scan m Hm Hs He Hf; cbn [match_eight]; [lia|].
  destruct (Z.ltb_spec scan (e - 8)) as [Hlt|]; [|by apply compared_stop].
  destruct (compare_bytes_spec 7 scan m Hm ltac:(lia)) as (n & equal & -> & Hn & Hb). rewrite outcome_bind_ret. destruct equal.
  - rewrite <-!Z.add_assoc. apply (compared_app (n + 1)); [lia|done|]. apply IH; lia.
  - exists n. split_and!; try done; lia.
Qed.

(** The remaining bytes are compared up to the first difference. *)
Lemma match_bytes_spec fuel scan m e : 0 <= m <= scan -> scan <= e -> e <= end_ -> e - scan < Z.of_nat fuel ->
  exists n, match_bytes fuel array scan m e = Ret (scan + n) /\ 0 <= n /\ same_bytes scan m n /\ scan + n <= e /\
    (scan + n < e -> table_at array (scan + n) <> table_at array (m + n)).
Proof.
  revert scan m. induction fuel as [|f IH]; intros scan m Hm Hs He Hf; cbn [match_bytes]; [lia|].
  destruct (Z.eqb_spec scan e) as [->|Hne]; [exists 0; rewrite !Z.add_0_r; split_and!; (done || lia)|]. rewrite !index_ok, !outcome_bind_ret by lia.
  destruct (Z.eqb_spec (table_at array scan) (table_at array m)) as [E|]; [|exists 0; by rewrite !Z.add_0_r].
  destruct (IH (scan + 1) (m + 1)) as (n & En & Hn & Hb & Hle & Hd); [lia..|].
  exists (1 + n). rewrite !Z.add_assoc. split_and!; try done; try lia. apply same_bytes_app; try done. by apply same_bytes_1.
Qed.

(** Whatever the sizes, [GetMatch] finds the first difference, or the end. *)
Lemma GetMatch_for_spec sizeof_size_t sizeof_unsigned scan m e : 0 <= m <= scan -> scan <= e -> e <= end_ ->
  exists n, GetMatch_for sizeof_size_t sizeof_unsigned array scan m e (e - 8) = Ret (scan + n) /\ 0 <= n /\ same_bytes scan m n /\ scan + n <= e /\
    (scan + n < e -> table_at array (scan + n) <> table_at array (m + n)).
Proof.
  intros Hm Hs He. unfold GetMatch_for. set (fuel := S (Z.to_nat (e - scan))). assert (e - scan < Z.of_nat fuel) as Hf by (unfold fuel; lia).
  assert (compared scan m e (if sizeof_size_t =? 8 then match_words fuel 8 array scan m (e - 8)
    else if sizeof_unsigned =? 4 then match_words fuel 4 array scan m (e - 8) else match_eight fuel array scan m (e - 8))) as (n1 & E & H1 & B1 & L1).
  { destruct (sizeof_size_t =? 8); [by apply match_words_spec|]. destruct (sizeof_unsigned =? 4); [by apply match_words_spec|by apply match_eight_spec]. }
  cbv zeta. rewrite E, outcome_bind_ret. destruct (match_bytes_spec fuel (scan + n1) (m + n1) e) as (n2 & -> & H2 & B2 & L2 & D2); [lia..|].
  exists (n1 + n2). rewrite !Z.add_assoc. split_and!; try done; try lia. by apply same_bytes_app.
Qed.

Lemma GetMatch_spec scan m e : 0 <= m <= scan -> scan <= e -> e <= end_ ->
  exists n, GetMatch array scan m e (e - 8) = Ret (scan + n) /\ 0 <= n /\ same_bytes scan m n /\ scan + n <= e.
Proof. intros Hm Hs He. destruct (GetMatch_for_spec 8 4 scan m e Hm Hs He) as (n & En & H1 & H2 & H3 & _). by exists n. Qed.

(** ** The search *)

Local Abbreviation W := ZOPFLI_WINDOW_SIZE.

(** From a position of a chain to the one before. *)
Lemma hop_spec n hv c x : chain_ok ws n hv c -> ws <= x < n -> n - W <= x ->
  let p := table_at (prev c) (slot x) in
  p = slot x \/ exists y, ws <= y < x /\ x - W < y /\ p = slot y /\ hv y = hv x /\ hop (slot x) p = x - y.
Proof.
  intros Hc Hx Hw p. destruct (ch_prev _ _ _ _ Hc x Hx Hw) as [E|(y & Hy & Hyw & E & Hhv)]; [by left|]. right. exists y.
  split_and!; try done; try lia. unfold p. rewrite E. unfold hop.
  pose proof (slot_range x). pose proof (slot_range y). pose proof (slot_ne y x ltac:(lia)).
  assert ((slot x - slot y) mod W = x - y) as Hm.
  { unfold slot. rewrite <-Zminus_mod. apply Z.mod_small. lia. }
  destruct (Z.ltb_spec (slot y) (slot x)).
  - rewrite <-Hm. symmetry. apply Z.mod_small. lia.
  - rewrite <-Hm. symmetry. rewrite <-(Z.mod_add _ 1) by (unfold W; lia). rewrite Z.mod_small by lia. lia.
Qed.

Section search.
Context (h : ZopfliHash) (pos limit : Z).
Context (Hh : hash_ok array ws end_ (pos + 1) h) (Hpos : ws <= pos) (Hlimit : 1 <= limit <= 258) (Hin : pos + limit <= end_).

Lemma shortcut_spec d : 0 < d < W -> ws <= pos - d ->
  exists n, shortcut h array pos limit d = Ret n /\ 0 <= n <= limit /\ same_bytes pos (pos - d) n.
Proof.
  intros Hd Hx. destruct Hh as (_ & hv & hv2 & _ & _ & Hs & _). pose proof (sm_length _ _ _ _ _ Hs) as Hl.
  assert (Z.of_nat (length (same h)) = W) as HlW by (rewrite Hl; unfold W; lia).
  unfold shortcut. rewrite !window_mask. pose proof (slot_range pos). pose proof (slot_range (pos - d)).
  rewrite !index_ok, !outcome_bind_ret by lia.
  assert (exists n, Ret 0 = Ret n /\ 0 <= n <= limit /\ same_bytes pos (pos - d) n) as Hnone by (exists 0; split_and!; done || lia).
  destruct (2 <? _); [|done]. destruct (Z.eqb_spec (table_at array pos) (table_at array (pos - d))) as [E|]; [|done].
  destruct (sm_repeats _ _ _ _ _ Hs pos) as (R0 & R1 & R2); [lia..|].
  destruct (sm_repeats _ _ _ _ _ Hs (pos - d)) as (Q0 & Q1 & Q2); [lia..|].
  set (same0 := table_at (same h) (slot pos)) in *. set (same1 := table_at (same h) (slot (pos - d))) in *.
  eexists. split; [done|]. assert (u16 limit = limit) as -> by (apply Z.mod_small; lia).
  split; [repeat case_match; lia|]. intros k Hk. rewrite R2, Q2; [done|repeat case_match; lia..].
Qed.

Lemma match_length_spec d b : 0 < d < W -> ws <= pos - d -> 1 <= b ->
  exists n, match_length h array pos end_ limit d b = Ret n /\ n <= limit /\ match_at pos d n.
Proof.
  intros Hd Hx Hb. unfold match_length.
  assert (exists compare : bool, (if end_ <=? pos + b then Ret true
    else a ← index array (pos + b); b' ← index array (pos - d + b); Ret (a =? b')) = Ret compare) as [compare ->].
  { destruct (Z.leb_spec end_ (pos + b)); [by exists true|]. rewrite !index_ok, !outcome_bind_ret by lia. by eexists. }
  rewrite outcome_bind_ret. destruct compare; [|exists 0; split_and!; try done; try lia; split_and!; (done || lia)].
  destruct (shortcut_spec d Hd Hx) as (n & -> & Hn & Bn). rewrite outcome_bind_ret.
  destruct (GetMatch_spec (pos + n) (pos - d + n) (pos + limit)) as (m & -> & Hm & Bm & Hl); [lia..|]. rewrite outcome_bind_ret.
  replace (pos + n + m - pos) with (n + m) by lia. assert (u16 (n + m) = n + m) as -> by (apply Z.mod_small; lia).
  exists (n + m). split; [done|]. split; [lia|]. split_and!; try lia. apply same_bytes_app; (done || lia).
Qed.

(** The array [sublen] after a search that has found [best], at the distance [d]. *)
Definition sublen_ok (given sublen : option (list Z)) (best d : Z) : Prop :=
  match given, sublen with
  | None, None => True
  | Some _, Some sl => length sl = 259%nat /\ (forall i, 2 <= i <= best -> match_at pos (table_at sl i) i) /\
      (2 <= best -> table_at sl best = d)
  | _, _ => False
  end.

Definition best_ok (given : option (list Z)) (t : search) : Prop :=
  1 <= bestlength t <= limit /\ (2 <= bestlength t -> match_at pos (bestdist t) (bestlength t)) /\
  sublen_ok given (found_sublen t) (bestlength t) (bestdist t).

Lemma sublen_improved given sublen b d d' n : sublen_ok given sublen b d -> match_at pos d' n -> 1 <= b < n -> n <= limit ->
  exists sublen', (match sublen with
    | None => Ret None
    | Some sl => sl ← for_each (seqZ (b + 1) (n - b)) (fun j s => assign s j (u16 d')) sl; Ret (Some sl)
    end) = Ret sublen' /\ sublen_ok given sublen' n d'.
Proof.
  intros Hok Hm Hb Hn. destruct given as [g|], sublen as [sl|]; try done; [|by exists None]. destruct Hok as (Hl & Hs & _).
  destruct (assign_range (u16 d') sl (b + 1) (n - b)) as (sl' & -> & Hl' & S1 & S2); [lia..|]. rewrite outcome_bind_ret.
  assert (u16 d' = d') as Hu by (destruct Hm as [? _]; apply Z.mod_small; unfold W in *; lia). rewrite Hu in S1.
  eexists. split; [done|]. split; [lia|]. split; [|intros _; apply S1; lia]. intros i Hi. destruct (Z.le_gt_cases i b).
  - rewrite S2 by lia. apply Hs. lia.
  - rewrite S1 by lia. apply (match_at_shorter _ _ n); [done|lia].
Qed.

Lemma try_distance_spec given t : best_ok given t -> 0 < dist t < W -> ws <= pos - dist t ->
  exists t' leave, try_distance h array pos end_ limit t = Ret (t', leave) /\ best_ok given t' /\
    pp t' = pp t /\ p t' = p t /\ dist t' = dist t /\ second t' = second t.
Proof.
  intros (Hb & Hm & Hs) Hd Hx. unfold try_distance. rewrite (proj2 (Z.ltb_lt _ _)) by lia.
  rewrite !assertion_holds by lia.
  destruct (match_length_spec (dist t) (bestlength t) Hd Hx ltac:(lia)) as (n & -> & Hn & Hmn). rewrite outcome_bind_ret.
  destruct (Z.ltb_spec (bestlength t) n) as [Hlt|].
  - destruct (sublen_improved given _ _ _ _ n Hs Hmn ltac:(lia) Hn) as (sl' & -> & Hs'). rewrite outcome_bind_ret.
    eexists _, _. split; [done|]. split; [|done]. split; [cbn; lia|]. cbn [bestlength bestdist found_sublen].
    assert (u16 (dist t) = dist t) as -> by (apply Z.mod_small; unfold W in *; lia). by split.
  - eexists _, _. split; [done|]. by split_and!.
Qed.

(** The position [x] is on the chain that is searched. *)
Definition on_chain (second : bool) (x : Z) : Prop :=
  exists hv, chain_ok ws (pos + 1) hv (hash_of h second) /\ hv x = val (hash_of h second).

Definition on_chain_at (t : search) : Prop :=
  W <= dist t \/ 0 < dist t < W /\ ws <= pos - dist t /\ p t = slot (pos - dist t) /\ 0 <= pp t < W /\
    table_at (prev (hash_of h (second t))) (pp t) = p t /\ on_chain (second t) (pos - dist t).

Lemma chain_lengths second : Z.of_nat (length (prev (hash_of h second))) = W /\ Z.of_nat (length (hashval (hash_of h second))) = W.
Proof.
  destruct Hh as (_ & hv & hv2 & H1 & H2 & _). destruct second; cbn [hash_of];
    [rewrite (ch_prev_length _ _ _ _ H2), (ch_hashval_length _ _ _ _ H2)|rewrite (ch_prev_length _ _ _ _ H1), (ch_hashval_length _ _ _ _ H1)];
    unfold W; lia.
Qed.

Lemma on_chain_hashval second x : on_chain second x -> ws <= x <= pos -> pos - x < W ->
  table_at (hashval (hash_of h second)) (slot x) = val (hash_of h second).
Proof. intros (hv & Hc & Hv) Hx Hw. by rewrite (ch_hashval _ _ _ _ Hc x) by lia. Qed.

Lemma switches_spec t : 0 < dist t < W -> ws <= pos - dist t -> p t = slot (pos - dist t) -> on_chain (second t) (pos - dist t) ->
  exists b, switches h pos t = Ret b /\ on_chain (second t || b) (pos - dist t).
Proof.
  intros Hd Hx Hp Hc. unfold switches. destruct (second t); [by exists false|]. cbn [orb].
  destruct Hh as (_ & hv & hv2 & _ & H2 & Hs & _ & Hlast & _). rewrite window_mask, u16_slot. pose proof (slot_range pos) as Hsp.
  pose proof (slot_range (pos - dist t)) as Hsx. destruct (chain_lengths true) as [_ L]. cbn [hash_of] in L.
  assert (Z.of_nat (length (same h)) = W) as Ls by (rewrite (sm_length _ _ _ _ _ Hs); unfold W; lia).
  rewrite (index_ok (same h)), outcome_bind_ret by lia. destruct (_ <=? bestlength t); [|by exists false].
  rewrite Hp, index_ok, outcome_bind_ret by lia. eexists. split; [done|].
  destruct (Z.eqb_spec (val (hash2 h)) (table_at (hashval (hash2 h)) (slot (pos - dist t)))) as [E|]; [|done].
  exists hv2. split; [done|]. cbn [hash_of]. rewrite E. symmetry. apply (ch_hashval _ _ _ _ H2); lia.
Qed.

Lemma next_link_spec t : dist t < W -> on_chain_at t ->
  exists t' stop, next_link h pos t = Ret (t', stop) /\ (stop = false -> on_chain_at t') /\
    bestdist t' = bestdist t /\ bestlength t' = bestlength t /\ found_sublen t' = found_sublen t.
Proof.
  intros Hlt [?|(Hd & Hx & Hp & Hpp & Hlink & Hc)]; [lia|]. pose proof (slot_range (pos - dist t)) as Hsx. unfold next_link.
  destruct (switches_spec t Hd Hx Hp Hc) as (b & -> & hv & Hch & Hv). rewrite outcome_bind_ret. cbv zeta.
  destruct (chain_lengths (second t || b)) as [L3 _]. rewrite Hp, index_ok, outcome_bind_ret by lia.
  destruct (hop_spec (pos + 1) hv _ (pos - dist t) Hch ltac:(lia) ltac:(lia)) as [E|(y & Hy & Hyw & E & Hhv & Hhop)].
  { rewrite E, Z.eqb_refl. eexists _, true. by split_and!. }
  rewrite Hhop, E. rewrite (proj2 (Z.eqb_neq _ _)) by (apply slot_ne; lia).
  assert (u32 (dist t + (pos - dist t - y)) = pos - y) as -> by (unfold u32, W in *; rewrite Z.mod_small; lia).
  eexists _, false. split; [done|]. split; [intros _|done]. unfold on_chain_at. cbn [dist p pp second].
  destruct (Z.le_gt_cases W (pos - y)); [by left|]. right. replace (pos - (pos - y)) with y by lia.
  split_and!; try done; try lia. exists hv. split; [done|]. by rewrite Hhv.
Qed.

(** On a chain, the assertions of the loop hold. *)
Lemma search_chain_unfold n t : dist t < W -> on_chain_at t ->
  search_chain h array pos end_ limit (S n) t =
    ('(t, leave) ← try_distance h array pos end_ limit t;
     if leave : bool then Ret t
     else '(t, stop) ← next_link h pos t; if stop : bool then Ret t else search_chain h array pos end_ limit n t).
Proof.
  intros Hlt [?|(Hd & Hx & Hp & Hpp & Hlink & Hc)]; [lia|]. destruct (chain_lengths (second t)) as [L1 L2].
  pose proof (slot_range (pos - dist t)) as Hsx. pose proof (on_chain_hashval _ _ Hc ltac:(lia) ltac:(lia)) as Hval.
  cbn [search_chain]. rewrite (proj2 (Z.ltb_lt _ _)) by done.
  cbv zeta. rewrite assertion_holds by lia. rewrite (index_ok _ (pp t)), outcome_bind_ret, assertion_holds by lia.
  rewrite (index_ok _ (p t)), outcome_bind_ret, assertion_holds by (rewrite ?Hp; lia). done.
Qed.

Lemma search_chain_spec given n t : best_ok given t -> on_chain_at t ->
  exists t', search_chain h array pos end_ limit n t = Ret t' /\ best_ok given t'.
Proof.
  revert t. induction n as [|n IH]; intros t Hb Ht; [by exists t|].
  destruct (Z.lt_ge_cases (dist t) W) as [Hlt|]; [|cbn [search_chain]; rewrite (proj2 (Z.ltb_ge _ _)) by done; by exists t].
  rewrite search_chain_unfold by done. pose proof Ht as [?|(Hd & Hx & _)]; [lia|].
  destruct (try_distance_spec given t Hb Hd Hx) as (t1 & leave & -> & Hb1 & E1 & E2 & E3 & E4). rewrite outcome_bind_ret.
  cbv beta iota. destruct leave; [by exists t1|].
  destruct (next_link_spec t1) as (t2 & stop & -> & Ht2 & F1 & F2 & F3); [by rewrite E3|unfold on_chain_at; by rewrite E1, E2, E3, E4|].
  rewrite outcome_bind_ret. assert (best_ok given t2) as Hb2 by (unfold best_ok; by rewrite F1, F2, F3).
  cbv beta iota. destruct stop; [by exists t2|]. apply IH; [done|by apply Ht2].
Qed.
End search.

(** ** Two searches

    A search with a smaller limit goes along with one with a larger limit until
    it has reached its limit. *)

Definition set_sublen (sl : option (list Z)) (t : search) : search :=
  MkSearch (pp t) (p t) (dist t) (second t) (bestdist t) (bestlength t) sl.

Lemma next_link_sublen h pos sl t : next_link h pos (set_sublen sl t) = ('(t, stop) ← next_link h pos t; Ret (set_sublen sl t, stop)).
Proof.
  unfold next_link, switches. cbn [set_sublen second p dist bestlength bestdist found_sublen].
  destruct (if second t then Ret false else _) as [b| | |]; [|done..]. rewrite !outcome_bind_ret. cbv zeta.
  destruct (index _ (p t)) as [q| | |]; [|done..]. rewrite !outcome_bind_ret. by destruct (q =? p t).
Qed.

Lemma next_link_best h pos t t' stop : next_link h pos t = Ret (t', stop) -> bestlength t' = bestlength t.
Proof. unfold next_link. intros H. inv_ret. by destruct (_ =? _); simplify_eq. Qed.

(** The best length grows. *)
Lemma try_distance_grows h pos limit t t' leave : try_distance h array pos end_ limit t = Ret (t', leave) -> bestlength t <= bestlength t'.
Proof.
  unfold try_distance. intros H. destruct (0 <? dist t); [|by simplify_eq]. inv_ret.
  destruct (Z.ltb_spec (bestlength t) x1); inv_ret; cbn [bestlength]; lia.
Qed.

Lemma search_grows h pos limit n t t' : search_chain h array pos end_ limit n t = Ret t' -> bestlength t <= bestlength t'.
Proof.
  revert t. induction n as [|n IH]; intros t H; [by simplify_eq/=|]. cbn [search_chain] in H. destruct (dist t <? _); [|by simplify_eq].
  inv_ret. destruct x4 as [t1 leave]. apply try_distance_grows in Hx4. destruct leave; [by simplify_eq|]. inv_ret.
  destruct x4 as [t2 stop]. apply next_link_best in Hx5. destruct stop; [simplify_eq; lia|]. apply IH in H. lia.
Qed.

Lemma try_distance_chain h pos limit t t' leave : try_distance h array pos end_ limit t = Ret (t', leave) ->
  pp t' = pp t /\ p t' = p t /\ dist t' = dist t /\ second t' = second t.
Proof.
  unfold try_distance. intros H. destruct (0 <? dist t); [|by simplify_eq]. inv_ret. destruct (bestlength t <? x1); inv_ret; done.
Qed.

Section lockstep.
Context (h : ZopfliHash) (pos l1 l2 : Z).
Context (Hh : hash_ok array ws end_ (pos + 1) h) (Hpos : ws <= pos) (Hl1 : 1 <= l1 <= l2) (Hl2 : l2 <= 258) (Hin : pos + l2 <= end_).

(** The length of a match is the place of the first difference, or the limit. *)
Lemma exact_length limit d : 1 <= limit <= 258 -> pos + limit <= end_ -> 0 < d < W -> ws <= pos - d ->
  exists n, (skip ← shortcut h array pos limit d;
    scan ← GetMatch array (pos + skip) (pos - d + skip) (pos + limit) (pos + limit - 8); Ret (u16 (scan - pos))) = Ret n /\
    0 <= n <= limit /\ same_bytes pos (pos - d) n /\ (n < limit -> table_at array (pos + n) <> table_at array (pos - d + n)).
Proof.
  intros Hlim Hlin Hd Hx. destruct (shortcut_spec h pos limit Hh Hpos Hlim Hlin d Hd Hx) as (k & -> & Hk & Bk). rewrite outcome_bind_ret.
  destruct (GetMatch_for_spec 8 4 (pos + k) (pos - d + k) (pos + limit)) as (m & E & Hm & Bm & Hl & Hdiff); [lia..|].
  unfold GetMatch. rewrite E, outcome_bind_ret. replace (pos + k + m - pos) with (k + m) by lia.
  assert (u16 (k + m) = k + m) as -> by (apply Z.mod_small; lia). exists (k + m). split; [done|]. split; [lia|].
  split; [by apply same_bytes_app; [lia|..]|]. intros Hlt. replace (pos + (k + m)) with (pos + k + m) by lia.
  replace (pos - d + (k + m)) with (pos - d + k + m) by lia. apply Hdiff. lia.
Qed.

Lemma match_length_lockstep d b : 0 < d < W -> ws <= pos - d -> 1 <= b ->
  exists n, match_length h array pos end_ l1 d b = Ret (Z.min n l1) /\ match_length h array pos end_ l2 d b = Ret n /\ 0 <= n <= l2.
Proof.
  intros Hd Hx Hb. unfold match_length.
  assert (exists compare : bool, (if end_ <=? pos + b then Ret true
    else a ← index array (pos + b); b' ← index array (pos - d + b); Ret (a =? b')) = Ret compare) as [compare ->].
  { destruct (Z.leb_spec end_ (pos + b)); [by exists true|]. rewrite !index_ok, !outcome_bind_ret by lia. by eexists. }
  rewrite !outcome_bind_ret. destruct compare; [|exists 0; split; [f_equal; lia|split; [done|lia]]].
  destruct (exact_length l1 d) as (n1 & -> & H1 & B1 & D1); [lia..|]. destruct (exact_length l2 d) as (n2 & -> & H2 & B2 & D2); [lia..|].
  exists n2. split; [|split; [done|lia]]. f_equal.
  destruct (Z.lt_trichotomy n1 (Z.min n2 l1)) as [Hlt|[?|Hgt]]; [|done|].
  - exfalso. apply D1; [lia|]. apply B2. lia.
  - exfalso. apply D2; [lia|]. apply B1. lia.
Qed.

Lemma try_lockstep t sl t1 leave1 t2 leave2 : 0 < dist t < W -> ws <= pos - dist t -> 1 <= bestlength t < l1 ->
  try_distance h array pos end_ l1 t = Ret (t1, leave1) -> try_distance h array pos end_ l2 (set_sublen sl t) = Ret (t2, leave2) ->
  leave1 = false /\ leave2 = false /\ bestlength t1 < l1 /\ (exists sl', t2 = set_sublen sl' t1) \/
  leave1 = true /\ bestlength t1 = l1 /\ l1 <= bestlength t2.
Proof.
  intros Hd Hx Hb. unfold try_distance. cbn [set_sublen dist bestlength found_sublen pp p second]. rewrite (proj2 (Z.ltb_lt _ _)) by lia.
  rewrite !assertion_holds by lia. destruct (match_length_lockstep (dist t) (bestlength t) Hd Hx ltac:(lia)) as (n & -> & -> & Hn).
  rewrite !outcome_bind_ret. destruct (Z.ltb_spec (bestlength t) n) as [Hlt|Hge].
  - rewrite (proj2 (Z.ltb_lt _ _)) by lia. intros H1 H2. inv_ret. destruct (Z.le_gt_cases l1 n).
    + right. cbn [bestlength]. split; [apply Z.leb_le|]; lia.
    + left. split; [apply Z.leb_gt; lia|]. split; [apply Z.leb_gt; lia|]. cbn [bestlength]. split; [lia|]. rewrite Z.min_l by lia. by eexists.
  - rewrite (proj2 (Z.ltb_ge _ _)) by lia. intros H1 H2. simplify_eq. left. split_and!; try done; [lia|]. by eexists.
Qed.

Lemma search_lockstep n t sl t1 t2 : on_chain_at h pos t -> 1 <= bestlength t < l1 ->
  search_chain h array pos end_ l1 n t = Ret t1 -> search_chain h array pos end_ l2 n (set_sublen sl t) = Ret t2 ->
  bestlength t1 = Z.min l1 (bestlength t2).
Proof.
  revert t sl. induction n as [|n IH]; intros t sl Ht Hb E1 E2; [simplify_eq/=; lia|].
  destruct (Z.lt_ge_cases (dist t) W) as [Hlt|Hge].
  2: { cbn [search_chain set_sublen dist] in E1, E2. rewrite (proj2 (Z.ltb_ge _ _)) in E1, E2 by done. simplify_eq/=. lia. }
  rewrite (search_chain_unfold h pos l1 Hh) in E1 by done.
  rewrite (search_chain_unfold h pos l2 Hh) in E2 by done. pose proof Ht as [?|(Hd & Hx & _)]; [lia|].
  apply outcome_bind_ret_inv in E1 as ([t1' leave1] & T1 & E1). apply outcome_bind_ret_inv in E2 as ([t2' leave2] & T2 & E2).
  pose proof (try_distance_chain h pos l1 t t1' leave1 T1) as (C1 & C2 & C3 & C4).
  destruct (try_lockstep t sl t1' leave1 t2' leave2) as [(-> & -> & Hb1 & sl' & ->)|(-> & Hb1 & Hb2)]; try done.
  - rewrite next_link_sublen in E2. destruct (next_link_spec h pos Hh Hpos t1') as (t3 & stop & E3 & Ht3 & _ & F2 & _);
      [by rewrite C3|unfold on_chain_at; by rewrite C1, C2, C3, C4|].
    rewrite E3 in E1, E2. cbn [mbind outcome_bind] in E1, E2. destruct stop; [simplify_eq; cbn [set_sublen bestlength]; lia|].
    apply (IH t3 sl'); [by apply Ht3| |done|done]. pose proof (try_distance_grows _ _ _ _ _ _ T1). lia.
  - simplify_eq. assert (bestlength t2' <= bestlength t2); [|lia].
    destruct leave2; [by simplify_eq|]. apply outcome_bind_ret_inv in E2 as ([t3 stop] & T3 & E2). apply next_link_best in T3.
    destruct stop; [simplify_eq; lia|]. apply search_grows in E2. lia.
Qed.
End lockstep.

(** ** The longest match of a position *)

(** The length of a search without a cache and with the largest limit. *)
Definition longest (x l : Z) : Prop :=
  exists h s sl d, hashed array ws end_ (x + 1) = Ret h /\
    ZopfliFindLongestMatch (MkState None 0) h array x end_ ZOPFLI_MAX_MATCH None = Ret (s, sl, d, l).

Lemma longest_unique x l l' : longest x l -> longest x l' -> l = l'.
Proof. intros (h & s & sl & d & H1 & H2) (h' & s' & sl' & d' & H3 & H4). simplify_eq. rewrite H1 in H3. simplify_eq. congruence. Qed.

Lemma longest_range x l : longest x l -> l <= 258 /\ x + l <= end_.
Proof.
  intros (h & s & sl & d & _ & H). unfold ZopfliFindLongestMatch in H. cbn [TryGetFromLongestMatchCache lmc] in H.
  rewrite outcome_bind_ret in H. apply assertion_inv in H as [H1 H]. apply assertion_inv in H as [_ H]. apply assertion_inv in H as [H2 H].
  unfold ZOPFLI_MAX_MATCH, ZOPFLI_MIN_MATCH in *. destruct (_ <? 3); [simplify_eq; lia|]. cbv zeta in H. apply assertion_inv in H as [_ H].
  apply outcome_bind_ret_inv in H as (hd & _ & H). apply outcome_bind_ret_inv in H as (p0 & _ & H).
  apply assertion_inv in H as [_ H]. apply outcome_bind_ret_inv in H as (t & _ & H). apply outcome_bind_ret_inv in H as (s1 & _ & H).
  apply assertion_inv in H as [H3 H]. apply assertion_inv in H as [H4 H]. simplify_eq. destruct (Z.ltb_spec end_ (x + 258)); lia.
Qed.

Definition start_search (h : ZopfliHash) (given : option (list Z)) : search :=
  let hd := table_at (head (hash1 h)) (val (hash1 h)) in
  let p := table_at (prev (hash1 h)) hd in
  MkSearch hd p (hop hd p) false 0 1 given.

Definition given_ok (given : option (list Z)) : Prop := forall sl, given = Some sl -> length sl = 259%nat.

Section start.
Context (h : ZopfliHash) (pos : Z) (given : option (list Z)).
Context (Hh : hash_ok array ws end_ (pos + 1) h) (Hpos : ws <= pos).

(** The search starts at the last position with the same hash. *)
Lemma search_starts : table_at (head (hash1 h)) (val (hash1 h)) = slot pos /\ on_chain_at h pos (start_search h given).
Proof.
  destruct Hh as (_ & hv & hv2 & H1 & H2 & Hs & Hv & Hlast & _). destruct (Hlast ltac:(lia)) as (E1 & E2 & _).
  replace (pos + 1 - 1) with pos in E1, E2 by lia. unfold start_search. cbv zeta. rewrite E2. split; [done|].
  unfold on_chain_at. cbn [dist p pp second hash_of]. pose proof (slot_range pos) as Hsp.
  destruct (hop_spec (pos + 1) hv (hash1 h) pos H1 ltac:(lia) ltac:(unfold W; lia)) as [E|(y & Hy & Hyw & E & Hhv & Hhop)].
  - left. rewrite E. unfold hop. rewrite Z.ltb_irrefl. lia.
  - right. rewrite Hhop, E. replace (pos - (pos - y)) with y by lia. split_and!; try done; try lia.
    exists hv. split; [done|]. by rewrite Hhv, <-E1.
Qed.

(** What is not in the cache is searched for. *)
Lemma find_searches s limit limit' : pos < end_ -> TryGetFromLongestMatchCache s pos limit given = Ret (NotCached limit') ->
  3 <= limit' <= 258 -> 3 <= end_ - pos ->
  ZopfliFindLongestMatch s h array pos end_ limit given =
    (let u := if end_ <? pos + limit' then end_ - pos else limit' in
     t ← search_chain h array pos end_ u ZOPFLI_MAX_CHAIN_HITS (start_search h given);
     s ← StoreInLongestMatchCache s pos u (found_sublen t) (bestdist t) (bestlength t);
     _ ← assertion (bestlength t <=? u);
     _ ← assertion (pos + bestlength t <=? end_);
     Ret (s, found_sublen t, bestdist t, bestlength t)).
Proof.
  intros Hpe E Hl He. unfold ZopfliFindLongestMatch. rewrite E, outcome_bind_ret. unfold ZOPFLI_MAX_MATCH, ZOPFLI_MIN_MATCH.
  rewrite !assertion_holds by lia. rewrite (proj2 (Z.ltb_ge _ _)) by lia. cbv zeta.
  destruct search_starts as (Ehd & Hstart). pose proof Hh as (_ & hv & hv2 & H1 & _ & _ & Hv & _).
  pose proof (ch_head_length _ _ _ _ H1) as Lh. pose proof (ch_prev_length _ _ _ _ H1) as Lp. pose proof (slot_range pos) as Hsp.
  assert (Z.of_nat (length (head (hash1 h))) = 65536 /\ Z.of_nat (length (prev (hash1 h))) = W) as [Lh' Lp'] by (rewrite Lh, Lp; unfold W; lia).
  rewrite assertion_holds by lia. rewrite (index_ok (head (hash1 h))), outcome_bind_ret by lia. unfold start_search. rewrite Ehd. rewrite u16_slot.
  rewrite (index_ok (prev (hash1 h))), outcome_bind_ret by lia. rewrite window_mask, u16_slot, assertion_holds by lia. done.
Qed.

Lemma searched u : given_ok given -> 1 <= u <= 258 -> pos + u <= end_ ->
  exists t, search_chain h array pos end_ u ZOPFLI_MAX_CHAIN_HITS (start_search h given) = Ret t /\ best_ok pos u given t.
Proof.
  intros Hgiven Hu Hue. destruct search_starts as (_ & Hstart). apply search_chain_spec; try done.
  split; [cbn; lia|]. split; [cbn; lia|]. cbn [start_search found_sublen bestlength bestdist]. unfold sublen_ok.
  destruct given as [g|]; [|done]. split; [by apply Hgiven|]. split; intros; lia.
Qed.
End start.

Lemma longest_short pos h : hash_ok array ws end_ (pos + 1) h -> pos < end_ -> end_ - pos < 3 -> longest pos 0.
Proof.
  intros [Hd _] Hp He. exists h, (MkState None 0), None, 0. split; [done|]. unfold ZopfliFindLongestMatch. cbn [TryGetFromLongestMatchCache lmc]. rewrite outcome_bind_ret.
  unfold ZOPFLI_MAX_MATCH, ZOPFLI_MIN_MATCH. rewrite !assertion_holds by lia. by rewrite (proj2 (Z.ltb_lt _ _)) by lia.
Qed.

(** The length of any search is the longest one, or its limit. *)
Lemma search_longest h pos given u : hash_ok array ws end_ (pos + 1) h -> ws <= pos -> given_ok given -> 3 <= end_ - pos ->
  2 <= u <= 258 -> pos + u <= end_ ->
  exists t l, search_chain h array pos end_ u ZOPFLI_MAX_CHAIN_HITS (start_search h given) = Ret t /\ best_ok pos u given t /\
    longest pos l /\ bestlength t = Z.min u l.
Proof.
  intros Hh Hpos Hg He Hu Hue. set (f := if end_ <? pos + 258 then end_ - pos else 258).
  assert (u <= f <= 258 /\ pos + f <= end_) as [Hf Hfe] by (unfold f; destruct (Z.ltb_spec end_ (pos + 258)); lia).
  destruct (searched h pos given Hh Hpos u Hg ltac:(lia) Hue) as (t & Et & Hb).
  destruct (searched h pos None Hh Hpos f ltac:(done) ltac:(lia) Hfe) as (tf & Etf & Hbf).
  exists t, (bestlength tf). split; [done|]. split; [done|]. split.
  - exists h, (MkState None 0), (found_sublen tf), (bestdist tf). split; [apply Hh|].
    rewrite (find_searches h pos None Hh Hpos (MkState None 0) ZOPFLI_MAX_MATCH 258) by (done || lia). cbv zeta. fold f. rewrite Etf, outcome_bind_ret.
    cbn [StoreInLongestMatchCache lmc]. rewrite outcome_bind_ret. destruct Hbf as (Hl & _). by rewrite !assertion_holds by lia.
  - destruct (search_starts h pos given Hh Hpos) as (_ & Hstart).
    eapply (search_lockstep h pos u f Hh Hpos ltac:(lia) ltac:(lia) Hfe ZOPFLI_MAX_CHAIN_HITS (start_search h given) None); [done|cbn; lia|done|exact Etf].
Qed.

(** In a long repetition, the distance 1 is found first. *)
Lemma repetition_longest pos h a : hash_ok array ws end_ (pos + 1) h -> ws < pos -> repeats array end_ (pos - 1) a -> 259 <= a -> longest pos 258.
Proof.
  intros Hh Hpos (_ & Ha & Hrep) Ha'. assert (forall k, 0 <= k <= 258 -> table_at array (pos + k) = table_at array (pos - 1)) as Hsame
    by (intros k Hk; rewrite <-(Hrep (k + 1)) by lia; f_equal; lia).
  destruct (search_longest h pos None 258 Hh ltac:(lia) ltac:(done) ltac:(lia) ltac:(lia) ltac:(lia)) as (t & l & Et & Hb & Hl & Emax).
  assert (bestlength t = 258) as E; [|pose proof (longest_range pos l Hl); assert (l = 258) as -> by lia; done].
  destruct (search_starts h pos None Hh ltac:(lia)) as (Ehd & Hstart). pose proof Hh as (_ & hv & hv2 & H1 & _ & _ & _ & _ & Hthree & _).
  assert (hv (pos - 1) = hv pos) as Hhv.
  { rewrite !Hthree by lia. unfold hash_of_three. replace (pos - 1 + 1) with (pos + 0) by lia. replace (pos - 1 + 2) with (pos + 1) by lia.
    rewrite !Hsame by lia. pose proof (Hsame 0 ltac:(lia)) as H0. rewrite Z.add_0_r in H0. by rewrite H0. }
  pose proof (ch_adjacent _ _ _ _ H1 pos ltac:(lia) ltac:(unfold W; lia) Hhv) as Hadj. rewrite <-Ehd in Hadj.
  assert (dist (start_search h None) = 1) as Hd.
  { unfold start_search. cbv zeta. cbn [dist]. rewrite Hadj, Ehd. unfold hop. pose proof (slot_range pos). rewrite slot_sub.
    destruct (Z.eq_dec (slot pos) 0) as [->|]; [done|]. rewrite Z.mod_small by lia. rewrite (proj2 (Z.ltb_lt _ _)) by lia. lia. }
  unfold ZOPFLI_MAX_CHAIN_HITS in Et. replace (Z.to_nat 8192) with (S (Z.to_nat 8191)) in Et by lia.
  rewrite (search_chain_unfold h pos 258 Hh) in Et by (rewrite ?Hd; unfold W; (lia || done)).
  unfold try_distance in Et. rewrite Hd in Et. rewrite (proj2 (Z.ltb_lt 0 1)), !assertion_holds in Et by lia.
  assert (match_length h array pos end_ 258 1 (bestlength (start_search h None)) = Ret 258) as Em.
  { unfold match_length. cbn [start_search bestlength]. rewrite (proj2 (Z.leb_gt _ _)) by lia. rewrite !index_ok, !outcome_bind_ret by lia.
    replace (pos - 1 + 1) with (pos + 0) by lia. rewrite !Hsame, Z.eqb_refl by lia.
    destruct (exact_length h pos Hh ltac:(lia) 258 1) as (n & -> & Hn & _ & Hdiff); [unfold W; lia..|].
    f_equal. destruct (Z.eq_dec n 258); [done|]. exfalso. apply Hdiff; [lia|]. replace (pos - 1 + n) with (pos + (n - 1)) by lia.
    destruct (Z.eq_dec n 0) as [->|]; [|by rewrite !Hsame by lia]. replace (pos + (0 - 1)) with (pos - 1) by lia. apply Hsame. lia. }
  rewrite Em, outcome_bind_ret in Et. cbn [start_search bestlength found_sublen] in Et. change (1 <? 258) with true in Et. cbv iota in Et. rewrite !outcome_bind_ret in Et.
  change (258 <=? 258) with true in Et. cbn [mbind outcome_bind] in Et. simplify_eq. done.
Qed.

(** ** The cache *)

(** No distances for shorter lengths are in the cache. *)
Definition blank (c : ZopfliLongestMatchCache) (q : Z) : Prop :=
  table_at (lmc_sublen c) (cache_at q + 1) = 0 /\ table_at (lmc_sublen c) (cache_at q + 2) = 0.

(** The entry [q], of the position [x]: not filled in, without a match, or with
    the distances of the longest match. *)
Definition entry_ok (c : ZopfliLongestMatchCache) (q x : Z) : Prop :=
  let l := table_at (lmc_length c) q in
  let d := table_at (lmc_dist c) q in
  (l = 1 \/ l = 0 /\ exists m, longest x m /\ m < 3) /\ d = 0 /\ blank c q \/
  3 <= l <= 258 /\ longest x l /\ match_at x d l /\ exists f m, cached (lmc_sublen c) (cache_at q) f m /\ m <= l /\
    (forall i, 3 <= i <= m -> match_at x (f i) i) /\ (m = l -> f m = d).

Record cache_ok (start n : Z) (c : ZopfliLongestMatchCache) : Prop := {
  co_length : Z.of_nat (length (lmc_length c)) = n;
  co_dist : Z.of_nat (length (lmc_dist c)) = n;
  co_sublen : Z.of_nat (length (lmc_sublen c)) = ZOPFLI_CACHE_LENGTH * n * 3;
  co_entries : forall q, 0 <= q < n -> entry_ok c q (start + q);
}.

(** The state of a block of [n] bytes. *)
Definition state_ok (n : Z) (s : ZopfliBlockState) : Prop :=
  0 <= blockstart s /\ match lmc s with None => True | Some c => cache_ok (blockstart s) n c end.

Lemma max_cached_blank c q : 0 <= q -> cache_at q + 24 <= Z.of_nat (length (lmc_sublen c)) -> blank c q ->
  ZopfliMaxCachedSublen c q = Ret 0.
Proof.
  intros Hq Hl [E1 E2]. unfold ZopfliMaxCachedSublen. cbv zeta.
  assert (0 <= cache_at q) by (unfold cache_at, ZOPFLI_CACHE_LENGTH; lia).
  rewrite !(index_ok _ (cache_at q + 1)), !(index_ok _ (cache_at q + 2)), E1, E2 by lia. done.
Qed.

Section cache.
Context (n pos : Z) (given : option (list Z)) (Hgiven : given_ok given).

(** What a search gives: a match, or a length below 3, and distances for the
    shorter lengths. *)
Definition result_ok (limit : Z) (sublen : option (list Z)) (d l : Z) : Prop :=
  0 <= l <= limit /\ pos + l <= end_ /\ (3 <= l -> match_at pos d l) /\
  match given, sublen with
  | None, None => True
  | Some _, Some sl => length sl = 259%nat /\ forall i, 3 <= i <= l -> match_at pos (table_at sl i) i
  | _, _ => False
  end.

(** The length for a limit, up to lengths that are not used. *)
Definition length_ok (limit l : Z) : Prop :=
  exists m, longest pos m /\ (given = None \/ limit = 258 -> Z.min limit m = l \/ Z.min limit m < 3 /\ l < 3).

Definition answer_ok (limit : Z) (r : cached_match) : Prop :=
  match r with
  | FromCache sublen d l => result_ok limit sublen d l /\ length_ok limit l
  | NotCached l => 3 <= l <= 258 /\ (given = None \/ limit = 258 -> l = limit \/ l <= limit /\ longest pos l)
  end.

Lemma cache_slot (s : ZopfliBlockState) : 0 <= blockstart s <= pos -> pos < end_ -> u64 (pos - blockstart s) = pos - blockstart s.
Proof. intros Hs Hp. apply u64_small. lia. Qed.

(** The answer for an entry with a match. *)
Lemma answer_from_match c q limit f m : let l := table_at (lmc_length c) q in let d := table_at (lmc_dist c) q in
  0 <= q -> cache_at q + 24 <= Z.of_nat (length (lmc_sublen c)) -> q < Z.of_nat (length (lmc_dist c)) ->
  3 <= l <= 258 -> longest pos l -> match_at pos d l -> cached (lmc_sublen c) (cache_at q) f m -> m <= l ->
  (forall i, 3 <= i <= m -> match_at pos (f i) i) -> (m = l -> f m = d) -> 3 <= limit <= 258 ->
  exists r, (usable ← match given with None => Ret true | Some _ => m ← ZopfliMaxCachedSublen c q; Ret (l <=? m) end;
        if usable : bool then
          let length := if limit <? l then u16 limit else l in
          match given with
          | Some sl =>
              sl ← ZopfliCacheToSublen c q length sl;
              distance ← index sl length;
              _ ← (if (limit =? ZOPFLI_MAX_MATCH) && (ZOPFLI_MIN_MATCH <=? length)
                   then d ← index (lmc_dist c) q; assertion (distance =? d) else Ret tt);
              Ret (FromCache (Some sl) distance length)
          | None => d ← index (lmc_dist c) q; Ret (FromCache None d length)
          end
        else Ret (NotCached l)) = Ret r /\ answer_ok limit r.
Proof.
  intros l d Hq Hs Hqd Hl Hlong Hm Hc Hml Hf Hfd Hlim. unfold ZOPFLI_MAX_MATCH, ZOPFLI_MIN_MATCH.
  assert (u16 limit = limit) as -> by (apply Z.mod_small; lia).
  set (len := if limit <? l then limit else l). assert (3 <= len <= l /\ len <= limit /\ (limit = 258 -> len = l)) as (Hlen & Hlen' & Hfull)
    by (unfold len; destruct (Z.ltb_spec limit l); lia).
  assert (length_ok limit len) as Hlok by (exists l; split; [done|]; intros _; left; unfold len; destruct (Z.ltb_spec limit l); lia).
  assert (pos + len <= end_) as Hend' by (destruct Hm as (_ & _ & _ & ? & _); lia).
  pose proof (index_ok (lmc_dist c) q ltac:(lia)) as Hd. fold d in Hd.
  destruct given as [g|] eqn:Eg.
  - cbv beta iota. rewrite (max_cached_spec _ _ f m), !outcome_bind_ret by done. destruct (Z.leb_spec l m) as [Hle|].
    + assert (m = l) as -> by lia. destruct (CacheToSublen_spec c q len g f l) as (sl & Esl & Hlsl & Hsl); try done; [lia|by apply Hgiven|].
      rewrite Esl, outcome_bind_ret, (index_ok sl), outcome_bind_ret by lia. rewrite Hsl by lia.
      assert ((if (limit =? 258) && (3 <=? len) then d ← index (lmc_dist c) q; assertion (f len =? d) else Ret tt) = Ret tt) as ->.
      { destruct (Z.eqb_spec limit 258) as [E|]; [|done]. rewrite (proj2 (Z.leb_le _ _)) by lia. cbn [andb].
        rewrite Hd, outcome_bind_ret. unfold assertion. by rewrite (Hfull E), (Hfd eq_refl), Z.eqb_refl. }
      rewrite outcome_bind_ret. eexists. split; [done|]. split; [|done]. split; [lia|]. split; [done|]. split; [intros _; apply Hf; lia|].
      rewrite Eg. split; [done|]. intros i Hi. rewrite Hsl by lia. apply Hf. lia.
    + eexists. split; [done|]. split; [done|]. intros [?|?]; [congruence|right; split; [lia|done]].
  - cbv beta iota zeta. rewrite outcome_bind_ret, Hd, outcome_bind_ret. eexists. split; [done|]. split; [|done]. split; [lia|]. split; [done|].
    split; [intros _; apply (match_at_shorter _ _ l); [done|lia]|]. by rewrite Eg.
Qed.

Lemma cache_at_room c q start : cache_ok start n c -> 0 <= q < n -> cache_at q + 24 <= Z.of_nat (length (lmc_sublen c)).
Proof. intros Hc Hq. rewrite (co_sublen _ _ _ Hc). unfold cache_at, ZOPFLI_CACHE_LENGTH. lia. Qed.

(** Whether an entry is available. *)
Lemma cache_available_spec c q start : cache_ok start n c -> 0 <= q < n ->
  exists available, cache_available c q = Ret available /\
    if available : bool then table_at (lmc_length c) q <> 1 \/ table_at (lmc_dist c) q <> 0
    else table_at (lmc_length c) q = 1 /\ table_at (lmc_dist c) q = 0 /\ blank c q.
Proof.
  intros Hc Hq. pose proof (co_length _ _ _ Hc) as L1. pose proof (co_dist _ _ _ Hc) as L2. unfold cache_available.
  rewrite (index_ok (lmc_length c)), outcome_bind_ret by lia. destruct (Z.eqb_spec (table_at (lmc_length c) q) 0) as [E|Hne].
  { exists true. split; [done|]. left. lia. }
  rewrite index_ok, outcome_bind_ret by lia. eexists. split; [done|].
  destruct (Z.eqb_spec (table_at (lmc_dist c) q) 0) as [E|]; cbn [negb]; [|by right].
  destruct (co_entries _ _ _ Hc q Hq) as [([?|[? _]] & _ & Hb)|(Hl & _ & Hm & _)]; [done..|]. destruct Hm as [? _]. lia.
Qed.

Lemma TryGet_spec s limit : state_ok n s -> blockstart s <= pos < blockstart s + n -> pos < end_ -> 3 <= limit <= 258 ->
  exists r, TryGetFromLongestMatchCache s pos limit given = Ret r /\ answer_ok limit r.
Proof.
  intros [H0 Hs] Hp Hpe Hlim. unfold TryGetFromLongestMatchCache.
  assert (answer_ok limit (NotCached limit)) as Hsame by (split; [done|]; intros _; by left).
  destruct (lmc s) as [c|]; [|by eexists]. rewrite cache_slot by lia. cbv zeta.
  set (q := pos - blockstart s) in *. pose proof (co_length _ _ _ Hs) as L1. pose proof (co_dist _ _ _ Hs) as L2.
  assert (0 <= q < n) as Hq by lia. pose proof (cache_at_room _ _ _ Hs Hq) as Hroom.
  destruct (cache_available_spec _ _ _ Hs Hq) as (available & -> & Ha). rewrite outcome_bind_ret.
  rewrite (index_ok (lmc_length c)), outcome_bind_ret by lia.
  destruct available; cbv beta iota; [|rewrite outcome_bind_ret, andb_false_l; by eexists].
  assert (exists m, ZopfliMaxCachedSublen c q = Ret m /\ 0 <= m) as (m & Em & Hm0).
  { destruct (co_entries _ _ _ Hs q Hq) as [(_ & _ & Hb)|(_ & _ & _ & f & m & Hc & _)].
    - exists 0. split; [by apply max_cached_blank; try lia|done].
    - exists m. split; [apply (max_cached_spec _ _ f); (lia || done)|]. destruct Hc as (es & _ & R & Hl & _). pose proof (runs_last _ _ _ _ R Hl). lia. }
  assert (exists ok : bool, (if (limit =? ZOPFLI_MAX_MATCH) || (table_at (lmc_length c) q <=? limit) then Ret true
     else match given with None => Ret false | Some _ => m ← ZopfliMaxCachedSublen c q; Ret (limit <=? m) end) = Ret ok /\
     (table_at (lmc_length c) q = 0 -> ok = true)) as (ok & -> & Hok).
  { destruct (_ || _) eqn:E; [by exists true|]. assert (table_at (lmc_length c) q <> 0) by (intros Hz; apply orb_false_iff in E as [_ E]; lia).
    destruct given; [rewrite Em, outcome_bind_ret|]; eexists; by split. }
  rewrite outcome_bind_ret. destruct ok; [|by eexists]. cbn [andb].
  destruct (co_entries _ _ _ Hs q Hq) as [(Hl & Hd & Hb)|(Hl & Hlong & Hm & f & m' & Hc & Hml & Hf & Hfd)].
  - destruct Hl as [Hl|[Hl (m0 & Hm0' & Hlt)]]; [destruct Ha; lia|]. replace (blockstart s + q) with pos in Hm0' by lia.
    assert (length_ok limit 0) as Hlok by (exists m0; split; [done|]; intros _; right; lia). rewrite Hl. rewrite (proj2 (Z.ltb_ge limit 0)) by lia.
    assert ((match given with None => Ret true | Some _ => m ← ZopfliMaxCachedSublen c q; Ret (0 <=? m) end) = Ret true) as ->.
    { destruct given; [|done]. by rewrite Em, outcome_bind_ret, (proj2 (Z.leb_le _ _)). }
    rewrite outcome_bind_ret. rewrite andb_false_r. destruct given as [g|] eqn:Eg.
    + unfold ZopfliCacheToSublen. rewrite Em, !outcome_bind_ret. cbn [Z.ltb Z.compare]. rewrite outcome_bind_ret.
      specialize (Hgiven g eq_refl). rewrite index_ok, !outcome_bind_ret by lia.
      eexists. split; [done|]. split; [|done]. split; [lia|]. split; [lia|]. split; [lia|]. rewrite Eg. split; [done|]. intros i Hi. lia.
    + rewrite index_ok, outcome_bind_ret by lia. eexists. split; [done|]. split; [|done]. split; [lia|]. split; [lia|]. split; [lia|]. by rewrite Eg.
  - replace (blockstart s + q) with pos in * by lia. eapply answer_from_match; (done || lia || idtac).
Qed.

(** An entry is not touched by what is stored for another one. *)
Lemma entry_stays c q q' x l d t : 0 <= q -> 0 <= q' -> q' <> q -> q < Z.of_nat (length (lmc_length c)) -> q < Z.of_nat (length (lmc_dist c)) ->
  frame (cache_at q) (lmc_sublen c) t -> entry_ok c q' x ->
  entry_ok (MkCache (<[Z.to_nat q := l]> (lmc_length c)) (<[Z.to_nat q := d]> (lmc_dist c)) t) q' x.
Proof.
  intros Hq Hq' Hne Hl Hd Hfr He. unfold entry_ok, blank in *. cbn [lmc_length lmc_dist lmc_sublen].
  rewrite !table_at_insert, !(proj2 (Z.eqb_neq _ _)) by lia.
  assert (cache_at q' + 24 <= cache_at q \/ cache_at q + 24 <= cache_at q') as Ho by (unfold cache_at, ZOPFLI_CACHE_LENGTH; lia).
  assert (0 <= cache_at q') as Hc by (unfold cache_at, ZOPFLI_CACHE_LENGTH; lia).
  destruct He as [(H1 & H2 & H3 & H4)|(H1 & H2 & H2' & f & m & H3 & H4)]; [left|right].
  - do 2 (split; [done|]). destruct Hfr as [_ Hfr]. rewrite !Hfr by lia. by split.
  - do 3 (split; [done|]). exists f, m. split; [|done]. by apply (cached_frame _ (cache_at q) (lmc_sublen c)).
Qed.

(** What is stored in an entry that is not filled in. *)
Lemma fill_entry c q sl l d : 0 <= q -> q < Z.of_nat (length (lmc_length c)) -> q < Z.of_nat (length (lmc_dist c)) ->
  cache_at q + 24 <= Z.of_nat (length (lmc_sublen c)) -> blank c q -> 1 <= l <= 258 -> longest pos l ->
  (2 <= l -> match_at pos d l) -> sublen_ok pos given (Some sl) l d ->
  let l' := if l <? ZOPFLI_MIN_MATCH then 0 else l in
  let d' := if l <? ZOPFLI_MIN_MATCH then 0 else d in
  exists t, let c' := MkCache (<[Z.to_nat q := l']> (lmc_length c)) (<[Z.to_nat q := d']> (lmc_dist c)) in
    ZopfliSublenToCache sl q l (c' (lmc_sublen c)) = Ret (c' t) /\ frame (cache_at q) (lmc_sublen c) t /\ entry_ok (c' t) q pos.
Proof.
  intros Hq Hql Hqd Hroom Hb Hl Hlong Hm Hsub l' d'. cbv zeta. unfold entry_ok, blank. cbn [lmc_length lmc_dist lmc_sublen].
  rewrite !table_at_insert, !Z.eqb_refl by lia. unfold l', d', ZOPFLI_MIN_MATCH. destruct (Z.ltb_spec l 3) as [Hlt|Hge].
  - exists (lmc_sublen c). unfold ZopfliSublenToCache. cbv zeta. rewrite (proj2 (Z.ltb_lt _ _)) by done. split; [done|]. split; [done|]. left.
    split; [right; split; [done|]; by exists l|]. by split.
  - destruct given as [g|]; [|done]. destruct Hsub as (Hlen & Hsl & Hlast).
    assert (forall i, 3 <= i <= l -> 1 <= table_at sl i < 65536) as Hr
      by (intros i Hi; destruct (Hsl i ltac:(lia)) as [? _]; unfold W in *; lia).
    destruct (SublenToCache_spec sl q l (MkCache (<[Z.to_nat q := l]> (lmc_length c)) (<[Z.to_nat q := d]> (lmc_dist c)) (lmc_sublen c)))
      as (t & m & -> & Hc & Hml & Hfr & _); try done; try lia.
    { intros i Hi. specialize (Hr i Hi). lia. }
    { specialize (Hr 3 ltac:(lia)). lia. }
    cbn [lmc_length lmc_dist lmc_sublen] in *. exists t. split; [done|]. split; [done|]. right. split; [lia|]. split; [done|]. split; [apply Hm; lia|].
    exists (table_at sl), m. split; [done|]. split; [lia|]. split; [intros i Hi; apply Hsl; lia|]. intros ->. apply Hlast. lia.
Qed.

Lemma Store_spec s limit sublen d l : state_ok n s -> blockstart s <= pos < blockstart s + n -> pos < end_ -> 1 <= l <= 258 -> (limit = 258 -> longest pos l) ->
  (2 <= l -> match_at pos d l) -> sublen_ok pos given sublen l d ->
  exists s', StoreInLongestMatchCache s pos limit sublen d l = Ret s' /\ state_ok n s' /\ blockstart s' = blockstart s.
Proof.
  intros [H0 Hs] Hp Hpe Hl Hlong Hm Hsub. unfold StoreInLongestMatchCache.
  destruct (lmc s) as [c|] eqn:Es; [|exists s; split; [done|]; split; [|done]; split; [done|by rewrite Es]]. rewrite cache_slot by lia. cbv zeta.
  set (q := pos - blockstart s) in *. pose proof (co_length _ _ _ Hs) as L1. pose proof (co_dist _ _ _ Hs) as L2.
  assert (0 <= q < n) as Hq by lia. pose proof (cache_at_room _ _ _ Hs Hq) as Hroom.
  destruct (cache_available_spec _ _ _ Hs Hq) as (available & -> & Ha). rewrite outcome_bind_ret.
  assert (exists s', Ret s = Ret s' /\ state_ok n s' /\ blockstart s' = blockstart s) as Hsame
    by (exists s; split; [done|]; split; [|done]; split; [done|by rewrite Es]).
  destruct sublen as [sl|]; [|done]. destruct (Z.eqb_spec limit ZOPFLI_MAX_MATCH) as [Hlim|]; [|done]. specialize (Hlong Hlim). destruct available; [done|]. cbn [negb andb].
  destruct Ha as (E1 & E2 & Hb). rewrite (index_ok (lmc_length c)), (index_ok (lmc_dist c)), !outcome_bind_ret, E1, E2 by lia.
  rewrite assertion_holds by done. rewrite !assign_ok, !outcome_bind_ret by lia. rewrite !index_ok, !outcome_bind_ret by (rewrite length_insert; lia).
  rewrite !table_at_insert, !Z.eqb_refl by lia.
  rewrite assertion_holds by (unfold ZOPFLI_MIN_MATCH; destruct (Z.ltb_spec l 3); [done|]; by rewrite (proj2 (Z.eqb_neq l 1)) by lia).
  destruct (fill_entry c q sl l d) as (t & -> & Hfr & Hent); try done; try lia.
  rewrite outcome_bind_ret. eexists. split; [done|]. split; [|done]. split; [done|]. cbn [lmc blockstart].
  constructor; cbn [lmc_length lmc_dist lmc_sublen]; rewrite ?length_insert; try done.
  - destruct Hfr as [-> _]. apply (co_sublen _ _ _ Hs).
  - intros q' Hq'. destruct (Z.eq_dec q' q) as [->|Hne]; [by replace (blockstart s + q) with pos by lia|].
    apply entry_stays; try done; try lia. by apply (co_entries _ _ _ Hs).
Qed.

Lemma FindLongestMatch_spec s h limit : state_ok n s -> blockstart s <= pos < blockstart s + n -> ws <= pos < end_ -> 3 <= limit <= 258 ->
  hash_ok array ws end_ (pos + 1) h ->
  exists s' sublen d l, ZopfliFindLongestMatch s h array pos end_ limit given = Ret (s', sublen, d, l) /\
    state_ok n s' /\ blockstart s' = blockstart s /\ result_ok 258 sublen d l /\ (given = None \/ limit = 258 -> l <= limit) /\ length_ok limit l.
Proof.
  intros Hs Hp Hpe Hlim Hh.
  destruct (TryGet_spec s limit Hs Hp ltac:(lia) Hlim) as (r & Er & Hr). destruct r as [sl d l|limit'].
  { destruct Hr as [(R1 & R2 & R3) Hlok]. unfold ZopfliFindLongestMatch. rewrite Er, outcome_bind_ret. rewrite assertion_holds by lia.
    exists s, sl, d, l. do 3 (split; [done|]). split; [by split; [lia|]|]. split; [lia|done]. }
  destruct Hr as [Hl' Hle]. destruct (Z.lt_ge_cases (end_ - pos) 3) as [Hshort|Hlong].
  { unfold ZopfliFindLongestMatch. rewrite Er, outcome_bind_ret. unfold ZOPFLI_MAX_MATCH, ZOPFLI_MIN_MATCH. rewrite !assertion_holds by lia.
    rewrite (proj2 (Z.ltb_lt _ _)) by lia. exists s, given, 0, 0. split; [done|]. split; [done|]. split; [done|]. split.
    - split; [lia|]. split; [lia|]. split; [lia|]. destruct given as [g|]; [|done]. split; [by apply Hgiven|lia].
    - split; [lia|]. exists 0. split; [apply (longest_short pos h); (done || lia)|]. intros _. lia. }
  rewrite (find_searches h pos given Hh ltac:(lia) s limit limit' ltac:(lia) Er Hl' Hlong). cbv zeta.
  set (u := if end_ <? pos + limit' then end_ - pos else limit'). assert (3 <= u <= limit' /\ pos + u <= end_ /\ (u = limit' \/ u = end_ - pos)) as (Hu & Hue & Hu')
    by (unfold u; destruct (Z.ltb_spec end_ (pos + limit')); lia).
  destruct (search_longest h pos given u Hh ltac:(lia) Hgiven Hlong ltac:(lia) Hue) as (t & m & -> & (Hb & Hm & Hsub) & Hmax & Emax). rewrite outcome_bind_ret.
  destruct (Store_spec s u (found_sublen t) (bestdist t) (bestlength t) Hs Hp ltac:(lia) ltac:(lia)) as (s' & -> & Hs' & Hbs); [|done|done|].
  { intros ->. rewrite Emax. replace (Z.min 258 m) with m; [done|]. symmetry. apply Z.min_r. by apply (longest_range pos). }
  rewrite outcome_bind_ret, !assertion_holds by lia. eexists s', _, _, _. split; [done|]. split; [done|]. split; [done|]. split; [|split].
  - split; [lia|]. split; [lia|]. split; [intros ?; apply Hm; lia|].
    destruct given as [g|], (found_sublen t) as [sl|]; try done. destruct Hsub as (S1 & S2 & _). split; [done|]. intros i Hi. apply S2. lia.
  - intros H. destruct (Hle H); lia.
  - exists m. split; [done|]. intros H. left. rewrite Emax. pose proof (longest_range pos m Hmax).
    destruct (Hle H) as [->|[? Hlm]]; [lia|]. pose proof (longest_unique _ _ _ Hmax Hlm). lia.
Qed.
End cache.

Lemma hashed_ok n : ws + 1 < Z.of_nat (length array) -> ws <= n <= end_ ->
  exists h, hashed array ws end_ n = Ret h /\ hash_ok array ws end_ n h.
Proof.
  intros Hw Hn. unfold hashed. destruct (ZopfliWarmupHash_ok array ws end_ Hws Hw) as (h0 & -> & Hh0). rewrite outcome_bind_ret.
  destruct (for_each_seqZ (fun i h => hash_ok array ws end_ i h) (fun i h => ZopfliUpdateHash array i end_ h) ws (n - ws) h0)
    as (h & -> & Hh); [lia|done|intros; apply ZopfliUpdateHash_spec; (done || lia)|].
  exists h. split; [done|]. by replace n with (ws + (n - ws)) by lia.
Qed.

Lemma InitCache_ok start n : 0 <= n -> cache_ok start n (ZopfliInitCache n).
Proof.
  intros Hn. constructor; cbn [ZopfliInitCache lmc_length lmc_dist lmc_sublen]; rewrite ?length_replicate; unfold ZOPFLI_CACHE_LENGTH; try lia.
  intros q Hq. left. unfold blank, ZopfliInitCache. cbn [lmc_length lmc_dist lmc_sublen]. rewrite !table_at_replicate. split; [left|done].
  unfold table_at. by rewrite (proj2 (Z.ltb_ge _ _)), lookup_replicate_2 by lia.
Qed.
End array.

(** Ten distances for the lengths from 3 to 12, of which eight fit in the cache. *)
Definition ten_distances : list Z := 0 :: 0 :: 0 :: seqZ 21 10 ++ replicate 246 0.

(** The cache can raise the limit that the caller asks for: lengths up to 12 are
    searched for where at most 5 was asked for. No caller asks so with [sublen]. *)
Lemma limit_is_raised :
  (c ← ZopfliSublenToCache ten_distances 0 12 (MkCache [12] [30] (replicate 24 0));
   TryGetFromLongestMatchCache (MkState (Some c) 100) 100 5 (Some (replicate 259 0))) = Ret (NotCached 12).
Proof. vm_compute. reflexivity. Qed.

(** ** Properties *)

(** C11. [ZopfliFindLongestMatch], on the hash of the bytes up to [pos] and
    whatever longest matches and distances the cache holds for the data, fails no
    assertion and reads within its arrays. The length is at most 258, at most the
    limit for the callers' limits, and not past the end; from 3 on, the bytes at
    [pos] are those at the distance, and so for each shorter length with the
    distance in [sublen]; what is put into the cache is again right. For the
    callers' limits the length is the one without a cache, or the limit: neither
    the cache nor a smaller limit makes the search miss what it finds otherwise. *)
Theorem longest_match_sound array ws pos size n s limit given
    (Hws : 0 <= ws <= pos) (Hpos : pos < size) (Hsize : size <= Z.of_nat (length array)) (Hmax : size < 2 ^ 63)
    (Hwarm : ws + 1 < Z.of_nat (length array)) (Hlimit : 3 <= limit <= 258)
    (Hs : state_ok array ws size n s) (Hblock : blockstart s <= pos < blockstart s + n)
    (Hgiven : forall sl, given = Some sl -> length sl = 259%nat) :
  exists h s' sublen d l, hashed array ws size (pos + 1) = Ret h /\
    ZopfliFindLongestMatch s h array pos size limit given = Ret (s', sublen, d, l) /\
    state_ok array ws size n s' /\ blockstart s' = blockstart s /\
    result_ok array size pos given 258 sublen d l /\ (given = None \/ limit = 258 -> l <= limit) /\
    length_ok array ws size pos given limit l.
Proof.
  destruct (hashed_ok array ws size ltac:(lia) Hsize (pos + 1) Hwarm ltac:(lia)) as (h & Eh & Hh).
  destruct (FindLongestMatch_spec array ws size ltac:(lia) Hsize Hmax n pos given Hgiven s h limit Hs Hblock ltac:(lia) Hlimit Hh)
    as (s' & sl & d & l & E & R). by exists h, s', sl, d, l.
Qed.

Lemma longest_match_sound_witness :
  exists h s' sublen d l, hashed banana 0 9 (3 + 1) = Ret h /\
    ZopfliFindLongestMatch (MkState (Some (ZopfliInitCache 9)) 0) h banana 3 9 258 (Some (replicate 259 0)) = Ret (s', sublen, d, l) /\
    state_ok banana 0 9 9 s' /\ blockstart s' = 0 /\
    result_ok banana 9 3 (Some (replicate 259 0)) 258 sublen d l /\ (Some (replicate 259 0) = None \/ 258 = 258 -> l <= 258) /\
    length_ok banana 0 9 3 (Some (replicate 259 0)) 258 l.
Proof.
  apply (longest_match_sound banana 0 3 9 9 (MkState (Some (ZopfliInitCache 9)) 0)); try (cbn; lia).
  - split; [cbn; lia|]. cbn [lmc blockstart]. apply InitCache_ok. lia.
  - intros sl [= <-]. reflexivity.
Defined.
