(* ===== verification/ZopfliGreedy.v ===== *)
(** * Zopfli: greedy parsing

    [ZopfliLZ77Greedy] of [lz77.cc], with its lazy matching
    ([ZOPFLI_LAZY_MATCHING] is defined): the LZ77 items of a block.

    Proved here: the items stand for the bytes of the block, with the bytes
    before it as dictionary, and no assertion on the way fails. *)

From S2P Require Import Prelude ZopfliUtil ZopfliBits ZopfliTree Katajainen CodeLengths Inflate ZopfliDeflate ZopfliBlocks ZopfliRoundTrip ZopfliHash ZopfliCache ZopfliMatch.

Local Open Scope Z_scope.

(** Far matches count one less. *)
Definition GetLengthValue (length distance : Z) : Z := if 1024 <? distance then length - 1 else length.

Definition ZopfliVerifyLenDist (data : list Z) (datasize pos dist length : Z) : outcome unit :=
  _ ← assertion (pos + length <=? datasize);
  for_each (seqZ 0 length) (fun i _ => a ← index data (pos - dist + i); b ← index data (pos + i); assertion (a =? b)) tt.

(** The variables of the loop. *)
Record greedy : Type := MkGreedy {
  g_state : ZopfliBlockState; g_hash : ZopfliHash; g_sublen : list Z; g_store : ZopfliLZ77Store;
  prev_length : Z; prev_match : Z; match_available : bool; g_i : Z
}.

(** [for (j = from; j < leng; j++)]: the bytes of a match are hashed. *)
Definition advance (in_ : list Z) (inend from leng : Z) (s : Z * ZopfliHash) : outcome (Z * ZopfliHash) :=
  for_each (seqZ from (leng - from)) (fun _ '(i, h) =>
    _ ← assertion (i <? inend);
    h ← ZopfliUpdateHash in_ (i + 1) inend h;
    Ret (i + 1, h)) s.

Section greedy.
Context (in_ : list Z) (inend : Z).

(** "Add to output": the match of [g_i], or the byte there. *)
Definition add_to_output (g : greedy) (leng dist : Z) : outcome greedy :=
  let i := g_i g in
  '(leng, store) ← (if ZOPFLI_MIN_MATCH <=? GetLengthValue leng dist then
      _ ← ZopfliVerifyLenDist in_ inend i dist leng;
      Ret (leng, ZopfliStoreLitLenDist leng dist (g_store g))
    else c ← index in_ i; Ret (1, ZopfliStoreLitLenDist c 0 (g_store g)));
  '(i, h) ← advance in_ inend 1 leng (i, g_hash g);
  Ret (MkGreedy (g_state g) h (g_sublen g) store (prev_length g) (prev_match g) (match_available g) i).

(** "Add previous to output". *)
Definition add_previous (g : greedy) : outcome greedy :=
  let i := g_i g in
  let leng := u16 (prev_length g) in
  let dist := u16 (prev_match g) in
  _ ← ZopfliVerifyLenDist in_ inend (i - 1) dist leng;
  let store := ZopfliStoreLitLenDist leng dist (g_store g) in
  '(i, h) ← advance in_ inend 2 leng (i, g_hash g);
  Ret (MkGreedy (g_state g) h (g_sublen g) store (prev_length g) (prev_match g) (match_available g) i).

(** The body of the loop. *)
Definition greedy_step (g : greedy) : outcome greedy :=
  let i := g_i g in
  h ← ZopfliUpdateHash in_ i inend (g_hash g);
  '(s, sl, dist, leng) ← ZopfliFindLongestMatch (g_state g) h in_ i inend ZOPFLI_MAX_MATCH (Some (g_sublen g));
  let sl := default (g_sublen g) sl in
  let lengvalue := GetLengthValue leng dist in
  let prevlengvalue := GetLengthValue (prev_length g) (prev_match g) in
  if match_available g then
    let g := MkGreedy s h sl (g_store g) (prev_length g) (prev_match g) false i in
    if prevlengvalue + 1 <? lengvalue then
      c ← index in_ (i - 1);
      let g := MkGreedy s h sl (ZopfliStoreLitLenDist c 0 (g_store g)) (prev_length g) (prev_match g) false i in
      if (ZOPFLI_MIN_MATCH <=? lengvalue) && (lengvalue <? ZOPFLI_MAX_MATCH)
      then Ret (MkGreedy s h sl (g_store g) leng dist true i)
      else add_to_output g leng dist
    else add_previous g
  else if (ZOPFLI_MIN_MATCH <=? lengvalue) && (leng <? ZOPFLI_MAX_MATCH)
  then Ret (MkGreedy s h sl (g_store g) leng dist true i)
  else add_to_output (MkGreedy s h sl (g_store g) (prev_length g) (prev_match g) false i) leng dist.

(** [i++] *)
Definition next_i (g : greedy) : greedy :=
  MkGreedy (g_state g) (g_hash g) (g_sublen g) (g_store g) (prev_length g) (prev_match g) (match_available g) (g_i g + 1).

Fixpoint greedy_loop (fuel : nat) (g : greedy) : outcome greedy :=
  if g_i g <? inend then
    match fuel with
    | O => Undefined
    | S f => g ← greedy_step g; greedy_loop f (next_i g)
    end
  else Ret g.
End greedy.

Definition windowstart (instart : Z) : Z := if ZOPFLI_WINDOW_SIZE <? instart then instart - ZOPFLI_WINDOW_SIZE else 0.

(** The state and the store; what [dummysublen] holds at first is left open. *)
Definition ZopfliLZ77Greedy (s : ZopfliBlockState) (in_ : list Z) (instart inend : Z) (store : ZopfliLZ77Store)
    (dummysublen : list Z) : outcome (ZopfliBlockState * ZopfliLZ77Store) :=
  let ws := windowstart instart in
  if instart =? inend then Ret (s, store)
  else
    h ← ZopfliWarmupHash in_ ws (ZopfliInitHash ZOPFLI_WINDOW_SIZE);
    h ← for_each (seqZ ws (instart - ws)) (fun i h => ZopfliUpdateHash in_ i inend h) h;
    g ← greedy_loop in_ inend (Z.to_nat (inend - instart)) (MkGreedy s h dummysublen store 0 0 false instart);
    Ret (g_state g, g_store g).

Example greedy_example :
  ('(_, store) ← ZopfliLZ77Greedy (MkState None 0) banana 0 9 ZopfliInitLZ77Store (replicate 259 0); Ret store)
  = Ret (MkStore [98; 97; 110; 5; 115] [0; 0; 0; 2; 0]).
Proof. vm_compute. reflexivity. Qed.

(** ** Items of a parsing *)

Lemma copy_match_length k d o1 o2 : copy_match k d o1 = Some o2 -> length o2 = (length o1 + k)%nat.
Proof.
  revert o1. induction k as [|k IH]; intros o1 Ho; [injection Ho as <-; lia|]. cbn [copy_match] in Ho. destruct (_ && _); [|done].
  destruct (o1 !! _); [|done]. cbn [mbind option_bind] in Ho. apply IH in Ho. rewrite length_app in Ho. cbn in Ho. lia.
Qed.

(** Each item stands for at least one byte. *)
Lemma lz_decode_length items output data : Forall item_ok items -> lz_decode items output = Some data ->
  (length items + length output <= length data)%nat.
Proof.
  intros Hok. revert output. induction Hok as [|[l d] items Hi _ IH]; intros output Hd; [by injection Hd as <-|]. cbn [lz_decode length] in *.
  destruct (Z.eqb_spec d 0) as [->|Hne]; [apply IH in Hd; rewrite length_app in Hd; cbn in Hd; lia|].
  destruct (copy_match (Z.to_nat l) d output) as [o|] eqn:E; [|done]. cbn [mbind option_bind] in Hd. apply IH in Hd.
  apply copy_match_length in E. destruct Hi as [[? _]|[_ ?]]; cbn [fst snd] in *; lia.
Qed.

Section block.
Context (in_ : list Z) (ws inend n : Z) (start : ZopfliLZ77Store) (instart : Z).
Context (Hbytes : Forall is_byte in_) (Hws : 0 <= ws) (Hinend : inend <= Z.of_nat (length in_)) (Hsize : inend < 2 ^ 63).
Context (Hstart : ws <= instart).

Lemma table_at_lookup table i x : 0 <= i -> table !! Z.to_nat i = Some x -> table_at table i = x.
Proof. intros Hi Hx. unfold table_at. by rewrite (proj2 (Z.ltb_ge _ _)), Hx by lia. Qed.

Lemma copy_match_spec x d k m : match_at in_ inend x d (Z.of_nat (k + m)) ->
  copy_match m d (take (Z.to_nat x + k) in_) = Some (take (Z.to_nat x + k + m) in_).
Proof.
  intros Hm. revert k Hm. induction m as [|m IH]; intros k Hm; [by rewrite Nat.add_0_r|]. cbn [copy_match].
  pose proof Hm as (H1 & H2 & _ & H4 & H5). assert (length (take (Z.to_nat x + k) in_) = (Z.to_nat x + k)%nat) as Hl by (rewrite length_take; lia).
  rewrite Hl, (proj2 (Z.leb_le _ _)), (proj2 (Z.leb_le _ _)) by lia. cbn [andb].
  specialize (H5 (Z.of_nat k) ltac:(lia)). destruct (lookup_lt_is_Some_2 in_ (Z.to_nat x + k)) as [b Hb]; [lia|].
  rewrite lookup_take_lt by lia.
  destruct (lookup_lt_is_Some_2 in_ (Z.to_nat (Z.of_nat (Z.to_nat x + k) - d))) as [b' Hb']; [lia|].
  rewrite (table_at_lookup _ _ b), (table_at_lookup _ _ b') in H5; try lia;
    [|rewrite <-Hb'; f_equal; lia|rewrite <-Hb; f_equal; lia]. rewrite Hb', <-H5.
  cbn [mbind option_bind]. rewrite <-(take_S_r _ _ _ Hb). replace (S (Z.to_nat x + k)) with (Z.to_nat x + S k)%nat by lia.
  rewrite IH by (by replace (S k + m)%nat with (k + S m)%nat by lia). do 2 f_equal. lia.
Qed.

Definition store_with (items : list (Z * Z)) : ZopfliLZ77Store :=
  MkStore (litlens start ++ items.*1) (dists start ++ items.*2).

(** The items stand for the bytes up to [x]. *)
Definition parsed (store : ZopfliLZ77Store) (x : Z) : Prop :=
  exists items, store = store_with items /\ Forall item_ok items /\
    lz_decode items (take (Z.to_nat instart) in_) = Some (take (Z.to_nat x) in_).

Lemma parsed_start : parsed start instart.
Proof. exists []. split; [|by split]. unfold store_with. rewrite !app_nil_r. by destruct start. Qed.

Lemma parsed_snoc store x y l d : parsed store x -> item_ok (l, d) ->
  lz_decode [(l, d)] (take (Z.to_nat x) in_) = Some (take (Z.to_nat y) in_) -> parsed (ZopfliStoreLitLenDist l d store) y.
Proof.
  intros (items & -> & Hok & Hdec) Hi Hd. exists (items ++ [(l, d)]). split; [|split].
  - unfold store_with, ZopfliStoreLitLenDist. cbn [litlens dists]. rewrite !fmap_app, <-!app_assoc. cbn [fmap list_fmap fst snd].
    assert (u16 l = l /\ u16 d = d) as [-> ->]; [|done].
    destruct Hi as [[? ?]|[? ?]]; cbn [fst snd] in *; split; apply Z.mod_small; lia.
  - apply Forall_app. split; [done|]. by apply Forall_singleton.
  - by rewrite lz_decode_app, Hdec.
Qed.

Lemma parsed_literal store x : parsed store x -> 0 <= x < inend -> parsed (ZopfliStoreLitLenDist (table_at in_ x) 0 store) (x + 1).
Proof.
  intros Hp Hx. destruct (lookup_lt_is_Some_2 in_ (Z.to_nat x)) as [b Hb]; [lia|].
  assert (table_at in_ x = b) as -> by (apply table_at_lookup; (lia || done)).
  eapply parsed_snoc; [done| |].
  - left. cbn. split; [done|]. by apply (Forall_lookup_1 _ _ _ _ Hbytes Hb).
  - cbn [lz_decode Z.eqb]. rewrite <-(take_S_r _ _ _ Hb). do 2 f_equal. lia.
Qed.

Lemma parsed_match store x l d : parsed store x -> match_at in_ inend x d l -> 3 <= l <= 258 -> 0 <= x ->
  parsed (ZopfliStoreLitLenDist l d store) (x + l).
Proof.
  intros Hp Hm Hl Hx. pose proof Hm as (Hd & _). eapply parsed_snoc; [done| |].
  - right. cbn. unfold ZOPFLI_WINDOW_SIZE in Hd. lia.
  - cbn [lz_decode]. rewrite (proj2 (Z.eqb_neq _ _)) by lia.
    pose proof (copy_match_spec x d 0 (Z.to_nat l)) as H. rewrite Nat.add_0_r, Nat.add_0_l, Z2Nat.id in H by lia.
    rewrite (H Hm). cbn [mbind option_bind]. do 2 f_equal. lia.
Qed.

Lemma verify_ok x d l : match_at in_ inend x d l -> 0 <= x -> ZopfliVerifyLenDist in_ inend x d l = Ret tt.
Proof.
  intros (H1 & H2 & H3 & H4 & H5) Hx. unfold ZopfliVerifyLenDist. rewrite assertion_holds by lia.
  destruct (for_each_seqZ (fun _ _ => True) (fun i (_ : unit) => a ← index in_ (x - d + i); b ← index in_ (x + i); assertion (a =? b)) 0 l tt)
    as ([] & E & _); [done|done| |done].
  intros i s Hi _. exists tt. split; [|done]. rewrite !index_ok, !outcome_bind_ret by lia. unfold assertion.
  by rewrite H5, Z.eqb_refl by lia.
Qed.

Lemma advance_spec from leng i h : from <= leng -> hash_ok in_ ws inend (i + 1) h -> ws <= i + 1 -> i + leng - from < inend ->
  exists h', advance in_ inend from leng (i, h) = Ret (i + (leng - from), h') /\ hash_ok in_ ws inend (i + (leng - from) + 1) h'.
Proof.
  intros Hf Hh Hi Hl. unfold advance.
  destruct (for_each_seqZ (fun j '(i', h') => i' = i + (j - from) /\ hash_ok in_ ws inend (i' + 1) h') (fun (_ : Z) '(i, h) =>
    _ ← assertion (i <? inend); h ← ZopfliUpdateHash in_ (i + 1) inend h; Ret (i + 1, h)) from (leng - from) (i, h)) as ([i' h'] & E & -> & Hh').
  - lia.
  - split; [lia|done].
  - intros j [i' h'] Hj [-> Hh']. rewrite assertion_holds by lia.
    destruct (ZopfliUpdateHash_spec in_ ws inend Hws Hinend (i + (j - from) + 1) h' Hh' ltac:(lia)) as (h2 & -> & Hh2).
    rewrite outcome_bind_ret. eexists. split; [done|]. split; [lia|done].
  - exists h'. replace (from + (leng - from) - from) with (leng - from) in * by lia. by split.
Qed.

(** ** The loop *)

Context (bs : Z) (Hbs : 0 <= bs <= instart) (Hblock : inend <= bs + n).

(** The variables, with the bytes before [m] hashed and those before [x] parsed. *)
Record loop_ok (g : greedy) (m x : Z) : Prop := {
  lo_hash : hash_ok in_ ws inend m (g_hash g);
  lo_state : state_ok in_ ws inend n (g_state g);
  lo_start : blockstart (g_state g) = bs;
  lo_sublen : length (g_sublen g) = 259%nat;
  lo_parsed : parsed (g_store g) x;
}.

(** A match that waits for a better one. *)
Definition pending (g : greedy) (x : Z) : Prop :=
  instart <= x /\ match_at in_ inend x (prev_match g) (prev_length g) /\ 3 <= prev_length g <= 258.

(** At the head of the loop. *)
Definition greedy_ok (g : greedy) : Prop :=
  instart <= g_i g <= inend /\
  if match_available g then loop_ok g (g_i g) (g_i g - 1) /\ pending g (g_i g - 1) else loop_ok g (g_i g) (g_i g).

Lemma length_value_match l d : ZOPFLI_MIN_MATCH <= GetLengthValue l d -> 3 <= l.
Proof. unfold GetLengthValue, ZOPFLI_MIN_MATCH. destruct (1024 <? d); lia. Qed.

Lemma add_to_output_spec g l d : match_available g = false -> instart <= g_i g < inend -> loop_ok g (g_i g + 1) (g_i g) ->
  0 <= l <= 258 -> (3 <= l -> match_at in_ inend (g_i g) d l) ->
  exists g', add_to_output in_ inend g l d = Ret g' /\ greedy_ok (next_i g') /\ g_i g <= g_i g'.
Proof.
  intros Hav Hi Hg Hl Hm. unfold add_to_output. cbv zeta.
  assert (exists l' store', (if ZOPFLI_MIN_MATCH <=? GetLengthValue l d then
      _ ← ZopfliVerifyLenDist in_ inend (g_i g) d l; Ret (l, ZopfliStoreLitLenDist l d (g_store g))
    else c ← index in_ (g_i g); Ret (1, ZopfliStoreLitLenDist c 0 (g_store g))) = Ret (l', store') /\
    1 <= l' /\ g_i g + l' <= inend /\ parsed store' (g_i g + l')) as (l' & store' & -> & Hl1 & Hle & Hp).
  { destruct (Z.leb_spec ZOPFLI_MIN_MATCH (GetLengthValue l d)) as [Hlv%length_value_match|].
    - specialize (Hm Hlv). rewrite verify_ok, outcome_bind_ret by (done || lia). eexists _, _. split; [done|]. split; [lia|].
      split; [by destruct Hm as (_ & _ & _ & ? & _)|]. apply parsed_match; try done; try lia. apply (lo_parsed _ _ _ Hg).
    - rewrite index_ok, outcome_bind_ret by lia. eexists _, _. split; [done|]. split; [lia|]. split; [lia|].
      apply parsed_literal; [apply (lo_parsed _ _ _ Hg)|lia]. }
  rewrite outcome_bind_ret. destruct (advance_spec 1 l' (g_i g) (g_hash g) Hl1 (lo_hash _ _ _ Hg)) as (h' & -> & Hh'); [lia..|].
  rewrite outcome_bind_ret. eexists. split; [done|]. unfold greedy_ok. cbn [next_i g_i match_available]. rewrite Hav.
  split; [|lia]. split; [lia|]. destruct Hg as [_ G2 G3 G4 _].
  constructor; cbn [next_i g_hash g_state g_sublen g_store]; try done. by replace (g_i g + (l' - 1) + 1) with (g_i g + l') by lia.
Qed.

Lemma add_previous_spec g : match_available g = false -> g_i g < inend -> loop_ok g (g_i g + 1) (g_i g - 1) -> pending g (g_i g - 1) ->
  exists g', add_previous in_ inend g = Ret g' /\ greedy_ok (next_i g') /\ g_i g <= g_i g'.
Proof.
  intros Hav Hi Hg (Hx & Hm & Hl). unfold add_previous. cbv zeta. pose proof Hm as (Hd & _ & _ & He & _). unfold ZOPFLI_WINDOW_SIZE in Hd.
  assert (u16 (prev_length g) = prev_length g /\ u16 (prev_match g) = prev_match g) as [-> ->] by (split; apply Z.mod_small; lia).
  rewrite verify_ok, outcome_bind_ret by (done || lia).
  destruct (advance_spec 2 (prev_length g) (g_i g) (g_hash g) ltac:(lia) (lo_hash _ _ _ Hg)) as (h' & -> & Hh'); [lia..|].
  rewrite outcome_bind_ret. eexists. split; [done|]. unfold greedy_ok. cbn [next_i g_i match_available]. rewrite Hav.
  split; [|lia]. split; [lia|]. destruct Hg as [_ G2 G3 G4 G5].
  constructor; cbn [next_i g_hash g_state g_sublen g_store]; try done.
  replace (g_i g + (prev_length g - 2) + 1) with (g_i g - 1 + prev_length g) by lia. apply parsed_match; (done || lia).
Qed.

(** A match of the position waits. *)
Lemma wait_ok s h sl store l d i : loop_ok (MkGreedy s h sl store l d true i) (i + 1) i -> instart <= i < inend ->
  match_at in_ inend i d l -> 3 <= l <= 258 -> greedy_ok (next_i (MkGreedy s h sl store l d true i)).
Proof.
  intros Hg Hi Hm Hl. split; [cbn; lia|]. cbn [next_i match_available g_i]. replace (i + 1 - 1) with i by lia.
  split; [|split; [lia|done]]. destruct Hg. by constructor.
Qed.

Lemma greedy_step_spec g : greedy_ok g -> g_i g < inend ->
  exists g', greedy_step in_ inend g = Ret g' /\ greedy_ok (next_i g') /\ g_i g <= g_i g'.
Proof.
  intros [Hi Hg] Hlt. unfold greedy_step. cbv zeta. set (i := g_i g) in *.
  assert (exists x, loop_ok g i x /\ (if match_available g then x = i - 1 /\ pending g x else x = i)) as (x & [G1 G2 G3 G4 G5] & Hx).
  { destruct (match_available g); [destruct Hg as [Hg Hp]; exists (i - 1)|exists i]; by split. }
  destruct (ZopfliUpdateHash_spec in_ ws inend Hws Hinend i (g_hash g) G1 ltac:(lia)) as (h & -> & Hh). rewrite outcome_bind_ret.
  destruct (FindLongestMatch_spec in_ ws inend Hws Hinend Hsize n i (Some (g_sublen g)) ltac:(by intros ? [= <-]) (g_state g) h ZOPFLI_MAX_MATCH
    G2 ltac:(lia) ltac:(lia) ltac:(done) Hh) as (s & sl & d & l & -> & Hs & Hbs' & (Hl & Hle & Hm & Hsl) & _).
  rewrite outcome_bind_ret. destruct sl as [sl|]; [|done]. destruct Hsl as [Hsl _]. change (default (g_sublen g) (Some sl)) with sl.
  assert (forall store pl pm a y, parsed store y -> loop_ok (MkGreedy s h sl store pl pm a i) (i + 1) y) as Hok
    by (intros; constructor; cbn [g_hash g_state g_sublen g_store]; try done; by rewrite Hbs').
  assert (ZOPFLI_MIN_MATCH <= GetLengthValue l d -> match_at in_ inend i d l /\ 3 <= l <= 258) as Hlv.
  { intros Hv%length_value_match. split; [by apply Hm|lia]. }
  assert (forall store, parsed store i -> greedy_ok (next_i (MkGreedy s h sl store l d true i)) \/ GetLengthValue l d < ZOPFLI_MIN_MATCH) as Hwait.
  { intros store Hp. destruct (Z.le_gt_cases ZOPFLI_MIN_MATCH (GetLengthValue l d)) as [Hv|]; [left|by right].
    destruct (Hlv Hv). apply wait_ok; try done; [by apply Hok|lia]. }
  destruct (match_available g) eqn:Hav; cbn [g_store g_i].
  - destruct Hx as [-> Hp]. destruct (_ <? _) eqn:E.
    + destruct Hp as (Hpi & _). rewrite index_ok, outcome_bind_ret by lia. pose proof (parsed_literal _ _ G5 ltac:(lia)) as Hlit.
      replace (i - 1 + 1) with i in Hlit by lia. destruct (_ && _) eqn:Ew.
      * eexists. split; [done|]. split; [|done]. destruct (Hwait _ Hlit) as [?|?]; [done|]. apply andb_true_iff in Ew as [? _]. lia.
      * apply add_to_output_spec; try done; [cbn [g_i]; lia|by apply Hok].
    + apply add_previous_spec; try done. by apply Hok.
  - subst x. destruct (_ && _) eqn:Ew.
    + eexists. split; [done|]. split; [|done]. destruct (Hwait _ G5) as [?|?]; [done|]. apply andb_true_iff in Ew as [? _]. lia.
    + apply add_to_output_spec; try done; [cbn [g_i]; lia|by apply Hok].
Qed.

Lemma greedy_loop_spec fuel g : greedy_ok g -> inend - g_i g <= Z.of_nat fuel ->
  exists g', greedy_loop in_ inend fuel g = Ret g' /\ state_ok in_ ws inend n (g_state g') /\ blockstart (g_state g') = bs /\ parsed (g_store g') inend.
Proof.
  revert g. induction fuel as [|f IH]; intros g Hg Hf; cbn [greedy_loop]; destruct (Z.ltb_spec (g_i g) inend) as [Hlt|Hge]; try lia.
  2: { destruct (greedy_step_spec g Hg Hlt) as (g' & -> & Hg' & Hi). apply IH; [done|]. cbn [next_i g_i]. lia. }
  all: exists g; split; [done|]; destruct Hg as [Hi Hg]; assert (g_i g = inend) as E by lia; rewrite E in Hg;
    destruct (match_available g); [destruct Hg as [_ (_ & (_ & _ & _ & ? & _) & ?)]; lia|by destruct Hg].
Qed.
End block.

(** ** The block *)

Lemma windowstart_range instart n : 0 <= instart < n -> 2 <= n -> 0 <= windowstart instart <= instart /\ windowstart instart + 1 < n.
Proof. unfold windowstart, ZOPFLI_WINDOW_SIZE. destruct (Z.ltb_spec 32768 instart); lia. Qed.

Lemma ZopfliLZ77Greedy_spec s in_ instart inend store sublen n : Forall is_byte in_ -> inend <= Z.of_nat (length in_) < 2 ^ 63 ->
  2 <= Z.of_nat (length in_) -> 0 <= instart <= inend -> length sublen = 259%nat ->
  state_ok in_ (windowstart instart) inend n s -> blockstart s <= instart -> inend <= blockstart s + n ->
  exists s' store', ZopfliLZ77Greedy s in_ instart inend store sublen = Ret (s', store') /\
    state_ok in_ (windowstart instart) inend n s' /\ blockstart s' = blockstart s /\ parsed in_ store instart store' inend.
Proof.
  intros Hb Hend H2 Hi Hsl Hs Hbs Hn. unfold ZopfliLZ77Greedy.
  pose proof (parsed_start in_ store instart) as Hp0.
  destruct (Z.eqb_spec instart inend) as [<-|Hne]; [exists s, store; by split_and!|].
  set (ws := windowstart instart) in *. destruct (windowstart_range instart (Z.of_nat (length in_))) as [Hws Hws1]; [lia..|]. fold ws in Hws, Hws1.
  cbv zeta. destruct (hashed_ok in_ ws inend ltac:(lia) ltac:(lia) instart Hws1 ltac:(lia)) as (h & Eh & Hh).
  unfold hashed in Eh. apply outcome_bind_ret_inv in Eh as (h0 & -> & Eh). rewrite outcome_bind_ret, Eh, outcome_bind_ret. destruct Hs as [H0 Hs].
  destruct (greedy_loop_spec in_ ws inend n store instart Hb ltac:(lia) ltac:(lia) ltac:(lia) ltac:(lia) (blockstart s) ltac:(lia) ltac:(lia)
    (Z.to_nat (inend - instart)) (MkGreedy s h sublen store 0 0 false instart)) as (g & -> & Hs' & Hbs' & Hp); [|cbn [g_i]; lia|].
  { split; [cbn; lia|]. by constructor. }
  rewrite outcome_bind_ret. exists (g_state g), (g_store g). by split_and!.
Qed.

(** ** Properties *)

(** C27. [ZopfliLZ77Greedy], whatever longest matches the cache holds for the data
    and whatever is in [dummysublen], fails no assertion and adds items to the store that a decoder
    turns, after the bytes before the block, into the bytes of the block. It reads
    the second byte of the data: there must be one. *)
Theorem greedy_parse_correct s in_ instart inend store sublen n
    (Hbytes : Forall is_byte in_) (Hlen : 2 <= Z.of_nat (length in_) < 2 ^ 63) (Hin : 0 <= instart <= inend) (Hend : inend <= Z.of_nat (length in_))
    (Hsublen : length sublen = 259%nat) (Hs : state_ok in_ (windowstart instart) inend n s) (Hblock : blockstart s <= instart /\ inend <= blockstart s + n) :
  exists s' items, ZopfliLZ77Greedy s in_ instart inend store sublen =
      Ret (s', MkStore (litlens store ++ items.*1) (dists store ++ items.*2)) /\
    Forall item_ok items /\ lz_decode items (take (Z.to_nat instart) in_) = Some (take (Z.to_nat inend) in_) /\
    state_ok in_ (windowstart instart) inend n s' /\ blockstart s' = blockstart s.
Proof.
  destruct (ZopfliLZ77Greedy_spec s in_ instart inend store sublen n) as (s' & store' & E & Hs' & Hbs & items & -> & Hok & Hdec); try done; try lia.
  by exists s', items.
Qed.

Lemma greedy_parse_correct_witness :
  exists s' items, ZopfliLZ77Greedy (MkState (Some (ZopfliInitCache 6)) 3) banana 3 9 ZopfliInitLZ77Store (replicate 259 7) =
      Ret (s', MkStore ([] ++ items.*1) ([] ++ items.*2)) /\
    Forall item_ok items /\ lz_decode items (take (Z.to_nat 3) banana) = Some (take (Z.to_nat 9) banana) /\
    state_ok banana 0 9 6 s' /\ blockstart s' = 3.
Proof.
  apply (greedy_parse_correct (MkState (Some (ZopfliInitCache 6)) 3) banana 3 9 ZopfliInitLZ77Store); try (cbn; lia).
  - unfold is_byte. repeat (apply Forall_cons; split; [lia|]). apply Forall_nil. exact I.
  - split; [cbn; lia|]. cbn [lmc blockstart]. apply InitCache_ok. lia.
Defined.

(** Compressing and decompressing: the items of the greedy parsing of a file,
    split anywhere and written as blocks with the fixed or with dynamic codes, are
    decoded by a decoder of RFC 1951 to the file. *)
Theorem greedy_deflate_roundtrip {sort : Qsort} btype s in_ sublen n
    (Hbtype : btype = 1 \/ btype = 2) (Hbytes : Forall is_byte in_) (Hlen : 2 <= Z.of_nat (length in_) < 2 ^ 31)
    (Hsublen : length sublen = 259%nat) (Hs : state_ok in_ 0 (Z.of_nat (length in_)) n s)
    (Hblock : blockstart s = 0 /\ Z.of_nat (length in_) <= n) :
  exists s' store, ZopfliLZ77Greedy s in_ 0 (Z.of_nat (length in_)) ZopfliInitLZ77Store sublen = Ret (s', store) /\
    forall splitpoints, StronglySorted Z.le (0 :: splitpoints ++ [store_size store]) ->
      exists o, add_split_blocks btype true store splitpoints (MkOut 0 []) = Ret o /\ inflate (out o) = Some in_.
Proof.
  destruct (ZopfliLZ77Greedy_spec s in_ 0 (Z.of_nat (length in_)) ZopfliInitLZ77Store sublen n) as (s' & store & E & _ & _ & items & -> & Hok & Hdec); try done; try lia.
  change (Z.to_nat 0) with 0%nat in Hdec. rewrite take_0, Nat2Z.id, firstn_all in Hdec. pose proof (lz_decode_length _ _ _ Hok Hdec) as Hl.
  assert (zip items.*1 items.*2 = items) as Hzip by apply zip_fst_snd.
  exists s'. eexists. split; [exact E|]. intros splitpoints Hsp. apply blocks_inflate, split_blocks_written; try done.
  - constructor; cbn [store_with ZopfliInitLZ77Store litlens dists app]; [by rewrite !length_fmap|rewrite length_fmap; lia|by rewrite Hzip].
  - unfold block_items, store_size. cbn [store_with ZopfliInitLZ77Store litlens dists app].
    rewrite drop_0, Hzip, take_ge; [done|]. rewrite length_fmap. lia.
Qed.

Lemma greedy_deflate_roundtrip_witness :
  exists s' store, ZopfliLZ77Greedy (MkState (Some (ZopfliInitCache 9)) 0) banana 0 9 ZopfliInitLZ77Store (replicate 259 7) = Ret (s', store) /\
    forall splitpoints, StronglySorted Z.le (0 :: splitpoints ++ [store_size store]) ->
      exists o, add_split_blocks (sort := sorting) 2 true store splitpoints (MkOut 0 []) = Ret o /\ inflate (out o) = Some banana.
Proof.
  apply (greedy_deflate_roundtrip (sort := sorting) 2 (MkState (Some (ZopfliInitCache 9)) 0) banana (replicate 259 7) 9); try (cbn; lia).
  - unfold is_byte. repeat (apply Forall_cons; split; [lia|]). apply Forall_nil. exact I.
  - split; [cbn; lia|]. cbn [lmc blockstart]. apply InitCache_ok. lia.
Defined.
