(* ===== verification/ZopfliCost.v ===== *)
(** * Zopfli: cost models

    The first part of [squeeze.cc]: the statistics of symbols, the pseudo-random
    changes that are made to them, and the cost models of the optimal parsing,
    with the fixed codes and with the statistics of an earlier run.

    Proved here: the costs that the models give are finite and in range, and
    statistics stay in range whatever is done to them. *)

From S2P Require Import Prelude CFloat ZopfliUtil ZopfliBits ZopfliTree Katajainen CodeLengths Inflate ZopfliDeflate ZopfliBlocks ZopfliDynamic ZopfliRoundTrip ZopfliEntropy.
From Stdlib Require Import SpecFloat.

Local Open Scope Z_scope.

(** ** Arrays of [double] and [float] *)

Definition float_index (l : list spec_float) (i : Z) : outcome spec_float :=
  or_undefined (if i <? 0 then None else l !! Z.to_nat i).

Definition float_assign (l : list spec_float) (i : Z) (v : spec_float) : outcome (list spec_float) :=
  if (0 <=? i) && (i <? Z.of_nat (length l)) then Ret (<[Z.to_nat i := v]> l) else Undefined.

(** ** Statistics *)

Module SymbolStats.
Record t : Type := Mk { litlens : list Z; dists : list Z; ll_symbols : list spec_float; d_symbols : list spec_float }.
End SymbolStats.

(** [memset] to zero: [0.0] has no bit set. *)
Definition InitStats : SymbolStats.t :=
  SymbolStats.Mk (replicate 288 0) (replicate 32 0) (replicate 288 zero) (replicate 32 zero).

Definition CopyStats (source : SymbolStats.t) : SymbolStats.t :=
  SymbolStats.Mk (SymbolStats.litlens source) (SymbolStats.dists source) (SymbolStats.ll_symbols source) (SymbolStats.d_symbols source).

(** [(size_t)(a * w1 + b * w2)] *)
Definition weigh (w1 w2 : spec_float) (a b : Z) : outcome Z :=
  size_of_double (double_add (double_mul (double_of_Z a) w1) (double_mul (double_of_Z b) w2)).

(** One of the loops: [result] may be one of the arrays that are read, since each
    element is read before it is written. *)
Definition weigh_all (w1 w2 : spec_float) (n : Z) (freqs1 freqs2 result : list Z) : outcome (list Z) :=
  for_each (seqZ 0 n) (fun i r => a ← index freqs1 i; b ← index freqs2 i; v ← weigh w1 w2 a b; assign r i v) result.

Definition AddWeighedStatFreqs (stats1 : SymbolStats.t) (w1 : spec_float) (stats2 : SymbolStats.t) (w2 : spec_float)
    (result : SymbolStats.t) : outcome SymbolStats.t :=
  litlens ← weigh_all w1 w2 288 (SymbolStats.litlens stats1) (SymbolStats.litlens stats2) (SymbolStats.litlens result);
  dists ← weigh_all w1 w2 32 (SymbolStats.dists stats1) (SymbolStats.dists stats2) (SymbolStats.dists result);
  litlens ← assign litlens 256 1;
  Ret (SymbolStats.Mk litlens dists (SymbolStats.ll_symbols result) (SymbolStats.d_symbols result)).

(** ** Random numbers *)

Record RanState : Type := MkRan { m_w : Z; m_z : Z }.

Definition InitRanState : RanState := MkRan 1 2.

Definition Ran (state : RanState) : Z * RanState :=
  let m_z' := u32 (36969 * Z.land (m_z state) 65535 + Z.shiftr (m_z state) 16) in
  let m_w' := u32 (18000 * Z.land (m_w state) 65535 + Z.shiftr (m_w state) 16) in
  (u32 (Z.shiftl m_z' 16 + m_w'), MkRan m_w' m_z').

Definition randomize_freq (n i : Z) (s : RanState * list Z) : outcome (RanState * list Z) :=
  let '(state, freqs) := s in
  let '(r, state) := Ran state in
  if Z.shiftr r 4 mod 3 =? 0 then
    let '(r, state) := Ran state in
    v ← index freqs (r mod n);
    freqs ← assign freqs i v;
    Ret (state, freqs)
  else Ret (state, freqs).

Definition RandomizeFreqs (state : RanState) (freqs : list Z) (n : Z) : outcome (RanState * list Z) :=
  for_each (seqZ 0 n) (randomize_freq n) (state, freqs).

Definition RandomizeStatFreqs (state : RanState) (stats : SymbolStats.t) : outcome (RanState * SymbolStats.t) :=
  '(state, litlens) ← RandomizeFreqs state (SymbolStats.litlens stats) 288;
  '(state, dists) ← RandomizeFreqs state (SymbolStats.dists stats) 32;
  litlens ← assign litlens 256 1;
  Ret (state, SymbolStats.Mk litlens dists (SymbolStats.ll_symbols stats) (SymbolStats.d_symbols stats)).

(** Both arrays are written whole. *)
Definition ClearStatFreqs (stats : SymbolStats.t) : SymbolStats.t :=
  SymbolStats.Mk (replicate 288 0) (replicate 32 0) (SymbolStats.ll_symbols stats) (SymbolStats.d_symbols stats).

Example ran_example :
  let '(a, s) := Ran InitRanState in let '(b, _) := Ran s in (a, b) = (550651472, 2842876160).
Proof. vm_compute. reflexivity. Qed.

(** ** Statistics of a store *)

Section statistics.
Context {logarithm : Log}.

Definition CalculateStatistics (stats : SymbolStats.t) : outcome SymbolStats.t :=
  ll_symbols ← ZopfliCalculateEntropy (SymbolStats.litlens stats);
  d_symbols ← ZopfliCalculateEntropy (SymbolStats.dists stats);
  Ret (SymbolStats.Mk (SymbolStats.litlens stats) (SymbolStats.dists stats) ll_symbols d_symbols).

(** Its loop counts as [ZopfliLZ77Counts] does. *)
Definition GetStatistics (store : ZopfliLZ77Store) (stats : SymbolStats.t) : outcome SymbolStats.t :=
  '(ll, d) ← for_each (seqZ 0 (store_size store)) (count_item store) (SymbolStats.litlens stats, SymbolStats.dists stats);
  ll ← assign ll 256 1;
  CalculateStatistics (SymbolStats.Mk ll d (SymbolStats.ll_symbols stats) (SymbolStats.d_symbols stats)).
End statistics.

(** ** Cost models *)

Definition CostModelFun : Type := Z -> Z -> outcome spec_float.

(** The [int] is converted. *)
Definition plus_int (x : spec_float) (n : Z) : spec_float := double_add x (double_of_Z n).

Definition GetCostFixed : CostModelFun := fun litlen dist =>
  if dist =? 0 then
    if litlen <=? 143 then Ret (double_of_Z 8) else Ret (double_of_Z 9)
  else
    let dbits := ZopfliGetDistExtraBits dist in
    lbits ← ZopfliGetLengthExtraBits litlen;
    lsym ← ZopfliGetLengthSymbol litlen;
    let cost := zero in
    let cost := if lsym <=? 279 then plus_int cost 7 else plus_int cost 8 in
    let cost := plus_int cost 5 in
    Ret (plus_int (plus_int cost dbits) lbits).

Definition GetCostStat (stats : SymbolStats.t) : CostModelFun := fun litlen dist =>
  if dist =? 0 then float_index (SymbolStats.ll_symbols stats) litlen
  else
    lsym ← ZopfliGetLengthSymbol litlen;
    lbits ← ZopfliGetLengthExtraBits litlen;
    let dsym := ZopfliGetDistSymbol dist in
    let dbits := ZopfliGetDistExtraBits dist in
    ll ← float_index (SymbolStats.ll_symbols stats) lsym;
    d ← float_index (SymbolStats.d_symbols stats) dsym;
    Ret (plus_int (double_add (plus_int ll lbits) d) dbits).

Definition ZOPFLI_LARGE_FLOAT : spec_float := double_of_Z (10 ^ 30).

Definition dsymbols : list Z :=
  [1; 2; 3; 4; 5; 7; 9; 13; 17; 25; 33; 49; 65; 97; 129; 193; 257; 385; 513;
   769; 1025; 1537; 2049; 3073; 4097; 6145; 8193; 12289; 16385; 24577].

(** A loop for the minimum: the best argument and its cost. *)
Definition min_loop (cost : Z -> outcome spec_float) (l : list Z) : outcome (Z * spec_float) :=
  for_each l (fun i '(best, mincost) => c ← cost i; if SFltb c mincost then Ret (i, c) else Ret (best, mincost)) (0, ZOPFLI_LARGE_FLOAT).

Definition GetCostModelMinCost (costmodel : CostModelFun) : outcome spec_float :=
  '(bestlength, _) ← min_loop (fun i => costmodel i 1) (seqZ 3 256);
  '(bestdist, _) ← min_loop (fun dist => costmodel 3 dist) dsymbols;
  costmodel bestlength bestdist.

Example min_cost_fixed : GetCostModelMinCost GetCostFixed = Ret (double_of_Z 12).
Proof. vm_compute. reflexivity. Qed.

(** ** Costs in range *)

Definition max_cost : Z := 128.

(** What the optimal parsing needs of a cost model. *)
Record cost_model_ok (f : CostModelFun) : Prop := {
  cm_literal : forall c, 0 <= c < 256 -> exists x, f c 0 = Ret x /\ double_upto (units max_cost) x;
  cm_match : forall l d, 3 <= l <= 258 -> 1 <= d <= 32768 -> exists x, f l d = Ret x /\ double_upto (units max_cost) x;
}.

Lemma units_le a b : a <= b -> units a <= units b.
Proof. intros H. pose proof one_positive. unfold units. nia. Qed.

Lemma double_upto_le a b x : a <= b -> double_upto (units a) x -> double_upto (units b) x.
Proof. intros H. apply upto_mono. by apply units_le. Qed.

Lemma plus_int_upto a n x : double_upto (units a) x -> 0 <= n -> a + n <= 2 ^ 53 -> 0 <= a -> double_upto (units (a + n)) (plus_int x n).
Proof. intros Hx Hn Han Ha. apply double_add_upto; [done| |done]. apply double_of_Z_upto; lia. Qed.

Lemma zero_double : double_upto (units 0) zero.
Proof. by apply zero_upto. Qed.

Lemma fixed_model_ok : cost_model_ok GetCostFixed.
Proof.
  constructor.
  - intros c Hc. unfold GetCostFixed, max_cost. cbn [Z.eqb]. destruct (c <=? 143); (eexists; split; [done|apply double_of_Z_upto; lia]).
  - intros l d Hl Hd. unfold GetCostFixed. rewrite (proj2 (Z.eqb_neq _ _)) by lia.
    destruct (length_symbol_ok l Hl) as (lsym & lbits & value & E1 & E2 & _ & Hs). apply symbol_ok_inv in Hs as (_ & _ & _ & Hb & _).
    pose proof (symbol_ok_inv _ _ _ _ _ _ _ (dist_symbol_ok d Hd)) as (_ & _ & _ & Hdb & _).
    rewrite E1, E2, !outcome_bind_ret. cbv zeta. eexists. split; [done|]. unfold max_cost.
    assert (double_upto (units 8) (if lsym <=? 279 then plus_int zero 7 else plus_int zero 8)) as Hc.
    { destruct (lsym <=? 279); [apply (double_upto_le 7); [lia|]; apply (plus_int_upto 0 7)|apply (plus_int_upto 0 8)]; try lia; apply zero_double. }
    apply (double_upto_le (8 + 5 + ZopfliGetDistExtraBits d + lbits)); [lia|].
    apply plus_int_upto; [|lia..]. apply plus_int_upto; [|lia..]. by apply plus_int_upto.
Qed.

(** ** Statistics in range *)

Lemma float_index_Forall (P : spec_float -> Prop) l i : Forall P l -> 0 <= i < Z.of_nat (length l) -> exists x, float_index l i = Ret x /\ P x.
Proof.
  intros Hl Hi. unfold float_index. rewrite (proj2 (Z.ltb_ge _ _)) by lia.
  destruct (lookup_lt_is_Some_2 l (Z.to_nat i) ltac:(lia)) as [x Hx]. rewrite Hx. exists x. split; [done|]. by apply (Forall_lookup_1 _ _ _ _ Hl Hx).
Qed.

Definition freqs_ok (n : nat) (m : Z) (freqs : list Z) : Prop := length freqs = n /\ Forall (fun c => 0 <= c <= m) freqs.

(** Frequencies up to [m], and numbers of bits. *)
Record stats_ok (m : Z) (stats : SymbolStats.t) : Prop := {
  st_litlens : freqs_ok 288 m (SymbolStats.litlens stats);
  st_dists : freqs_ok 32 m (SymbolStats.dists stats);
  st_ll_length : length (SymbolStats.ll_symbols stats) = 288%nat;
  st_d_length : length (SymbolStats.d_symbols stats) = 32%nat;
  st_ll_symbols : Forall (double_upto (units 35)) (SymbolStats.ll_symbols stats);
  st_d_symbols : Forall (double_upto (units 35)) (SymbolStats.d_symbols stats);
}.

Lemma stat_model_ok m stats : stats_ok m stats -> cost_model_ok (GetCostStat stats).
Proof.
  intros [_ _ Hll Hdl Hlls Hds]. constructor.
  - intros c Hc. unfold GetCostStat. cbn [Z.eqb]. destruct (float_index_Forall _ _ c Hlls ltac:(lia)) as (x & -> & Hx).
    exists x. split; [done|]. by apply (double_upto_le 35).
  - intros l d Hl Hd. unfold GetCostStat. rewrite (proj2 (Z.eqb_neq _ _)) by lia.
    destruct (length_symbol_ok l Hl) as (lsym & lbits & value & E1 & E2 & _ & Hs). apply symbol_ok_inv in Hs as (Hr & _ & _ & Hb & _).
    pose proof (symbol_ok_inv _ _ _ _ _ _ _ (dist_symbol_ok d Hd)) as (Hdr & _ & _ & Hdb & _). cbn [length length_base dist_base] in Hr, Hdr.
    rewrite E1, E2, !outcome_bind_ret. cbv zeta.
    destruct (float_index_Forall _ _ lsym Hlls ltac:(lia)) as (x & -> & Hx). destruct (float_index_Forall _ _ (ZopfliGetDistSymbol d) Hds ltac:(lia)) as (y & -> & Hy).
    rewrite !outcome_bind_ret. eexists. split; [done|]. unfold max_cost.
    apply (double_upto_le (35 + lbits + 35 + ZopfliGetDistExtraBits d)); [lia|]. apply plus_int_upto; [|lia..].
    apply double_add_upto; [|done|lia]. by apply plus_int_upto; try lia.
Qed.

(** ** The minimum of a cost model *)

Lemma large_float : double ZOPFLI_LARGE_FLOAT /\ units (2 ^ 60) < value ZOPFLI_LARGE_FLOAT.
Proof. split; [by vm_compute|]. apply Z.ltb_lt. by vm_compute. Qed.

Lemma min_loop_spec cost l : l <> [] -> (forall i, i ∈ l -> exists x, cost i = Ret x /\ double_upto (units max_cost) x) ->
  exists best mincost, min_loop cost l = Ret (best, mincost) /\ best ∈ l.
Proof.
  intros Hne Hcost. unfold min_loop.
  destruct (for_each_inv (fun seen '(best, mincost) => seen = [] /\ mincost = ZOPFLI_LARGE_FLOAT \/ best ∈ seen /\ double mincost)
    (fun i '(best, mincost) => c ← cost i; if SFltb c mincost then Ret (i, c) else Ret (best, mincost)) l (0, ZOPFLI_LARGE_FLOAT))
    as ([best mincost] & E & H).
  - by left.
  - intros seen x rest [best mincost] El Hinv. assert (x ∈ l) as Hx by (rewrite El; apply elem_of_app; right; left).
    assert (x ∈ seen ++ [x]) as Hx' by (apply elem_of_app; right; left).
    destruct (Hcost x Hx) as (c & -> & Hc & Hcv). rewrite outcome_bind_ret.
    destruct large_float as [HL HLv]. assert (double mincost) as Hd by (destruct Hinv as [[_ ->]|[_ Hd]]; [exact HL|exact Hd]). rewrite (double_ltb c mincost) by done.
    destruct (Z.ltb_spec (value c) (value mincost)) as [Hlt|Hge].
    + exists (x, c). split; [done|]. right. by split.
    + exists (best, mincost). split; [done|]. right. destruct Hinv as [[-> ->]|[Hb _]]; [|split; [apply elem_of_app; by left|done]].
      exfalso. assert (units max_cost <= units (2 ^ 60)) by (apply units_le; unfold max_cost; lia). lia.
  - exists best, mincost. split; [exact E|]. destruct H as [[? _]|[? _]]; done.
Qed.

Lemma GetCostModelMinCost_spec f : cost_model_ok f -> exists x, GetCostModelMinCost f = Ret x /\ double_upto (units max_cost) x.
Proof.
  intros Hf. unfold GetCostModelMinCost.
  destruct (min_loop_spec (fun i => f i 1) (seqZ 3 256)) as (bl & ? & -> & Hbl).
  - intros H. apply (f_equal length) in H. rewrite length_seqZ in H. cbn in H. lia.
  - intros i Hi%elem_of_seqZ. apply (cm_match _ Hf); lia.
  - rewrite outcome_bind_ret. assert (Forall (fun d => 1 <= d <= 32768) dsymbols) as Hds by (repeat constructor; lia).
    destruct (min_loop_spec (fun d => f 3 d) dsymbols) as (bd & ? & -> & Hbd); [done| |].
    + intros i Hi. rewrite Forall_forall in Hds. apply (cm_match _ Hf); [lia|by apply Hds].
    + rewrite outcome_bind_ret. apply elem_of_seqZ in Hbl. rewrite Forall_forall in Hds. apply (cm_match _ Hf); [lia|by apply Hds].
Qed.

(** ** Operations on statistics *)

Definition one_half : spec_float := double_div (double_of_Z 1) (double_of_Z 2).

Lemma one_half_value : double one_half /\ 2 * value one_half = 2 ^ (- unit).
Proof. split; [by vm_compute|]. apply Z.eqb_eq. by vm_compute. Qed.

(** Half of the old count is added. *)
Lemma weigh_spec m a b : 0 <= m < 2 ^ 51 -> 0 <= a <= m -> 0 <= b <= 2 * m ->
  exists v, weigh (double_of_Z 1) one_half a b = Ret v /\ 0 <= v <= 2 * m.
Proof.
  intros Hm Ha Hb. pose proof one_positive as H1. destruct one_half_value as [Hh Hhv].
  destruct (double_of_Z_value a ltac:(lia)) as [Hda Ea]. destruct (double_of_Z_value b ltac:(lia)) as [Hdb Eb].
  destruct (double_of_Z_value 1 ltac:(lia)) as [Hd1 E1]. unfold weigh.
  destruct (double_mul_value m (double_of_Z a) (double_of_Z 1)) as [Hx _]; [done|done|rewrite Ea; unfold units; nia|rewrite E1; unfold units; lia| |lia|].
  { rewrite Ea, E1. unfold units. rewrite Z.mul_1_l, Z.div_mul by lia. nia. }
  destruct (double_mul_value m (double_of_Z b) one_half) as [Hy _]; [done|done|rewrite Eb; unfold units; nia|lia| |lia|].
  { rewrite Eb. apply Z.div_le_upper_bound; [lia|]. unfold units. rewrite <-Hhv. nia. }
  pose proof (double_add_upto m m _ _ Hx Hy ltac:(lia)) as Hs.
  destruct (size_of_double_value _ _ Hs ltac:(lia)) as [-> Hv]. eexists. split; [done|]. lia.
Qed.

Lemma freqs_at n m freqs i : freqs_ok n m freqs -> 0 <= i < Z.of_nat n -> index freqs i = Ret (table_at freqs i) /\ 0 <= table_at freqs i <= m.
Proof.
  intros [Hn Hf] Hi. rewrite index_ok by lia. split; [done|]. destruct (lookup_lt_is_Some_2 freqs (Z.to_nat i) ltac:(lia)) as [x Hx].
  assert (table_at freqs i = x) as -> by (unfold table_at; by rewrite (proj2 (Z.ltb_ge _ _)), Hx by lia). by apply (Forall_lookup_1 _ _ _ _ Hf Hx).
Qed.

Lemma freqs_assign n m freqs i v : freqs_ok n m freqs -> 0 <= i < Z.of_nat n -> 0 <= v <= m ->
  exists freqs', assign freqs i v = Ret freqs' /\ freqs_ok n m freqs'.
Proof.
  intros [Hn Hf] Hi Hv. rewrite assign_ok by lia. eexists. split; [done|]. split; [by rewrite length_insert|]. by apply Forall_insert.
Qed.

Lemma freqs_mono n m m' freqs : m <= m' -> freqs_ok n m freqs -> freqs_ok n m' freqs.
Proof. intros H [Hn Hf]. split; [done|]. eapply Forall_impl; [exact Hf|]. cbn. lia. Qed.

Lemma weigh_all_spec n m f1 f2 : 0 <= m < 2 ^ 51 -> freqs_ok n m f1 -> freqs_ok n (2 * m) f2 ->
  exists f, weigh_all (double_of_Z 1) one_half (Z.of_nat n) f1 f2 f1 = Ret f /\ freqs_ok n (2 * m) f.
Proof.
  intros Hm H1 H2. unfold weigh_all. eapply (for_each_seqZ (fun _ f => freqs_ok n (2 * m) f)); [lia|apply (freqs_mono n m); (done || lia)|].
  intros i f Hi Hf. destruct (freqs_at n m f1 i H1 ltac:(lia)) as [-> Ha]. destruct (freqs_at n (2 * m) f2 i H2 ltac:(lia)) as [-> Hb].
  rewrite !outcome_bind_ret. destruct (weigh_spec m _ _ Hm Ha Hb) as (v & -> & Hv). rewrite outcome_bind_ret. apply freqs_assign; (done || lia).
Qed.

Lemma AddWeighedStatFreqs_spec m stats last : 1 <= m < 2 ^ 51 -> stats_ok m stats -> stats_ok (2 * m) last ->
  exists stats', AddWeighedStatFreqs stats (double_of_Z 1) last one_half stats = Ret stats' /\
    freqs_ok 288 (2 * m) (SymbolStats.litlens stats') /\ freqs_ok 32 (2 * m) (SymbolStats.dists stats').
Proof.
  intros Hm [H1 H2 _ _ _ _] [L1 L2 _ _ _ _]. unfold AddWeighedStatFreqs.
  destruct (weigh_all_spec 288 m _ _ ltac:(lia) H1 L1) as (ll & Ell & Hll). change (Z.of_nat 288) with 288 in Ell. rewrite Ell, outcome_bind_ret.
  destruct (weigh_all_spec 32 m _ _ ltac:(lia) H2 L2) as (d & Ed & Hd). change (Z.of_nat 32) with 32 in Ed. rewrite Ed, outcome_bind_ret.
  destruct (freqs_assign 288 (2 * m) ll 256 1 Hll ltac:(lia) ltac:(lia)) as (ll' & -> & Hll'). rewrite outcome_bind_ret. eexists. by split.
Qed.

Lemma RandomizeFreqs_spec n m state freqs : 0 < Z.of_nat n -> freqs_ok n m freqs ->
  exists state' freqs', RandomizeFreqs state freqs (Z.of_nat n) = Ret (state', freqs') /\ freqs_ok n m freqs'.
Proof.
  intros Hn Hf. unfold RandomizeFreqs.
  destruct (for_each_seqZ (fun _ s => freqs_ok n m s.2) (randomize_freq (Z.of_nat n)) 0 (Z.of_nat n) (state, freqs)) as ([s f] & -> & H); [lia|done| |by exists s, f].
  intros i [st f] Hi Hf'. cbn [snd] in Hf'. unfold randomize_freq. destruct (Ran st) as [r st1]. destruct (_ =? 0); [|by eexists].
  destruct (Ran st1) as [r' st2]. pose proof (Z.mod_pos_bound r' (Z.of_nat n) Hn).
  destruct (freqs_at n m f (r' mod Z.of_nat n) Hf' ltac:(lia)) as [-> Hv]. rewrite outcome_bind_ret.
  destruct (freqs_assign n m f i _ Hf' ltac:(lia) Hv) as (f' & -> & Hf''). rewrite outcome_bind_ret. eexists. by split.
Qed.

Lemma RandomizeStatFreqs_spec m state stats : 1 <= m -> stats_ok m stats ->
  exists state' stats', RandomizeStatFreqs state stats = Ret (state', stats') /\
    freqs_ok 288 m (SymbolStats.litlens stats') /\ freqs_ok 32 m (SymbolStats.dists stats').
Proof.
  intros Hm [H1 H2 _ _ _ _]. unfold RandomizeStatFreqs.
  destruct (RandomizeFreqs_spec 288 m state _ ltac:(lia) H1) as (s1 & ll & Ell & Hll). change (Z.of_nat 288) with 288 in Ell. rewrite Ell, outcome_bind_ret.
  destruct (RandomizeFreqs_spec 32 m s1 _ ltac:(lia) H2) as (s2 & d & Ed & Hd). change (Z.of_nat 32) with 32 in Ed. rewrite Ed, outcome_bind_ret.
  destruct (freqs_assign 288 m ll 256 1 Hll ltac:(lia) ltac:(lia)) as (ll' & -> & Hll'). rewrite outcome_bind_ret. eexists _, _. by split.
Qed.

Section calculate.
Context {logarithm : Log}.

Lemma sum_of_bound m freqs : Forall (fun c => 0 <= c <= m) freqs -> sum_of freqs <= m * Z.of_nat (length freqs).
Proof. induction 1 as [|c l Hc _ IH]; [cbn; lia|]. unfold sum_of in *. cbn [foldr length]. lia. Qed.

Lemma entropy_spec n m freqs : freqs_ok n m freqs -> 0 < Z.of_nat n <= 288 -> 288 * m < 2 ^ 32 ->
  exists b, ZopfliCalculateEntropy freqs = Ret b /\ length b = n /\ Forall (double_upto (units 35)) b.
Proof.
  intros [Hn Hf] H0 Hm. pose proof (sum_of_bound m freqs Hf) as Hs. rewrite <-Hn.
  destruct freqs as [|c0 freqs']; [cbn in Hn; lia|]. pose proof (Forall_inv Hf) as Hc0. cbn in Hc0.
  apply ZopfliCalculateEntropy_spec; [eapply Forall_impl; [exact Hf|cbn; lia]|lia|]. nia.
Qed.

Lemma CalculateStatistics_spec m stats : 288 * m < 2 ^ 32 -> freqs_ok 288 m (SymbolStats.litlens stats) -> freqs_ok 32 m (SymbolStats.dists stats) ->
  exists stats', CalculateStatistics stats = Ret stats' /\ stats_ok m stats'.
Proof.
  intros Hm H1 H2. unfold CalculateStatistics.
  destruct (entropy_spec 288 m _ H1 ltac:(lia) Hm) as (ll & -> & Hll & Hllb). rewrite outcome_bind_ret.
  destruct (entropy_spec 32 m _ H2 ltac:(lia) Hm) as (d & -> & Hd & Hdb). rewrite outcome_bind_ret. eexists. split; [done|]. by constructor.
Qed.

(** The statistics of a store, from cleared counts. *)
Definition cleared (stats : SymbolStats.t) : Prop :=
  SymbolStats.litlens stats = replicate 288 0 /\ SymbolStats.dists stats = replicate 32 0.

Lemma histogram_freqs {A} (g : A -> Z) n l t m : histogram g n l t -> Z.of_nat (length l) <= m -> freqs_ok n m t.
Proof.
  intros [Hn Ht] Hm. split; [done|]. apply Forall_lookup. intros i f Hi. pose proof (lookup_lt_Some _ _ _ Hi).
  assert (table_at t (Z.of_nat i) = f) as <- by (rewrite table_at_nat; by rewrite Hi). rewrite Ht by lia.
  pose proof (occurrences_bound g l (Z.of_nat i)). lia.
Qed.

Lemma GetStatistics_spec m store stats : store_ok store -> store_size store <= m -> 1 <= m -> 288 * m < 2 ^ 32 -> cleared stats ->
  exists stats', GetStatistics store stats = Ret stats' /\ stats_ok m stats'.
Proof.
  intros Hs Hsize Hm Hmax [E1 E2]. assert (0 <= store_size store) as H0 by (unfold store_size; lia).
  destruct (store_block_ok store 0 (store_size store) Hs ltac:(lia) ltac:(lia)) as [Hr Hi _].
  destruct (counts_spec store 0 (store_size store) Hr Hi ltac:(lia)) as (llc & dc & E & Hll & Hd).
  unfold ZopfliLZ77Counts in E. unfold GetStatistics. rewrite E1, E2. rewrite Z.sub_0_r in E.
  destruct (for_each _ (count_item store) _) as [[ll d]| | |]; [|done..]. cbn [mbind outcome_bind] in E |- *.
  pose proof (length_block_items _ _ _ Hr) as Hl. assert (<[256%nat := 1]> ll = <[256%nat := 1]> llc /\ d = dc) as [Ell ->] by (split; congruence).
  assert (freqs_ok 288 m llc) as Hllf by (apply (histogram_freqs ll_symbol _ _ _ m Hll); lia).
  assert (freqs_ok 32 m dc) as Hdf.
  { apply (histogram_freqs d_symbol _ _ _ m Hd). unfold matches. pose proof (length_filter (fun x : Z * Z => x.2 <> 0) (block_items store 0 (store_size store))). lia. }
  assert (length ll = 288%nat) as Hlen by (apply (f_equal length) in Ell; rewrite !length_insert in Ell; rewrite Ell; apply Hllf).
  rewrite assign_ok by lia. rewrite outcome_bind_ret. change (Z.to_nat 256) with 256%nat. rewrite Ell. apply CalculateStatistics_spec; [done| |done].
  cbn [SymbolStats.litlens]. destruct Hllf as [Hllen Hllf]. split; [by rewrite length_insert|]. apply Forall_insert; [done|lia].
Qed.
End calculate.
