(* ===== verification/ZopfliSqueeze.v ===== *)
(** * Zopfli: the forward pass

    [GetBestLengths] of [squeeze.cc]: from each position of a block on, the costs
    of going on with a literal or a match, in single precision, and the lengths
    of the best steps; with the shortcut for long repetitions
    ([ZOPFLI_SHORTCUT_LONG_REPETITIONS] is defined).

    Proved here: every position is reached, at a cost that is no NaN and no
    infinity, by a literal or by a match that the search finds. *)

From S2P Require Import Prelude CFloat ZopfliUtil ZopfliBits ZopfliTree Katajainen CodeLengths Inflate ZopfliDeflate ZopfliBlocks ZopfliRoundTrip ZopfliHash ZopfliCache ZopfliMatch ZopfliGreedy ZopfliEntropy ZopfliCost.
From Stdlib Require Import SpecFloat.

Local Open Scope Z_scope.

(** The variables of the loop, but for its counter. *)
Record forward : Type := MkForward {
  f_state : ZopfliBlockState; f_hash : ZopfliHash; f_costs : list spec_float; f_lengths : list Z; f_sublen : list Z
}.

(** [(float)ZOPFLI_LARGE_FLOAT] *)
Definition large_cost : spec_float := to_float ZOPFLI_LARGE_FLOAT.

Section forward.
Context (in_ : list Z) (instart inend : Z) (costmodel : CostModelFun) (mincost : spec_float).

(** In a long repetition of one byte. *)
Definition at_repetition (h : ZopfliHash) (i : Z) : outcome bool :=
  same0 ← index (same h) (Z.land i ZOPFLI_WINDOW_MASK);
  if (ZOPFLI_MAX_MATCH * 2 <? same0) && (instart + ZOPFLI_MAX_MATCH + 1 <? i) && (i + ZOPFLI_MAX_MATCH * 2 + 1 <? inend) then
    same1 ← index (same h) (Z.land (i - ZOPFLI_MAX_MATCH) ZOPFLI_WINDOW_MASK);
    Ret (ZOPFLI_MAX_MATCH <? same1)
  else Ret false.

(** A step of the loop over [k]; [j] is [i - instart] throughout. *)
Definition skip_one (symbolcost : spec_float) (s : Z * ZopfliHash * list spec_float * list Z) :
    outcome (Z * ZopfliHash * list spec_float * list Z) :=
  let '(i, h, costs, length_array) := s in
  let j := i - instart in
  c ← float_index costs j;
  costs ← float_assign costs (j + ZOPFLI_MAX_MATCH) (to_float (double_add (to_double c) symbolcost));
  length_array ← assign length_array (j + ZOPFLI_MAX_MATCH) ZOPFLI_MAX_MATCH;
  h ← ZopfliUpdateHash in_ (i + 1) inend h;
  Ret (i + 1, h, costs, length_array).

Definition skip_repetition (s : Z * ZopfliHash * list spec_float * list Z) : outcome (Z * ZopfliHash * list spec_float * list Z) :=
  symbolcost ← costmodel ZOPFLI_MAX_MATCH 1;
  for_each (seqZ 0 ZOPFLI_MAX_MATCH) (fun _ => skip_one symbolcost) s.

(** "Literal." *)
Definition literal_step (i : Z) (s : list spec_float * list Z) : outcome (list spec_float * list Z) :=
  let '(costs, length_array) := s in
  let j := i - instart in
  if i + 1 <=? inend then
    c ← float_index costs j;
    b ← index in_ i;
    cost ← costmodel b 0;
    let newCost := double_add (to_double c) cost in
    _ ← assertion (SFleb zero newCost);
    old ← float_index costs (j + 1);
    if SFltb newCost (to_double old) then
      costs ← float_assign costs (j + 1) (to_float newCost);
      length_array ← assign length_array (j + 1) 1;
      Ret (costs, length_array)
    else Ret (costs, length_array)
  else Ret (costs, length_array).

(** "Lengths.": the body of the loop. *)
Definition length_step (sublen : list Z) (j k : Z) (s : list spec_float * list Z) : outcome (list spec_float * list Z) :=
  let '(costs, length_array) := s in
  old ← float_index costs (j + k);
  c ← float_index costs j;
  if SFleb (to_double (float_sub old c)) mincost then Ret (costs, length_array)
  else
    d ← index sublen k;
    cost ← costmodel k d;
    let newCost := double_add (to_double c) cost in
    _ ← assertion (SFleb zero newCost);
    if SFltb newCost (to_double old) then
      _ ← assertion (k <=? ZOPFLI_MAX_MATCH);
      costs ← float_assign costs (j + k) (to_float newCost);
      length_array ← assign length_array (j + k) (u16 k);
      Ret (costs, length_array)
    else Ret (costs, length_array).

(** The body of the loop; [i] as it leaves it. *)
Definition best_step (i : Z) (f : forward) : outcome (Z * forward) :=
  h ← ZopfliUpdateHash in_ i inend (f_hash f);
  repetition ← at_repetition h i;
  '(i, h, costs, length_array) ← (if repetition : bool then skip_repetition (i, h, f_costs f, f_lengths f)
                                  else Ret (i, h, f_costs f, f_lengths f));
  '(s, sublen, dist, leng) ← ZopfliFindLongestMatch (f_state f) h in_ i inend ZOPFLI_MAX_MATCH (Some (f_sublen f));
  let sublen := default (f_sublen f) sublen in
  '(costs, length_array) ← literal_step i (costs, length_array);
  '(costs, length_array) ← for_each (seqZ 3 (Z.min leng (inend - i) - 2)) (length_step sublen (i - instart)) (costs, length_array);
  Ret (i, MkForward s h costs length_array sublen).

Fixpoint best_loop (fuel : nat) (i : Z) (f : forward) : outcome forward :=
  if i <? inend then
    match fuel with
    | O => Undefined
    | S n => '(i, f) ← best_step i f; best_loop n (i + 1) f
    end
  else Ret f.
End forward.

(** The state, [length_array] and the cost; the arrays [length_array] and [sublen]
    hold anything at first. *)
Definition GetBestLengths (s : ZopfliBlockState) (in_ : list Z) (instart inend : Z) (costmodel : CostModelFun)
    (length_array sublen : list Z) : outcome (ZopfliBlockState * list Z * spec_float) :=
  let blocksize := inend - instart in
  let ws := windowstart instart in
  mincost ← GetCostModelMinCost costmodel;
  if instart =? inend then Ret (s, length_array, zero)
  else
    h ← ZopfliWarmupHash in_ ws (ZopfliInitHash ZOPFLI_WINDOW_SIZE);
    h ← for_each (seqZ ws (instart - ws)) (fun i h => ZopfliUpdateHash in_ i inend h) h;
    let costs := zero :: replicate (Z.to_nat blocksize) large_cost in
    length_array ← assign length_array 0 0;
    f ← best_loop in_ instart inend costmodel mincost (Z.to_nat blocksize) instart (MkForward s h costs length_array sublen);
    result ← float_index (f_costs f) blocksize;
    let result := to_double result in
    _ ← assertion (SFleb zero result);
    Ret (f_state f, f_lengths f, result).

Example forward_example :
  ('(_, lengths, cost) ← GetBestLengths (MkState None 0) banana 0 9 GetCostFixed (replicate 10 0) (replicate 259 0); Ret (lengths, cost))
  = Ret ([0; 1; 1; 1; 1; 1; 3; 4; 5; 1], double_of_Z 44).
Proof. vm_compute. reflexivity. Qed.

(** ** Costs *)

(** No cost becomes larger: a step of at most [max_cost] is lost in rounding. *)
Definition cost_bound : Z := units (2 ^ 40).

Definition cost_ok (c : spec_float) : Prop := single_upto cost_bound c.

Lemma zero_cost : cost_ok zero.
Proof. apply zero_upto. unfold cost_bound, units. pose proof one_positive. lia. Qed.

(** The sum is a cost, and below the large one. *)
Lemma add_cost c x : cost_ok c -> double_upto (units max_cost) x ->
  let sum := double_add (to_double c) x in
  double_upto (units (2 ^ 40 + max_cost)) sum /\ cost_ok (to_float sum) /\ SFleb zero sum = true.
Proof.
  intros Hc Hx sum. assert (double_upto (units (2 ^ 40 + max_cost)) sum) as Hs by (apply double_add_upto; [by apply to_double_upto|done|unfold max_cost; lia]).
  split; [done|]. split.
  - apply (to_float_upto (units (2 ^ 40 + max_cost))); [done|by vm_compute|apply Z.ltb_lt; by vm_compute].
  - destruct Hs as [Hd Hv]. rewrite double_leb by done. change (value zero) with 0. apply Z.leb_le. lia.
Qed.

Lemma large_cost_value : single large_cost /\ units (2 ^ 41) < value large_cost /\ value large_cost < 2 ^ (127 - unit).
Proof. split; [by vm_compute|]. split; apply Z.ltb_lt; by vm_compute. Qed.

Lemma below_large x : double_upto (units (2 ^ 40 + max_cost)) x -> SFltb x (to_double large_cost) = true.
Proof.
  intros [Hx Hv]. destruct large_cost_value as (Hl & Hlv & _). destruct (to_double_value _ Hl) as [Hd E]. rewrite double_ltb, E by done.
  assert (units (2 ^ 40 + max_cost) <= units (2 ^ 41)) by (apply units_le; unfold max_cost; lia). apply Z.ltb_lt. lia.
Qed.

#[local] Opaque large_cost.

(** A position that is not reached is not skipped. *)
Lemma large_not_skipped c mincost : cost_ok c -> double_upto (units max_cost) mincost ->
  SFleb (to_double (float_sub large_cost c)) mincost = false.
Proof.
  intros [Hc Hcv] [Hm Hmv]. destruct large_cost_value as (Hl & Hlv & Hlu). pose proof (single_sub_value _ _ Hl Hc) as Hr.
  assert (cost_bound <= units (2 ^ 41) - units 256 /\ units 256 = 2 ^ (8 - unit)) as [Hb E256].
  { split; [apply Z.leb_le; by vm_compute|]. apply Z.eqb_eq. by vm_compute. }
  set (v := value large_cost - value c) in *. assert (units 256 <= v) as Hv by (unfold v; lia). assert (0 < units 256) as H256 by (apply Z.ltb_lt; by vm_compute).
  pose proof (rounded_mono 24 128 ltac:(lia) ltac:(unfold unit; lia) (units 256) v ltac:(lia)) as Hlow.
  rewrite (rounded_units 24 128) in Hlow by (unfold unit; lia).
  pose proof (rounded_mono 24 128 ltac:(lia) ltac:(unfold unit; lia) v (2 ^ (127 - unit)) ltac:(unfold v; lia)) as Hhigh.
  assert (rounded 24 128 (2 ^ (127 - unit)) < 2 ^ (128 - unit)) as Hfit by (apply Z.ltb_lt; by vm_compute).
  unfold single_rounds, rounds_to, overflows, round_value in Hr. rewrite Z.abs_eq in Hr by lia. rewrite (proj2 (Z.leb_gt _ _)) in Hr by lia.
  destruct Hr as [Hs Hsv]. rewrite Z.sgn_pos in Hsv by lia. destruct (to_double_value _ Hs) as [Hd E]. rewrite double_leb, E, Hsv by done.
  apply Z.leb_gt. assert (units max_cost < units 256) by (apply Z.ltb_lt; by vm_compute). lia.
Qed.

(** ** The arrays *)

Definition cost_at (costs : list spec_float) (k : Z) : spec_float := default zero (costs !! Z.to_nat k).

Lemma float_index_ok l i : 0 <= i < Z.of_nat (length l) -> float_index l i = Ret (cost_at l i).
Proof.
  intros Hi. unfold float_index, cost_at. rewrite (proj2 (Z.ltb_ge _ _)) by lia.
  by destruct (lookup_lt_is_Some_2 l (Z.to_nat i) ltac:(lia)) as [x ->].
Qed.

Lemma float_assign_ok l i v : 0 <= i < Z.of_nat (length l) -> float_assign l i v = Ret (<[Z.to_nat i := v]> l).
Proof. intros H. unfold float_assign. by rewrite (proj2 (Z.leb_le _ _)), (proj2 (Z.ltb_lt _ _)) by lia. Qed.

Lemma cost_at_insert l i v j : 0 <= i < Z.of_nat (length l) -> 0 <= j -> cost_at (<[Z.to_nat i := v]> l) j = if j =? i then v else cost_at l j.
Proof.
  intros Hi Hj. unfold cost_at. destruct (Z.eqb_spec j i) as [->|Hne]; [by rewrite list_lookup_insert_eq by lia|by rewrite list_lookup_insert_ne by lia].
Qed.

Section block.
Context (in_ : list Z) (ws instart inend : Z).
Context (Hbytes : Forall is_byte in_) (Hws : 0 <= ws <= instart) (Hwarm : ws + 1 < Z.of_nat (length in_)).
Context (Hinend : inend <= Z.of_nat (length in_)) (Hsize : inend < 2 ^ 63).

(** A step of length [len] from the position [x]: a literal, or a match that the
    search finds. *)
Definition step_ok (x len : Z) : Prop := len = 1 \/ 3 <= len <= 258 /\ exists l, longest in_ ws inend x l /\ len <= l.

Section arrays.
Context (blocksize : Z).

(** The position [k] of the block is reached by a step. *)
Definition reached (t : list spec_float * list Z) (k : Z) : Prop :=
  cost_ok (cost_at t.1 k) /\ (k = 0 \/ let len := table_at t.2 k in len <= k /\ step_ok (instart + k - len) len).

Record table_ok (t : list spec_float * list Z) : Prop := {
  tb_costs : Z.of_nat (length t.1) = blocksize + 1;
  tb_lengths : Z.of_nat (length t.2) = blocksize + 1;
  tb_entries : forall k, 0 <= k <= blocksize -> reached t k \/ cost_at t.1 k = large_cost;
}.

(** What is reached stays so. *)
Definition grows (t t' : list spec_float * list Z) : Prop := forall k, 0 <= k -> reached t k -> reached t' k.

Lemma grows_trans t1 t2 t3 : grows t1 t2 -> grows t2 t3 -> grows t1 t3.
Proof. intros H1 H2 k Hk H. by apply H2, H1. Qed.

(** A step to [k] is entered. *)
Lemma enter_step costs lengths k c len : table_ok (costs, lengths) -> 0 < k <= blocksize -> cost_ok c -> len <= k -> step_ok (instart + k - len) len ->
  let t' := (<[Z.to_nat k := c]> costs, <[Z.to_nat k := len]> lengths) in
  float_assign costs k c = Ret t'.1 /\ assign lengths k len = Ret t'.2 /\ table_ok t' /\ grows (costs, lengths) t' /\ reached t' k.
Proof.
  intros [H1 H2 H3] Hk Hc Hlen Hs t'. cbn [fst snd] in *. split; [apply float_assign_ok; lia|]. split; [apply assign_ok; lia|].
  assert (reached t' k) as Hr.
  { split; cbn [fst snd t']; [by rewrite cost_at_insert, Z.eqb_refl by lia|]. right. by rewrite table_at_insert, Z.eqb_refl by lia. }
  assert (forall k', 0 <= k' -> k' <> k -> cost_at t'.1 k' = cost_at costs k' /\ table_at t'.2 k' = table_at lengths k') as Hother.
  { intros k' H0 Hne. cbn [fst snd t']. by rewrite cost_at_insert, table_at_insert, (proj2 (Z.eqb_neq _ _)) by lia. }
  assert (grows (costs, lengths) t') as Hg.
  { intros k' H0 [A B]. destruct (Z.eq_dec k' k) as [->|Hne]; [done|]. destruct (Hother k' H0 Hne) as [E1 E2]. unfold reached. rewrite E1, E2. by split. }
  split_and!; try done. constructor; cbn [fst snd t']; rewrite ?length_insert; try done.
  intros k' Hk'. destruct (Z.eq_dec k' k) as [->|Hne]; [by left|]. destruct (H3 k' Hk') as [Hr'|E].
  - left. apply Hg; [lia|done].
  - right. destruct (Hother k' ltac:(lia) Hne) as [E1 _]. cbn [fst t'] in E1. by rewrite E1.
Qed.

Lemma reads costs lengths k : table_ok (costs, lengths) -> 0 <= k <= blocksize -> float_index costs k = Ret (cost_at costs k).
Proof. intros [H1 _ _] Hk. apply float_index_ok. cbn in H1. lia. Qed.

Lemma entry_double costs lengths k : table_ok (costs, lengths) -> 0 <= k <= blocksize -> double (to_double (cost_at costs k)).
Proof.
  intros [_ _ H3] Hk. destruct (H3 k Hk) as [[[Hs _] _]|E]; cbn [fst] in *; [|rewrite E; pose proof large_cost_value as [Hs _]]; apply (to_double_value _ Hs).
Qed.

(** What a comparison with the old cost leaves. *)
Lemma not_better costs lengths k x : table_ok (costs, lengths) -> 0 <= k <= blocksize -> double_upto (units (2 ^ 40 + max_cost)) x ->
  SFltb x (to_double (cost_at costs k)) = false -> reached (costs, lengths) k.
Proof. intros Ht Hk Hx Hlt. destruct (tb_entries _ Ht k Hk) as [?|E]; [done|]. cbn [fst] in E. rewrite E, (below_large _ Hx) in Hlt. discriminate Hlt. Qed.
End arrays.

(** ** A position *)

Local Abbreviation blocksize := (inend - instart).
Context (costmodel : CostModelFun) (mincost : spec_float).
Context (Hmodel : cost_model_ok costmodel) (Hmin : double_upto (units max_cost) mincost).

Definition steps_to (t t' : list spec_float * list Z) : Prop := table_ok blocksize t' /\ grows t t'.

Lemma literal_step_spec i t : instart <= i < inend -> table_ok blocksize t -> reached t (i - instart) ->
  exists t', literal_step in_ instart inend costmodel i t = Ret t' /\ steps_to t t' /\ reached t' (i + 1 - instart).
Proof.
  intros Hi Ht Hr. destruct t as [costs lengths]. unfold literal_step. rewrite (proj2 (Z.leb_le _ _)) by lia. cbv zeta.
  rewrite (reads _ _ _ (i - instart) Ht), outcome_bind_ret by lia. rewrite index_ok, outcome_bind_ret by lia.
  destruct (lookup_lt_is_Some_2 in_ (Z.to_nat i)) as [b Hb]; [lia|]. pose proof (Forall_lookup_1 _ _ _ _ Hbytes Hb) as Hbb.
  assert (table_at in_ i = b) as -> by (apply table_at_lookup; (lia || done)). destruct (cm_literal _ Hmodel b Hbb) as (x & -> & Hx). rewrite outcome_bind_ret.
  destruct Hr as [Hc _]. cbn [fst] in Hc. destruct (add_cost _ _ Hc Hx) as (Hs & Hsc & ->). rewrite assertion_holds by done.
  replace (i + 1 - instart) with (i - instart + 1) by lia. rewrite (reads _ _ _ (i - instart + 1) Ht), outcome_bind_ret by lia.
  destruct (SFltb _ (to_double (cost_at costs (i - instart + 1)))) eqn:Elt.
  - destruct (enter_step blocksize costs lengths (i - instart + 1) (to_float (double_add (to_double (cost_at costs (i - instart))) x)) 1 Ht) as (E1 & E2 & Ht' & Hg & Hr'); [lia|done|lia|by left|].
    rewrite E1, outcome_bind_ret, E2, outcome_bind_ret. eexists. split; [done|]. by split.
  - exists (costs, lengths). split; [done|]. split; [split; [done|by intros k _]|]. eapply not_better; [exact Ht|lia|exact Hs|exact Elt].
Qed.

Lemma length_step_spec i k sublen l t : instart <= i -> 3 <= k <= l -> l <= 258 -> i + k <= inend -> longest in_ ws inend i l -> length sublen = 259%nat ->
  match_at in_ inend i (table_at sublen k) k -> table_ok blocksize t -> reached t (i - instart) ->
  exists t', length_step costmodel mincost sublen (i - instart) k t = Ret t' /\ steps_to t t' /\ reached t' (i - instart + k).
Proof.
  intros Hi Hk Hl Hik Hlong Hsl Hm Ht Hr. destruct t as [costs lengths]. unfold length_step.
  rewrite (reads _ _ _ (i - instart + k) Ht), outcome_bind_ret, (reads _ _ _ (i - instart) Ht), outcome_bind_ret by lia. destruct Hr as [Hc _]. cbn [fst] in Hc.
  destruct (SFleb _ mincost) eqn:Eskip.
  { exists (costs, lengths). split; [done|]. split; [split; [done|by intros k' _]|].
    destruct (tb_entries _ _ Ht (i - instart + k) ltac:(lia)) as [?|E]; [done|]. cbn [fst] in E. rewrite E, (large_not_skipped _ _ Hc Hmin) in Eskip. discriminate Eskip. }
  rewrite index_ok, outcome_bind_ret by lia. destruct Hm as (Hd & _). unfold ZOPFLI_WINDOW_SIZE in Hd.
  destruct (cm_match _ Hmodel k (table_at sublen k)) as (x & -> & Hx); [lia..|]. rewrite outcome_bind_ret.
  destruct (add_cost _ _ Hc Hx) as (Hs & Hsc & ->). cbv zeta. rewrite assertion_holds by done.
  destruct (SFltb _ (to_double (cost_at costs (i - instart + k)))) eqn:Elt.
  - rewrite assertion_holds by (unfold ZOPFLI_MAX_MATCH; lia). assert (u16 k = k) as -> by (apply Z.mod_small; lia).
    destruct (enter_step blocksize costs lengths (i - instart + k) (to_float (double_add (to_double (cost_at costs (i - instart))) x)) k Ht) as (E1 & E2 & Ht' & Hg & Hr'); [lia|done|lia| |].
    { right. split; [lia|]. exists l. replace (instart + (i - instart + k) - k) with i by lia. split; [done|lia]. }
    rewrite E1, outcome_bind_ret, E2, outcome_bind_ret. eexists. split; [done|]. by split.
  - exists (costs, lengths). split; [done|]. split; [split; [done|by intros k' _]|]. eapply not_better; [exact Ht|lia|exact Hs|exact Elt].
Qed.

Lemma lengths_spec i sublen l t : instart <= i < inend -> 0 <= l <= 258 -> i + l <= inend -> (3 <= l -> longest in_ ws inend i l) -> length sublen = 259%nat ->
  (forall k, 3 <= k <= l -> match_at in_ inend i (table_at sublen k) k) -> table_ok blocksize t -> reached t (i - instart) ->
  exists t', for_each (seqZ 3 (Z.min l (inend - i) - 2)) (length_step costmodel mincost sublen (i - instart)) t = Ret t' /\ steps_to t t' /\
    forall k, 3 <= k <= l -> reached t' (i - instart + k).
Proof.
  intros Hi Hl Hil Hlong Hsl Hm Ht Hr. rewrite Z.min_l by lia. destruct (Z.lt_ge_cases l 3) as [Hlt|Hge].
  { exists t. assert (seqZ 3 (l - 2) = []) as -> by (unfold seqZ; replace (Z.to_nat (l - 2)) with 0%nat by lia; done).
    split; [done|]. split; [split; [done|by intros k _]|]. intros; lia. }
  destruct (for_each_seqZ (fun k t' => steps_to t t' /\ forall k', 3 <= k' < k -> reached t' (i - instart + k'))
    (length_step costmodel mincost sublen (i - instart)) 3 (l - 2) t) as (t' & -> & Hs & Hk); [lia| | |].
  - split; [split; [done|by intros k _]|]. intros; lia.
  - intros k t1 Hk [[Ht1 Hg1] Hk1].
    destruct (length_step_spec i k sublen l t1) as (t2 & E2 & [Ht2 Hg2] & Hr2); try done; try lia; [by apply Hlong|apply Hm; lia|apply Hg1; [lia|done]|].
    exists t2. split; [done|]. split; [split; [done|by eapply grows_trans]|]. intros k' Hk'. destruct (Z.eq_dec k' k) as [->|]; [done|].
    apply Hg2; [lia|]. apply Hk1. lia.
  - exists t'. split; [done|]. split; [done|]. intros k Hk'. apply Hk. lia.
Qed.

(** ** The loop *)

Context (n bs : Z) (Hbs : 0 <= bs <= instart) (Hblock : inend <= bs + n).

(** All lengths that the search finds at [x] are entered. *)
Definition covered (t : list spec_float * list Z) (x : Z) : Prop :=
  forall l k, longest in_ ws inend x l -> 3 <= k <= l -> reached t (x - instart + k).

(** The part of the body after the shortcut. *)
Definition position_step (i : Z) (s : ZopfliBlockState) (h : ZopfliHash) (t : list spec_float * list Z) (sublen : list Z) : outcome (Z * forward) :=
  '(s, sl, dist, leng) ← ZopfliFindLongestMatch s h in_ i inend ZOPFLI_MAX_MATCH (Some sublen);
  let sublen := default sublen sl in
  '(costs, length_array) ← literal_step in_ instart inend costmodel i t;
  '(costs, length_array) ← for_each (seqZ 3 (Z.min leng (inend - i) - 2)) (length_step costmodel mincost sublen (i - instart)) (costs, length_array);
  Ret (i, MkForward s h costs length_array sublen).

(** The variables at the head of the loop, with [i]. *)
Record forward_ok (i : Z) (f : forward) : Prop := {
  fo_hash : hash_ok in_ ws inend i (f_hash f);
  fo_state : state_ok in_ ws inend n (f_state f);
  fo_start : blockstart (f_state f) = bs;
  fo_sublen : length (f_sublen f) = 259%nat;
  fo_table : table_ok blocksize (f_costs f, f_lengths f);
  fo_reached : forall k, 0 <= k <= i - instart -> reached (f_costs f, f_lengths f) k;
  fo_covered : forall x, instart <= x < i -> covered (f_costs f, f_lengths f) x;
}.

Lemma position_step_spec i s h t sublen : instart <= i < inend -> hash_ok in_ ws inend (i + 1) h -> state_ok in_ ws inend n s -> blockstart s = bs ->
  length sublen = 259%nat -> table_ok blocksize t -> (forall k, 0 <= k <= i - instart -> reached t k) -> (forall x, instart <= x < i -> covered t x) ->
  exists f, position_step i s h t sublen = Ret (i, f) /\ forward_ok (i + 1) f.
Proof.
  intros Hi Hh Hs Hbst Hsl Ht Hr Hcov. unfold position_step.
  destruct (FindLongestMatch_spec in_ ws inend ltac:(lia) Hinend Hsize n i (Some sublen) ltac:(by intros ? [= <-]) s h ZOPFLI_MAX_MATCH
    Hs ltac:(lia) ltac:(lia) ltac:(done) Hh) as (s' & sl & d & l & -> & Hs' & Hbs' & (Hl & Hle & Hm & Hslm) & _ & (m & Hlong & Hml)).
  rewrite outcome_bind_ret. destruct sl as [sl|]; [|done]. destruct Hslm as [Hsl' Hslm]. change (default sublen (Some sl)) with sl. cbv zeta.
  pose proof (longest_range _ _ _ _ _ Hlong) as [Hm258 Hmend]. specialize (Hml (or_intror eq_refl)). unfold ZOPFLI_MAX_MATCH in Hml.
  assert (3 <= l \/ 3 <= m -> m = l) as Heq by lia.
  destruct (literal_step_spec i t Hi Ht (Hr (i - instart) ltac:(lia))) as ([c1 l1] & -> & [Ht1 Hg1] & Hr1). rewrite outcome_bind_ret.
  destruct (lengths_spec i sl l (c1, l1)) as ([c2 l2] & -> & [Ht2 Hg2] & Hr2); try done; try lia.
  { intros Hl3. rewrite <-Heq by lia. done. }
  { apply Hg1; [lia|]. apply Hr. lia. }
  rewrite outcome_bind_ret. eexists. split; [done|]. pose proof (grows_trans _ _ _ Hg1 Hg2) as Hg.
  constructor; cbn [f_hash f_state f_sublen f_costs f_lengths]; try done; [by rewrite Hbs'| |].
  - intros k Hk. destruct (Z.eq_dec k (i + 1 - instart)) as [->|]; [apply Hg2; [lia|done]|]. apply Hg; [lia|]. apply Hr. lia.
  - intros x Hx l' k Hl' Hk. destruct (Z.eq_dec x i) as [->|].
    + pose proof (longest_unique _ _ _ _ _ _ Hlong Hl') as <-. apply Hr2. lia.
    + apply Hg; [lia|]. apply (Hcov x ltac:(lia) l' k Hl' Hk).
Qed.

(** ** Long repetitions *)

(** From 258 bytes before [i] to 517 after it, the bytes are the same. *)
Definition long_run (i : Z) : Prop :=
  instart + 259 < i /\ i + 517 < inend /\ forall k, -258 <= k <= 517 -> table_at in_ (i + k) = table_at in_ i.

Lemma at_repetition_spec i h : instart <= i < inend -> hash_ok in_ ws inend (i + 1) h ->
  exists b : bool, at_repetition instart inend h i = Ret b /\ (b = true -> long_run i).
Proof.
  intros Hi (_ & hv & hv2 & _ & _ & Hsame & _). unfold at_repetition. rewrite !window_mask. unfold ZOPFLI_MAX_MATCH.
  assert (Z.of_nat (length (same h)) = ZOPFLI_WINDOW_SIZE) as HlW by (rewrite (sm_length _ _ _ _ _ Hsame); unfold ZOPFLI_WINDOW_SIZE; lia).
  pose proof (slot_range i). pose proof (slot_range (i - 258)). rewrite (index_ok _ (slot i)), outcome_bind_ret by lia.
  destruct (_ && _) eqn:E; [|by exists false]. rewrite (index_ok _ (slot (i - 258))), outcome_bind_ret by lia. eexists. split; [done|]. intros H1.
  destruct (sm_repeats _ _ _ _ _ Hsame i) as (R0 & R1 & R2); [unfold ZOPFLI_WINDOW_SIZE; lia..|].
  destruct (sm_repeats _ _ _ _ _ Hsame (i - 258)) as (Q0 & Q1 & Q2); [unfold ZOPFLI_WINDOW_SIZE; lia..|].
  split; [lia|]. split; [lia|]. intros k Hk. assert (table_at in_ i = table_at in_ (i - 258)) as E0 by (rewrite <-(Q2 258) by lia; f_equal; lia).
  destruct (Z.lt_ge_cases k 0); [|apply R2; lia]. rewrite E0. rewrite <-(Q2 (k + 258)) by lia. f_equal. lia.
Qed.

Lemma run_longest i x : long_run i -> i - 257 <= x <= i + 257 -> longest in_ ws inend x 258.
Proof.
  intros (H1 & H2 & H3) Hx. destruct (hashed_ok in_ ws inend ltac:(lia) Hinend (x + 1) Hwarm ltac:(lia)) as (h & _ & Hh).
  apply (repetition_longest in_ ws inend ltac:(lia) Hinend x h 259 Hh); [lia| |lia]. split; [lia|]. split; [lia|]. intros k Hk.
  replace (x - 1 + k) with (i + (x - 1 + k - i)) by lia. replace (x - 1) with (i + (x - 1 - i)) at 2 by lia. rewrite !H3 by lia. done.
Qed.

(** The positions that the shortcut goes on from are reached. *)
Lemma run_reached i t : long_run i -> (forall k, 0 <= k <= i - instart -> reached t k) -> (forall x, instart <= x < i -> covered t x) ->
  forall k, 0 <= k <= 257 -> reached t (i - instart + k).
Proof.
  intros Hrun Hr Hcov k Hk. pose proof Hrun as (H1 & _). destruct (Z.eq_dec k 0) as [->|]; [apply Hr; lia|]. destruct (Z.eq_dec k 1) as [->|].
  - replace (i - instart + 1) with (i - 2 - instart + 3) by lia. apply (Hcov (i - 2) ltac:(lia) 258); [apply (run_longest i); (done || lia)|lia].
  - replace (i - instart + k) with (i - 1 - instart + (k + 1)) by lia. apply (Hcov (i - 1) ltac:(lia) 258); [apply (run_longest i); (done || lia)|lia].
Qed.

Lemma skip_repetition_spec i h costs lengths : long_run i -> hash_ok in_ ws inend (i + 1) h -> table_ok blocksize (costs, lengths) ->
  (forall k, 0 <= k <= 257 -> reached (costs, lengths) (i - instart + k)) ->
  exists h' c l, skip_repetition in_ instart inend costmodel (i, h, costs, lengths) = Ret (i + 258, h', c, l) /\
    hash_ok in_ ws inend (i + 258 + 1) h' /\ steps_to (costs, lengths) (c, l) /\ forall k, 0 <= k <= 515 -> reached (c, l) (i - instart + k).
Proof.
  intros Hrun Hh Ht Hr. pose proof Hrun as (H1 & H2 & _). unfold skip_repetition, ZOPFLI_MAX_MATCH.
  destruct (cm_match _ Hmodel 258 1 ltac:(lia) ltac:(lia)) as (x & -> & Hx). rewrite outcome_bind_ret.
  destruct (for_each_seqZ (fun m '(i', h, c, l) => i' = i + m /\ hash_ok in_ ws inend (i' + 1) h /\ steps_to (costs, lengths) (c, l) /\
      forall k, 258 <= k < 258 + m -> reached (c, l) (i - instart + k)) (fun _ => skip_one in_ instart inend x) 0 258 (i, h, costs, lengths))
    as ([[[i' h'] c] l] & -> & -> & Hh' & [Ht' Hg] & Hk); [lia| | |].
  - split; [lia|]. split; [done|]. split; [split; [done|by intros k _]|]. intros; lia.
  - intros m [[[i' h'] c] l] Hm (-> & Hh' & [Ht' Hg] & Hk). unfold skip_one, ZOPFLI_MAX_MATCH. cbv zeta.
    assert (reached (c, l) (i + m - instart)) as [Hc _].
    { replace (i + m - instart) with (i - instart + m) by lia. apply Hg; [lia|]. apply Hr. lia. }
    rewrite (reads blocksize c l (i + m - instart) Ht'), outcome_bind_ret by lia. destruct (add_cost _ _ Hc Hx) as (_ & Hsc & _).
    destruct (enter_step blocksize c l (i + m - instart + 258) (to_float (double_add (to_double (cost_at c (i + m - instart))) x)) 258 Ht')
      as (E1 & E2 & Ht2 & Hg2 & Hr2); [lia|done|lia| |].
    { right. split; [lia|]. exists 258. split; [|lia]. replace (instart + (i + m - instart + 258) - 258) with (i + m) by lia. apply (run_longest i); (done || lia). }
    rewrite E1, outcome_bind_ret, E2, outcome_bind_ret.
    destruct (ZopfliUpdateHash_spec in_ ws inend ltac:(lia) Hinend (i + m + 1) h' Hh' ltac:(lia)) as (h2 & -> & Hh2). rewrite outcome_bind_ret.
    eexists. split; [done|]. split; [lia|]. split; [done|]. split; [split; [done|by eapply grows_trans]|]. intros k Hk'.
    destruct (Z.eq_dec k (258 + m)) as [->|]; [by replace (i - instart + (258 + m)) with (i + m - instart + 258) by lia|].
    apply Hg2; [lia|]. apply Hk. lia.
  - exists h', c, l. rewrite Z.add_0_l in *. split; [done|]. split; [done|]. split; [by split|]. intros k Hk'.
    destruct (Z.lt_ge_cases k 258); [apply Hg; [lia|]; apply Hr; lia|apply Hk; lia].
Qed.

Lemma best_step_spec i f : instart <= i < inend -> forward_ok i f ->
  exists i' f', best_step in_ instart inend costmodel mincost i f = Ret (i', f') /\ i <= i' < inend /\ forward_ok (i' + 1) f'.
Proof.
  intros Hi [Hh Hs Hst Hsl Ht Hr Hcov]. unfold best_step.
  destruct (ZopfliUpdateHash_spec in_ ws inend ltac:(lia) Hinend i (f_hash f) Hh ltac:(lia)) as (h & -> & Hh1). rewrite outcome_bind_ret.
  destruct (at_repetition_spec i h Hi Hh1) as (b & -> & Hrun). rewrite outcome_bind_ret. destruct b.
  - specialize (Hrun eq_refl). pose proof Hrun as (R1 & R2 & _). pose proof (run_reached i _ Hrun Hr Hcov) as Hr0.
    destruct (skip_repetition_spec i h _ _ Hrun Hh1 Ht Hr0) as (h' & c & l & -> & Hh' & [Ht' Hg] & Hk). rewrite outcome_bind_ret.
    destruct (position_step_spec (i + 258) (f_state f) h' (c, l) (f_sublen f)) as (f' & E & Hf'); try done; try lia.
    + intros k Hk'. destruct (Z.le_gt_cases k (i - instart)); [apply Hg; [lia|]; apply Hr; lia|].
      replace k with (i - instart + (k - (i - instart))) by lia. apply Hk. lia.
    + intros y Hy l' k Hl' Hk'. destruct (Z.lt_ge_cases y i); [apply Hg; [lia|]; apply (Hcov y ltac:(lia) l' k Hl' Hk')|].
      pose proof (longest_unique _ _ _ _ _ _ Hl' (run_longest i y Hrun ltac:(lia))) as ->.
      replace (y - instart + k) with (i - instart + (y - i + k)) by lia. apply Hk. lia.
    + exists (i + 258), f'. split; [exact E|]. split; [lia|done].
  - rewrite outcome_bind_ret. destruct (position_step_spec i (f_state f) h (f_costs f, f_lengths f) (f_sublen f)) as (f' & E & Hf'); try done.
    exists i, f'. split; [exact E|]. split; [lia|done].
Qed.

Lemma best_loop_spec fuel i f : instart <= i <= inend -> forward_ok i f -> inend - i <= Z.of_nat fuel ->
  exists f', best_loop in_ instart inend costmodel mincost fuel i f = Ret f' /\ forward_ok inend f'.
Proof.
  revert i f. induction fuel as [|m IH]; intros i f Hi Hf Hm; cbn [best_loop]; destruct (Z.ltb_spec i inend) as [Hlt|Hge]; try lia.
  2: { destruct (best_step_spec i f ltac:(lia) Hf) as (i' & f' & -> & Hi' & Hf'). rewrite outcome_bind_ret. apply IH; (done || lia). }
  all: exists f; split; [done|]; by replace i with inend in Hf by lia.
Qed.
End block.

(** ** The lengths of the best steps *)

Lemma GetBestLengths_spec s in_ instart inend costmodel lengths sublen n : Forall is_byte in_ -> inend <= Z.of_nat (length in_) < 2 ^ 63 ->
  2 <= Z.of_nat (length in_) -> 0 <= instart < inend -> cost_model_ok costmodel ->
  Z.of_nat (length lengths) = inend - instart + 1 -> length sublen = 259%nat ->
  state_ok in_ (windowstart instart) inend n s -> blockstart s <= instart -> inend <= blockstart s + n ->
  exists s' lengths' cost, GetBestLengths s in_ instart inend costmodel lengths sublen = Ret (s', lengths', cost) /\
    state_ok in_ (windowstart instart) inend n s' /\ blockstart s' = blockstart s /\ Z.of_nat (length lengths') = inend - instart + 1 /\
    (forall k, 1 <= k <= inend - instart -> let len := table_at lengths' k in len <= k /\ step_ok in_ (windowstart instart) inend (instart + k - len) len) /\
    double_upto cost_bound cost.
Proof.
  intros Hb Hend H2 Hi Hmodel Hlen Hsl Hs Hbs Hn. unfold GetBestLengths. cbv zeta.
  destruct (GetCostModelMinCost_spec costmodel Hmodel) as (mincost & -> & Hmin). rewrite outcome_bind_ret. rewrite (proj2 (Z.eqb_neq _ _)) by lia.
  set (ws := windowstart instart) in *. destruct (windowstart_range instart (Z.of_nat (length in_))) as [Hws Hws1]; [lia..|]. fold ws in Hws, Hws1.
  destruct (hashed_ok in_ ws inend ltac:(lia) ltac:(lia) instart Hws1 ltac:(lia)) as (h & Eh & Hh).
  unfold hashed in Eh. apply outcome_bind_ret_inv in Eh as (h0 & -> & Eh). rewrite outcome_bind_ret, Eh, outcome_bind_ret.
  rewrite assign_ok, outcome_bind_ret by lia. pose proof Hs as [H0 _].
  set (f0 := MkForward s h (zero :: replicate (Z.to_nat (inend - instart)) large_cost) (<[Z.to_nat 0 := 0]> lengths) sublen).
  assert (forward_ok in_ ws instart inend n (blockstart s) instart f0) as Hf0.
  { constructor; cbn [f0 f_hash f_state f_sublen f_costs f_lengths]; try done.
    - constructor; cbn [fst snd length]; rewrite ?length_insert, ?length_replicate; [lia|done|]. intros k Hk.
      destruct (Z.eq_dec k 0) as [->|]; [left; split; [exact zero_cost|by left]|right].
      unfold cost_at. cbn [fst f0 f_costs]. rewrite lookup_cons_ne_0, lookup_replicate_2 by lia. done.
    - intros k Hk. assert (k = 0) as -> by lia. split; [exact zero_cost|by left].
    - intros x Hx. lia. }
  destruct (best_loop_spec in_ ws instart inend Hb ltac:(lia) Hws1 ltac:(lia) ltac:(lia) costmodel mincost Hmodel Hmin n (blockstart s) ltac:(lia) ltac:(lia)
    (Z.to_nat (inend - instart)) instart f0 ltac:(lia) Hf0 ltac:(lia)) as (f & -> & [_ F2 F3 F4 F5 F6 _]).
  rewrite outcome_bind_ret. pose proof (F6 (inend - instart) ltac:(lia)) as [Hc _]. cbn [fst] in Hc.
  rewrite (reads in_ ws instart inend (inend - instart) _ _ (inend - instart) F5), outcome_bind_ret by lia.
  destruct (to_double_upto _ _ Hc) as [Hd Hv]. rewrite double_leb by done. change (value zero) with 0. rewrite assertion_holds by (apply Z.leb_le; lia).
  eexists _, _, _. split; [done|]. split; [done|]. split; [done|]. split; [apply (tb_lengths _ _ _ _ _ _ F5)|]. split; [|by split].
  intros k Hk. destruct (F6 k ltac:(lia)) as [_ [?|Hs']]; [lia|done].
Qed.
