(* ===== verification/ZopfliOptimal.v ===== *)
(** * Zopfli: optimal parsing

    The second part of [squeeze.cc]: the path of the best steps back through the
    lengths of the forward pass, the items along it, and the runs of
    [ZopfliLZ77Optimal] with the statistics of the earlier ones.

    Proved here: for a block of at most seven million bytes, and at least one
    iteration, no assertion fails on the way, and the items stand for the bytes
    of the block. *)

From S2P Require Import Prelude CFloat ZopfliUtil ZopfliBits ZopfliTree Katajainen PackageMerge CodeLengths Inflate ZopfliDeflate ZopfliBlocks ZopfliDynamic ZopfliRoundTrip ZopfliHash ZopfliCache ZopfliMatch ZopfliGreedy ZopfliEntropy ZopfliCost ZopfliSqueeze.
From Stdlib Require Import SpecFloat.

Local Open Scope Z_scope.

(** ** The path *)

(** [for (;;)]: the lengths from the end on. *)
Fixpoint trace_loop (fuel : nat) (length_array : list Z) (i : Z) (path : list Z) : outcome (list Z) :=
  match fuel with
  | O => Undefined
  | S f =>
      l ← index length_array i;
      let path := path ++ [l] in
      _ ← assertion (l <=? i);
      _ ← assertion (l <=? ZOPFLI_MAX_MATCH);
      _ ← assertion (negb (l =? 0));
      let i := i - l in
      if i =? 0 then Ret path else trace_loop f length_array i path
  end.

(** "Mirror result." *)
Definition mirror (path : list Z) : outcome (list Z) :=
  let pathsize := Z.of_nat (length path) in
  for_each (seqZ 0 (pathsize / 2)) (fun i path =>
    temp ← index path i;
    v ← index path (pathsize - i - 1);
    path ← assign path i v;
    assign path (pathsize - i - 1) temp) path.

Definition TraceBackwards (size : Z) (length_array : list Z) : outcome (list Z) :=
  if size =? 0 then Ret []
  else path ← trace_loop (Z.to_nat size) length_array size []; mirror path.

(** A step of the loop over the path. *)
Definition follow_step (in_ : list Z) (inend length : Z) (t : ZopfliBlockState * ZopfliHash * Z * ZopfliLZ77Store) :
    outcome (ZopfliBlockState * ZopfliHash * Z * ZopfliLZ77Store) :=
  let '(s, h, pos, store) := t in
  _ ← assertion (pos <? inend);
  h ← ZopfliUpdateHash in_ pos inend h;
  '(s, length, store) ← (if ZOPFLI_MIN_MATCH <=? length then
      '(s, _, dist, dummy_length) ← ZopfliFindLongestMatch s h in_ pos inend length None;
      _ ← assertion (negb (negb (dummy_length =? length) && (2 <? length) && (2 <? dummy_length)));
      _ ← ZopfliVerifyLenDist in_ inend pos dist length;
      Ret (s, length, ZopfliStoreLitLenDist length dist store)
    else c ← index in_ pos; Ret (s, 1, ZopfliStoreLitLenDist c 0 store));
  _ ← assertion (pos + length <=? inend);
  h ← for_each (seqZ 1 (length - 1)) (fun j h => ZopfliUpdateHash in_ (pos + j) inend h) h;
  Ret (s, h, pos + length, store).

Definition FollowPath (s : ZopfliBlockState) (in_ : list Z) (instart inend : Z) (path : list Z) (store : ZopfliLZ77Store) :
    outcome (ZopfliBlockState * ZopfliLZ77Store) :=
  let ws := windowstart instart in
  if instart =? inend then Ret (s, store)
  else
    h ← ZopfliWarmupHash in_ ws (ZopfliInitHash ZOPFLI_WINDOW_SIZE);
    h ← for_each (seqZ ws (instart - ws)) (fun i h => ZopfliUpdateHash in_ i inend h) h;
    '(s, _, _, store) ← for_each path (follow_step in_ inend) (s, h, instart, store);
    Ret (s, store).

(** ** The runs *)

(** The state, [length_array] and the store. The arrays that a call leaves
    uninitialised are parameters: [sublen] of [GetBestLengths]. *)
Definition LZ77OptimalRun (s : ZopfliBlockState) (in_ : list Z) (instart inend : Z) (length_array : list Z)
    (costmodel : CostModelFun) (store : ZopfliLZ77Store) (sublen : list Z) : outcome (ZopfliBlockState * list Z * ZopfliLZ77Store) :=
  '(s, length_array, cost) ← GetBestLengths s in_ instart inend costmodel length_array sublen;
  path ← TraceBackwards (inend - instart) length_array;
  '(s, store) ← FollowPath s in_ instart inend path store;
  _ ← assertion (SFltb cost ZOPFLI_LARGE_FLOAT);
  Ret (s, length_array, store).

(** What the memory and the stack hold before it is written: [length_array], and
    the [sublen] of the calls. *)
Class Uninitialised : Type := {
  garbage : nat -> list Z;
  garbage_length : forall n, length (garbage n) = n;
}.

(** The variables of the loop of [ZopfliLZ77Optimal]; [beststats] and
    [laststats] are not initialised. *)
Record optimal : Type := MkOptimal {
  o_state : ZopfliBlockState; o_lengths : list Z; o_currentstore : ZopfliLZ77Store; o_store : ZopfliLZ77Store;
  o_stats : SymbolStats.t; o_beststats : option SymbolStats.t; o_bestcost : spec_float; o_lastcost : spec_float;
  o_ran : RanState; o_lastrandomstep : Z
}.

Section optimal.
Context {sort : Qsort} {logarithm : Log} {uninitialised : Uninitialised}.

Definition optimal_step (in_ : list Z) (instart inend i : Z) (o : optimal) : outcome optimal :=
  '(s, length_array, currentstore) ← LZ77OptimalRun (o_state o) in_ instart inend (o_lengths o) (GetCostStat (o_stats o))
    ZopfliInitLZ77Store (garbage 259);
  size ← ZopfliCalculateBlockSize currentstore 0 (store_size currentstore) 2;
  let cost := double_of_Z size in
  let better := SFltb cost (o_bestcost o) in
  let store := if better then ZopfliCopyLZ77Store currentstore else o_store o in
  let beststats := if better then Some (CopyStats (o_stats o)) else o_beststats o in
  let bestcost := if better then cost else o_bestcost o in
  let laststats := CopyStats (o_stats o) in
  stats ← GetStatistics currentstore (ClearStatFreqs (o_stats o));
  stats ← (if negb (o_lastrandomstep o =? -1) then
      stats ← AddWeighedStatFreqs stats (double_of_Z 1) laststats one_half stats; CalculateStatistics stats
    else Ret stats);
  '(stats, ran, lastrandomstep) ← (if (5 <? i) && SFeqb cost (o_lastcost o) then
      best ← or_undefined beststats;
      '(ran, stats) ← RandomizeStatFreqs (o_ran o) (CopyStats best);
      stats ← CalculateStatistics stats;
      Ret (stats, ran, i)
    else Ret (stats, o_ran o, o_lastrandomstep o));
  Ret (MkOptimal s length_array currentstore store stats beststats bestcost cost ran lastrandomstep).

(** The store is that of the caller, which is written when a run is better. *)
Definition ZopfliLZ77Optimal (numiterations : Z) (s : ZopfliBlockState) (in_ : list Z) (instart inend : Z) (store : ZopfliLZ77Store) :
    outcome (ZopfliBlockState * ZopfliLZ77Store) :=
  let blocksize := inend - instart in
  '(s, currentstore) ← ZopfliLZ77Greedy s in_ instart inend ZopfliInitLZ77Store (garbage 259);
  stats ← GetStatistics currentstore InitStats;
  o ← for_each (seqZ 0 numiterations) (optimal_step in_ instart inend)
    (MkOptimal s (garbage (Z.to_nat (blocksize + 1))) currentstore store stats None ZOPFLI_LARGE_FLOAT zero InitRanState (-1));
  Ret (o_state o, o_store o).

Definition ZopfliLZ77OptimalFixed (s : ZopfliBlockState) (in_ : list Z) (instart inend : Z) (store : ZopfliLZ77Store) :
    outcome (ZopfliBlockState * ZopfliLZ77Store) :=
  let blocksize := inend - instart in
  let s := MkState (lmc s) instart in
  '(s, _, store) ← LZ77OptimalRun s in_ instart inend (garbage (Z.to_nat (blocksize + 1))) GetCostFixed store (garbage 259);
  Ret (s, store).
End optimal.

#[export] Instance filled_with_ones : Uninitialised := {| garbage n := replicate n 1; garbage_length n := length_replicate n 1 |}.

Example optimal_example :
  ('(_, store) ← ZopfliLZ77Optimal (sort := sorting) 1 (MkState (Some (ZopfliInitCache 8)) 0) banana 0 8 ZopfliInitLZ77Store; Ret store)
  = Ret (MkStore [98; 97; 110; 5] [0; 0; 0; 2]).
Proof. vm_compute. reflexivity. Qed.

(** ** The path back *)

Lemma mirror_spec path : mirror path = Ret (reverse path).
Proof.
  unfold mirror. set (n := Z.of_nat (length path)).
  destruct (for_each_seqZ (fun i p => length p = length path /\ forall k, 0 <= k < n ->
      table_at p k = if (k <? i) || (n - i <=? k) then table_at path (n - 1 - k) else table_at path k)
    (fun i path => temp ← index path i; v ← index path (n - i - 1); path ← assign path i v; assign path (n - i - 1) temp) 0 (n / 2) path)
    as (p & E & Hl & Hp).
  - apply Z.div_pos; lia.
  - split; [done|]. intros k Hk. by rewrite (proj2 (Z.ltb_ge _ _)), (proj2 (Z.leb_gt _ _)) by lia.
  - intros i p Hi [Hl Hp]. assert (2 * i + 1 < n) as Hin by (pose proof (Z.mul_div_le n 2); lia).
    rewrite (index_ok p i), outcome_bind_ret, (index_ok p (n - i - 1)), outcome_bind_ret, (assign_ok p i), outcome_bind_ret by lia.
    rewrite assign_ok by (rewrite length_insert; lia). eexists. split; [done|]. split; [by rewrite !length_insert|].
    intros k Hk. rewrite table_at_insert, table_at_insert by (rewrite ?length_insert; lia).
    destruct (Z.eqb_spec k (n - i - 1)) as [->|].
    + rewrite (proj2 (Z.leb_le (n - (i + 1)) _)), orb_true_r by lia. rewrite Hp, (proj2 (Z.ltb_ge i i)), (proj2 (Z.leb_gt (n - i) i)) by lia. cbn [orb]. f_equal. lia.
    + destruct (Z.eqb_spec k i) as [->|].
      * rewrite (proj2 (Z.ltb_lt i (i + 1))) by lia. cbn [orb]. rewrite Hp, (proj2 (Z.ltb_ge (n - i - 1) i)), (proj2 (Z.leb_gt (n - i) (n - i - 1))) by lia.
        cbn [orb]. f_equal. lia.
      * rewrite Hp by lia. replace ((k <? i + 1) || (n - (i + 1) <=? k)) with ((k <? i) || (n - i <=? k)); [done|].
        destruct (Z.ltb_spec k i), (Z.leb_spec (n - i) k), (Z.ltb_spec k (i + 1)), (Z.leb_spec (n - (i + 1)) k); (done || lia).
  - rewrite E. f_equal. apply list_eq. intros j. destruct (decide (j < length path)%nat) as [Hj|Hj].
    2: { rewrite !lookup_ge_None_2; [done|rewrite length_reverse; lia|lia]. }
    specialize (Hp (Z.of_nat j) ltac:(lia)). rewrite reverse_lookup by done.
    assert (table_at p (Z.of_nat j) = table_at path (Z.of_nat (length path - S j))) as Ej.
    { rewrite Hp. replace (Z.of_nat (length path - S j)) with (n - 1 - Z.of_nat j) by lia. destruct (_ || _) eqn:Eo; [done|].
      apply orb_false_iff in Eo as [E1 E2]. f_equal. rewrite Z.add_0_l in *. apply Z.ltb_ge in E1. apply Z.leb_gt in E2.
      pose proof (Z.div_mod n 2 ltac:(lia)). pose proof (Z.mod_pos_bound n 2 ltac:(lia)). lia. }
    rewrite !table_at_nat in Ej. destruct (lookup_lt_is_Some_2 p j ltac:(lia)) as [x Hx]. destruct (lookup_lt_is_Some_2 path (length path - S j) ltac:(lia)) as [y Hy].
    rewrite Hx, Hy in *. cbn in Ej. by rewrite Ej.
Qed.

Section path.
Context (in_ : list Z) (ws instart inend : Z).

(** Steps from [x] to the end. *)
Fixpoint path_ok (x : Z) (path : list Z) : Prop :=
  match path with
  | [] => x = inend
  | l :: path' => x + l <= inend /\ step_ok in_ ws inend x l /\ path_ok (x + l) path'
  end.

Lemma trace_loop_spec lengths fuel i path : 1 <= i <= inend - instart -> i <= Z.of_nat fuel ->
  Z.of_nat (length lengths) = inend - instart + 1 ->
  (forall k, 1 <= k <= inend - instart -> let len := table_at lengths k in len <= k /\ step_ok in_ ws inend (instart + k - len) len) ->
  path_ok (instart + i) (reverse path) ->
  exists path', trace_loop fuel lengths i path = Ret path' /\ path_ok instart (reverse path').
Proof.
  intros Hi Hf Hlen Hs. revert i path Hi Hf. induction fuel as [|f IH]; intros i path Hi Hf Hp; [lia|]. cbn [trace_loop].
  rewrite index_ok, outcome_bind_ret by lia. cbv zeta. destruct (Hs i Hi) as [Hle Hstep]. set (l := table_at lengths i) in *.
  assert (1 <= l <= 258) as Hl by (destruct Hstep as [->|[? _]]; lia).
  rewrite !assertion_holds by (unfold ZOPFLI_MAX_MATCH; lia).
  assert (path_ok (instart + i - l) (reverse (path ++ [l]))) as Hp'.
  { rewrite reverse_app. change (reverse [l]) with [l]. cbn [app path_ok]. replace (instart + i - l + l) with (instart + i) by lia. split; [lia|done]. }
  destruct (Z.eqb_spec (i - l) 0) as [E|Hne].
  - exists (path ++ [l]). split; [done|]. by replace (instart + i - l) with instart in Hp' by lia.
  - apply IH; [lia|lia|]. by replace (instart + (i - l)) with (instart + i - l) by lia.
Qed.

Lemma TraceBackwards_spec lengths : instart < inend -> Z.of_nat (length lengths) = inend - instart + 1 ->
  (forall k, 1 <= k <= inend - instart -> let len := table_at lengths k in len <= k /\ step_ok in_ ws inend (instart + k - len) len) ->
  exists path, TraceBackwards (inend - instart) lengths = Ret path /\ path_ok instart path.
Proof.
  intros Hi Hlen Hs. unfold TraceBackwards. rewrite (proj2 (Z.eqb_neq _ _)) by lia.
  destruct (trace_loop_spec lengths (Z.to_nat (inend - instart)) (inend - instart) [] ltac:(lia) ltac:(lia) Hlen Hs) as (path & -> & Hp).
  - cbn. lia.
  - rewrite outcome_bind_ret, mirror_spec. by eexists.
Qed.

(** ** The items along the path *)

Context (n : Z) (start : ZopfliLZ77Store).
Context (Hbytes : Forall is_byte in_) (Hws : 0 <= ws <= instart).
Context (Hinend : inend <= Z.of_nat (length in_)) (Hsize : inend < 2 ^ 63).
Context (bs : Z) (Hbs : 0 <= bs <= instart) (Hblock : inend <= bs + n).

(** The variables of the loop. *)
Definition following (t : ZopfliBlockState * ZopfliHash * Z * ZopfliLZ77Store) (x : Z) : Prop :=
  let '(s, h, pos, store) := t in
  pos = x /\ instart <= x /\ hash_ok in_ ws inend x h /\ state_ok in_ ws inend n s /\ blockstart s = bs /\ parsed in_ start instart store x.

Lemma hash_match h x l : 1 <= l -> ws <= x -> x + l <= inend -> hash_ok in_ ws inend (x + 1) h ->
  exists h', for_each (seqZ 1 (l - 1)) (fun j h => ZopfliUpdateHash in_ (x + j) inend h) h = Ret h' /\ hash_ok in_ ws inend (x + l) h'.
Proof.
  intros Hl Hx He Hh. destruct (for_each_seqZ (fun j h => hash_ok in_ ws inend (x + j) h) (fun j h => ZopfliUpdateHash in_ (x + j) inend h) 1 (l - 1) h)
    as (h' & -> & Hh'); [lia|done| |].
  - intros j h1 Hj Hh1. destruct (ZopfliUpdateHash_spec in_ ws inend ltac:(lia) Hinend (x + j) h1 Hh1 ltac:(lia)) as (h2 & -> & Hh2).
    exists h2. split; [done|]. by rewrite Z.add_assoc.
  - exists h'. split; [done|]. by replace (x + (1 + (l - 1))) with (x + l) in Hh' by lia.
Qed.

Lemma follow_step_spec t x l : following t x -> 0 < l -> x + l <= inend -> step_ok in_ ws inend x l ->
  exists t', follow_step in_ inend l t = Ret t' /\ following t' (x + l).
Proof.
  destruct t as [[[s h] pos] store]. intros (-> & Hx & Hh & Hs & Hst & Hp) Hl Hxl Hstep. unfold follow_step.
  rewrite assertion_holds by lia. destruct (ZopfliUpdateHash_spec in_ ws inend ltac:(lia) Hinend x h Hh ltac:(lia)) as (h1 & -> & Hh1).
  rewrite outcome_bind_ret.
  assert (exists s' store', (if ZOPFLI_MIN_MATCH <=? l then
      '(s, _, dist, dummy_length) ← ZopfliFindLongestMatch s h1 in_ x inend l None;
      _ ← assertion (negb (negb (dummy_length =? l) && (2 <? l) && (2 <? dummy_length)));
      _ ← ZopfliVerifyLenDist in_ inend x dist l;
      Ret (s, l, ZopfliStoreLitLenDist l dist store)
    else c ← index in_ x; Ret (s, 1, ZopfliStoreLitLenDist c 0 store)) = Ret (s', l, store') /\
    state_ok in_ ws inend n s' /\ blockstart s' = bs /\ parsed in_ start instart store' (x + l)) as (s' & store' & -> & Hs' & Hst' & Hp').
  { unfold ZOPFLI_MIN_MATCH. destruct Hstep as [->|(Hl3 & m & Hm & Hlm)].
    - cbn [Z.leb Z.compare]. change (3 <=? 1) with false. cbv iota. rewrite index_ok, outcome_bind_ret by lia. eexists _, _. split; [done|]. split; [done|]. split; [done|].
      apply (parsed_literal in_ inend); (done || lia).
    - rewrite (proj2 (Z.leb_le _ _)) by lia.
      destruct (FindLongestMatch_spec in_ ws inend ltac:(lia) Hinend Hsize n x None ltac:(done) s h1 l Hs ltac:(lia) ltac:(lia) ltac:(lia) Hh1)
        as (s' & sl & d & l' & -> & Hs' & Hst' & (_ & _ & Hmatch & _) & _ & (m' & Hm' & Heq)).
      pose proof (longest_unique _ _ _ _ _ _ Hm Hm') as <-. specialize (Heq (or_introl eq_refl)). assert (l' = l) as -> by lia.
      rewrite outcome_bind_ret, Z.eqb_refl. cbn [negb andb]. rewrite assertion_holds by done. specialize (Hmatch ltac:(lia)).
      rewrite (verify_ok in_ inend) by (done || lia). rewrite outcome_bind_ret. eexists _, _. split; [done|]. split; [done|]. split; [by rewrite Hst'|].
      apply (parsed_match in_ inend); (done || lia). }
  rewrite outcome_bind_ret, assertion_holds by lia.
  destruct (hash_match h1 x l ltac:(lia) ltac:(lia) Hxl Hh1) as (h2 & -> & Hh2). rewrite outcome_bind_ret. eexists. split; [done|].
  split; [done|]. split; [lia|]. by split_and!.
Qed.

Lemma follow_path_spec path t x : following t x -> path_ok x path ->
  exists t', for_each path (follow_step in_ inend) t = Ret t' /\ following t' inend.
Proof.
  revert t x. induction path as [|l path IH]; intros t x Ht Hp; cbn [path_ok for_each] in *; [subst; by exists t|].
  destruct Hp as (Hl & Hs & Hp). assert (0 < l) as H0 by (destruct Hs as [->|[? _]]; lia).
  destruct (follow_step_spec t x l Ht H0 Hl Hs) as (t' & -> & Ht'). rewrite outcome_bind_ret. by apply (IH t' (x + l)).
Qed.
End path.

Lemma FollowPath_spec s in_ instart inend path store n : Forall is_byte in_ -> inend <= Z.of_nat (length in_) < 2 ^ 63 ->
  2 <= Z.of_nat (length in_) -> 0 <= instart < inend -> state_ok in_ (windowstart instart) inend n s -> 0 <= blockstart s <= instart ->
  inend <= blockstart s + n -> path_ok in_ (windowstart instart) inend instart path ->
  exists s' store', FollowPath s in_ instart inend path store = Ret (s', store') /\
    state_ok in_ (windowstart instart) inend n s' /\ blockstart s' = blockstart s /\ parsed in_ store instart store' inend.
Proof.
  intros Hb Hend H2 Hi Hs Hbs Hn Hp. unfold FollowPath. rewrite (proj2 (Z.eqb_neq _ _)) by lia. cbv zeta.
  set (ws := windowstart instart) in *. destruct (windowstart_range instart (Z.of_nat (length in_))) as [Hws Hws1]; [lia..|]. fold ws in Hws, Hws1.
  destruct (hashed_ok in_ ws inend ltac:(lia) ltac:(lia) instart Hws1 ltac:(lia)) as (h & Eh & Hh).
  unfold hashed in Eh. apply outcome_bind_ret_inv in Eh as (h0 & -> & Eh). rewrite outcome_bind_ret, Eh, outcome_bind_ret.
  destruct (follow_path_spec in_ ws instart inend n store Hb Hws ltac:(lia) ltac:(lia) (blockstart s) Hbs Hn path (s, h, instart, store) instart)
    as ([[[s' h'] x'] store'] & -> & (_ & _ & _ & Hs' & Hst' & Hp')); [|done|].
  - split; [done|]. split; [lia|]. split_and!; try done. by apply parsed_start.
  - rewrite outcome_bind_ret. exists s', store'. by split_and!.
Qed.

(** ** The runs *)

(** A cost in bits is below the large one. *)
Lemma size_below_large size : 0 <= size < 2 ^ 66 -> SFltb (double_of_Z size) ZOPFLI_LARGE_FLOAT = true.
Proof.
  intros Hs. destruct large_float as [Hl Hlv]. assert (0 <= units size <= units (2 ^ 66)) as Hu.
  { pose proof one_positive. unfold units. nia. }
  destruct (double_rounds_pos _ _ (double_of_Z_rounds size) ltac:(lia)) as [Hd E].
  - pose proof (double_rounded_mono _ _ Hu). assert (rounded 53 1024 (units (2 ^ 66)) < 2 ^ (1024 - unit)) by (apply Z.ltb_lt; by vm_compute). lia.
  - rewrite double_ltb, E by done. apply Z.ltb_lt. pose proof (double_rounded_mono _ _ Hu).
    assert (rounded 53 1024 (units (2 ^ 66)) < value ZOPFLI_LARGE_FLOAT) by (apply Z.ltb_lt; by vm_compute). lia.
Qed.

Section runs.
Context {sort : Qsort} {logarithm : Log} {uninitialised : Uninitialised}.
Context (in_ : list Z) (instart inend n bs : Z).
Context (Hbytes : Forall is_byte in_) (Hlen : inend <= Z.of_nat (length in_) < 2 ^ 63) (Hlen2 : 2 <= Z.of_nat (length in_)).
Context (Hin : 0 <= instart < inend) (Hbs : 0 <= bs <= instart) (Hblock : inend <= bs + n).

Local Abbreviation blocksize := (inend - instart).

(** The state between the runs. *)
Definition ready (s : ZopfliBlockState) : Prop := state_ok in_ (windowstart instart) inend n s /\ blockstart s = bs.

Lemma LZ77OptimalRun_spec s lengths costmodel store sublen : ready s -> Z.of_nat (length lengths) = blocksize + 1 -> cost_model_ok costmodel ->
  length sublen = 259%nat ->
  exists s' lengths' store', LZ77OptimalRun s in_ instart inend lengths costmodel store sublen = Ret (s', lengths', store') /\
    ready s' /\ Z.of_nat (length lengths') = blocksize + 1 /\ parsed in_ store instart store' inend.
Proof.
  intros [Hs Hst] Hl Hm Hsl. unfold LZ77OptimalRun.
  destruct (GetBestLengths_spec s in_ instart inend costmodel lengths sublen n) as (s1 & lengths' & cost & -> & Hs1 & Hst1 & Hl' & Hsteps & [Hc Hcv]);
    [done|done|done|done|done|done|done|done|lia|lia|].
  rewrite outcome_bind_ret. destruct (TraceBackwards_spec in_ (windowstart instart) instart inend lengths' ltac:(lia) Hl' Hsteps) as (path & -> & Hp).
  rewrite outcome_bind_ret. destruct (FollowPath_spec s1 in_ instart inend path store n) as (s2 & store' & -> & Hs2 & Hst2 & Hparsed);
    [done|done|done|done|done|lia|lia|done|].
  rewrite outcome_bind_ret, assertion_holds.
  - exists s2, lengths', store'. split; [exact eq_refl|]. split; [split; [exact Hs2|lia]|]. by split.
  - destruct large_float as [Hd Hv]. rewrite double_ltb by done. apply Z.ltb_lt. assert (cost_bound <= units (2 ^ 60)) by (apply Z.leb_le; by vm_compute). lia.
Qed.

(** The items of a block. *)
Lemma parsed_store store : blocksize < 2 ^ 31 -> parsed in_ ZopfliInitLZ77Store instart store inend ->
  store_ok store /\ store_size store <= blocksize /\
  lz_decode (block_items store 0 (store_size store)) (take (Z.to_nat instart) in_) = Some (take (Z.to_nat inend) in_).
Proof.
  intros Hb (items & -> & Hok & Hdec). pose proof (lz_decode_length _ _ _ Hok Hdec) as Hl. rewrite !length_take in Hl.
  assert (zip items.*1 items.*2 = items) as Hzip by apply zip_fst_snd.
  unfold store_size, block_items. cbn [store_with ZopfliInitLZ77Store litlens dists app]. rewrite length_fmap.
  split; [|split; [lia|by rewrite drop_0, Hzip, take_ge by lia]].
  constructor; cbn [store_with ZopfliInitLZ77Store litlens dists app]; [by rewrite !length_fmap|rewrite length_fmap; lia|by rewrite Hzip].
Qed.

Context (Hblocksize : 288 * (2 * blocksize) < 2 ^ 32).

(** The loop of the runs. *)
Record optimal_ok (i : Z) (o : optimal) : Prop := {
  oo_state : ready (o_state o);
  oo_lengths : Z.of_nat (length (o_lengths o)) = blocksize + 1;
  oo_stats : stats_ok (2 * blocksize) (o_stats o);
  oo_first : i = 0 -> o_bestcost o = ZOPFLI_LARGE_FLOAT;
  oo_best : 0 < i -> parsed in_ ZopfliInitLZ77Store instart (o_store o) inend /\ exists stats, o_beststats o = Some stats /\ stats_ok (2 * blocksize) stats;
}.

Lemma stats_mono m m' stats : m <= m' -> stats_ok m stats -> stats_ok m' stats.
Proof. intros H []. constructor; try done; by apply (freqs_mono _ m). Qed.

Lemma best_of i o store better : optimal_ok i o -> 0 <= i -> parsed in_ ZopfliInitLZ77Store instart store inend -> (i = 0 -> better = true) ->
  parsed in_ ZopfliInitLZ77Store instart (if better then ZopfliCopyLZ77Store store else o_store o) inend /\
  exists stats, (if better then Some (CopyStats (o_stats o)) else o_beststats o) = Some stats /\ stats_ok (2 * blocksize) stats.
Proof.
  intros Ho Hi Hp Hb. destruct better; [|apply (oo_best _ _ Ho); destruct (Z.eq_dec i 0); [by specialize (Hb ltac:(lia))|lia]].
  split; [by destruct store|]. exists (o_stats o). split; [by destruct (o_stats o)|apply (oo_stats _ _ Ho)].
Qed.

Lemma optimal_step_spec i o : 0 <= i -> optimal_ok i o -> exists o', optimal_step in_ instart inend i o = Ret o' /\ optimal_ok (i + 1) o'.
Proof.
  intros Hi Ho. pose proof Ho as [Hs Hl Hst Hfirst _]. unfold optimal_step.
  destruct (LZ77OptimalRun_spec (o_state o) (o_lengths o) (GetCostStat (o_stats o)) ZopfliInitLZ77Store (garbage 259)) as (s & lengths & cs & -> & Hs' & Hl' & Hp);
    [done|done|by apply (stat_model_ok (2 * blocksize))|apply garbage_length|].
  rewrite outcome_bind_ret. destruct (parsed_store cs ltac:(lia) Hp) as (Hcs & Hsize & _). assert (0 <= store_size cs) as H0 by (unfold store_size; lia).
  destruct (block_size_total 2 cs 0 (store_size cs) (or_intror eq_refl) Hcs ltac:(lia) ltac:(lia)) as (size & -> & Hsz). rewrite outcome_bind_ret. cbv zeta.
  destruct (best_of i o cs (SFltb (double_of_Z size) (o_bestcost o)) Ho Hi Hp) as [Hbest (best & Eb & Hbs')].
  { intros E. rewrite (Hfirst E). by apply size_below_large. }
  destruct (GetStatistics_spec blocksize cs (ClearStatFreqs (o_stats o)) Hcs Hsize ltac:(lia) ltac:(lia)) as (stats & -> & Hst1); [by split|].
  rewrite outcome_bind_ret.
  match goal with |- exists o', (?m ≫= _) = _ /\ _ => assert (exists stats2, m = Ret stats2 /\ stats_ok (2 * blocksize) stats2) as (stats2 & -> & Hst2) end.
  { destruct (negb _); [|exists stats; split; [exact eq_refl|apply (stats_mono blocksize); [lia|done]]].
    destruct (AddWeighedStatFreqs_spec blocksize stats (CopyStats (o_stats o))) as (stats2 & -> & H1 & H2); [lia|done|by destruct (o_stats o)|].
    rewrite outcome_bind_ret. apply CalculateStatistics_spec; (done || lia). }
  rewrite outcome_bind_ret.
  match goal with |- exists o', (?m ≫= _) = _ /\ _ => assert (exists stats3 ran step, m = Ret (stats3, ran, step) /\ stats_ok (2 * blocksize) stats3) as (stats3 & ran & step & -> & Hst3) end.
  { destruct (_ && _); [|eexists _, _, _; split; [exact eq_refl|exact Hst2]]. rewrite Eb. cbn [or_undefined]. rewrite outcome_bind_ret.
    destruct (RandomizeStatFreqs_spec (2 * blocksize) (o_ran o) (CopyStats best)) as (ran & stats3 & -> & H1 & H2); [lia|by destruct best|].
    rewrite outcome_bind_ret. destruct (CalculateStatistics_spec (2 * blocksize) stats3 ltac:(lia) H1 H2) as (stats4 & -> & H4).
    rewrite outcome_bind_ret. eexists _, _, _. split; [exact eq_refl|exact H4]. }
  rewrite outcome_bind_ret. eexists. split; [exact eq_refl|].
  constructor; cbn [o_state o_lengths o_stats o_bestcost o_store o_beststats]; [exact Hs'|exact Hl'|exact Hst3|intros E; exfalso; lia|].
  intros _. split; [exact Hbest|]. exists best. split; [exact Eb|exact Hbs'].
Qed.

Lemma ZopfliLZ77Optimal_spec numiterations s store : 1 <= numiterations -> ready s ->
  exists s' store', ZopfliLZ77Optimal numiterations s in_ instart inend store = Ret (s', store') /\
    ready s' /\ parsed in_ ZopfliInitLZ77Store instart store' inend.
Proof.
  intros Hn [Hs Hst]. unfold ZopfliLZ77Optimal. cbv zeta.
  destruct (ZopfliLZ77Greedy_spec s in_ instart inend ZopfliInitLZ77Store (garbage 259) n) as (s1 & cs & -> & Hs1 & Hst1 & Hp);
    [done|done|done|lia|apply garbage_length|done|lia|lia|].
  rewrite outcome_bind_ret. destruct (parsed_store cs ltac:(lia) Hp) as (Hcs & Hsize & _).
  destruct (GetStatistics_spec blocksize cs InitStats Hcs Hsize ltac:(lia) ltac:(lia)) as (stats & -> & Hst2); [by split|]. rewrite outcome_bind_ret.
  match goal with |- context[for_each (seqZ 0 numiterations) ?f ?o] => destruct (for_each_seqZ optimal_ok f 0 numiterations o) as (o' & -> & Ho') end.
  - lia.
  - constructor; cbn [o_state o_lengths o_stats o_bestcost o_store o_beststats]; [split; [exact Hs1|lia]|rewrite garbage_length; lia| |exact (fun _ => eq_refl)|lia].
    apply (stats_mono blocksize); [lia|done].
  - intros i o Hi Ho. apply optimal_step_spec; [lia|done].
  - rewrite outcome_bind_ret. exists (o_state o'), (o_store o'). split; [exact eq_refl|]. split; [apply (oo_state _ _ Ho')|]. apply (oo_best _ _ Ho'). lia.
Qed.

Lemma ZopfliLZ77OptimalFixed_spec s store : bs = instart -> ready s ->
  exists s' store', ZopfliLZ77OptimalFixed s in_ instart inend store = Ret (s', store') /\ ready s' /\ parsed in_ store instart store' inend.
Proof.
  intros Hb [Hs Hst]. unfold ZopfliLZ77OptimalFixed. cbv zeta. destruct s as [lmc0 start]. cbn [lmc blockstart] in *. subst start.
  destruct (LZ77OptimalRun_spec (MkState lmc0 instart) (garbage (Z.to_nat (blocksize + 1))) GetCostFixed store (garbage 259)) as (s' & lengths & store' & -> & Hs' & _ & Hp).
  - rewrite Hb in Hs. split; [exact Hs|by rewrite Hb].
  - rewrite garbage_length. lia.
  - apply fixed_model_ok.
  - apply garbage_length.
  - rewrite outcome_bind_ret. exists s', store'. split; [exact eq_refl|]. by split.
Qed.
End runs.

(** ** Properties *)

(** C7. [ZopfliLZ77Optimal], for a block of 1 to 7,000,000 bytes and at least one
    iteration, whatever [length_array] and [sublen] hold before they are written,
    whatever longest matches the cache holds and whatever logarithm is used within
    the bounds of [Log]: it returns, so that no assertion of the forward pass, of
    the path back, of the items along it and of the statistics fails; the store it
    fills is an iteration's, and a decoder turns its items, after the bytes before
    the block, into the bytes of the block. *)
Theorem optimal_parse_correct {sort : Qsort} {logarithm : Log} {uninitialised : Uninitialised} numiterations s in_ instart inend store n
    (Hbytes : Forall is_byte in_) (Hlen : 2 <= Z.of_nat (length in_) < 2 ^ 63) (Hin : 0 <= instart < inend) (Hend : inend <= Z.of_nat (length in_))
    (Hblocksize : inend - instart <= 7000000) (Hiterations : 1 <= numiterations)
    (Hs : state_ok in_ (windowstart instart) inend n s) (Hblock : blockstart s <= instart /\ inend <= blockstart s + n) :
  exists s' items, ZopfliLZ77Optimal numiterations s in_ instart inend store = Ret (s', MkStore items.*1 items.*2) /\
    Forall item_ok items /\ lz_decode items (take (Z.to_nat instart) in_) = Some (take (Z.to_nat inend) in_) /\
    state_ok in_ (windowstart instart) inend n s' /\ blockstart s' = blockstart s.
Proof.
  pose proof Hs as [Hs0 _]. destruct (ZopfliLZ77Optimal_spec in_ instart inend n (blockstart s) Hbytes ltac:(lia) ltac:(lia) Hin ltac:(lia) ltac:(lia) ltac:(lia)
    numiterations s store Hiterations) as (s' & store' & -> & [Hs' Hst'] & items & -> & Hok & Hdec); [by split|].
  exists s', items. split; [exact eq_refl|]. by split_and!.
Qed.

Lemma optimal_parse_correct_witness :
  exists s' items, ZopfliLZ77Optimal (sort := sorting) 2 (MkState (Some (ZopfliInitCache 6)) 3) banana 3 9 ZopfliInitLZ77Store = Ret (s', MkStore items.*1 items.*2) /\
    Forall item_ok items /\ lz_decode items (take (Z.to_nat 3) banana) = Some (take (Z.to_nat 9) banana) /\
    state_ok banana 0 9 6 s' /\ blockstart s' = 3.
Proof.
  apply (optimal_parse_correct (sort := sorting) 2 (MkState (Some (ZopfliInitCache 6)) 3) banana 3 9 ZopfliInitLZ77Store); try (cbn; lia).
  - unfold is_byte. repeat (apply Forall_cons; split; [lia|]). apply Forall_nil. exact I.
  - split; [cbn; lia|]. cbn [lmc blockstart]. apply InitCache_ok. lia.
Defined.
