(* ===== verification/ZopfliSplit.v ===== *)
(** * Zopfli: block splitting

    [blocksplitter.cc]: where the items of a store are split into blocks, by the
    estimated sizes of the blocks.

    Proved here: the search ends with a position of its range, and with a least
    one when it tries all of them; [AddSorted] inserts in order; the split points
    are in order and inside the store, no assertion fails, and in bytes they are
    where the items begin. *)

From S2P Require Import Prelude CFloat ZopfliUtil ZopfliBits ZopfliTree Katajainen PackageMerge CodeLengths Inflate ZopfliDeflate ZopfliBlocks ZopfliDynamic ZopfliRoundTrip ZopfliHash ZopfliCache ZopfliMatch ZopfliGreedy ZopfliEntropy ZopfliCost ZopfliSqueeze ZopfliOptimal.
From Stdlib Require Import SpecFloat.

Local Open Scope Z_scope.

(** ** The search for a minimum *)

Section minimum.
Context (f : Z -> outcome spec_float).

(** "Try to find minimum faster by recursively checking multiple points.": the
    points and their values, [NUM] is 9. *)
Definition NUM : Z := 9.

Definition try_points (start end_ : Z) : outcome (list Z * list spec_float) :=
  for_each (seqZ 0 NUM) (fun i '(p, vp) =>
    let q := start + (i + 1) * ((end_ - start) / (NUM + 1)) in
    v ← f q;
    Ret (p ++ [q], vp ++ [v])) ([], []).

Definition best_point (vp : list spec_float) : outcome (Z * spec_float) :=
  v0 ← float_index vp 0;
  for_each (seqZ 1 (NUM - 1)) (fun i '(besti, best) =>
    v ← float_index vp i;
    Ret (if SFltb v best then (i, v) else (besti, best))) (0, v0).

(** [for (;;)] *)
Fixpoint narrow (fuel : nat) (start end_ pos : Z) (lastbest : spec_float) : outcome Z :=
  match fuel with
  | O => Undefined
  | S n =>
      if end_ - start <=? NUM then Ret pos
      else
        '(p, vp) ← try_points start end_;
        '(besti, best) ← best_point vp;
        if SFltb lastbest best then Ret pos
        else
          start' ← (if besti =? 0 then Ret start else index p (besti - 1));
          end' ← (if besti =? NUM - 1 then Ret end_ else index p (besti + 1));
          pos ← index p besti;
          narrow n start' end' pos best
  end.

Definition FindMinimum (start end_ : Z) : outcome Z :=
  if end_ - start <? 1024 then
    '(_, result) ← for_each (seqZ start (end_ - start)) (fun i '(best, result) =>
      v ← f i;
      Ret (if SFltb v best then (v, i) else (best, result))) (ZOPFLI_LARGE_FLOAT, start);
    Ret result
  else narrow (Z.to_nat (end_ - start)) start end_ start ZOPFLI_LARGE_FLOAT.
End minimum.

(** ** Costs *)

Section split.
Context {sort : Qsort}.

Definition EstimateCost (store : ZopfliLZ77Store) (lstart lend : Z) : outcome spec_float :=
  size ← ZopfliCalculateBlockSize store lstart lend 2; Ret (double_of_Z size).

Record SplitCostContext : Type := MkContext { c_store : ZopfliLZ77Store; c_start : Z; c_end : Z }.

Definition SplitCost (c : SplitCostContext) (i : Z) : outcome spec_float :=
  left ← EstimateCost (c_store c) (c_start c) i;
  right ← EstimateCost (c_store c) i (c_end c);
  Ret (double_add left right).

(** ** The split points *)

(** [for (i = 0; i < *outsize - 1; i++)], with the [break]. *)
Fixpoint add_sorted_loop (is_ : list Z) (value outsize : Z) (out : list Z) : outcome (list Z) :=
  match is_ with
  | [] => Ret out
  | i :: is_ =>
      x ← index out i;
      if value <? x then
        out ← for_each (reverse (seqZ (i + 1) (outsize - 1 - i))) (fun j out => v ← index out (j - 1); assign out j v) out;
        assign out i value
      else add_sorted_loop is_ value outsize out
  end.

Definition AddSorted (value : Z) (out : list Z) : outcome (list Z) :=
  let out := out ++ [value] in
  let outsize := Z.of_nat (length out) in
  if 0 <? outsize then add_sorted_loop (seqZ 0 (outsize - 1)) value outsize out else Ret out.

(** [*lstart] and [*lend], if a block is found. *)
Definition FindLargestSplittableBlock (llsize : Z) (done splitpoints : list Z) : outcome (option (Z * Z)) :=
  let npoints := Z.of_nat (length splitpoints) in
  '(_, found) ← for_each (seqZ 0 (npoints + 1)) (fun i '(longest, found) =>
    start ← (if i =? 0 then Ret 0 else index splitpoints (i - 1));
    end_ ← (if i =? npoints then Ret (llsize - 1) else index splitpoints i);
    d ← index done start;
    Ret (if (d =? 0) && (longest <? u64 (end_ - start)) then (u64 (end_ - start), Some (start, end_)) else (longest, found)))
    (0, None);
  Ret found.

(** The variables of the loop. *)
Record splitting : Type := MkSplitting { s_done : list Z; s_points : list Z; numblocks : Z; s_start : Z; s_end : Z }.

(** The block [s_start] to [s_end] is split, or not to be split again. *)
Definition split_block (store : ZopfliLZ77Store) (s : splitting) : outcome (list Z * list Z * Z) :=
  let lstart := s_start s in
  let lend := s_end s in
  _ ← assertion (lstart <? lend);
  llpos ← FindMinimum (SplitCost (MkContext store lstart lend)) (lstart + 1) lend;
  _ ← assertion (lstart <? llpos);
  _ ← assertion (llpos <? lend);
  splitcost ← (left ← EstimateCost store lstart llpos; right ← EstimateCost store llpos lend; Ret (double_add left right));
  origcost ← EstimateCost store lstart lend;
  if SFltb origcost splitcost || (llpos =? lstart + 1) || (llpos =? lend) then
    done ← assign (s_done s) lstart 1; Ret (done, s_points s, numblocks s)
  else points ← AddSorted llpos (s_points s); Ret (s_done s, points, numblocks s + 1).

Fixpoint split_loop (fuel : nat) (store : ZopfliLZ77Store) (llsize maxblocks : Z) (s : splitting) : outcome (list Z) :=
  match fuel with
  | O => Undefined
  | S n =>
      if (0 <? maxblocks) && (maxblocks <=? numblocks s) then Ret (s_points s)
      else
        '(done, points, blocks) ← split_block store s;
        found ← FindLargestSplittableBlock llsize done points;
        match found with
        | None => Ret points
        | Some (lstart, lend) =>
            if lend - lstart <? 10 then Ret points
            else split_loop n store llsize maxblocks (MkSplitting done points blocks lstart lend)
        end
  end.

(** The positions of the items [lz77splitpoints] in bytes; the loop over the
    items, with the [break]. *)
Fixpoint byte_points_loop (is_ : list Z) (store : ZopfliLZ77Store) (lz77splitpoints : list Z) (pos : Z) (splitpoints : list Z) :
    outcome (list Z) :=
  match is_ with
  | [] => Ret splitpoints
  | i :: is_ =>
      dist ← index (dists store) i;
      length ← (if dist =? 0 then Ret 1 else index (litlens store) i);
      p ← index lz77splitpoints (Z.of_nat (List.length splitpoints));
      let splitpoints := if p =? i then splitpoints ++ [pos] else splitpoints in
      if (p =? i) && (Z.of_nat (List.length splitpoints) =? Z.of_nat (List.length lz77splitpoints)) then Ret splitpoints
      else byte_points_loop is_ store lz77splitpoints (pos + length) splitpoints
  end.

Definition byte_points (store : ZopfliLZ77Store) (lz77splitpoints : list Z) (pos : Z) : outcome (list Z) :=
  let llsize := store_size store in
  splitpoints ← (if 0 <? Z.of_nat (length lz77splitpoints) then byte_points_loop (seqZ 0 llsize) store lz77splitpoints pos [] else Ret []);
  _ ← assertion (Z.of_nat (length splitpoints) =? Z.of_nat (length lz77splitpoints));
  Ret splitpoints.

(** What it prints is left out. *)
Definition PrintBlockSplitPoints (store : ZopfliLZ77Store) (lz77splitpoints : list Z) : outcome Datatypes.unit :=
  _ ← byte_points store lz77splitpoints 0; Ret tt.

(** The split points are those of the caller, and more. *)
Definition ZopfliBlockSplitLZ77 (verbose : bool) (store : ZopfliLZ77Store) (maxblocks : Z) (splitpoints : list Z) : outcome (list Z) :=
  let llsize := store_size store in
  if llsize <? 10 then Ret splitpoints
  else
    splitpoints ← split_loop (Z.to_nat (2 * llsize + 1)) store llsize maxblocks
      (MkSplitting (replicate (Z.to_nat llsize) 0) splitpoints 1 0 llsize);
    _ ← (if verbose then PrintBlockSplitPoints store splitpoints else Ret tt);
    Ret splitpoints.

(** [dummysublen] of [ZopfliLZ77Greedy] is not initialised. *)
Definition ZopfliBlockSplit {uninitialised : Uninitialised} (verbose : bool) (in_ : list Z) (instart inend maxblocks : Z) : outcome (list Z) :=
  '(_, store) ← ZopfliLZ77Greedy (MkState None instart) in_ instart inend ZopfliInitLZ77Store (garbage 259);
  lz77splitpoints ← ZopfliBlockSplitLZ77 verbose store maxblocks [];
  byte_points store lz77splitpoints instart.
End split.

(** [while (i < inend)] *)
Fixpoint split_simple_loop (fuel : nat) (inend blocksize i : Z) (splitpoints : list Z) : outcome (list Z) :=
  if i <? inend then
    match fuel with
    | O => Undefined
    | S n => split_simple_loop n inend blocksize (i + blocksize) (splitpoints ++ [i])
    end
  else Ret splitpoints.

Definition ZopfliBlockSplitSimple (instart inend blocksize : Z) (splitpoints : list Z) : outcome (list Z) :=
  split_simple_loop (Z.to_nat (inend - instart)) inend blocksize instart splitpoints.

(** Nine points at a time, over a wide range: close to the minimum. *)
Example minimum_example : FindMinimum (fun i => Ret (double_of_Z (Z.abs (i - 700)))) 0 2000 = Ret 697.
Proof. vm_compute. reflexivity. Qed.

Example split_simple_example : ZopfliBlockSplitSimple 10 200000 65535 [] = Ret [10; 65545; 131080; 196615].
Proof. vm_compute. reflexivity. Qed.

(** ** The search *)

Section search.
Context (f : Z -> outcome spec_float) (lo hi : Z).
Context (Hf : forall i, lo <= i < hi -> exists v, f i = Ret v).

Definition points_ok (start end_ i : Z) (t : list Z * list spec_float) : Prop :=
  length t.1 = Z.to_nat i /\ length t.2 = Z.to_nat i /\
  forall k, 0 <= k < i -> table_at t.1 k = start + (k + 1) * ((end_ - start) / (NUM + 1)).

Lemma table_at_snoc l x k : 0 <= k <= Z.of_nat (length l) -> table_at (l ++ [x]) k = if k =? Z.of_nat (length l) then x else table_at l k.
Proof.
  intros Hk. unfold table_at. rewrite (proj2 (Z.ltb_ge _ _)) by lia. destruct (Z.eqb_spec k (Z.of_nat (length l))) as [->|Hne].
  - by rewrite Nat2Z.id, list_lookup_middle.
  - by rewrite lookup_app_l by lia.
Qed.

Lemma try_points_spec start end_ : lo <= start -> end_ <= hi -> NUM < end_ - start ->
  exists t, try_points f start end_ = Ret t /\ points_ok start end_ NUM t.
Proof.
  intros Hlo Hhi Hn. unfold try_points, NUM in *. set (q := (end_ - start) / (9 + 1)).
  assert (1 <= q /\ 10 * q <= end_ - start) as [Hq Hq10] by (unfold q; split; [apply Z.div_le_lower_bound; lia|apply Z.mul_div_le; lia]).
  eapply (for_each_seqZ (points_ok start end_)); [done|by split_and!; [| |lia]|].
  intros i [p vp] Hi (H1 & H2 & H3). cbn [fst snd] in *. destruct (Hf (start + (i + 1) * q)) as [v Hv]; [nia|].
  cbv zeta. rewrite Hv, outcome_bind_ret. eexists. split; [done|]. unfold points_ok. cbn [fst snd]. rewrite !length_app. cbn [length].
  split; [lia|]. split; [lia|]. intros k Hk. rewrite table_at_snoc by lia. destruct (Z.eqb_spec k (Z.of_nat (length p))) as [->|Hne]; [|apply H3; lia].
  unfold NUM. fold q. nia.
Qed.

Lemma best_point_spec vp : length vp = Z.to_nat NUM -> exists besti best, best_point vp = Ret (besti, best) /\ 0 <= besti < NUM.
Proof.
  intros Hl. unfold best_point, NUM in *. rewrite float_index_ok, outcome_bind_ret by lia.
  destruct (for_each_seqZ (fun _ t => 0 <= t.1 < 9) (fun i '(besti, best) => v ← float_index vp i; Ret (if SFltb v best then (i, v) else (besti, best)))
    1 (9 - 1) (0, cost_at vp 0)) as ([besti best] & -> & H); [lia|cbn; lia| |by exists besti, best].
  intros i [bi b] Hi Hb. cbn [fst] in Hb. rewrite float_index_ok, outcome_bind_ret by lia. eexists. split; [done|]. destruct (SFltb _ _); cbn [fst]; lia.
Qed.

Lemma narrow_spec fuel start end_ pos lastbest : lo <= start <= end_ -> end_ <= hi -> lo <= pos < hi -> end_ - start <= Z.of_nat fuel ->
  (0 < fuel)%nat -> exists r, narrow f fuel start end_ pos lastbest = Ret r /\ lo <= r < hi.
Proof.
  revert start end_ pos lastbest. induction fuel as [|fuel IH]; intros start end_ pos lastbest Hs He Hp Hf' H0; [lia|]. cbn [narrow].
  destruct (Z.leb_spec (end_ - start) NUM) as [_|Hn]; [by exists pos|].
  destruct (try_points_spec start end_ ltac:(lia) He Hn) as ([p vp] & -> & H1 & H2 & H3). cbn [fst snd] in *. rewrite outcome_bind_ret.
  destruct (best_point_spec vp H2) as (bi & best & -> & Hbi). rewrite outcome_bind_ret. destruct (SFltb _ _); [by exists pos|].
  unfold NUM in *. set (q := (end_ - start) / (9 + 1)) in *.
  assert (1 <= q /\ 10 * q <= end_ - start) as [Hq Hq10] by (unfold q; split; [apply Z.div_le_lower_bound; lia|apply Z.mul_div_le; lia]).
  assert ((if bi =? 0 then Ret start else index p (bi - 1)) = Ret (start + bi * q)) as ->.
  { destruct (Z.eqb_spec bi 0) as [->|Hne]; [f_equal; lia|]. rewrite index_ok by lia. rewrite H3 by lia. f_equal. lia. }
  rewrite outcome_bind_ret.
  assert (exists e, (if bi =? 9 - 1 then Ret end_ else index p (bi + 1)) = Ret e /\ start + (bi + 2) * q <= e <= end_ /\ (bi = 0 -> e < end_)) as (e & -> & He' & He0).
  { destruct (Z.eqb_spec bi (9 - 1)) as [->|Hne]; [exists end_; split; [done|]; lia|]. rewrite index_ok by lia. rewrite H3 by lia.
    eexists. split; [done|]. nia. }
  rewrite outcome_bind_ret. rewrite (index_ok p bi), outcome_bind_ret by lia. rewrite H3 by lia.
  assert (e - (start + bi * q) < end_ - start) by (destruct (Z.eq_dec bi 0) as [->|]; [specialize (He0 eq_refl); lia|nia]).
  apply IH; [nia|lia|nia|lia|lia].
Qed.

(** The result is in the range. *)
Lemma FindMinimum_spec start end_ : lo <= start < end_ -> end_ <= hi -> exists r, FindMinimum f start end_ = Ret r /\ lo <= r < hi.
Proof.
  intros Hs He. unfold FindMinimum. destruct (Z.ltb_spec (end_ - start) 1024) as [Hn|Hn]; [|apply narrow_spec; lia].
  destruct (for_each_seqZ (fun _ t => lo <= t.2 < hi) (fun i '(best, result) => v ← f i; Ret (if SFltb v best then (v, i) else (best, result)))
    start (end_ - start) (ZOPFLI_LARGE_FLOAT, start)) as ([best r] & -> & Hr); [lia|cbn [snd]; lia| |].
  - intros i [b r] Hi Hr. destruct (Hf i ltac:(lia)) as [v ->]. rewrite outcome_bind_ret. eexists. split; [exact eq_refl|].
    destruct (SFltb v b); cbn [snd] in *; lia.
  - rewrite outcome_bind_ret. exists r. split; [exact eq_refl|exact Hr].
Qed.
End search.

(** ** The order of the split points *)

(** Insertion after the values that are not greater. *)
Fixpoint insert_sorted (value : Z) (l : list Z) : list Z :=
  match l with
  | [] => [value]
  | x :: l' => if value <? x then value :: x :: l' else x :: insert_sorted value l'
  end.

(** The elements from the end on are moved by one. *)
Lemma shift_spec a b y tail :
  exists x, for_each (reverse (seqZ (Z.of_nat (length a) + 1) (Z.of_nat (length b)))) (fun j out => v ← index out (j - 1); assign out j v) (a ++ b ++ y :: tail)
    = Ret (a ++ x :: b ++ tail).
Proof.
  revert y tail. induction b as [|z b IH] using rev_ind; intros y tail; [by exists y|].
  rewrite length_app. cbn [length]. replace (Z.of_nat (length b + 1)) with (Z.of_nat (length b) + 1) by lia.
  rewrite seqZ_app by lia. rewrite reverse_app. change (seqZ (Z.of_nat (length a) + 1 + Z.of_nat (length b)) 1) with [Z.of_nat (length a) + 1 + Z.of_nat (length b)].
  change (reverse [?x]) with [x]. cbn [app for_each]. rewrite <-(app_assoc b [z]). cbn [app].
  set (j := Z.of_nat (length a) + 1 + Z.of_nat (length b)).
  assert (length (a ++ b) = Z.to_nat (j - 1)) as Hj by (rewrite length_app; lia).
  rewrite index_ok by (rewrite !length_app; cbn [length]; lia). rewrite outcome_bind_ret, assign_ok by (rewrite !length_app; cbn [length]; lia).
  assert (table_at (a ++ b ++ z :: y :: tail) (j - 1) = z) as ->.
  { unfold table_at. rewrite (proj2 (Z.ltb_ge _ _)) by lia. rewrite app_assoc, <-Hj, list_lookup_middle; done. }
  assert (<[Z.to_nat j:=z]> (a ++ b ++ z :: y :: tail) = a ++ b ++ z :: z :: tail) as ->.
  { replace (Z.to_nat j) with (length (a ++ b ++ [z]) + 0)%nat by (rewrite !length_app in *; cbn [length]; lia).
    replace (a ++ b ++ z :: y :: tail) with ((a ++ b ++ [z]) ++ y :: tail) by (by rewrite <-!app_assoc). rewrite insert_app_r.
    cbn [insert list_insert]. by rewrite <-!app_assoc. }
  rewrite outcome_bind_ret. destruct (IH z (z :: tail)) as [x Hx]. exists x. rewrite Hx. by rewrite <-!app_assoc.
Qed.

Lemma insert_sorted_skip value a l : Forall (fun x => x <= value) a -> insert_sorted value (a ++ l) = a ++ insert_sorted value l.
Proof. induction 1 as [|x a Hx _ IH]; [done|]. cbn [app insert_sorted]. by rewrite (proj2 (Z.ltb_ge _ _)), IH by lia. Qed.

Lemma add_sorted_loop_spec value l : forall a, Forall (fun x => x <= value) a ->
  add_sorted_loop (seqZ (Z.of_nat (length a)) (Z.of_nat (length l))) value (Z.of_nat (length (a ++ l ++ [value]))) (a ++ l ++ [value])
  = Ret (insert_sorted value (a ++ l)).
Proof.
  induction l as [|x l IH]; intros a Ha.
  - cbn [app length]. change (seqZ (Z.of_nat (length a)) (Z.of_nat 0)) with (@nil Z). cbn [add_sorted_loop]. by rewrite insert_sorted_skip.
  - cbn [length app]. rewrite seqZ_cons by lia. cbn [add_sorted_loop].
    rewrite index_ok by (rewrite !length_app; cbn [length]; lia). rewrite outcome_bind_ret.
    assert (table_at (a ++ x :: l ++ [value]) (Z.of_nat (length a)) = x) as -> by (by rewrite table_at_nat, list_lookup_middle).
    destruct (Z.ltb_spec value x) as [Hlt|Hge].
    + rewrite insert_sorted_skip by done. cbn [insert_sorted]. rewrite (proj2 (Z.ltb_lt _ _) Hlt).
      replace (Z.of_nat (length (a ++ x :: l ++ [value])) - 1 - Z.of_nat (length a)) with (Z.of_nat (length (x :: l))) by (rewrite !length_app; cbn [length]; rewrite length_app; cbn [length]; lia).
      change (a ++ x :: l ++ [value]) with (a ++ (x :: l) ++ [value]). destruct (shift_spec a (x :: l) value []) as [y ->].
      rewrite outcome_bind_ret, app_nil_r, assign_ok by (rewrite length_app; cbn [length]; lia). rewrite Nat2Z.id. f_equal.
      replace (length a) with (length a + 0)%nat at 1 by lia. by rewrite insert_app_r.
    + replace (Z.succ (Z.of_nat (length a))) with (Z.of_nat (length (a ++ [x]))) by (rewrite length_app; cbn [length]; lia).
      replace (Z.pred (Z.of_nat (S (length l)))) with (Z.of_nat (length l)) by lia.
      specialize (IH (a ++ [x])). rewrite <-!app_assoc in IH. apply IH. apply Forall_app. split; [done|]. by apply Forall_singleton.
Qed.

Lemma AddSorted_spec value l : AddSorted value l = Ret (insert_sorted value l).
Proof.
  unfold AddSorted. cbv zeta. rewrite (proj2 (Z.ltb_lt _ _)) by (rewrite length_app; cbn [length]; lia).
  pose proof (add_sorted_loop_spec value l [] (Forall_nil_2 _)) as E. cbn [app length] in E.
  by replace (Z.of_nat (length (l ++ [value])) - 1) with (Z.of_nat (length l)) by (rewrite length_app; cbn [length]; lia).
Qed.

(** Split points between [a] and [b], in order. *)
Definition between (a b : Z) (l : list Z) : Prop := StronglySorted Z.lt l /\ Forall (fun x => a < x < b) l.

Lemma between_length a b l : between a b l -> a < b -> Z.of_nat (length l) < b - a.
Proof.
  intros [Hs Hf] Hab. revert a Hf Hab. induction Hs as [|x l _ IH Hx]; intros a Hf Hab; [cbn; lia|]. apply Forall_cons in Hf as [Hx' Hf].
  cbn [length]. specialize (IH x). assert (Z.of_nat (length l) < b - x); [|lia]. apply IH; [|lia].
  apply Forall_forall. intros y Hy. pose proof (proj1 (Forall_forall _ _) Hx y Hy). pose proof (proj1 (Forall_forall _ _) Hf y Hy). cbn in *. lia.
Qed.

Lemma between_insert a b l v : between a b l -> a < v < b -> v ∉ l -> between a b (insert_sorted v l).
Proof.
  intros [Hs Hf] Hv Hin. assert (forall P : Z -> Prop, P v -> Forall P l -> Forall P (insert_sorted v l)) as Hins.
  { intros P Pv Hl. clear Hs Hf Hin. induction Hl as [|x l Px Hl IH]; cbn [insert_sorted]; [by repeat constructor|]. destruct (_ <? _); by repeat constructor. }
  split; [|by apply Hins]. clear Hf Hins. induction Hs as [|x l Hs IH Hx]; cbn [insert_sorted]; [by repeat constructor|].
  apply not_elem_of_cons in Hin as [Hne Hin]. destruct (Z.ltb_spec v x) as [Hlt|Hge].
  - constructor; [by constructor|]. constructor; [done|]. eapply Forall_impl; [exact Hx|]. cbn. lia.
  - constructor; [by apply IH|]. clear IH Hs Hin. induction Hx as [|y l Hy Hx IH]; cbn [insert_sorted]; [repeat constructor; lia|].
    destruct (_ <? _); repeat constructor; (done || lia).
Qed.

Lemma length_insert_sorted v l : length (insert_sorted v l) = S (length l).
Proof. induction l as [|x l IH]; cbn [insert_sorted]; [done|]. destruct (_ <? _); cbn [length]; [done|by rewrite IH]. Qed.

(** ** The loop *)

Lemma table_at_elem l k : 0 <= k < Z.of_nat (length l) -> table_at l k ∈ l.
Proof.
  intros Hk. unfold table_at. rewrite (proj2 (Z.ltb_ge _ _)) by lia. destruct (lookup_lt_is_Some_2 l (Z.to_nat k) ltac:(lia)) as [x Hx].
  rewrite Hx. cbn. by apply list_elem_of_lookup_2 with (Z.to_nat k).
Qed.

Lemma table_at_order l i j : StronglySorted Z.lt l -> 0 <= i < j -> j < Z.of_nat (length l) -> table_at l i < table_at l j.
Proof.
  intros Hs Hi Hj. destruct (lookup_lt_is_Some_2 l (Z.to_nat i) ltac:(lia)) as [x Hx], (lookup_lt_is_Some_2 l (Z.to_nat j) ltac:(lia)) as [y Hy].
  unfold table_at. rewrite !(proj2 (Z.ltb_ge _ _)), Hx, Hy by lia. apply (sorted_lookup Z.lt l _ _ _ _ Hs Hx Hy). lia.
Qed.

(** A block to split: no split point inside, and not marked as done. *)
Definition open_block (llsize : Z) (done points : list Z) (a b : Z) : Prop :=
  0 <= a < b /\ b <= llsize /\ table_at done a = 0 /\ forall x, x ∈ points -> x <= a \/ b <= x.

Lemma FindLargest_spec llsize done points : 0 < llsize < 2 ^ 63 -> Z.of_nat (length done) = llsize -> between 0 llsize points ->
  exists found, FindLargestSplittableBlock llsize done points = Ret found /\
    match found with Some (a, b) => open_block llsize done points a b | None => True end.
Proof.
  intros Hll Hd [Hs Hf]. unfold FindLargestSplittableBlock. cbv zeta. set (n := Z.of_nat (length points)).
  assert (forall k, 0 <= k < n -> 0 < table_at points k < llsize) as Hp by (intros k Hk; apply (proj1 (Forall_forall _ _) Hf), table_at_elem; done).
  match goal with |- context[for_each (seqZ 0 (n + 1)) ?g ?s] => destruct (for_each_seqZ (fun _ '(longest, found) => 0 <= longest /\
    match found with Some (a, b) => open_block llsize done points a b | None => True end) g 0 (n + 1) s) as ([longest found] & -> & _ & H) end.
  - lia.
  - by split.
  - intros i [longest found] Hi [H0 Hg].
    set (start := if i =? 0 then 0 else table_at points (i - 1)). set (end_ := if i =? n then llsize - 1 else table_at points i).
    assert ((if i =? 0 then Ret 0 else index points (i - 1)) = Ret start) as ->.
    { unfold start. destruct (Z.eqb_spec i 0); [done|]. by rewrite index_ok by lia. }
    assert ((if i =? n then Ret (llsize - 1) else index points i) = Ret end_) as ->.
    { unfold end_. destruct (Z.eqb_spec i n); [done|]. by rewrite index_ok by lia. }
    assert (0 <= start <= end_ /\ start < llsize /\ end_ <= llsize) as (Hse & Hsl & Hel).
    { unfold start, end_. destruct (Z.eqb_spec i 0), (Z.eqb_spec i n); try lia; pose proof (Hp i) as Hi1; pose proof (Hp (i - 1)) as Hi2; try lia.
      pose proof (table_at_order points (i - 1) i Hs). lia. }
    rewrite !outcome_bind_ret, index_ok, outcome_bind_ret by lia. eexists. split; [done|].
    destruct (Z.eqb_spec (table_at done start) 0) as [Hds|]; cbn [andb]; [|by split]. rewrite u64_small by lia.
    destruct (Z.ltb_spec longest (end_ - start)) as [Hlt|]; [|by split]. split; [lia|]. split; [lia|]. split; [lia|]. split; [done|].
    intros x [k Hk]%list_elem_of_lookup_1. pose proof (lookup_lt_Some _ _ _ Hk) as Hkl.
    assert (x = table_at points (Z.of_nat k)) as -> by (rewrite table_at_nat; by rewrite Hk).
    destruct (Z.le_gt_cases i (Z.of_nat k)) as [Hik|Hik]; [right|left]; unfold start, end_.
    + rewrite (proj2 (Z.eqb_neq i n)) by lia. destruct (Z.eq_dec i (Z.of_nat k)) as [->|]; [lia|]. pose proof (table_at_order points i (Z.of_nat k) Hs). lia.
    + rewrite (proj2 (Z.eqb_neq i 0)) by lia. destruct (Z.eq_dec (i - 1) (Z.of_nat k)) as [->|]; [lia|]. pose proof (table_at_order points (Z.of_nat k) (i - 1) Hs). lia.
  - rewrite outcome_bind_ret. by exists found.
Qed.

(** How often the loop can go on: blocks that are not done, and room for points. *)
Definition left_to_do (llsize : Z) (done points : list Z) : Z :=
  Z.of_nat (length (filter (fun d => d = 0) done)) + (llsize - Z.of_nat (length points)).

Lemma mark_done done a : 0 <= a < Z.of_nat (length done) -> table_at done a = 0 ->
  S (length (filter (fun d => d = 0) (<[Z.to_nat a := 1]> done))) = length (filter (fun d => d = 0) done).
Proof.
  intros Ha. remember (Z.to_nat a) as k eqn:Hk. assert (a = Z.of_nat k) as -> by lia. rewrite table_at_nat. assert (k < length done)%nat as Hl by lia. clear Ha Hk.
  revert k Hl. induction done as [|d done IH]; intros k Hl Hd; [simpl in Hl; lia|]. destruct k as [|k]; cbn [lookup list_lookup default insert list_insert] in *.
  - cbn in Hd. subst d. rewrite filter_cons_False by lia. by rewrite filter_cons_True.
  - rewrite !filter_cons. specialize (IH k ltac:(simpl in Hl; lia) Hd). destruct (decide (d = 0)); cbn [length]; [f_equal|]; exact IH.
Qed.

Section loop.
Context {sort : Qsort} (store : ZopfliLZ77Store) (Hstore : store_ok store) (llsize maxblocks : Z) (Hsize : llsize = store_size store) (Hten : 10 <= llsize).

Lemma EstimateCost_total a b : 0 <= a <= b -> b <= llsize -> exists v, EstimateCost store a b = Ret v.
Proof.
  intros Ha Hb. destruct (block_size_total 2 store a b (or_intror eq_refl) Hstore Ha ltac:(lia)) as (size & E & _). unfold EstimateCost. rewrite E. by eexists.
Qed.

Lemma SplitCost_total a b i : 0 <= a <= i -> i <= b -> b <= llsize -> exists v,
  (left ← EstimateCost store a i; right ← EstimateCost store i b; Ret (double_add left right)) = Ret v.
Proof.
  intros Ha Hi Hb. destruct (EstimateCost_total a i ltac:(lia) ltac:(lia)) as [v1 ->], (EstimateCost_total i b ltac:(lia) ltac:(lia)) as [v2 ->].
  rewrite !outcome_bind_ret. by eexists.
Qed.

Lemma split_block_spec done points blocks a b : Z.of_nat (length done) = llsize -> between 0 llsize points -> open_block llsize done points a b -> a + 10 <= b ->
  exists done' points' blocks', split_block store (MkSplitting done points blocks a b) = Ret (done', points', blocks') /\
    Z.of_nat (length done') = llsize /\ between 0 llsize points' /\ left_to_do llsize done' points' < left_to_do llsize done points /\
    blocks' <= blocks + 1 /\ blocks' - blocks = Z.of_nat (length points') - Z.of_nat (length points).
Proof.
  intros Hd Hp (Ha & Hb & Hda & Hin) Hab. unfold split_block. cbn [s_start s_end s_done s_points numblocks]. rewrite assertion_holds by lia.
  destruct (FindMinimum_spec (SplitCost (MkContext store a b)) (a + 1) b) with (start := a + 1) (end_ := b) as (r & -> & Hr);
    [intros i Hi; unfold SplitCost; cbn [c_store c_start c_end]; apply SplitCost_total; lia|lia|lia|].
  rewrite outcome_bind_ret, !assertion_holds by lia.
  destruct (SplitCost_total a b r ltac:(lia) ltac:(lia) Hb) as [v ->]. rewrite outcome_bind_ret.
  destruct (EstimateCost_total a b ltac:(lia) Hb) as [w ->]. rewrite outcome_bind_ret. destruct (_ || _) eqn:Eo.
  - rewrite assign_ok, outcome_bind_ret by lia. eexists _, _, _. split; [done|]. rewrite length_insert. split; [done|]. split; [done|].
    unfold left_to_do. pose proof (mark_done done a ltac:(lia) Hda). split_and!; lia.
  - rewrite AddSorted_spec, outcome_bind_ret. eexists _, _, _. split; [done|]. split; [done|]. split.
    + apply between_insert; [done|lia|]. intros H. apply Hin in H. lia.
    + unfold left_to_do. rewrite length_insert_sorted. split_and!; lia.
Qed.

Lemma split_loop_spec fuel s : Z.of_nat (length (s_done s)) = llsize -> between 0 llsize (s_points s) ->
  open_block llsize (s_done s) (s_points s) (s_start s) (s_end s) -> s_start s + 10 <= s_end s ->
  left_to_do llsize (s_done s) (s_points s) <= Z.of_nat fuel ->
  numblocks s = Z.of_nat (length (s_points s)) + 1 -> (0 < maxblocks -> numblocks s <= maxblocks) ->
  exists points, split_loop fuel store llsize maxblocks s = Ret points /\ between 0 llsize points /\
    (0 < maxblocks -> Z.of_nat (length points) + 1 <= maxblocks).
Proof.
  revert s. induction fuel as [|fuel IH]; intros [done points blocks a b]; cbn [s_done s_points s_start s_end numblocks]; intros Hd Hp Ho Hab Hf Hn Hmax.
  - pose proof (between_length _ _ _ Hp ltac:(lia)). unfold left_to_do in Hf. lia.
  - cbn [split_loop s_points numblocks].
    assert (forall l, between 0 llsize l -> (0 < maxblocks -> Z.of_nat (length l) + 1 <= maxblocks) -> exists points, (Ret l : outcome (list Z)) = Ret points /\
      between 0 llsize points /\ (0 < maxblocks -> Z.of_nat (length points) + 1 <= maxblocks)) as Hret by (intros l; by exists l).
    destruct (_ && _) eqn:Em; [by apply Hret; [|lia]|].
    assert (0 < maxblocks -> blocks + 1 <= maxblocks) as Hroom by (intros H; rewrite (proj2 (Z.ltb_lt _ _) H) in Em; apply Z.leb_gt in Em; lia).
    destruct (split_block_spec done points blocks a b Hd Hp Ho Hab) as (done' & points' & blocks' & -> & Hd' & Hp' & Hlt & Hb1 & Hb2). rewrite outcome_bind_ret.
    assert (llsize < 2 ^ 63) as Hsz by (pose proof (so_size _ Hstore); unfold store_size in Hsize; lia).
    destruct (FindLargest_spec llsize done' points' ltac:(lia) Hd' Hp') as ([[a' b']|] & -> & Hg); rewrite outcome_bind_ret; [|by apply Hret; [|lia]].
    destruct (Z.ltb_spec (b' - a') 10); [by apply Hret; [|lia]|]. apply IH; cbn [s_done s_points s_start s_end numblocks]; (done || lia).
Qed.
End loop.

(** ** Positions in bytes *)

Section bytes.
Context (store : ZopfliLZ77Store) (Hstore : store_ok store) (pos : Z).

(** Where the item [i] begins. *)
Definition item_start (i : Z) : Z := pos + total item_size (block_items store 0 i).

Lemma item_start_0 : item_start 0 = pos.
Proof. unfold item_start, block_items. change (Z.to_nat (0 - 0)) with 0%nat. rewrite take_0. cbn. lia. Qed.

Lemma item_start_next i x : 0 <= i -> zip (litlens store) (dists store) !! Z.to_nat i = Some x -> item_start (i + 1) = item_start i + item_size x.
Proof.
  intros Hi Hx. unfold item_start. rewrite (block_items_app store 0 i (i + 1)) by lia.
  assert (block_items store i (i + 1) = [x]) as ->.
  { unfold block_items. rewrite (drop_S _ _ _ Hx). replace (i + 1 - i) with 1 by lia. done. }
  assert (forall l : list (Z * Z), total item_size (l ++ [x]) = total item_size l + item_size x) as Ht; [|by rewrite Ht, Z.add_assoc].
  induction l as [|y l IH]; cbn [app total foldr]; [lia|]. unfold total in IH. rewrite IH. lia.
Qed.

Lemma item_start_mono i j : 0 <= i < j -> j <= store_size store -> item_start i < item_start j.
Proof.
  assert (forall k, 0 <= k < store_size store -> item_start k < item_start (k + 1)) as Hstep.
  { intros k Hk. destruct (lookup_lt_is_Some_2 (zip (litlens store) (dists store)) (Z.to_nat k)) as [x Hx].
    - rewrite length_zip, (so_length _ Hstore). unfold store_size in Hk. lia.
    - rewrite (item_start_next k x ltac:(lia) Hx). pose proof (proj1 (Forall_lookup _ _) (so_items _ Hstore) _ _ Hx) as Hok.
      unfold item_size. destruct Hok as [[-> _]|[? ?]]; [cbn; lia|]. rewrite (proj2 (Z.eqb_neq _ _)); lia. }
  intros Hi Hj. assert (forall n : nat, i + Z.of_nat n + 1 <= store_size store -> item_start i < item_start (i + Z.of_nat n + 1)) as H.
  { induction n as [|n IH]; intros Hn; [rewrite Z.add_0_r; apply Hstep; lia|]. etrans; [apply IH; lia|].
    replace (i + Z.of_nat n + 1) with (i + Z.of_nat (S n)) by lia. apply Hstep. lia. }
  specialize (H (Z.to_nat (j - i - 1)) ltac:(lia)). by replace (i + Z.of_nat (Z.to_nat (j - i - 1)) + 1) with j in H by lia.
Qed.

Lemma item_start_step i : 0 <= i < store_size store -> exists dist length,
  index (dists store) i = Ret dist /\ (if dist =? 0 then Ret 1 else index (litlens store) i) = Ret length /\ item_start i + length = item_start (i + 1).
Proof.
  intros Hi. unfold store_size in Hi. pose proof (so_length _ Hstore) as Hl. rewrite (index_ok (dists store)), (index_ok (litlens store)) by lia. eexists _, _. split; [done|].
  split; [by instantiate (1 := if table_at (dists store) i =? 0 then 1 else table_at (litlens store) i); destruct (_ =? 0)|].
  rewrite (item_start_next i (table_at (litlens store) i, table_at (dists store) i)); [done|lia|].
  unfold table_at. rewrite (proj2 (Z.ltb_ge _ _)) by lia. apply lookup_zip_Some. cbn [fst snd].
  destruct (lookup_lt_is_Some_2 (litlens store) (Z.to_nat i) ltac:(lia)) as [x ->], (lookup_lt_is_Some_2 (dists store) (Z.to_nat i) ltac:(lia)) as [y ->]. done.
Qed.

Lemma byte_points_loop_spec lz n : forall i k, 0 <= i -> i + Z.of_nat n = store_size store -> StronglySorted Z.lt lz -> Forall (fun x => x < store_size store) lz ->
  (k < length lz)%nat -> Forall (fun x => i <= x) (drop k lz) ->
  byte_points_loop (seqZ i (Z.of_nat n)) store lz (item_start i) (item_start <$> take k lz) = Ret (item_start <$> lz).
Proof.
  induction n as [|n IH]; intros i k Hi Hn Hs Hlt Hk Hge; destruct (lookup_lt_is_Some_2 lz k Hk) as [x Hx]; rewrite (drop_S _ _ _ Hx) in Hge;
    apply Forall_cons in Hge as [Hix Hge]; pose proof (proj1 (Forall_lookup _ _) Hlt _ _ Hx) as Hxs; cbn beta in Hix, Hxs; [lia|].
  rewrite seqZ_cons by lia. cbn [byte_points_loop]. destruct (item_start_step i ltac:(lia)) as (dist & len & -> & E & Enext). rewrite outcome_bind_ret, E, outcome_bind_ret.
  assert (length (item_start <$> take k lz) = k) as Hlk by (rewrite length_fmap, length_take; lia).
  rewrite Hlk, index_ok by lia. rewrite outcome_bind_ret, table_at_nat, Hx. cbn [default]. unfold id.
  replace (Z.succ i) with (i + 1) by lia. replace (Z.pred (Z.of_nat (S n))) with (Z.of_nat n) by lia. cbv zeta.
  destruct (Z.eqb_spec x i) as [->|Hne]; cbn [andb].
  - assert ((item_start <$> take k lz) ++ [item_start i] = item_start <$> take (S k) lz) as -> by (rewrite (take_S_r _ _ _ Hx), fmap_app; done).
    rewrite length_fmap, length_take. destruct (Z.eqb_spec (Z.of_nat (S k `min` length lz)) (Z.of_nat (length lz))) as [El|Hnl].
    + by rewrite take_ge by lia.
    + rewrite Enext. apply IH; try done; try lia. apply Forall_lookup. intros m y Hy. rewrite lookup_drop in Hy.
      pose proof (sorted_lookup Z.lt lz k (S k + m) i y Hs Hx Hy). lia.
  - rewrite Enext. apply IH; try done; try lia. rewrite (drop_S _ _ _ Hx). constructor; [lia|]. apply Forall_lookup. intros m y Hy. rewrite lookup_drop in Hy.
    pose proof (sorted_lookup Z.lt lz k (S k + m) x y Hs Hx Hy). lia.
Qed.

Lemma byte_points_spec lz : between 0 (store_size store) lz -> byte_points store lz pos = Ret (item_start <$> lz).
Proof.
  intros [Hs Hf]. unfold byte_points. cbv zeta. destruct (Z.ltb_spec 0 (Z.of_nat (length lz))) as [H0|H0].
  - pose proof (byte_points_loop_spec lz (length (dists store)) 0 0 ltac:(lia) ltac:(done) Hs) as H. rewrite take_0 in H. cbn [fmap list_fmap] in H.
    rewrite item_start_0 in H. unfold store_size. rewrite H.
    + rewrite outcome_bind_ret, length_fmap, Z.eqb_refl. done.
    + eapply Forall_impl; [exact Hf|]. cbn. lia.
    + lia.
    + rewrite drop_0. eapply Forall_impl; [exact Hf|]. cbn. lia.
  - destruct lz; [done|cbn in H0; lia].
Qed.

Lemma item_start_between lz a b : between a b lz -> 0 <= a -> b <= store_size store -> between (item_start a) (item_start b) (item_start <$> lz).
Proof.
  intros [Hs Hf] Ha Hb. split.
  - induction Hs as [|x l Hs IH Hx]; [constructor|]. apply Forall_cons in Hf as [Hxr Hf]. cbn [fmap list_fmap]. constructor; [by apply IH|].
    apply Forall_fmap. apply Forall_forall. intros y Hy. pose proof (proj1 (Forall_forall _ _) Hx y Hy). pose proof (proj1 (Forall_forall _ _) Hf y Hy).
    cbn in *. apply item_start_mono; lia.
  - apply Forall_fmap. eapply Forall_impl; [exact Hf|]. cbn. intros x Hx. split; apply item_start_mono; lia.
Qed.
End bytes.

(** The bytes that items stand for. *)
Lemma lz_decode_total items output data : Forall item_ok items -> lz_decode items output = Some data ->
  Z.of_nat (length data) = Z.of_nat (length output) + total item_size items.
Proof.
  intros Hok. revert output. induction Hok as [|[l d] items Hi _ IH]; intros output Hd; [injection Hd as <-; cbn; lia|]. cbn [lz_decode total foldr] in *.
  unfold item_size at 1. cbn [fst snd]. destruct (Z.eqb_spec d 0) as [->|Hne]; [apply IH in Hd; rewrite length_app in Hd; cbn in Hd; unfold total in Hd; lia|].
  destruct (copy_match (Z.to_nat l) d output) as [o|] eqn:E; [|done]. cbn [mbind option_bind] in Hd. apply IH in Hd.
  apply copy_match_length in E. destruct Hi as [[? _]|[_ ?]]; cbn [fst snd] in *; unfold total in Hd; lia.
Qed.

(** ** The split points *)

Lemma BlockSplitLZ77_spec {sort : Qsort} verbose store maxblocks : store_ok store ->
  exists points, ZopfliBlockSplitLZ77 verbose store maxblocks [] = Ret points /\ between 0 (store_size store) points /\
    (0 < maxblocks -> Z.of_nat (length points) + 1 <= maxblocks).
Proof.
  intros Hs. unfold ZopfliBlockSplitLZ77. cbv zeta. assert (between 0 (store_size store) []) as H0 by (split; constructor).
  destruct (Z.ltb_spec (store_size store) 10) as [|H10]; [exists []; split; [done|]; split; [done|cbn; lia]|]. set (n := store_size store) in *.
  destruct (split_loop_spec store Hs n maxblocks eq_refl H10 (Z.to_nat (2 * n + 1)) (MkSplitting (replicate (Z.to_nat n) 0) [] 1 0 n))
    as (points & -> & Hp & Hm); cbn [s_done s_points s_start s_end numblocks length]; try done; try lia.
  - rewrite length_replicate. lia.
  - split_and!; try lia; [apply table_at_replicate|]. by intros x ?%not_elem_of_nil.
  - unfold left_to_do. cbn [length]. pose proof (length_filter (fun d => d = 0) (replicate (Z.to_nat n) 0)) as Hl. rewrite length_replicate in Hl. lia.
  - rewrite outcome_bind_ret. exists points. split; [|by split]. destruct verbose; [|by rewrite outcome_bind_ret].
    unfold PrintBlockSplitPoints. rewrite (byte_points_spec store Hs 0 points Hp). by rewrite !outcome_bind_ret.
Qed.

Lemma BlockSplit_spec {sort : Qsort} {uninitialised : Uninitialised} verbose in_ instart inend maxblocks : Forall is_byte in_ ->
  inend <= Z.of_nat (length in_) < 2 ^ 63 -> 2 <= Z.of_nat (length in_) -> 0 <= instart < inend -> inend - instart < 2 ^ 31 ->
  exists points, ZopfliBlockSplit verbose in_ instart inend maxblocks = Ret points /\ between instart inend points /\
    (0 < maxblocks -> Z.of_nat (length points) + 1 <= maxblocks).
Proof.
  intros Hb Hlen H2 Hi Hsz. unfold ZopfliBlockSplit.
  destruct (ZopfliLZ77Greedy_spec (MkState None instart) in_ instart inend ZopfliInitLZ77Store (garbage 259) (inend - instart)) as (s & store & -> & _ & _ & Hp);
    [done|done|done|lia|apply garbage_length|by split; [cbn; lia|]|cbn; lia|cbn; lia|].
  rewrite outcome_bind_ret. destruct (parsed_store in_ instart inend Hlen H2 Hi store Hsz Hp) as (Hok & Hsize & Hdec).
  destruct (BlockSplitLZ77_spec verbose store maxblocks Hok) as (points & -> & Hpts & Hm). rewrite outcome_bind_ret, (byte_points_spec store Hok) by done.
  exists (item_start store instart <$> points). split; [done|]. split; [|by rewrite length_fmap].
  assert (item_start store instart 0 = instart /\ item_start store instart (store_size store) = inend) as [E0 E1].
  { split; [apply item_start_0|]. unfold item_start. assert (Forall item_ok (block_items store 0 (store_size store))) as Hitems by (apply Forall_take, Forall_drop, Hok).
    apply (lz_decode_total _ _ _ Hitems) in Hdec. rewrite !length_take in Hdec. lia. }
  pose proof (item_start_between store Hok instart points 0 (store_size store) Hpts ltac:(lia) ltac:(lia)) as H. by rewrite E0, E1 in H.
Qed.

(** Chunks of at most [n] bytes. *)
Definition chunk (n a b : Z) : Prop := a <= b <= a + n.

Lemma split_simple_loop_spec fuel inend n i splitpoints before : 0 < n -> inend - i <= Z.of_nat fuel -> chunk n before i -> before <= inend ->
  exists l, split_simple_loop fuel inend n i splitpoints = Ret (splitpoints ++ l) /\ Sorted (chunk n) (before :: l ++ [inend]) /\ Forall (fun x => before <= x <= inend) l.
Proof.
  intros Hn. revert i splitpoints before. unfold chunk. induction fuel as [|fuel IH]; intros i sp before Hf Hc Hb; cbn [split_simple_loop];
    destruct (Z.ltb_spec i inend) as [Hlt|Hge]; try lia.
  2: { destruct (IH (i + n) (sp ++ [i]) i) as (l & -> & Hs & Hl); [lia|lia|lia|]. exists (i :: l). rewrite <-app_assoc. split; [done|]. split.
    - cbn [app]. constructor; [done|]. by constructor.
    - constructor; [lia|]. eapply Forall_impl; [exact Hl|]. cbn. lia. }
  all: exists []; rewrite app_nil_r; split; [done|]; split; [|constructor]; cbn [app]; repeat constructor; lia.
Qed.

Lemma BlockSplitSimple_spec instart inend n : 0 < n -> instart <= inend ->
  exists l, ZopfliBlockSplitSimple instart inend n [] = Ret l /\ Sorted (chunk n) (instart :: l ++ [inend]) /\ Forall (fun x => instart <= x <= inend) l.
Proof. intros Hn Hi. apply (split_simple_loop_spec _ inend n instart [] instart); unfold chunk; lia. Qed.

(** ** Properties *)

(** The search for the split point: over a range of less than 1024 positions
    whose costs are numbers below [ZOPFLI_LARGE_FLOAT], [FindMinimum] returns the
    first position of the range with the least cost. *)
Theorem find_minimum_least f v start end_
    (Hrange : start < end_ /\ end_ - start < 1024)
    (Hf : forall i, start <= i < end_ -> f i = Ret (v i) /\ double (v i) /\ SFltb (v i) ZOPFLI_LARGE_FLOAT = true) :
  exists r, FindMinimum f start end_ = Ret r /\ start <= r < end_ /\
    forall i, start <= i < end_ -> SFleb (v r) (v i) = true /\ (i < r -> SFltb (v r) (v i) = true).
Proof.
  unfold FindMinimum. rewrite (proj2 (Z.ltb_lt _ _)) by lia. destruct large_float as [Hl _].
  destruct (for_each_seqZ (fun j '(best, r) => double best /\ (j = start -> best = ZOPFLI_LARGE_FLOAT) /\ (start < j -> start <= r < j /\ best = v r) /\
      forall i, start <= i < j -> value best <= value (v i) /\ (i < r -> value best < value (v i)))
    (fun i '(best, result) => v ← f i; Ret (if SFltb v best then (v, i) else (best, result))) start (end_ - start) (ZOPFLI_LARGE_FLOAT, start))
    as ([best r] & -> & Hd & _ & Hr & H).
  - lia.
  - split; [exact Hl|]. split; [intros _; exact eq_refl|]. split; lia.
  - intros j [best r] Hj (Hd & H0 & Hr & H). destruct (Hf j ltac:(lia)) as (-> & Hdj & Hlt). rewrite outcome_bind_ret. eexists. split; [exact eq_refl|].
    assert (j = start -> SFltb (v j) best = true) as Hfirst by (intros E; rewrite (H0 E); exact Hlt). rewrite double_ltb in Hfirst |- * by assumption.
    destruct (Z.ltb_spec (value (v j)) (value best)) as [Hb|Hb].
    + split; [exact Hdj|]. split; [lia|]. split; [intros _; split; [lia|exact eq_refl]|]. intros i Hi. destruct (Z.eq_dec i j) as [->|Hne]; [lia|].
      destruct (H i ltac:(lia)). lia.
    + assert (start < j) as Hjs by (destruct (Z.eq_dec j start) as [E|]; [discriminate (Hfirst E)|lia]).
      split; [exact Hd|]. split; [lia|]. split; [intros _; destruct (Hr Hjs); split; [lia|assumption]|]. intros i Hi. destruct (Z.eq_dec i j) as [->|Hne]; [|apply H; lia].
      destruct (Hr Hjs) as [? _]. split; [exact Hb|]. intros Hjr. lia.
  - rewrite outcome_bind_ret. exists r. split; [exact eq_refl|]. destruct (Hr ltac:(lia)) as [Hrr ->]. split; [lia|]. intros i Hi.
    destruct (Hf i Hi) as (_ & Hdi & _). rewrite double_leb, double_ltb by assumption. destruct (H i ltac:(lia)) as [H1 H2].
    split; [by apply Z.leb_le|]. intros Hir. by apply Z.ltb_lt, H2.
Qed.

Lemma find_minimum_least_witness :
  exists r, FindMinimum (fun i => Ret (double_of_Z (i * i + 3))) (-4) 8 = Ret r /\ -4 <= r < 8 /\
    forall i, -4 <= i < 8 -> SFleb (double_of_Z (r * r + 3)) (double_of_Z (i * i + 3)) = true /\
      (i < r -> SFltb (double_of_Z (r * r + 3)) (double_of_Z (i * i + 3)) = true).
Proof.
  apply (find_minimum_least (fun i => Ret (double_of_Z (i * i + 3))) (fun i => double_of_Z (i * i + 3)) (-4) 8); [lia|].
  intros i Hi. split; [exact eq_refl|]. split; [apply double_of_Z_value; nia|apply size_below_large; nia].
Defined.

(** C12. The split points of a block: [ZopfliBlockSplit], for a block of less than
    2 GB of data of at least two bytes, fails no assertion and ends with points that
    are strictly inside the block, in order and without repetition, where items
    begin; with a limit, the number of blocks is within it. *)
Theorem block_split_points {sort : Qsort} {uninitialised : Uninitialised} verbose in_ instart inend maxblocks
    (Hbytes : Forall is_byte in_) (Hlen : 2 <= Z.of_nat (length in_) < 2 ^ 63) (Hin : 0 <= instart < inend) (Hend : inend <= Z.of_nat (length in_))
    (Hblocksize : inend - instart < 2 ^ 31) :
  exists points, ZopfliBlockSplit verbose in_ instart inend maxblocks = Ret points /\ StronglySorted Z.lt points /\
    Forall (fun p => instart < p < inend) points /\ (0 < maxblocks -> Z.of_nat (length points) + 1 <= maxblocks).
Proof.
  destruct (BlockSplit_spec verbose in_ instart inend maxblocks Hbytes ltac:(lia) ltac:(lia) Hin Hblocksize) as (points & E & [H1 H2] & H3).
  by exists points.
Qed.

Lemma block_split_points_witness :
  exists points, ZopfliBlockSplit (sort := sorting) true (replicate 30 7 ++ banana) 2 39 3 = Ret points /\ StronglySorted Z.lt points /\
    Forall (fun p => 2 < p < 39) points /\ (0 < 3 -> Z.of_nat (length points) + 1 <= 3).
Proof.
  apply (block_split_points (sort := sorting)); try (rewrite ?length_app, ?length_replicate; cbn; lia).
  apply Forall_app. split; [apply Forall_replicate; unfold is_byte; lia|]. unfold is_byte. repeat (apply Forall_cons; split; [lia|]). apply Forall_nil. exact I.
Defined.
