(* ===== verification/ZopfliParts.v ===== *)
(** * Zopfli: compressing a part

    The rest of [deflate.cc]: a block of bytes with stored, fixed or dynamic
    codes ([DeflateBlock]), the two strategies of splitting, [ZopfliDeflatePart]
    and [ZopfliDeflate] with its master blocks.

    Proved here: a decoder reads back what they write, after the bytes before the
    part; and two things the code gets wrong: stored blocks with the splitting
    last, and empty data. *)

From S2P Require Import Prelude CFloat ZopfliUtil ZopfliBits ZopfliTree Katajainen PackageMerge CodeLengths Inflate ZopfliDeflate ZopfliBlocks ZopfliDynamic ZopfliRoundTrip ZopfliHash ZopfliCache ZopfliMatch ZopfliGreedy ZopfliEntropy ZopfliCost ZopfliSqueeze ZopfliOptimal ZopfliSplit.
From Stdlib Require Import SpecFloat.

Local Open Scope Z_scope.

(** The flags are [int]s that conditions read. *)
Record ZopfliOptions : Type := MkOptions {
  verbose : bool; numiterations : Z; blocksplitting : bool; blocksplittinglast : bool; blocksplittingmax : Z
}.

Definition ZopfliInitOptions : ZopfliOptions := MkOptions false 15 true false 15.

Section deflate.
Context {sort : Qsort} {logarithm : Log} {uninitialised : Uninitialised}.
Context (options : ZopfliOptions).

(** A state with a cache for the block. *)
Definition block_state (instart inend : Z) : ZopfliBlockState := MkState (Some (ZopfliInitCache (inend - instart))) instart.

(** "For small block, encoding with fixed tree can be smaller.": the kind of the
    block and its store. *)
Definition DeflateDynamicBlock (final : bool) (in_ : list Z) (instart inend : Z) (o : bitout) : outcome bitout :=
  let blocksize := inend - instart in
  '(s, store) ← ZopfliLZ77Optimal (numiterations options) (block_state instart inend) in_ instart inend ZopfliInitLZ77Store;
  '(btype, store) ← (if store_size store <? 1000 then
      '(_, fixedstore) ← ZopfliLZ77OptimalFixed s in_ instart inend ZopfliInitLZ77Store;
      dyncost ← ZopfliCalculateBlockSize store 0 (store_size store) 2;
      fixedcost ← ZopfliCalculateBlockSize fixedstore 0 (store_size fixedstore) 1;
      Ret (if SFltb (double_of_Z fixedcost) (double_of_Z dyncost) then (1, fixedstore) else (2, store))
    else Ret (2, store));
  AddLZ77Block btype (Z.b2z final) store 0 (store_size store) blocksize o.

Definition DeflateFixedBlock (final : bool) (in_ : list Z) (instart inend : Z) (o : bitout) : outcome bitout :=
  let blocksize := inend - instart in
  '(_, store) ← ZopfliLZ77OptimalFixed (block_state instart inend) in_ instart inend ZopfliInitLZ77Store;
  AddLZ77Block 1 (Z.b2z final) store 0 (store_size store) blocksize o.

Definition DeflateBlock (btype : Z) (final : bool) (in_ : list Z) (instart inend : Z) (o : bitout) : outcome bitout :=
  if btype =? 0 then DeflateNonCompressedBlock (Z.b2z final) in_ instart inend o
  else if btype =? 1 then DeflateFixedBlock final in_ instart inend o
  else _ ← assertion (btype =? 2); DeflateDynamicBlock final in_ instart inend o.

(** The limit of blocks is an [int] and becomes a [size_t]. *)
Definition DeflateSplittingFirst (btype : Z) (final : bool) (in_ : list Z) (instart inend : Z) (o : bitout) : outcome bitout :=
  splitpoints ← (if btype =? 0 then ZopfliBlockSplitSimple instart inend 65535 []
    else if btype =? 1 then Ret []
    else ZopfliBlockSplit (verbose options) in_ instart inend (u64 (blocksplittingmax options)));
  let npoints := Z.of_nat (length splitpoints) in
  for_each (seqZ 0 (npoints + 1)) (fun i o =>
    start ← (if i =? 0 then Ret instart else index splitpoints (i - 1));
    end_ ← (if i =? npoints then Ret inend else index splitpoints i);
    DeflateBlock btype ((i =? npoints) && final) in_ start end_ o) o.

(** "Punt it to that one.": and go on. *)
Definition DeflateSplittingLast (btype : Z) (final : bool) (in_ : list Z) (instart inend : Z) (o : bitout) : outcome bitout :=
  o ← (if btype =? 0 then DeflateSplittingFirst btype final in_ instart inend o else Ret o);
  _ ← assertion ((btype =? 1) || (btype =? 2));
  let s := block_state instart inend in
  '(_, store) ← (if btype =? 2 then ZopfliLZ77Optimal (numiterations options) s in_ instart inend ZopfliInitLZ77Store
    else _ ← assertion (btype =? 1); ZopfliLZ77OptimalFixed s in_ instart inend ZopfliInitLZ77Store);
  splitpoints ← (if btype =? 1 then Ret []
    else ZopfliBlockSplitLZ77 (verbose options) store (u64 (blocksplittingmax options)) []);
  add_split_blocks btype final store splitpoints o.

Definition ZopfliDeflatePart (btype : Z) (final : bool) (in_ : list Z) (instart inend : Z) (o : bitout) : outcome bitout :=
  if blocksplitting options then
    if blocksplittinglast options then DeflateSplittingLast btype final in_ instart inend o
    else DeflateSplittingFirst btype final in_ instart inend o
  else DeflateBlock btype final in_ instart inend o.

Definition ZOPFLI_MASTER_BLOCK_SIZE : Z := 20000000.

(** [while (i < insize)] *)
Fixpoint master_loop (fuel : nat) (btype : Z) (final : bool) (in_ : list Z) (insize i : Z) (o : bitout) : outcome bitout :=
  if i <? insize then
    match fuel with
    | O => Undefined
    | S n =>
        let masterfinal := insize <=? i + ZOPFLI_MASTER_BLOCK_SIZE in
        let final2 := final && masterfinal in
        let size := if masterfinal then insize - i else ZOPFLI_MASTER_BLOCK_SIZE in
        o ← ZopfliDeflatePart btype final2 in_ i (i + size) o;
        master_loop n btype final in_ insize (i + size) o
    end
  else Ret o.

Definition ZopfliDeflate (btype : Z) (final : bool) (in_ : list Z) (insize : Z) (o : bitout) : outcome bitout :=
  master_loop (Z.to_nat insize) btype final in_ insize 0 o.
End deflate.

(** ** Sorted lists *)

Lemma Sorted_impl {A} (R R' : A -> A -> Prop) l : (forall x y, R x y -> R' x y) -> Sorted R l -> Sorted R' l.
Proof. intros H. induction 1 as [|x l _ IH Hx]; [constructor|]. constructor; [exact IH|]. destruct Hx; constructor. by apply H. Qed.

Lemma StronglySorted_impl {A} (R R' : A -> A -> Prop) l : (forall x y, R x y -> R' x y) -> StronglySorted R l -> StronglySorted R' l.
Proof. intros H. induction 1 as [|x l _ IH Hx]; [constructor|]. constructor; [exact IH|]. eapply Forall_impl; [exact Hx|]. apply H. Qed.

(** ** Parts *)

(** The blocks that [ZopfliDeflatePart] and its callees can write: stored ones with
    the splitting first, and those of at most seven million bytes. *)
Definition max_part : Z := 7000000.

Section parts.
Context {sort : Qsort} {logarithm : Log} {uninitialised : Uninitialised}.
Context (options : ZopfliOptions) (in_ : list Z).
Context (Hbytes : Forall is_byte in_) (Hlen : 2 <= Z.of_nat (length in_) < 2 ^ 63) (Hiterations : 1 <= numiterations options).

(** [f] writes the bytes from [a] to [b], after those before [a]. *)
Definition writes_part (f : bitout -> outcome bitout) (final : bool) (a b : Z) : Prop :=
  writes_blocks f final (take (Z.to_nat a) in_) (take (Z.to_nat b) in_).

Lemma store_written btype final store a b : btype = 1 \/ btype = 2 -> 0 <= a < b -> b <= Z.of_nat (length in_) -> b - a < 2 ^ 31 ->
  parsed in_ ZopfliInitLZ77Store a store b ->
  writes_part (AddLZ77Block btype (Z.b2z final) store 0 (store_size store) (b - a)) final a b.
Proof.
  intros Hbtype Ha Hb Hsize Hp. destruct (parsed_store in_ a b ltac:(lia) ltac:(lia) ltac:(lia) store Hsize Hp) as (Hs & Hss & Hdec).
  assert (0 <= store_size store) as H0 by (unfold store_size; lia). destruct (store_block_ok store 0 (store_size store) Hs ltac:(lia) ltac:(lia)) as [Hr Hi _].
  assert (block_ok store 0 (store_size store) (b - a)) as Hok.
  { constructor; [done|done|]. right. pose proof (lz_decode_total _ _ _ Hi Hdec) as Ht. rewrite !length_take in Ht. rewrite u64_small by lia. lia. }
  unfold writes_part. destruct Hbtype as [->| ->]; (eapply one_block; [|exact Hdec]).
  - by apply fixed_block_written.
  - apply dynamic_block_written; [done|]. lia.
Qed.

Lemma block_state_ready a b : 0 <= a < b -> ready in_ a b (b - a) a (block_state a b).
Proof. intros Ha. split; [|done]. split; [cbn; lia|]. apply InitCache_ok. lia. Qed.

Lemma fixed_written final a b : 0 <= a < b -> b <= Z.of_nat (length in_) -> b - a <= max_part -> writes_part (DeflateFixedBlock final in_ a b) final a b.
Proof.
  intros Ha Hb Hm. unfold max_part in Hm.
  destruct (ZopfliLZ77OptimalFixed_spec in_ a b (b - a) a Hbytes ltac:(lia) ltac:(lia) Ha ltac:(lia) ltac:(lia) (block_state a b) ZopfliInitLZ77Store eq_refl (block_state_ready a b Ha))
    as (s & store & E & _ & Hp).
  apply (blocks_ext _ (AddLZ77Block 1 (Z.b2z final) store 0 (store_size store) (b - a))).
  - intros o. unfold DeflateFixedBlock. rewrite E. by rewrite outcome_bind_ret.
  - apply store_written; [by left|done|done|lia|done].
Qed.

Lemma dynamic_written final a b : 0 <= a < b -> b <= Z.of_nat (length in_) -> b - a <= max_part -> writes_part (DeflateDynamicBlock options final in_ a b) final a b.
Proof.
  intros Ha Hb Hm. unfold max_part in Hm.
  destruct (ZopfliLZ77Optimal_spec in_ a b (b - a) a Hbytes ltac:(lia) ltac:(lia) Ha ltac:(lia) ltac:(lia) ltac:(lia) (numiterations options) (block_state a b) ZopfliInitLZ77Store
    Hiterations (block_state_ready a b Ha)) as (s & store & E & Hs & Hp).
  destruct (ZopfliLZ77OptimalFixed_spec in_ a b (b - a) a Hbytes ltac:(lia) ltac:(lia) Ha ltac:(lia) ltac:(lia) s ZopfliInitLZ77Store eq_refl Hs)
    as (s' & fixedstore & Ef & _ & Hpf).
  assert (forall btype st, btype = 1 \/ btype = 2 -> parsed in_ ZopfliInitLZ77Store a st b -> exists size, ZopfliCalculateBlockSize st 0 (store_size st) btype = Ret size) as Hsize.
  { intros btype st Hbt Hst. destruct (parsed_store in_ a b ltac:(lia) ltac:(lia) Ha st ltac:(lia) Hst) as (Hok & _ & _).
    destruct (block_size_total btype st 0 (store_size st) Hbt Hok) as (size & Esize & _); [unfold store_size; lia|lia|by exists size]. }
  assert (exists btype st, (if store_size store <? 1000 then
      '(_, fixedstore) ← ZopfliLZ77OptimalFixed s in_ a b ZopfliInitLZ77Store;
      dyncost ← ZopfliCalculateBlockSize store 0 (store_size store) 2;
      fixedcost ← ZopfliCalculateBlockSize fixedstore 0 (store_size fixedstore) 1;
      Ret (if SFltb (double_of_Z fixedcost) (double_of_Z dyncost) then (1, fixedstore) else (2, store))
    else Ret (2, store)) = Ret (btype, st) /\ (btype = 1 \/ btype = 2) /\ parsed in_ ZopfliInitLZ77Store a st b) as (btype & st & Est & Hbt & Hst).
  { destruct (_ <? _); [|exists 2, store; split; [exact eq_refl|]; by split; [right|]]. rewrite Ef, outcome_bind_ret.
    destruct (Hsize 2 store (or_intror eq_refl) Hp) as [sz1 ->], (Hsize 1 fixedstore (or_introl eq_refl) Hpf) as [sz2 ->]. rewrite !outcome_bind_ret.
    destruct (SFltb _ _); eexists _, _; (split; [exact eq_refl|]); (split; [lia|assumption]). }
  apply (blocks_ext _ (AddLZ77Block btype (Z.b2z final) st 0 (store_size st) (b - a))).
  - intros o. unfold DeflateDynamicBlock. cbv zeta. rewrite E, outcome_bind_ret, Est. by rewrite outcome_bind_ret.
  - apply store_written; [done|done|done|lia|done].
Qed.

Lemma take_slice a b : 0 <= a <= b -> take (Z.to_nat a) in_ ++ slice in_ a b = take (Z.to_nat b) in_.
Proof.
  intros Ha. unfold slice. rewrite take_take_drop. f_equal. lia.
Qed.

(** What a block can hold. *)
Definition fits (btype a b : Z) : Prop := btype = 0 /\ chunk 65535 a b \/ (btype = 1 \/ btype = 2) /\ a < b <= a + max_part.

Lemma DeflateBlock_written btype final a b : fits btype a b -> 0 <= a -> b <= Z.of_nat (length in_) -> writes_part (DeflateBlock options btype final in_ a b) final a b.
Proof.
  intros Hf Ha Hb. unfold DeflateBlock. destruct Hf as [[-> Hc]|[[->| ->] Hab]].
  - unfold chunk in Hc. eapply one_block; [apply stored_block_written; (done || lia)|]. cbn beta. by rewrite take_slice by lia.
  - apply fixed_written; lia.
  - apply (blocks_ext _ (DeflateDynamicBlock options final in_ a b)); [done|]. apply dynamic_written; lia.
Qed.

(** ** Splitting *)

(** Neighbouring split points. *)
Definition step (btype a b : Z) : Prop := if btype =? 0 then chunk 65535 a b else a < b.

Lemma blocks_written btype final a b points : (btype = 0 \/ (btype = 1 \/ btype = 2) /\ b - a <= max_part) -> 0 <= a -> b <= Z.of_nat (length in_) ->
  Sorted (step btype) (a :: points ++ [b]) ->
  writes_part (fun o => let npoints := Z.of_nat (length points) in
    for_each (seqZ 0 (npoints + 1)) (fun i o =>
      start ← (if i =? 0 then Ret a else index points (i - 1));
      end_ ← (if i =? npoints then Ret b else index points i);
      DeflateBlock options btype ((i =? npoints) && final) in_ start end_ o) o) final a b.
Proof.
  intros Hbt Ha Hb Hs. cbv zeta. set (n := Z.of_nat (length points)).
  assert (StronglySorted Z.le (a :: points ++ [b])) as Hle.
  { apply Sorted_StronglySorted; [intros x y z; lia|]. apply (Sorted_impl (step btype)); [|exact Hs]. intros x y. unfold step, chunk. destruct (btype =? 0); lia. }
  unfold writes_part. pose proof (point_first a b points) as E0. pose proof (point_last a b points) as E1. fold n in E1.
  match goal with |- writes_blocks ?F _ _ _ =>
    cut (writes_blocks F final (take (Z.to_nat (point a b points 0)) in_) (take (Z.to_nat (point a b points (0 + (n + 1)))) in_)) end.
  { by rewrite E0, Z.add_0_l, E1. }
  apply (blocks_for_each (fun i => take (Z.to_nat (point a b points i)) in_)); [lia|]. intros i Hi. rewrite Z.add_0_l. replace (n + 1 - 1) with n by lia.
  destruct (block_ends a b points i ltac:(lia)) as [Es Ee]. fold n in Ee.
  apply (blocks_ext _ (DeflateBlock options btype ((i =? n) && final) in_ (point a b points i) (point a b points (i + 1)))).
  { intros o. by rewrite Es, outcome_bind_ret, Ee, outcome_bind_ret. }
  destruct (point_in a b points i Hle ltac:(lia)) as [H1 _], (point_in a b points (i + 1) Hle ltac:(lia)) as [_ H2].
  pose proof (point_adjacent a b points _ i Hs ltac:(lia)) as Hst. unfold step in Hst.
  apply DeflateBlock_written; [|lia|lia]. destruct Hbt as [->|[Hbt Hm]]; [by left|right]. split; [done|].
  rewrite (proj2 (Z.eqb_neq _ _)) in Hst by lia. lia.
Qed.

(** A part that can be compressed. *)
Definition part_fits (btype a b : Z) : Prop := 0 <= a < b /\ b <= Z.of_nat (length in_) /\ (btype = 0 \/ (btype = 1 \/ btype = 2) /\ b - a <= max_part).

Lemma between_sorted (R : Z -> Z -> Prop) a b points : (forall x y, x < y -> R x y) -> R a b -> between a b points -> StronglySorted R (a :: points ++ [b]).
Proof.
  intros HR Hab [Hs Hf]. constructor.
  - apply StronglySorted_app_2.
    + intros x y Hx ->%list_elem_of_singleton. apply (proj1 (Forall_forall _ _) Hf) in Hx as [_ ?]. by apply HR.
    + apply (StronglySorted_impl Z.lt); [exact HR|exact Hs].
    + by repeat constructor.
  - apply Forall_app. split; [|by repeat constructor]. eapply Forall_impl; [exact Hf|]. intros x [? _]. by apply HR.
Qed.

Lemma between_steps btype a b points : btype <> 0 -> a < b -> between a b points -> Sorted (step btype) (a :: points ++ [b]).
Proof.
  intros Hb Hab Hp. assert (forall x y, x < y -> step btype x y) as H by (intros x y; unfold step; by rewrite (proj2 (Z.eqb_neq _ _))).
  apply StronglySorted_Sorted, between_sorted; [done|by apply H|done].
Qed.

Lemma DeflateSplittingFirst_written btype final a b : part_fits btype a b -> writes_part (DeflateSplittingFirst options btype final in_ a b) final a b.
Proof.
  intros (Ha & Hb & Hbt).
  assert (exists points, (if btype =? 0 then ZopfliBlockSplitSimple a b 65535 []
    else if btype =? 1 then Ret []
    else ZopfliBlockSplit (verbose options) in_ a b (u64 (blocksplittingmax options))) = Ret points /\ Sorted (step btype) (a :: points ++ [b])) as (points & E & Hs).
  { destruct (Z.eqb_spec btype 0) as [->|H0].
    - destruct (BlockSplitSimple_spec a b 65535 ltac:(lia) ltac:(lia)) as (l & -> & Hl & _). by exists l.
    - destruct (Z.eqb_spec btype 1) as [->|H1]; [exists []; split; [done|]; apply between_steps; [done|lia|split; constructor]|].
      unfold max_part in Hbt. destruct (BlockSplit_spec (verbose options) in_ a b (u64 (blocksplittingmax options)) Hbytes ltac:(lia) ltac:(lia) Ha ltac:(lia)) as (l & -> & Hl & _).
      exists l. split; [done|]. apply between_steps; [done|lia|done]. }
  eapply blocks_ext; [|apply (blocks_written btype final a b points); [done|lia|done|done]]. intros o. unfold DeflateSplittingFirst. rewrite E. by rewrite outcome_bind_ret.
Qed.

Lemma DeflateSplittingLast_written btype final a b : part_fits btype a b -> btype <> 0 -> writes_part (DeflateSplittingLast options btype final in_ a b) final a b.
Proof.
  intros (Ha & Hb & Hbt) H0. destruct Hbt as [?|[Hbt Hm]]; [done|]. unfold max_part in Hm.
  assert (exists s store, (if btype =? 2 then ZopfliLZ77Optimal (numiterations options) (block_state a b) in_ a b ZopfliInitLZ77Store
    else _ ← assertion (btype =? 1); ZopfliLZ77OptimalFixed (block_state a b) in_ a b ZopfliInitLZ77Store) = Ret (s, store) /\
    parsed in_ ZopfliInitLZ77Store a store b) as (s & store & E & Hp).
  { destruct Hbt as [->| ->].
    - destruct (ZopfliLZ77OptimalFixed_spec in_ a b (b - a) a Hbytes ltac:(lia) ltac:(lia) Ha ltac:(lia) ltac:(lia) (block_state a b) ZopfliInitLZ77Store eq_refl (block_state_ready a b Ha))
        as (s & store & E & _ & Hp). exists s, store. by split.
    - destruct (ZopfliLZ77Optimal_spec in_ a b (b - a) a Hbytes ltac:(lia) ltac:(lia) Ha ltac:(lia) ltac:(lia) ltac:(lia) (numiterations options) (block_state a b) ZopfliInitLZ77Store
        Hiterations (block_state_ready a b Ha)) as (s & store & E & _ & Hp). exists s, store. by split. }
  destruct (parsed_store in_ a b ltac:(lia) ltac:(lia) Ha store ltac:(lia) Hp) as (Hok & _ & Hdec).
  assert (exists points, (if btype =? 1 then Ret [] else ZopfliBlockSplitLZ77 (verbose options) store (u64 (blocksplittingmax options)) []) = Ret points /\
    between 0 (store_size store) points) as (points & Ep & Hpts).
  { destruct (btype =? 1); [exists []; split; [done|split; constructor]|].
    destruct (BlockSplitLZ77_spec (verbose options) store (u64 (blocksplittingmax options)) Hok) as (points & -> & H & _). by exists points. }
  eapply blocks_ext; [|apply (split_blocks_written btype final store points); [done|exact Hok| |exact Hdec]].
  - intros o. unfold DeflateSplittingLast. rewrite (proj2 (Z.eqb_neq btype 0)) by done. rewrite outcome_bind_ret, assertion_holds by (destruct Hbt as [->| ->]; done).
    cbv zeta. rewrite E, outcome_bind_ret, Ep. by rewrite outcome_bind_ret.
  - apply between_sorted; [lia|unfold store_size; lia|done].
Qed.

(** ** Master blocks *)

(** Stored blocks are for the splitting first. *)
Definition options_fit (btype : Z) : Prop := btype = 0 -> blocksplitting options = true /\ blocksplittinglast options = false.

Lemma ZopfliDeflatePart_written btype final a b : part_fits btype a b -> options_fit btype -> writes_part (ZopfliDeflatePart options btype final in_ a b) final a b.
Proof.
  intros Hp Ho. unfold ZopfliDeflatePart, options_fit in *.
  destruct (blocksplitting options); [destruct (blocksplittinglast options)|].
  - apply DeflateSplittingLast_written; [done|]. intros E. by destruct (Ho E).
  - by apply DeflateSplittingFirst_written.
  - destruct Hp as (Ha & Hb & [E|[Hbt Hm]]); [by destruct (Ho E)|]. apply DeflateBlock_written; [right; split; [done|lia]|lia|done].
Qed.

Lemma master_loop_written fuel btype final insize i : insize <= Z.of_nat (length in_) -> (btype = 0 \/ (btype = 1 \/ btype = 2) /\ insize <= max_part) ->
  options_fit btype -> 0 <= i < insize -> insize - i <= Z.of_nat fuel ->
  writes_part (master_loop options fuel btype final in_ insize i) final i insize.
Proof.
  intros Hb Hbt Ho. revert i. induction fuel as [|fuel IH]; intros i Hi Hf; [lia|]. cbn [master_loop]. rewrite (proj2 (Z.ltb_lt i insize)) by lia. cbv zeta.
  unfold ZOPFLI_MASTER_BLOCK_SIZE. destruct (Z.leb_spec insize (i + 20000000)) as [Hm|Hm].
  - rewrite andb_true_r. replace (i + (insize - i)) with insize by lia.
    apply (blocks_ext _ (ZopfliDeflatePart options btype final in_ i insize)).
    + intros o. destruct (ZopfliDeflatePart _ _ _ _ _ _ o) as [o'| | |]; try done. rewrite outcome_bind_ret.
      destruct fuel; cbn [master_loop]; by rewrite Z.ltb_irrefl.
    + apply ZopfliDeflatePart_written; [|done]. split; [lia|]. split; [done|]. destruct Hbt as [?|[? ?]]; [by left|right]. split; [done|lia].
  - rewrite andb_false_r. apply (blocks_bind (ZopfliDeflatePart options btype false in_ i (i + 20000000)) _ final _ (take (Z.to_nat (i + 20000000)) in_)).
    + apply ZopfliDeflatePart_written; [|done]. split; [lia|]. split; [lia|]. destruct Hbt as [?|[? ?]]; [by left|]. unfold max_part in *. lia.
    + apply IH; lia.
Qed.

Lemma ZopfliDeflate_written btype final insize : 0 < insize <= Z.of_nat (length in_) -> (btype = 0 \/ (btype = 1 \/ btype = 2) /\ insize <= max_part) ->
  options_fit btype -> writes_blocks (ZopfliDeflate options btype final in_ insize) final [] (take (Z.to_nat insize) in_).
Proof. intros Hi Hbt Ho. apply master_loop_written; (done || lia). Qed.
End parts.

(** ** Properties *)

(** C8. Compressing and decompressing. [ZopfliDeflate], with every choice of the
    options of at least one iteration, any sort that sorts and any logarithm within
    its bounds: no assertion fails, and a decoder of RFC 1951 reads the data back.
    Data for the fixed and dynamic codes has at most seven million bytes; stored
    blocks, of data of any size and so of several master blocks, are for the
    splitting first. *)
Theorem deflate_roundtrip {sort : Qsort} {logarithm : Log} {uninitialised : Uninitialised} options btype in_ insize
    (Hbytes : Forall is_byte in_) (Hlen : 2 <= Z.of_nat (length in_) < 2 ^ 63) (Hsize : 0 < insize <= Z.of_nat (length in_))
    (Hiterations : 1 <= numiterations options)
    (Hbtype : btype = 0 /\ blocksplitting options = true /\ blocksplittinglast options = false \/ (btype = 1 \/ btype = 2) /\ insize <= 7000000) :
  exists o, ZopfliDeflate options btype true in_ insize (MkOut 0 []) = Ret o /\ inflate (out o) = Some (take (Z.to_nat insize) in_).
Proof.
  apply blocks_inflate, ZopfliDeflate_written; try done.
  - destruct Hbtype as [[? _]|?]; [by left|by right].
  - intros E. destruct Hbtype as [[_ ?]|[? _]]; [done|lia].
Qed.

Lemma deflate_roundtrip_witness :
  (exists o, ZopfliDeflate (sort := sorting) ZopfliInitOptions 2 true banana 9 (MkOut 0 []) = Ret o /\ inflate (out o) = Some banana) /\
  (exists o, ZopfliDeflate (sort := sorting) ZopfliInitOptions 0 true (replicate (Z.to_nat 90000) 7) 90000 (MkOut 0 []) = Ret o /\
    inflate (out o) = Some (take (Z.to_nat 90000) (replicate (Z.to_nat 90000) 7))).
Proof.
  split.
  - apply (deflate_roundtrip (sort := sorting) ZopfliInitOptions 2 banana 9); try (cbn; lia).
    unfold is_byte. repeat (apply Forall_cons; split; [lia|]). apply Forall_nil. exact I.
  - apply (deflate_roundtrip (sort := sorting) ZopfliInitOptions 0 (replicate (Z.to_nat 90000) 7) 90000).
    + apply Forall_replicate. unfold is_byte. lia.
    + rewrite length_replicate. lia.
    + rewrite length_replicate. lia.
    + cbn [numiterations ZopfliInitOptions]. lia.
    + left. split; [exact eq_refl|]. split; exact eq_refl.
Defined.

(** Stored blocks with the splitting last: [DeflateSplittingLast] hands them to
    [DeflateSplittingFirst], but does not return, and its next assertion fails. *)
Theorem splitting_last_stored_aborts {sort : Qsort} {logarithm : Log} {uninitialised : Uninitialised} options final in_ instart inend o pre
    (Hbytes : Forall is_byte in_) (Hlen : 2 <= Z.of_nat (length in_) < 2 ^ 63) (Hin : 0 <= instart < inend) (Hend : inend <= Z.of_nat (length in_))
    (Hiterations : 1 <= numiterations options) (Ho : holds o pre) :
  DeflateSplittingLast options 0 final in_ instart inend o = Aborts.
Proof.
  destruct (DeflateSplittingFirst_written options in_ Hbytes Hlen Hiterations 0 final instart inend ltac:(split; [done|]; split; [done|by left]) o pre Ho) as (o' & _ & E & _).
  unfold DeflateSplittingLast. change (0 =? 0) with true. cbv iota. by rewrite E, outcome_bind_ret.
Qed.

Lemma splitting_last_stored_aborts_witness :
  DeflateSplittingLast (sort := sorting) (MkOptions false 15 true true 15) 0 true banana 0 9 (MkOut 0 []) = Aborts.
Proof.
  apply (splitting_last_stored_aborts (sort := sorting) (MkOptions false 15 true true 15) true banana 0 9 (MkOut 0 []) []); try (cbn; lia).
  - unfold is_byte. repeat (apply Forall_cons; split; [lia|]). apply Forall_nil. exact I.
  - apply holds_nil.
Defined.
