(* ===== verification/ZopfliLib.v ===== *)
(** * Zopfli: the containers and the library

    [gzip_container.cc], [zlib_container.cc] and [zopfli_lib.cc]: [ZopfliCompress],
    and the compressor of the request handler made of it, an instance of its class
    [Zopfli].

    Proved here: decoders of RFC 1950, 1951 and 1952, with their checksums, read
    back what [ZopfliCompress] writes, and so a client the content of a compressed
    download; for empty data they cannot. *)

From S2P Require Import Prelude CppString StdMap Http Reply Config Hash BlobKey Blob BlobIndex Calls Qi RequestHandler HttpStore.
From S2P Require Import CFloat ZopfliUtil ZopfliBits ZopfliTree Katajainen PackageMerge CodeLengths Inflate ZopfliDeflate ZopfliBlocks ZopfliDynamic ZopfliRoundTrip Checksums ZopfliHash ZopfliCache ZopfliMatch ZopfliGreedy ZopfliEntropy ZopfliOptimal ZopfliParts.

Local Open Scope Z_scope.

(** ** The containers *)

(** [ZOPFLI_APPEND_DATA] of several values. *)
Definition append_all (values : list Z) (o : bitout) : bitout := foldl (fun o v => append_data v o) o values.

Section containers.
Context {sort : Qsort} {logarithm : Log} {uninitialised : Uninitialised}.
Context (options : ZopfliOptions).

(** [out] with what is appended, and the static variables of the CRC. What
    [verbose] prints is left out. *)
Definition ZopfliGzipCompress (in_ : list Z) (insize : Z) (out_ : list Z) (st : crc_static) : outcome (list Z * crc_static) :=
  '(crcvalue, st) ← CRC in_ insize st;
  let o := append_all [31; 139; 8; 0; 0; 0; 0; 0; 2; 3] (MkOut 0 out_) in
  o ← ZopfliDeflate options 2 true in_ insize o;
  let o := append_all [crcvalue mod 256; Z.shiftr crcvalue 8 mod 256; Z.shiftr crcvalue 16 mod 256; Z.shiftr crcvalue 24 mod 256] o in
  let o := append_all [insize mod 256; Z.shiftr insize 8 mod 256; Z.shiftr insize 16 mod 256; Z.shiftr insize 24 mod 256] o in
  Ret (out o, st).

Definition ZopfliZlibCompress (in_ : list Z) (insize : Z) (out_ : list Z) : outcome (list Z) :=
  let checksum := adler32 (take (Z.to_nat (u32 insize)) in_) in
  let cmf := 120 in
  let flevel := 0 in
  let fdict := 0 in
  let cmfflg := 256 * cmf + fdict * 32 + flevel * 64 in
  let fcheck := 31 - cmfflg mod 31 in
  let cmfflg := cmfflg + fcheck in
  let o := append_all [cmfflg / 256; cmfflg mod 256] (MkOut 0 out_) in
  o ← ZopfliDeflate options 2 true in_ insize o;
  let o := append_all [Z.shiftr checksum 24 mod 256; Z.shiftr checksum 16 mod 256; Z.shiftr checksum 8 mod 256; checksum mod 256] o in
  Ret (out o).

Definition ZopfliCompress (output_type : ZopfliFormat) (in_ : list Z) (insize : Z) (out_ : list Z) (st : crc_static) : outcome (list Z * crc_static) :=
  match output_type with
  | ZOPFLI_FORMAT_GZIP => ZopfliGzipCompress in_ insize out_ st
  | ZOPFLI_FORMAT_ZLIB => out ← ZopfliZlibCompress in_ insize out_; Ret (out, st)
  | ZOPFLI_FORMAT_DEFLATE => o ← ZopfliDeflate options 2 true in_ insize (MkOut 0 out_); Ret (out o, st)
  end.
End containers.

(** The compressor of the handler: [in] is [rep.content.c_str()], with its
    terminating NUL; [out] is null. The table of the CRC is made by the first call;
    [compress_initially] shows that the result does not depend on whether it is. *)
Definition library_compress {sort : Qsort} {logarithm : Log} {uninitialised : Uninitialised} (output_type : ZopfliFormat) (content : bytes) : outcome bytes :=
  '(out_, _) ← ZopfliCompress ZopfliInitOptions output_type ((char_uint <$> content) ++ [0]) (Z.of_nat (length content)) [] crc_initially;
  Ret (char_of_Z <$> (out_ : list Z)).

Definition library {sort : Qsort} {logarithm : Log} {uninitialised : Uninitialised} : Zopfli := {| Calls.ZopfliCompress := library_compress |}.

(** ** Decoders *)

(** Four bytes, the least significant first. *)
Definition little_endian (v : Z) : list Z := [v mod 256; v / 2 ^ 8 mod 256; v / 2 ^ 16 mod 256; v / 2 ^ 24 mod 256].

(** RFC 1952: a member with no optional fields. *)
Definition gunzip (input : list Z) : option (list Z) :=
  match input with
  | id1 :: id2 :: cm :: flg :: _ :: _ :: _ :: _ :: _ :: _ :: deflated =>
      if (id1 =? 31) && (id2 =? 139) && (cm =? 8) && (flg =? 0) then
        '(data, trailer) ← inflate_prefix deflated;
        if bool_decide (trailer = little_endian (crc32 data) ++ little_endian (Z.of_nat (length data))) then Some data else None
      else None
  | _ => None
  end.

(** RFC 1950, without a preset dictionary. *)
Definition zlib_decompress (input : list Z) : option (list Z) :=
  match input with
  | cmf :: flg :: deflated =>
      if (cmf mod 16 =? 8) && (cmf / 16 <=? 7) && ((cmf * 256 + flg) mod 31 =? 0) && negb (Z.testbit flg 5) then
        '(data, trailer) ← inflate_prefix deflated;
        let adler := (adler_sum data).2 * 65536 + (adler_sum data).1 in
        if bool_decide (trailer = reverse (little_endian adler)) then Some data else None
      else None
  | _ => None
  end.

Definition decompress (output_type : ZopfliFormat) : list Z -> option (list Z) :=
  match output_type with
  | ZOPFLI_FORMAT_GZIP => gunzip
  | ZOPFLI_FORMAT_ZLIB => zlib_decompress
  | ZOPFLI_FORMAT_DEFLATE => inflate
  end.

(** ** The containers read back *)

Lemma append_all_out values o : out (append_all values o) = out o ++ (u8 <$> values).
Proof.
  revert o. induction values as [|v values IH]; intros o; cbn [append_all foldl fmap list_fmap]; [by rewrite app_nil_r|].
  unfold append_all in IH. rewrite IH. cbn [append_data out]. by rewrite <-app_assoc.
Qed.

Lemma append_header values : Forall is_byte values -> append_all values (MkOut 0 []) = MkOut 0 values.
Proof.
  intros Hv. assert (forall l, append_all values (MkOut 0 l) = MkOut 0 (l ++ values)) as H; [|by rewrite H].
  induction Hv as [|v values Hv _ IH]; intros l; cbn [append_all foldl]; [by rewrite app_nil_r|]. unfold append_all in IH.
  change (append_data v (MkOut 0 l)) with (MkOut 0 (l ++ [u8 v])). unfold is_byte in Hv. unfold u8. rewrite Z.mod_small by lia. by rewrite IH, <-app_assoc.
Qed.

Lemma little_endian_bytes v : u8 <$> [v mod 256; Z.shiftr v 8 mod 256; Z.shiftr v 16 mod 256; Z.shiftr v 24 mod 256] = little_endian v.
Proof. unfold little_endian, u8. cbn [fmap list_fmap]. rewrite !Z.shiftr_div_pow2 by lia. change (2 ^ 8) with 256. by rewrite !Zmod_mod. Qed.

Section read_back.
Context {sort : Qsort} {logarithm : Log} {uninitialised : Uninitialised}.
Context (options : ZopfliOptions) (in_ : list Z) (insize : Z).
Context (Hbytes : Forall is_byte in_) (Hlen : 2 <= Z.of_nat (length in_) < 2 ^ 63) (Hsize : 0 < insize <= Z.of_nat (length in_))
  (Hmax : insize <= max_part) (Hiterations : 1 <= numiterations options).
Local Abbreviation data := (take (Z.to_nat insize) in_).

Lemma deflated header : Forall is_byte header -> exists o bytes, ZopfliDeflate options 2 true in_ insize (MkOut 0 header) = Ret o /\ out o = header ++ bytes /\
  Forall is_byte bytes /\ forall rest, inflate_prefix (bytes ++ rest) = Some (data, rest).
Proof.
  intros Hh. apply blocks_read; [|done]. apply ZopfliDeflate_written; try done. right. split; [by right|done].
Qed.

Lemma gzip_read st : crc_ok st -> exists out_ st', ZopfliGzipCompress options in_ insize [] st = Ret (out_, st') /\ crc_ok st' /\
  Forall is_byte out_ /\ gunzip out_ = Some data.
Proof.
  intros Hst. unfold max_part in Hmax. unfold ZopfliGzipCompress. rewrite (CRC_spec st in_ insize Hst Hbytes) by lia. rewrite outcome_bind_ret. cbv zeta.
  assert (Forall is_byte [31; 139; 8; 0; 0; 0; 0; 0; 2; 3]) as Hh by (unfold is_byte; repeat constructor; lia). rewrite (append_header _ Hh).
  destruct (deflated _ Hh) as (o & bytes & -> & Eo & Hb & Hread). rewrite outcome_bind_ret, !append_all_out, !little_endian_bytes, Eo, <-!app_assoc.
  eexists _, _. split; [done|]. split; [done|]. split.
  - assert (forall v, Forall is_byte (little_endian v)) as Hle by (intros v; unfold little_endian, is_byte; repeat constructor; apply Z.mod_pos_bound; lia).
    repeat (apply Forall_app; split); try done.
  - cbn [app gunzip]. change ((31 =? 31) && (139 =? 139) && (8 =? 8) && (0 =? 0)) with true. cbv iota. rewrite Hread. cbn [mbind option_bind].
    rewrite bool_decide_true; [done|]. rewrite length_take, Nat.min_l by lia. by rewrite Z2Nat.id by lia.
Qed.

Lemma zlib_read : exists out_, ZopfliZlibCompress options in_ insize [] = Ret out_ /\ Forall is_byte out_ /\ zlib_decompress out_ = Some data.
Proof.
  unfold max_part in Hmax. unfold ZopfliZlibCompress. cbv zeta. rewrite u32_small by lia.
  change (256 * 120 + 0 * 32 + 0 * 64 + (31 - (256 * 120 + 0 * 32 + 0 * 64) mod 31)) with 30721. change (30721 / 256) with 120. change (30721 mod 256) with 1.
  assert (Forall is_byte [120; 1]) as Hh by (unfold is_byte; repeat constructor; lia). rewrite (append_header _ Hh).
  destruct (deflated _ Hh) as (o & bytes & -> & Eo & Hb & Hread). rewrite outcome_bind_ret, append_all_out, Eo. set (adler := adler32 data).
  assert ((u8 <$> [Z.shiftr adler 24 mod 256; Z.shiftr adler 16 mod 256; Z.shiftr adler 8 mod 256; adler mod 256]) = reverse (little_endian adler)) as ->.
  { rewrite <-little_endian_bytes. done. }
  eexists. split; [done|]. split.
  - rewrite <-app_assoc. apply Forall_app. split; [done|]. apply Forall_app. split; [done|]. apply Forall_reverse.
    unfold little_endian, is_byte. repeat constructor; apply Z.mod_pos_bound; lia.
  - rewrite <-app_assoc. cbn [app zlib_decompress]. change ((120 mod 16 =? 8) && (120 / 16 <=? 7) && ((120 * 256 + 1) mod 31 =? 0) && negb (Z.testbit 1 5)) with true.
    cbv iota. rewrite Hread. cbn [mbind option_bind]. rewrite bool_decide_true; [done|]. unfold adler. rewrite adler32_spec; [done|]. by apply Forall_take.
Qed.

Lemma compress_read output_type st : crc_ok st -> exists out_ st', ZopfliCompress options output_type in_ insize [] st = Ret (out_, st') /\ crc_ok st' /\
  Forall is_byte out_ /\ decompress output_type out_ = Some data.
Proof.
  intros Hst. destruct output_type; cbn [ZopfliCompress decompress].
  - by apply gzip_read.
  - destruct zlib_read as (out_ & -> & Hb & Hd). rewrite outcome_bind_ret. by exists out_, st.
  - destruct (deflated [] (Forall_nil_2 _)) as (o & bytes & -> & Eo & Hb & Hread). rewrite outcome_bind_ret. exists (out o), st. rewrite Eo. cbn [app].
    split_and!; try done. specialize (Hread []). rewrite app_nil_r in Hread. by rewrite inflate_of_prefix, Hread.
Qed.
End read_back.

(** Empty data: there is no block in what [ZopfliCompress] writes. *)
Lemma compress_empty {sort : Qsort} {logarithm : Log} {uninitialised : Uninitialised} options output_type in_ st : Forall is_byte in_ -> crc_ok st ->
  exists out_ st', ZopfliCompress options output_type in_ 0 [] st = Ret (out_, st') /\ decompress output_type out_ = None.
Proof.
  intros Hbytes Hst. assert (forall o, ZopfliDeflate options 2 true in_ 0 o = Ret o) as E by done.
  destruct output_type; cbn [ZopfliCompress decompress].
  - unfold ZopfliGzipCompress. rewrite (CRC_spec st in_ 0 Hst Hbytes) by lia. change (Z.to_nat 0) with 0%nat. rewrite take_0, outcome_bind_ret. cbv zeta.
    rewrite E, outcome_bind_ret. eexists _, _. split; [exact eq_refl|]. vm_compute. exact eq_refl.
  - unfold ZopfliZlibCompress. cbv zeta. change (Z.to_nat (u32 0)) with 0%nat. rewrite take_0, E, !outcome_bind_ret. eexists _, _. split; [exact eq_refl|].
    vm_compute. exact eq_refl.
  - rewrite E, outcome_bind_ret. eexists _, _. split; [exact eq_refl|]. vm_compute. exact eq_refl.
Qed.

(** *** The compressor of the handler *)

Section library.
Context {sort : Qsort} {logarithm : Log} {uninitialised : Uninitialised}.

(** Whoever compressed before. *)
Lemma compress_initially options output_type in_ insize out_ st : crc_ok st ->
  (r ← ZopfliCompress options output_type in_ insize out_ st; Ret r.1) = (r ← ZopfliCompress options output_type in_ insize out_ crc_initially; Ret r.1).
Proof.
  intros Hst. destruct output_type; cbn [ZopfliCompress].
  - unfold ZopfliGzipCompress. by rewrite (CRC_initially _ _ st Hst).
  - by destruct (ZopfliZlibCompress _ _ _ _).
  - by destruct (ZopfliDeflate _ _ _ _ _ _).
Qed.

Lemma library_input content : Forall is_byte ((char_uint <$> content) ++ [0]) /\ Z.of_nat (length ((char_uint <$> content) ++ [0])) = Z.of_nat (length content) + 1.
Proof.
  split.
  - apply Forall_app. split; [|apply Forall_singleton; unfold is_byte; lia]. apply Forall_fmap, Forall_forall. intros c _. apply char_uint_range.
  - rewrite length_app, length_fmap. cbn [length]. lia.
Qed.

(** What the handler compresses, a client decompresses. *)
Lemma library_read output_type content : 1 <= Z.of_nat (length content) <= max_part ->
  exists out, Calls.ZopfliCompress (Zopfli := library) output_type content = Ret out /\ decompress output_type (char_uint <$> out) = Some (char_uint <$> content).
Proof.
  intros Hc. unfold max_part in Hc. destruct (library_input content) as [Hb Hl]. set (in_ := (char_uint <$> content) ++ [0]) in *.
  destruct (compress_read ZopfliInitOptions in_ (Z.of_nat (length content)) Hb ltac:(lia) ltac:(lia) ltac:(unfold max_part; lia) ltac:(cbn; lia) output_type crc_initially ltac:(by intros ?))
    as (out_ & st' & E & _ & Ho & Hd). unfold Calls.ZopfliCompress, library, library_compress. fold in_. rewrite E, outcome_bind_ret. eexists. split; [done|].
  assert (char_uint <$> (char_of_Z <$> out_) = out_) as ->.
  { clear - Ho. induction Ho as [|x out_ Hx _ IH]; [done|]. rewrite !fmap_cons, IH, char_uint_of_Z. unfold is_byte in Hx. by rewrite Z.mod_small by lia. }
  rewrite Hd. unfold in_. by rewrite Nat2Z.id, take_app_length' by (by rewrite length_fmap).
Qed.

(** Up to seven million bytes, it returns. *)
Lemma library_returns output_type content : Z.of_nat (length content) <= max_part -> exists out, Calls.ZopfliCompress (Zopfli := library) output_type content = Ret out.
Proof.
  intros Hmax. destruct content as [|x content].
  - destruct (library_input []) as [Hb _]. destruct (compress_empty ZopfliInitOptions output_type _ crc_initially Hb ltac:(by intros ?)) as (out_ & st' & E & _).
    exists (char_of_Z <$> out_). change (('(o, _) ← ZopfliCompress ZopfliInitOptions output_type ((char_uint <$> []) ++ [0]) 0 [] crc_initially; Ret (char_of_Z <$> (o : list Z))) = Ret (char_of_Z <$> out_)).
    by rewrite E.
  - destruct (library_read output_type (x :: content)) as (out & E & _); [cbn [length] in *; lia|by eexists].
Qed.
End library.

(** ** Properties *)

(** C5. Compressing and decompressing, in the three containers. For data of 1 to
    seven million bytes, one byte in a buffer that has a second, with every choice of the options of at least one
    iteration, with the CRC table made before or not, [ZopfliCompress] returns, and
    a decoder of RFC 1952, 1950 or 1951, checksums and size included, reads the
    data back. *)
Theorem compress_roundtrip {sort : Qsort} {logarithm : Log} {uninitialised : Uninitialised} options output_type in_ insize st
    (Hbytes : Forall is_byte in_) (Hlen : 2 <= Z.of_nat (length in_) < 2 ^ 63) (Hsize : 0 < insize <= Z.of_nat (length in_))
    (Hmax : insize <= 7000000) (Hiterations : 1 <= numiterations options) (Hst : crc_ok st) :
  exists out_ st', ZopfliCompress options output_type in_ insize [] st = Ret (out_, st') /\ crc_ok st' /\
    decompress output_type out_ = Some (take (Z.to_nat insize) in_).
Proof.
  destruct (compress_read options in_ insize Hbytes Hlen Hsize Hmax Hiterations output_type st Hst) as (out_ & st' & E & H1 & _ & H2).
  by exists out_, st'.
Qed.

Lemma compress_roundtrip_witness :
  exists out_ st', ZopfliCompress (sort := sorting) (MkOptions true 3 true true 0) ZOPFLI_FORMAT_GZIP banana 9 [] crc_initially = Ret (out_, st') /\ crc_ok st' /\
    gunzip out_ = Some banana.
Proof.
  apply (compress_roundtrip (sort := sorting) (MkOptions true 3 true true 0) ZOPFLI_FORMAT_GZIP banana 9 crc_initially); try (cbn; lia).
  - unfold is_byte. repeat (apply Forall_cons; split; [lia|]). apply Forall_nil. exact I.
  - intros E. discriminate E.
Defined.

(** C13. Empty data: [ZopfliDeflate] writes no block, not even a final one, so that
    no decoder of the format reads what [ZopfliCompress] writes. *)
Theorem empty_data_unreadable {sort : Qsort} {logarithm : Log} {uninitialised : Uninitialised} options output_type in_ st
    (Hbytes : Forall is_byte in_) (Hst : crc_ok st) :
  exists out_ st', ZopfliCompress options output_type in_ 0 [] st = Ret (out_, st') /\ decompress output_type out_ = None.
Proof. by apply compress_empty. Qed.

Lemma empty_data_unreadable_witness :
  exists out_ st', ZopfliCompress (sort := sorting) ZopfliInitOptions ZOPFLI_FORMAT_GZIP [0] 0 [] crc_initially = Ret (out_, st') /\ gunzip out_ = None.
Proof.
  apply (empty_data_unreadable (sort := sorting) ZopfliInitOptions ZOPFLI_FORMAT_GZIP [0] crc_initially).
  - repeat constructor; vm_compute; discriminate.
  - intros E. discriminate E.
Defined.

(** C4. A compressed download. When a reference names a content of 1 to seven
    million bytes and [Accept-Encoding] asks for gzip, zlib or deflate, a [GET]
    answers 200 with that [Content-Encoding] and a body that a decoder of it turns
    into the content; no two contents of the store share a digest. *)
Theorem compressed_download {digest : Digest} {platform : Platform} {qi : Qi} {static : StaticFiles}
    {sort : Qsort} {logarithm : Log} {uninitialised : Uninitialised} c_ req rep st cs ref content output_type_
    (Hst : refines c_ ∅ st cs) (Hcf : collision_free cs) (Href : blob_uri ref) (Hrep : fresh rep)
    (Huri : req_uri req = "/"%char :: ref) (Hm : req_method req = lit "GET") (Hfound : abs_find ref cs = Some content)
    (Hsize : 1 <= Z.of_nat (length content) <= 7000000)
    (Haccept : output_type (get_header_ci (req_headers req) (lit "Accept-Encoding")) = Some output_type_) :
  exists r, handle_request (zopfli := library) c_ req rep st = Ret (r, st) /\ reply.status r = reply.ok /\
    header_pair (lit "Content-Encoding") (encoding_name output_type_) ∈ reply.headers r /\
    decompress output_type_ (char_uint <$> reply.content r) = Some (char_uint <$> content).
Proof.
  rewrite (download_spec c_ req rep st cs ref Hst Hcf Href Hrep Huri Hm), Hfound. unfold download_reply. rewrite Haccept.
  destruct (library_read output_type_ content Hsize) as (out & -> & Hd). rewrite !outcome_bind_ret. eexists. split; [done|].
  cbn [reply.status reply.headers reply.content]. split; [done|]. split; [apply elem_of_app; right; by apply list_elem_of_singleton|done].
Qed.

Lemma compressed_download_witness :
  exists r, handle_request (digest := toy_digest) (platform := working_platform) (qi := peg_qi) (static := {| open_for_read _ := None |})
      (zopfli := library (sort := sorting)) Config_new
      (Request (lit "GET") ("/"%char :: hello_ref) 1 1 [header_pair (lit "accept-encoding") (lit "gzip, deflate")] [] []) fresh_reply hello_store = Ret (r, hello_store) /\
    reply.status r = reply.ok /\ header_pair (lit "Content-Encoding") (lit "gzip") ∈ reply.headers r /\
    gunzip (char_uint <$> reply.content r) = Some (char_uint <$> lit "hello").
Proof.
  apply (compressed_download (digest := toy_digest) (sort := sorting) Config_new _ fresh_reply hello_store [lit "hello"] hello_ref (lit "hello") ZOPFLI_FORMAT_GZIP).
  - exact hello_refines.
  - apply collision_free_one.
  - exact hello_uri.
  - split; reflexivity.
  - reflexivity.
  - reflexivity.
  - vm_compute. reflexivity.
  - split; vm_compute; discriminate.
  - vm_compute. reflexivity.
Defined.
