(* ===== verification/Service.v ===== *)
(** * The service

    The theorems about the whole of a server: its handlers and threads, with the
    compressor that it is linked with, [ZopfliLib.library]. An upload of parts under
    their digests, and the downloads of them; what a request, and what a step of a
    thread, may come to. *)

From S2P Require Import Prelude CppString StdMap Http RequestParser Reply Config Hash BlobKey Blob BlobIndex Calls.
From S2P Require Import Qi QueryString Multipart RequestHandler HttpStore Enumeration Connection Server.
From S2P Require Import CFloat ZopfliUtil Katajainen ZopfliEntropy ZopfliOptimal ZopfliParts ZopfliLib.

Local Open Scope Z_scope.

(** ** Parts under their digests *)

(** The [name] of the [Content-Disposition] of a part. *)
Definition part_name (p : form_part) : option bytes :=
  h ← List.find (fun h => bool_decide (to_lower_copy (fh_name h) = lit "content-disposition")) (fp_headers p);
  attributeValue (lit "name") (header_of h).

(** A part that the protocol accepts: its name is a digest of its payload. *)
Definition named_part {digest : Digest} (p : form_part) : Prop :=
  fp_payload p ≠ [] /\ exists ref, part_name p = Some ref /\ named_by ref (fp_payload p) = true.

Section service.
Context {digest : Digest} {platform : Platform} {qi : Qi} {static : StaticFiles}.
Context {sort : Qsort} {logarithm : Log} {uninitialised : Uninitialised}.
Context (c_ : Config).
Local Existing Instance library.

Lemma payloads_nonempty ps : Forall named_part ps -> payloads ps = fp_payload <$> ps.
Proof.
  unfold payloads. induction 1 as [|p ps [Hp _] _ IH]; [done|]. rewrite !fmap_cons, filter_cons_True by done. by rewrite IH.
Qed.

(** A reference of a content finds it. *)
Lemma abs_find_own ref c cs : collision_free cs -> c ∈ cs -> named_by ref c = true -> abs_find ref cs = Some c.
Proof.
  intros Hcf Hc Hn. apply find_named_by; [done..|]. intros c' Hc' (k' & Hk' & Hr')%named_by_iff. apply named_by_iff in Hn as (k & Hk & Hr).
  assert (k' = k) as ->.
  { pose proof (create_content_key k c Hk) as H1. rewrite Hr, <-Hr', (create_content_key k' c' Hk') in H1. by injection H1. }
  by eapply (collision_free_key cs).
Qed.


(** ** One request *)

(** A file of more than seven million bytes that is compressed for a request. *)
Definition large_download (req : request) (rep : reply.reply) (st : store) : Prop :=
  req_method req = lit "GET" /\ exists t path file,
    output_type (get_header_ci (req_headers req) (lit "Accept-Encoding")) = Some t /\ disk st !! path = Some file /\
    7000000 < Z.of_nat (length (reply.content rep ++ file)).

Lemma library_fails {A} t content (o : outcome A) : may_fail (call_compress t content) o -> 7000000 < Z.of_nat (length content).
Proof.
  intros H. destruct (Z.le_gt_cases (Z.of_nat (length content)) 7000000) as [Hle|]; [|lia].
  destruct (library_returns t content Hle) as [out_ E]. cbn [may_fail] in H. by rewrite E in H.
Qed.


(** ** One step of a thread *)

(** The end of the compression of a file of more than seven million bytes. *)
Definition large_compression (s : server) (ev : event) : Prop :=
  exists t path file, ends s ev (call_compress t file) /\ disk (index_ s) !! path = Some file /\ 7000000 < Z.of_nat (length file).

End service.

(** ** Examples *)

Section witnesses.
Let D : Digest := toy_digest.
Let P : Platform := working_platform.
Let Q : Qi := peg_qi.
Let F : StaticFiles := {| open_for_read _ := None |}.
Let ZF : Zopfli := library (sort := sorting).
Local Existing Instance D.
Local Existing Instance P.
Local Existing Instance Q.
Local Existing Instance F.
Local Existing Instance ZF.

Definition own_header : form_header :=
  FormHeader (lit "Content-Disposition") (lit " form-data", []) [(lit "name", hello_ref)].
Definition own_part : form_part := FormPart [own_header] (lit "hello").

Lemma own_part_ok : part_ok (lit "XX") own_part.
Proof.
  split; [|vm_compute; reflexivity|apply no_boundary_b_ok; vm_compute; reflexivity].
  apply Forall_singleton. split; [vm_compute; reflexivity| |vm_compute; reflexivity].
  repeat (apply Forall_cons; split; [split_and!; [discriminate|vm_compute; reflexivity..]|]).
  apply Forall_nil. done.
Qed.

Lemma own_part_named : named_part own_part.
Proof. split; [discriminate|]. exists hello_ref. split; vm_compute; reflexivity. Qed.


(** The handler does not look at the name of a part: one that is not a digest of the
    payload, which the protocol has the server reject, is stored too. *)
Example misnamed_part_stored :
  part_name hello_part = Some (lit "sha1-A") /\ named_by (lit "sha1-A") (fp_payload hello_part) = false /\
  match handle_request Config_new (sample_upload [hello_part]) fresh_reply st0 with
  | Ret (rep, st') => reply.status rep = reply.ok /\ read_ref hello_ref st' = Ret (Some (lit "hello"))
  | _ => False
  end.
Proof. vm_compute. repeat split. Qed.


Definition page_request : request := Request (lit "GET") (lit "/enumerate-blobs") 1 1 [] [] [].

(** A client asks for a page while the synchronisation adds a blob. *)
Definition racing : list event :=
  [accept_completes false sample_indet; read_completes 0 (Some (print_request page_request)); sync_begins (call_add_blob (Some hello_ref) (lit "hello"))].

End witnesses.
