(* ===== verification/ZopfliMain.v ===== *)
(** * Zopfli: the command line

    [zopfli_bin.cc]: the program that compresses the files it is given. The world is
    the files, what has been printed, and the static variables of the CRC.

    Proved here: each file named is compressed to a file beside it, or to the
    standard output, that decompresses to it, and no other file changes; and what
    becomes of a file that is missing, empty, not readable to its end, too large to
    load, or of one byte. *)

From S2P Require Import Prelude CppString Calls.
From S2P Require Import ZopfliUtil ZopfliBits ZopfliDeflate Katajainen Checksums ZopfliHash ZopfliGreedy ZopfliEntropy ZopfliOptimal ZopfliSplit ZopfliParts ZopfliLib.

Local Open Scope Z_scope.

(** ** The standard input and output *)

(** What [fread] gets from a file, and what [ftell] answers at its end: the number
    of bytes for a regular file. *)
Record file : Type := MkFile { contents : list Z; file_end : Z }.

Definition regular (data : list Z) : file := MkFile data (Z.of_nat (length data)).

Class Stdio : Type := {
  fopen_rb_ok : bytes -> bool;
  fopen_wb_ok : bytes -> bool;
  (* of a file and a number of bytes, how many are written *)
  fwrite_items : bytes -> nat -> nat;
  fwrite_items_le filename n : (fwrite_items filename n <= n)%nat;
  malloc_ok : Z -> bool;
}.

(** A machine with room for everything below a gigabyte. *)
Definition working_stdio : Stdio := {|
  fopen_rb_ok _ := true;
  fopen_wb_ok _ := true;
  fwrite_items _ n := n;
  fwrite_items_le _ n := le_n n;
  malloc_ok size := size <? 2 ^ 30
|}.

Inductive message : Type :=
| usage
| invalid_filename (infilename : bytes)
| saving_to (outfilename : bytes)
| please_provide_filename (program : bytes).

Record world : Type := MkWorld {
  files : gmap bytes file;
  stdout : list Z;
  stderr : list message;
  crc : crc_static
}.

Definition say (m : message) (w : world) : world := MkWorld (files w) (stdout w) (stderr w ++ [m]) (crc w).

(** ** Files *)

Section operations.
Context {sort : Qsort} {logarithm : Log} {uninitialised : Uninitialised} {stdio : Stdio}.

(** The buffer, or null, and its size. The assertion tests [out], the address of the
    caller's pointer, which is never null. *)
Definition LoadFile (filename : bytes) (w : world) : outcome (option (list Z) * Z) :=
  match files w !! filename with
  | Some file =>
      if fopen_rb_ok filename then
        let outsize := u64 (file_end file) in
        let out := if malloc_ok outsize then Some (take (Z.to_nat outsize) (contents file)) else None in
        let '(out, outsize) :=
          match out with
          | Some buffer =>
              if negb (outsize =? 0) && negb (Z.of_nat (length buffer) =? outsize) then (None, 0) else (out, outsize)
          | None => (out, outsize)
          end in
        _ ← assertion ((outsize =? 0) || true);
        Ret (out, outsize)
      else Ret (None, 0)
  | None => Ret (None, 0)
  end.

(** What [fwrite] answers is not looked at. *)
Definition SaveFile (filename : bytes) (in_ : list Z) (insize : Z) (w : world) : outcome world :=
  _ ← assertion (fopen_wb_ok filename);
  Ret (MkWorld (<[filename := regular (take (fwrite_items filename (Z.to_nat insize)) in_)]> (files w)) (stdout w) (stderr w) (crc w)).

(** A null [outfilename] is for the standard output. To compress from a null buffer
    is to read from it. *)
Definition CompressFile (options : ZopfliOptions) (output_type : ZopfliFormat) (infilename : bytes) (outfilename : option bytes) (w : world) : outcome world :=
  '(in_, insize) ← LoadFile infilename w;
  if insize =? 0 then Ret (say (invalid_filename infilename) w)
  else
    in_ ← or_undefined in_;
    '(out_, st) ← ZopfliLib.ZopfliCompress options output_type in_ insize [] (crc w);
    let w := MkWorld (files w) (stdout w) (stderr w) st in
    match outfilename with
    | Some outfilename => SaveFile outfilename out_ (Z.of_nat (length out_)) w
    | None => Ret (MkWorld (files w) (stdout w ++ out_) (stderr w) (crc w))
    end.

(** None when the allocation fails, which exits. *)
Definition AddStrings (str1 str2 : bytes) : option bytes :=
  let len := Z.of_nat (length str1 + length str2) in
  if malloc_ok (len + 1) then Some (str1 ++ str2) else None.

Definition StringsEqual (str1 str2 : bytes) : bool := bool_decide (str1 = str2).

(** ** The program *)

Record settings : Type := MkSettings {
  options : ZopfliOptions;
  output_type : ZopfliFormat;
  output_to_stdout : bool
}.

Definition default_settings : settings := MkSettings ZopfliInitOptions ZOPFLI_FORMAT_GZIP false.

Definition set_verbose (s : settings) : settings :=
  let o := options s in
  MkSettings (MkOptions true (numiterations o) (blocksplitting o) (blocksplittinglast o) (blocksplittingmax o)) (output_type s) (output_to_stdout s).
Definition set_numiterations (n : Z) (s : settings) : settings :=
  let o := options s in
  MkSettings (MkOptions (verbose o) n (blocksplitting o) (blocksplittinglast o) (blocksplittingmax o)) (output_type s) (output_to_stdout s).
Definition set_output_type (t : ZopfliFormat) (s : settings) : settings := MkSettings (options s) t (output_to_stdout s).
Definition set_output_to_stdout (s : settings) : settings := MkSettings (options s) (output_type s) true.

(** The first loop over the arguments; [-h] ends the program. What is no option is
    passed over. *)
Fixpoint parse_options (args : list bytes) (s : settings) : option settings :=
  match args with
  | [] => Some s
  | arg :: args' =>
      if StringsEqual arg (lit "-v") then parse_options args' (set_verbose s)
      else if StringsEqual arg (lit "-c") then parse_options args' (set_output_to_stdout s)
      else if StringsEqual arg (lit "--deflate") then parse_options args' (set_output_type ZOPFLI_FORMAT_DEFLATE s)
      else if StringsEqual arg (lit "--zlib") then parse_options args' (set_output_type ZOPFLI_FORMAT_ZLIB s)
      else if StringsEqual arg (lit "--gzip") then parse_options args' (set_output_type ZOPFLI_FORMAT_GZIP s)
      else if StringsEqual arg (lit "--i5") then parse_options args' (set_numiterations 5 s)
      else if StringsEqual arg (lit "--i10") then parse_options args' (set_numiterations 10 s)
      else if StringsEqual arg (lit "--i15") then parse_options args' (set_numiterations 15 s)
      else if StringsEqual arg (lit "--i25") then parse_options args' (set_numiterations 25 s)
      else if StringsEqual arg (lit "--i50") then parse_options args' (set_numiterations 50 s)
      else if StringsEqual arg (lit "--i100") then parse_options args' (set_numiterations 100 s)
      else if StringsEqual arg (lit "--i250") then parse_options args' (set_numiterations 250 s)
      else if StringsEqual arg (lit "--i500") then parse_options args' (set_numiterations 500 s)
      else if StringsEqual arg (lit "--i1000") then parse_options args' (set_numiterations 1000 s)
      else if StringsEqual arg (lit "-h") then None
      else parse_options args' s
  end.

Definition extension (t : ZopfliFormat) : bytes :=
  match t with
  | ZOPFLI_FORMAT_GZIP => lit ".gz"
  | ZOPFLI_FORMAT_ZLIB => lit ".zlib"
  | ZOPFLI_FORMAT_DEFLATE => lit ".deflate"
  end.

(** [argv[i][0] != '-'], where the first [char] of an empty string is a NUL. *)
Definition is_filename (arg : bytes) : bool :=
  match arg with c :: _ => negb (c =? "-")%char | [] => true end.

(** The second loop: the last file name, unless the program exits. *)
Fixpoint compress_files (s : settings) (args : list bytes) (filename : option bytes) (w : world) : outcome (option (option bytes) * world) :=
  match args with
  | [] => Ret (Some filename, w)
  | arg :: args' =>
      if is_filename arg then
        match (if output_to_stdout s then Some None else Some <$> AddStrings arg (extension (output_type s))) with
        | None => Ret (None, w)
        | Some outfilename =>
            let w := match outfilename with
                     | Some o => if verbose (options s) then say (saving_to o) w else w
                     | None => w
                     end in
            w ← CompressFile (options s) (output_type s) arg outfilename w;
            compress_files s args' (Some arg) w
        end
      else compress_files s args' filename w
  end.

(** The status and the world that the program leaves; [argv[0]] and the others. *)
Definition main (program : bytes) (args : list bytes) (w : world) : outcome (Z * world) :=
  match parse_options args default_settings with
  | None => Ret (0, say usage w)
  | Some s =>
      '(filename, w) ← compress_files s args None w;
      match filename with
      | None => Ret (-1, w)
      | Some None => Ret (0, say (please_provide_filename program) w)
      | Some (Some _) => Ret (0, w)
      end
  end.
End operations.

Definition world0 (fs : gmap bytes file) : world := MkWorld fs [] [] crc_initially.

Example main_messages :
  main (sort := sorting) (stdio := working_stdio) (lit "zopfli") [lit "-c"; lit "-h"; lit "a"] (world0 ∅) = Ret (0, MkWorld ∅ [] [usage] crc_initially) /\
  main (sort := sorting) (stdio := working_stdio) (lit "zopfli") [lit "--zlib"; lit "-"] (world0 ∅) =
    Ret (0, MkWorld ∅ [] [please_provide_filename (lit "zopfli")] crc_initially) /\
  main (sort := sorting) (stdio := working_stdio) (lit "zopfli") [lit "a"; lit "-v"] (world0 ∅) =
    Ret (0, MkWorld ∅ [] [saving_to (lit "a.gz"); invalid_filename (lit "a")] crc_initially).
Proof. by vm_compute. Qed.

(** ** Options *)

(** Options that are reached from the command line. *)
Definition plausible (s : settings) : Prop :=
  1 <= numiterations (options s) /\ blocksplitting (options s) = true /\ blocksplittinglast (options s) = false.

Lemma parse_options_plausible args : forall s s', plausible s -> parse_options args s = Some s' -> plausible s'.
Proof.
  induction args as [|arg args IH]; intros s s' Hs H; [by injection H as <-|]. destruct Hs as (Hn & Hf & Hl). cbn [parse_options] in H.
  repeat (case_match; [try done; (eapply IH; [|exact H]); by repeat split|]). by apply (IH s).
Qed.

Lemma default_plausible : plausible default_settings.
Proof. by repeat split. Qed.

Definition filenames (args : list bytes) : list bytes := filter (fun a => is_filename a = true) args.

Lemma filenames_cons arg args : filenames (arg :: args) = if is_filename arg then arg :: filenames args else filenames args.
Proof. unfold filenames. rewrite filter_cons. by destruct (is_filename arg). Qed.

(** ** Compressing a file *)

(** Data that a run of the compressor is known to take. *)
Definition compressible (data : list Z) : Prop := Forall is_byte data /\ 2 <= Z.of_nat (length data) <= max_part.

(** The library calls succeed, with memory for the data. *)
Definition stdio_works {stdio : Stdio} : Prop :=
  (forall f, fopen_rb_ok f = true) /\ (forall f, fopen_wb_ok f = true) /\ (forall f n, fwrite_items f n = n) /\ (forall n, 0 <= n <= max_part -> malloc_ok n = true).

Lemma working_stdio_works : stdio_works (stdio := working_stdio).
Proof. split_and!; try done. unfold max_part. cbn [malloc_ok working_stdio]. intros n Hn. apply Z.ltb_lt. lia. Qed.

(** Below what the system takes for a path. *)
Definition name_fits (f : bytes) : Prop := Z.of_nat (length f) <= 4096.

Lemma extension_length t : (length (extension t) <= 8)%nat.
Proof. destruct t; vm_compute; lia. Qed.

Section compress.
Context {sort : Qsort} {logarithm : Log} {uninitialised : Uninitialised} {stdio : Stdio}.

Lemma load_regular filename data w : files w !! filename = Some (regular data) -> fopen_rb_ok filename = true ->
  Z.of_nat (length data) < 2 ^ 64 -> malloc_ok (Z.of_nat (length data)) = true -> LoadFile filename w = Ret (Some data, Z.of_nat (length data)).
Proof.
  intros Hf Hrb Hl Hm. unfold LoadFile. rewrite Hf, Hrb. cbn [regular file_end contents]. rewrite u64_small, Hm by lia.
  rewrite Nat2Z.id, firstn_all, Z.eqb_refl. cbv zeta. cbn [negb]. rewrite andb_false_r. by destruct (Z.of_nat (length data) =? 0).
Qed.

(** What compressing one file changes. *)
Lemma CompressFile_spec opts t infilename outfilename data w : stdio_works -> 1 <= numiterations opts -> crc_ok (crc w) ->
  files w !! infilename = Some (regular data) -> compressible data ->
  exists out_ st, crc_ok st /\ decompress t out_ = Some data /\
    CompressFile opts t infilename outfilename w =
      Ret match outfilename with
          | Some o => MkWorld (<[o := regular out_]> (files w)) (stdout w) (stderr w) st
          | None => MkWorld (files w) (stdout w ++ out_) (stderr w) st
          end.
Proof.
  intros (Hrb & Hwb & Hw & Hm) Hn Hc Hf [Hb Hl]. unfold CompressFile. rewrite (load_regular _ data), outcome_bind_ret by (done || (apply Hm; lia) || (unfold max_part in Hl; lia)).
  destruct (Z.eqb_spec (Z.of_nat (length data)) 0) as [?|_]; [lia|]. cbn [or_undefined]. rewrite outcome_bind_ret.
  destruct (compress_read opts data (Z.of_nat (length data)) Hb ltac:(unfold max_part in Hl; lia) ltac:(lia) ltac:(lia) Hn t (crc w) Hc) as (out_ & st & E & Hst & _ & Hd).
  rewrite E, outcome_bind_ret. rewrite Nat2Z.id, firstn_all in Hd. exists out_, st. split; [done|]. split; [done|].
  destruct outfilename as [o|]; [|done]. unfold SaveFile. rewrite Hwb. cbn [assertion]. rewrite outcome_bind_ret.
  cbn [files stdout stderr crc]. by rewrite Hw, Nat2Z.id, firstn_all.
Qed.

(** One turn of the second loop. *)
Lemma compress_files_step s arg args filename data w : stdio_works -> plausible s -> crc_ok (crc w) ->
  is_filename arg = true -> name_fits arg -> files w !! arg = Some (regular data) -> compressible data ->
  exists out_ w1, compress_files s (arg :: args) filename w = compress_files s args (Some arg) w1 /\ crc_ok (crc w1) /\
    decompress (output_type s) out_ = Some data /\
    files w1 = (if output_to_stdout s then files w else <[arg ++ extension (output_type s) := regular out_]> (files w)) /\
    stdout w1 = (if output_to_stdout s then stdout w ++ out_ else stdout w).
Proof.
  intros Hio (Hn & _) Hc Ha Hl Hf Hdata. cbn [compress_files]. rewrite Ha. destruct (output_to_stdout s).
  - destruct (CompressFile_spec (options s) (output_type s) arg None data w Hio Hn Hc Hf Hdata) as (out_ & st & Hst & Hd & ->).
    rewrite outcome_bind_ret. by eexists out_, _.
  - unfold AddStrings. destruct Hio as (? & ? & ? & Hm). rewrite Hm by (pose proof (extension_length (output_type s)); unfold name_fits, max_part in *; lia). cbn [fmap option_fmap option_map].
    set (o := arg ++ extension (output_type s)). set (w1 := if verbose (options s) then say (saving_to o) w else w).
    assert (files w1 = files w /\ stdout w1 = stdout w /\ crc w1 = crc w) as (E1 & E2 & E3) by (unfold w1; by destruct (verbose (options s))).
    rewrite <-E1 in Hf. rewrite <-E3 in Hc. destruct (CompressFile_spec (options s) (output_type s) arg (Some o) data w1 ltac:(done) Hn Hc Hf Hdata) as (out_ & st & Hst & Hd & ->).
    rewrite outcome_bind_ret. eexists out_, _. split; [done|]. cbn [files stdout crc]. by rewrite E1, E2.
Qed.

(** The files that a command line names, read from [w]. *)
Definition inputs_ok (names : list bytes) (w : world) : Prop :=
  forall f, f ∈ names -> name_fits f /\ exists data, files w !! f = Some (regular data) /\ compressible data.

(** What the program has done: on the standard output, the compressed files in
    order; otherwise one new file for each, and no other change. *)
Definition compressed (s : settings) (names : list bytes) (w w' : world) : Prop :=
  let decompresses f out_ := exists data, files w !! f = Some (regular data) /\ decompress (output_type s) out_ = Some data in
  let o f := f ++ extension (output_type s) in
  if output_to_stdout s then
    files w' = files w /\ exists outs, stdout w' = stdout w ++ concat outs /\ Forall2 decompresses names outs
  else
    stdout w' = stdout w /\ (forall f, f ∈ names -> exists out_, files w' !! o f = Some (regular out_) /\ decompresses f out_) /\
    (forall g, (forall f, f ∈ names -> o f ≠ g) -> files w' !! g = files w !! g).

Definition outputs_apart (s : settings) (names : list bytes) : Prop :=
  output_to_stdout s = false -> forall f g, f ∈ names -> g ∈ names -> f ++ extension (output_type s) ≠ g.

Lemma compress_files_spec s args : forall filename w, stdio_works -> plausible s -> crc_ok (crc w) ->
  inputs_ok (filenames args) w -> outputs_apart s (filenames args) ->
  exists filename' w', compress_files s args filename w = Ret (Some filename', w') /\ compressed s (filenames args) w w' /\
    (filenames args ≠ [] \/ is_Some filename -> is_Some filename').
Proof.
  induction args as [|arg args IH]; intros filename w Hio Hs Hc Hin Hap.
  { exists filename, w. split; [done|]. split; [|intros [?|?]; done]. unfold compressed. destruct (output_to_stdout s).
    - split; [done|]. exists []. by rewrite app_nil_r.
    - split_and!; try done. by intros f ?%not_elem_of_nil. }
  rewrite filenames_cons in Hin, Hap |- *. destruct (is_filename arg) eqn:Ha; [|cbn [compress_files]; rewrite Ha; by apply IH].
  destruct (Hin arg ltac:(left)) as (Hl & data & Hf & Hdata).
  destruct (compress_files_step s arg args filename data w Hio Hs Hc Ha Hl Hf Hdata) as (out_ & w1 & -> & Hc1 & Hd & Hfiles & Hout).
  assert (forall f, f ∈ arg :: filenames args -> files w1 !! f = files w !! f) as Hsame.
  { intros f Hf'. rewrite Hfiles. destruct (output_to_stdout s) eqn:Eo; [done|]. apply lookup_insert_ne. apply Hap; [done|left|done]. }
  destruct (IH (Some arg) w1 Hio Hs Hc1) as (filename' & w' & -> & Hw' & Hfn).
  { intros f Hf'. destruct (Hin f ltac:(by right)) as [? H]. split; [done|]. rewrite Hsame by (by right). exact H. }
  { intros Eo f g Hf' Hg. apply Hap; [done|by right|by right]. }
  exists filename', w'. split; [done|]. split; [|intros _; by apply Hfn; right]. clear IH Hfn. unfold compressed in *. destruct (output_to_stdout s).
  - destruct Hw' as (E & outs & Eo & H2). rewrite E, Hfiles. split; [done|]. exists (out_ :: outs). rewrite Eo, Hout. cbn [concat]. rewrite app_assoc. split; [done|].
    constructor; [by exists data|]. rewrite <-Hfiles. exact H2.
  - destruct Hw' as (E & H1 & H2). split; [by rewrite E|]. split.
    + intros f Hf'. destruct (decide (f ∈ filenames args)) as [Hf2|Hf2].
      * destruct (H1 f Hf2) as (out' & E' & data' & Ed & Hd'). exists out'. split; [done|]. exists data'. by rewrite <-Hsame by (by right).
      * apply elem_of_cons in Hf' as [->|?]; [|done]. exists out_. split; [|by exists data]. destruct (decide (arg ++ extension (output_type s) ∈ (fun f => f ++ extension (output_type s)) <$> filenames args)) as [Hi|Hi].
        -- apply list_elem_of_fmap in Hi as (g & Eg & Hg). apply app_inv_tail in Eg as ->. done.
        -- rewrite H2; [by rewrite Hfiles, lookup_insert_eq|]. intros g Hg Eg. apply Hi, list_elem_of_fmap. by exists g.
    + intros g Hg. rewrite H2 by (intros f Hf'; apply Hg; by right). rewrite Hfiles. apply lookup_insert_ne. apply Hg. left.
Qed.
End compress.

(** ** Files that are not compressed *)

Section refused.
Context {sort : Qsort} {logarithm : Log} {uninitialised : Uninitialised} {stdio : Stdio}.

(** What [LoadFile] gives no data for, and its caller reports. *)
Definition not_loaded (filename : bytes) (w : world) : bool :=
  match files w !! filename with
  | Some file =>
      let size := u64 (file_end file) in
      negb (fopen_rb_ok filename) || (size =? 0) || malloc_ok size && (Z.of_nat (length (contents file)) <? size)
  | None => true
  end.

Lemma load_invalid filename w : not_loaded filename w = true -> exists out, LoadFile filename w = Ret (out, 0).
Proof.
  intros H. unfold not_loaded in H. unfold LoadFile. destruct (files w !! filename) as [file|]; [|by eexists]. destruct (fopen_rb_ok filename); [|by eexists].
  cbv zeta. cbn [negb orb] in H. destruct (Z.eqb_spec (u64 (file_end file)) 0) as [->|Hz]; [destruct (malloc_ok 0); by eexists|]. cbn [orb negb andb] in *.
  apply andb_prop in H as [-> Hl%Z.ltb_lt]. rewrite length_take.
  destruct (Z.eqb_spec (Z.of_nat (Nat.min (Z.to_nat (u64 (file_end file))) (length (contents file)))) (u64 (file_end file))) as [?|_]; [lia|]. by eexists.
Qed.

Lemma deflate_one_byte opts b o : blocksplitting opts = true -> blocksplittinglast opts = false -> ZopfliDeflate opts 2 true [b] 1 o = Undefined.
Proof.
  intros Hf Hl. unfold ZopfliDeflate. change (Z.to_nat 1) with 1%nat. cbn [master_loop]. change (0 <? 1) with true. cbv iota. unfold ZopfliDeflatePart.
  rewrite Hf, Hl. unfold DeflateSplittingFirst, ZopfliBlockSplit, ZopfliLZ77Greedy. change (ZopfliWarmupHash [b] (windowstart 0) (ZopfliInitHash ZOPFLI_WINDOW_SIZE)) with (@Undefined ZopfliHash).
  exact eq_refl.
Qed.

Lemma compress_one_byte opts t b st : blocksplitting opts = true -> blocksplittinglast opts = false -> crc_ok st -> is_byte b ->
  ZopfliLib.ZopfliCompress opts t [b] 1 [] st = Undefined.
Proof.
  intros Hf Hl Hst Hb. destruct t; cbn [ZopfliLib.ZopfliCompress].
  - unfold ZopfliGzipCompress. rewrite CRC_spec by (done || (cbn; lia) || by constructor). rewrite outcome_bind_ret. cbv zeta. by rewrite deflate_one_byte.
  - unfold ZopfliZlibCompress. cbv zeta. by rewrite deflate_one_byte.
  - by rewrite deflate_one_byte.
Qed.
End refused.

(** ** Properties *)

(** C6. The program compresses what it is told to. When each file that the command
    line names holds two bytes to seven million and no output is one of the inputs,
    then, wherever the options stand among the names, the program ends with status
    0; each output file, or the standard output piece by piece, decompresses to the
    file it is named after; and every other file stays as it was. The calls of
    stdio succeed, and no option is [-h]. *)
Theorem zopfli_compresses_files {sort : Qsort} {logarithm : Log} {uninitialised : Uninitialised} {stdio : Stdio} program args s w
    (Hio : stdio_works) (Hc : crc_ok (crc w)) (Hs : parse_options args default_settings = Some s)
    (Hsome : filenames args ≠ []) (Hin : inputs_ok (filenames args) w) (Hapart : outputs_apart s (filenames args)) :
  exists w', main program args w = Ret (0, w') /\ compressed s (filenames args) w w'.
Proof.
  pose proof (parse_options_plausible args _ _ default_plausible Hs) as Hp.
  destruct (compress_files_spec s args None w Hio Hp Hc Hin Hapart) as (filename & w' & E & Hw & Hfn).
  destruct (Hfn (or_introl Hsome)) as [f ->]. exists w'. split; [|done]. unfold main. by rewrite Hs, E, outcome_bind_ret.
Qed.

Definition two_files : world := world0 (<[lit "a" := regular [1; 2; 3]]> (<[lit "b" := regular [7; 7]]> ∅)).

Lemma zopfli_compresses_files_witness :
  exists w', main (sort := sorting) (stdio := working_stdio) (lit "zopfli") [lit "a"; lit "--i5"; lit "b"; lit "--zlib"] two_files = Ret (0, w') /\
    compressed (set_output_type ZOPFLI_FORMAT_ZLIB (set_numiterations 5 default_settings)) [lit "a"; lit "b"] two_files w'.
Proof.
  apply (zopfli_compresses_files (sort := sorting) (stdio := working_stdio) (lit "zopfli") [lit "a"; lit "--i5"; lit "b"; lit "--zlib"]
    (set_output_type ZOPFLI_FORMAT_ZLIB (set_numiterations 5 default_settings)) two_files).
  - exact working_stdio_works.
  - intros E. discriminate E.
  - reflexivity.
  - discriminate.
  - intros f Hf. assert (f = lit "a" \/ f = lit "b") as [-> | ->] by (by apply elem_of_cons in Hf as [->|Hf]; [left|apply list_elem_of_singleton in Hf; right]).
    + split; [vm_compute; discriminate|]. exists [1; 2; 3]. split; [reflexivity|]. split; [repeat constructor; vm_compute; discriminate|vm_compute; split; discriminate].
    + split; [vm_compute; discriminate|]. exists [7; 7]. split; [reflexivity|]. split; [repeat constructor; vm_compute; discriminate|vm_compute; split; discriminate].
  - intros _ f g Hf Hg E. apply (f_equal length) in E. rewrite length_app in E. cbn [output_type set_output_type set_numiterations] in E.
    assert (length f = 1%nat) by (by apply elem_of_cons in Hf as [->|Hf]; [|apply list_elem_of_singleton in Hf as ->]).
    assert (length g = 1%nat) by (by apply elem_of_cons in Hg as [->|Hg]; [|apply list_elem_of_singleton in Hg as ->]).
    change (length (extension ZOPFLI_FORMAT_ZLIB)) with 5%nat in E. lia.
Defined.

(** C38. Files that it does not compress. A file that is missing, not readable, empty
    or shorter than its end is reported and nothing is written. But a size that
    memory cannot hold, which is what [ftell] answers for a directory, leaves a null
    buffer that is read, as the assertion tests another pointer; and of a file of
    one byte, the byte after it is read. *)
Theorem refused_files {sort : Qsort} {logarithm : Log} {uninitialised : Uninitialised} {stdio : Stdio} opts t infilename outfilename w :
  (not_loaded infilename w = true -> CompressFile opts t infilename outfilename w = Ret (say (invalid_filename infilename) w)) /\
  (forall file, files w !! infilename = Some file -> fopen_rb_ok infilename = true -> u64 (file_end file) ≠ 0 -> malloc_ok (u64 (file_end file)) = false ->
    CompressFile opts t infilename outfilename w = Undefined) /\
  (forall b, files w !! infilename = Some (regular [b]) -> fopen_rb_ok infilename = true -> malloc_ok 1 = true -> is_byte b -> crc_ok (crc w) ->
    blocksplitting opts = true -> blocksplittinglast opts = false -> CompressFile opts t infilename outfilename w = Undefined).
Proof.
  split_and!.
  - intros H. unfold CompressFile. by destruct (load_invalid infilename w H) as [out ->].
  - intros file Ef Hrb Hz Em. unfold CompressFile, LoadFile. rewrite Ef, Hrb. cbv zeta. rewrite Em, orb_true_r. cbn [assertion]. rewrite !outcome_bind_ret.
    apply Z.eqb_neq in Hz. by rewrite Hz.
  - intros b Ef Hrb Em Hb Hc Hf Hlast. unfold CompressFile. rewrite (load_regular infilename [b] w Ef Hrb ltac:(cbn; lia) Em). cbn [length Z.of_nat].
    rewrite outcome_bind_ret. change (1 =? 0) with false. cbn [or_undefined]. rewrite outcome_bind_ret. by rewrite compress_one_byte.
Qed.

(** A directory, as it is opened on Linux, an empty file and a file of one byte. *)
Definition odd_files : world := world0 (<[lit "d" := MkFile [] (2 ^ 63 - 1)]> (<[lit "e" := regular []]> (<[lit "s" := regular [83]]> ∅))).

Lemma refused_files_witness :
  let compress f := CompressFile (sort := sorting) (stdio := working_stdio) ZopfliInitOptions ZOPFLI_FORMAT_GZIP (lit f) None odd_files in
  compress "e" = Ret (say (invalid_filename (lit "e")) odd_files) /\ compress "d" = Undefined /\ compress "s" = Undefined.
Proof.
  split_and!.
  - apply (refused_files (sort := sorting) (stdio := working_stdio) ZopfliInitOptions ZOPFLI_FORMAT_GZIP (lit "e") None odd_files). reflexivity.
  - apply (proj1 (proj2 (refused_files (sort := sorting) (stdio := working_stdio) ZopfliInitOptions ZOPFLI_FORMAT_GZIP (lit "d") None odd_files)) (MkFile [] (2 ^ 63 - 1)));
      try reflexivity. vm_compute. discriminate.
  - apply (proj2 (proj2 (refused_files (sort := sorting) (stdio := working_stdio) ZopfliInitOptions ZOPFLI_FORMAT_GZIP (lit "s") None odd_files)) 83); try reflexivity.
    + unfold is_byte. lia.
    + intros E. discriminate E.
Defined.
